(* ===== verification/_CoqProject ===== *)
-Q . S2P
Prelude.v
Irq.v
CanBus.v
CanDev.v
Timer.v
UartDev.v
UartSpec.v
Clock.v
Ptimer.v
Wiring.v
NvicState.v
NvicCore.v
NvicRead.v
NvicWrite.v
SysTick.v
SysTickSpec.v
SysTickBoard.v
NvicPrio.v
NvicInv.v
CortexM.v
NvicSpec.v
NvicIrq.v
NvicRegs.v
NvicLevel.v
NvicBoard.v
Mpu.v
MpuSpec.v
CpuRegs.v
CpuRegsSpec.v
PendSpec.v
Exception.v
CpuLdst.v
ExceptionExit.v
StackSpec.v
EntrySpec.v
EntryTotal.v
DataAccess.v
Secure.v
SecureSpec.v
ReturnSpec.v
Memory.v
Mcu.v
Machine.v
CpuBoard.v
CpuExample.v
Startup.v
Guest.v
CanDriver.v
UartDriver.v
Quiet.v
DemoApp.v
