(* ===== verification/Prelude.v ===== *)
(** * Verification of the S32K3X8EVB emulation

    The repository is a fork of QEMU that emulates NXP's S32K3X8EVB board, and
    a FreeRTOS demo for it.  Paths below are relative to src/; qemu/ is left
    out for files of the emulator.

    ** The program

    - hw/arm/nxp_s32k3_board.c creates the board: the system clock and the
      microcontroller of hw/arm/nxp_s32k3.c, which has three Cortex-M7 CPUs with
      their memories, a UART and two CAN controllers on one CAN bus.
    - hw/arm/armv7m.c puts an interrupt controller (hw/intc/armv7m_nvic.c) and a
      SysTick timer (hw/timer/armv7m_systick.c) around each CPU.
    - target/arm/tcg/m_helper.c takes the exceptions the controller offers and
      returns from them, with the stack, the special registers (MRS, MSR) and the
      checks of the memory protection unit in target/arm/ptw.c; loads and stores
      go through accel/tcg/cputlb.c, and one that fails becomes an exception in
      target/arm/tcg/tlb_helper.c.
    - hw/char/uart.c is the UART: two shift registers driven by virtual timers
      (util/qemu-timer.c); hw/net/can/can.c is the CAN controller, a client of
      the bus of net/can/can_core.c.
    - The guest reaches all of them by address (system/memory.c); the devices
      reach the interrupt controller by lines (hw/core/irq.c).
    - Demo/startup.c has the vector table and the fault handlers of the guest,
      Demo/uart.c and Demo/can.c are its drivers, Demo/main.c its four tasks.

    ** The files

    Each C function is a Rocq function of the same name on the state it changes;
    an assertion, abort or division by zero is the outcome [Abort].  Integers are
    [Z] with their wrap-around written out.

    - [Prelude]: record updates, machine integers, outcomes, C arrays, loops.
    - [Irq]: a line is the log of the calls made on it; [None] is not connected.
    - [CanBus], [CanDev]: the bus, its clients and length codes; the controller
      ([CanState], [can_write], [can_read], [can_receive], ...).  What the bus
      asks of a client is the class [CanBusClient].
    - [Timer]: queues of virtual timers.  [UartDev], [UartSpec]: the UART, and
      the two queues it implements.
    - [Clock], [Ptimer], [SysTick]: the clock tree, the periodic timer (generic
      in the device it calls back) and SysTick.  [SysTickSpec]: its invariant,
      counter and ticks.  [SysTickBoard]: the board's clocks and the timer on
      them.
    - [NvicState], [NvicCore], [NvicRead], [NvicWrite]: the interrupt controller,
      its prioritization and every register.  [NvicPrio], [NvicInv], [NvicSpec],
      [NvicIrq], [NvicRegs], [NvicLevel]: its theorems; [CortexM]: the CPU state
      it uses; [NvicBoard]: the board's instance.
    - [Mpu], [MpuSpec]: the lookup of ptw.c for M-profile CPUs (v7M and v8M), and
      the architecture's rule it implements.
    - [CpuRegs], [CpuRegsSpec]: the rest of the CPU state ([CPUARMState]), xPSR,
      CONTROL, the banked stack pointers, MRS and MSR, FPSCR.
    - [CpuLdst]: word loads and stores of the CPU, with the alignment they
      require, their pages and their pieces.
    - [Exception], [ExceptionExit]: m_helper.c, from the stacking of a frame to
      the dispatch of every exception.  What they need of the memory is the class
      [AddressSpace]; what the theorems need is [WordMemory] of [StackSpec].
      [PendSpec]: which vectors pending an exception changes.  [EntrySpec],
      [EntryTotal], [ReturnSpec]: entry, its faults, return.
    - [DataAccess]: the faults of loads and stores, and what those that succeed do.
    - [Secure], [SecureSpec]: the instructions of the Security extension.
    - [Memory], [Mcu]: memory regions and their flattening; the regions of the
      three CPUs.
    - [Wiring], [Machine]: CPU 0 with its peripherals and SysTick.  A device's
      operation is followed by the calls it made on its line ([set_uart],
      [set_cans], [set_tick]); [io_read] and [io_write] are the guest's accesses,
      [advance] (time, with the timers of both devices in the order of their
      deadlines) and [serial_input] the outside world.
    - [CpuBoard]: the address space of CPU 0 as an instance of [AddressSpace] and
      [WordMemory]: the bytes of the memories, and the devices of [Machine].
      [CpuExample]: the CPU on concrete inputs.
    - [Startup]: the demo's vector table, the CPU reset and the fault handlers.
    - [Guest], [CanDriver], [UartDriver], [DemoApp]: guest programs as sequences
      of loads and stores, the drivers, and the tasks under any scheduler.
      [Quiet]: runs in which no device raises its interrupt.

    ** What is shown

    - Interrupts: the cached pending exception is the one the architecture
      selects in every reachable state; taking, completing and masking; no
      asserted line is left unserved, in the controller and on the whole board;
      the tick of SysTick becomes a pending exception.
    - Exceptions: the frame, registers and modes after entry and after return;
      the interrupted code continues as if nothing had happened; every fault met
      on the way in ends in a handler or in the architectural lockup.
    - Protection: the MPU decides as the architecture says, a decision kept for a
      page is right for the page, unprivileged code cannot change the special
      registers; a load or store, aligned or not, accesses exactly its bytes, and
      one that fails reports exactly its fault.
    - Security extension: a call to Non-secure code comes back to its caller with
      its state; TT tells what Non-secure code may access; VLSTM and VLLDM save
      and restore the floating-point registers.
    - Totality: no guest access to the controller or the board can fail, apart
      from exactly the UART divisors that divide by zero and the SysTick write
      that changes its clock and stops it at once, which can.
    - UART: it implements two queues; polled output is a FIFO and drains; input
      arrives after a character time.
    - CAN: what a receiver gets, and in every reachable state that the line is
      high for a frame that waits with its interrupt enabled and never without a
      documented reason; the bus delivers to everybody else once.
    - Memory: the flattened view answers as the tree of regions does, and the
      CPUs see the board's address map.
    - SysTick: the counter is exact, ticks do not drift, with the rate limit of
      the periodic timer; a clock change reaches every clock below, and the
      callbacks that ask for it.
    - Demo: the drivers deliver a frame and print a string within stated bounds;
      the tasks take turns and forward the characters, whatever the schedule, as
      long as nothing arrives on the serial line; the reset starts Reset_Handler,
      no store changes the vector table, every exception of the table reaches its
      function, and the fault handlers find the registers of the faulting code.
    - Deviations of the code from what it means to do are theorems too: the
      interrupts of TIE and DOIE, identifiers, remote frames, the reset of the
      UART, the divisions by zero a guest can cause, disabled subregions smaller
      than a page, and a stack pointer inside the interrupt controller.

    ** Bounds and fuel

    - Times are below [2 ^ 62] ns (146 years), so that deadlines do not overflow.
    - Running the timers ([timerlist_run_timers]) and rendering regions take
      fuel; the UART's run and that of the board ([run_timers]) are proved to end
      with the fuel they are given, and five levels are enough for the board's
      regions ([mcu_address_map]).  A word has at most four pieces to a page.
    - A commit of a ptimer ends after one round ([systick_operations_total]).
      Clock propagation takes the height of the tree.
    - A failed vector fetch takes another exception ([v7m_exception_taken]); the
      fuel of four is enough, because the second failure in a row is a lockup
      ([exception_entry_total]).
    - A guest program runs along a script with one entry per access; theorems
      that it completes say how many entries are enough.

    ** What is not modelled

    - Instruction execution: the binary translator (target/arm/tcg/translate.c,
      tcg/, accel/) is a general emulator core; what the code between two
      exceptions does is a hypothesis of the theorems about it.
    - The translation lookaside buffer: every access looks up.  Byte, halfword
      and doubleword instructions, watchpoints, and the A- and R-profile branches
      of target/arm.  Whether the semihosting call succeeds is a parameter.
    - The order of timers of different devices with the same deadline: the UART's
      run first in [advance]; the reachable states of [Machine] have every order.
    - CPUs 1 and 2 are powered off and have only their address map.
    - FreeRTOS is an empty submodule: its semaphores are the class
      [BinarySemaphore] of their documented behaviour.  Its context switch, which
      runs in exception handlers of its own, cannot be read, so the demo's
      interrupt handlers are programs of their own, not interleaved with the
      tasks; the theorem on what the demo sends shows that in its runs no device
      raises its interrupt.  The addresses of the demo's functions are the linker's choice, the
      parameter [Symbols].
    - The character backend is the list of calls made to it; host CAN, the kernel
      loader, object plumbing, tracing, migration and the rest of QEMU (other
      machines and devices) are left out: the board does not use them. *)

From Stdlib Require Export ZArith Lia Bool.
From stdpp Require Export base tactics numbers list option strings.

#[global] Open Scope Z_scope.

(** ** Record updates

    [s <| f := v |>] is the C assignment [s->f = v] and [s <| f ::= g |>] the
    compound assignment [s->f = g(s->f)].  A record type opts in with one
    [RecordEta] instance that rebuilds it from its fields; the updater of a
    field is derived from it by replacing that field. *)

Class RecordEta (R : Type) := rebuild : R → R.
Class FieldUpdate {R T : Type} (field : R → T) := update : (T → T) → R → R.
#[global] Hint Mode FieldUpdate - - ! : typeclass_instances.
Arguments update {R T} field {_} g r : simpl nomatch.

Ltac derive_update :=
  lazymatch goal with
  | |- @FieldUpdate ?R ?T ?field =>
    let eta := constr:(_ : RecordEta R) in
    let eta := eval hnf in eta in
    let g := fresh "g" in
    let r := fresh "r" in
    intros g r;
    let e := eval cbv beta in (eta r) in
    lazymatch (eval pattern (field r) in e) with
    | ?k _ => let e' := eval cbv beta in (k (g (field r))) in exact e'
    end
  end.
#[global] Hint Extern 0 (FieldUpdate _) => derive_update : typeclass_instances.

Declare Scope record_scope.
Notation "s <| f := v |>" := (update f (fun _ => v) s)
  (at level 1, left associativity, f constr at level 0, v constr at level 200,
   format "s  <| f  :=  v |>") : record_scope.
Notation "s <| f ::= g |>" := (update f g s)
  (at level 1, left associativity, f constr at level 0, g constr at level 200,
   format "s  <| f  ::=  g |>") : record_scope.
#[global] Open Scope record_scope.

(** ** Machine integers

    An [n]-bit unsigned integer is a [Z] in [0, 2^n); conversions and the
    results of arithmetic that can leave the range are wrapped explicitly. *)

Definition wrap (n x : Z) : Z := x mod 2 ^ n.
Abbreviation u8 := (wrap 8).
Abbreviation u32 := (wrap 32).
Abbreviation u64 := (wrap 64).

#[global] Arguments Z.testbit : simpl never.
#[global] Arguments Z.land : simpl never.
#[global] Arguments Z.lor : simpl never.
#[global] Arguments Z.lxor : simpl never.
#[global] Arguments Z.shiftl : simpl never.
#[global] Arguments Z.shiftr : simpl never.
#[global] Arguments Z.pow : simpl never.
#[global] Arguments Z.modulo : simpl never.

(** The C conversion to [int] of a 32-bit pattern (two's complement). *)
Definition i32 (x : Z) : Z :=
  if u32 x <? 2 ^ 31 then u32 x else u32 x - 2 ^ 32.

(** The C conversion to [int64_t]. *)
Definition i64 (x : Z) : Z :=
  if u64 x <? 2 ^ 63 then u64 x else u64 x - 2 ^ 64.

(** Bitwise complement of a [uint32_t]. *)
Definition not32 (x : Z) : Z := u32 (Z.lnot x).

(** The mask [1 << k]. *)
Definition bit (k : Z) : Z := Z.shiftl 1 k.

(** C truth value of an integer expression. *)
Definition truth (x : Z) : bool := negb (x =? 0).

(** C [if (value & mask)]. *)
Definition has (value mask : Z) : bool := truth (Z.land value mask).

(** Value of a C comparison used as an integer. *)
Definition of_bool (b : bool) : Z := if b then 1 else 0.

Definition in_range (n x : Z) : Prop := 0 ≤ x < 2 ^ n.
Abbreviation is_u8 := (in_range 8).
Abbreviation is_u32 := (in_range 32).
Abbreviation is_u64 := (in_range 64).

#[global] Instance in_range_dec n x : Decision (in_range n x).
Proof. unfold in_range. apply _. Defined.

(** ** Outcomes of a call

    [assert], [cpu_abort], [g_assert_not_reached] and a division by zero stop
    the emulator; [Abort] is that outcome, with the reason.  [OutOfFuel] is not
    an outcome of the program but of a recursion given too little fuel. *)

Inductive abort_reason :=
| AssertFailed
| CpuAbort
| NotReached
| DivideByZero
| OutOfFuel.

Inductive outcome (A : Type) :=
| Ok (a : A)
| Abort (why : abort_reason).
Arguments Ok {A} a.
Arguments Abort {A} why.

#[global] Instance outcome_ret : MRet outcome := fun A a => Ok a.
#[global] Instance outcome_bind : MBind outcome :=
  fun A B k m => match m with Ok a => k a | Abort why => Abort why end.
#[global] Instance outcome_fmap : FMap outcome :=
  fun A B f m => match m with Ok a => Ok (f a) | Abort why => Abort why end.

Lemma bind_Ok {A B} (a : A) (k : A → outcome B) : (Ok a ≫= k) = k a.
Proof. reflexivity. Qed.

#[global] Instance abort_reason_eq_dec : EqDecision abort_reason.
Proof. solve_decision. Defined.
#[global] Instance outcome_eq_dec `{EqDecision A} : EqDecision (outcome A).
Proof. solve_decision. Defined.

(** [assert(b)]. *)
Definition assert_c (b : bool) : outcome unit :=
  if b then Ok () else Abort AssertFailed.

Definition is_ok {A} (m : outcome A) : bool :=
  match m with Ok _ => true | Abort _ => false end.

(** ** C arrays

    A C array is a list of its length; [aget] and [aset] are indexed by the C
    index.  Every use in the models is within bounds, which the lemmas ask
    for; out of bounds [aget] gives the default and [aset] does nothing. *)

Definition aget {A} (d : A) (l : list A) (i : Z) : A :=
  if i <? 0 then d else default d (l !! Z.to_nat i).
Definition aset {A} (l : list A) (i : Z) (x : A) : list A :=
  if i <? 0 then l else <[Z.to_nat i := x]> l.
Definition alen {A} (l : list A) : Z := Z.of_nat (length l).

(** [for (i = lo; i < hi; i++) s = body(i, s);] *)
Definition for_range {S} (lo hi : Z) (body : Z → S → S) (s : S) : S :=
  fold_left (fun s i => body i s) (seqZ lo (hi - lo)) s.

(** ** Lemmas on bits and ranges *)

Create HintDb word.
Create Rewrite HintDb zbits.

Lemma wrap_range n x : 0 ≤ n → in_range n (wrap n x).
Proof. intros. apply Z.mod_pos_bound. lia. Qed.

Lemma wrap_small n x : in_range n x → wrap n x = x.
Proof. apply Z.mod_small. Qed.

Lemma wrap_wrap n m x : 0 ≤ n ≤ m → wrap n (wrap m x) = wrap n x.
Proof.
  intros. unfold wrap. apply Z.mod_mod_divide.
  exists (2 ^ (m - n)). rewrite <- Z.pow_add_r by lia. f_equal. lia.
Qed.

Lemma wrap_spec n x i : 0 ≤ n → 0 ≤ i →
  Z.testbit (wrap n x) i = (i <? n) && Z.testbit x i.
Proof.
  intros. unfold wrap. destruct (Z.ltb_spec i n).
  - rewrite Z.mod_pow2_bits_low; auto.
  - rewrite Z.mod_pow2_bits_high; auto; lia.
Qed.

Lemma not32_spec x i : 0 ≤ i →
  Z.testbit (not32 x) i = (i <? 32) && negb (Z.testbit x i).
Proof. intros. unfold not32. rewrite wrap_spec, Z.lnot_spec by lia. done. Qed.

Lemma bit_spec k i : 0 ≤ k → 0 ≤ i → Z.testbit (bit k) i = (k =? i).
Proof.
  intros. unfold bit. rewrite Z.shiftl_1_l, Z.pow2_bits_eqb by lia. done.
Qed.

Lemma testbit_above n x i : in_range n x → n ≤ i → Z.testbit x i = false.
Proof.
  intros [Hx Hn] Hi. destruct (Z.lt_ge_cases n 0).
  { rewrite Z.pow_neg_r in Hn by lia. lia. }
  rewrite <- (Z.mod_small x (2 ^ n)) by lia.
  apply Z.mod_pow2_bits_high. lia.
Qed.

Lemma in_range_bits n x : 0 ≤ n → 0 ≤ x →
  (∀ i, n ≤ i → Z.testbit x i = false) → in_range n x.
Proof.
  intros Hn Hx Hb. rewrite <- (wrap_small n x) at 1; [by apply wrap_range|].
  cut (wrap n x = x); [intros <-; by apply wrap_range|].
  apply Z.bits_inj'. intros i Hi. rewrite wrap_spec by lia.
  destruct (Z.ltb_spec i n); [done|]. by rewrite Hb.
Qed.

Lemma land_range n x y : 0 ≤ n → in_range n x → in_range n (Z.land x y).
Proof.
  intros Hn Hx. apply in_range_bits; [done| |].
  - apply Z.land_nonneg. left. apply Hx.
  - intros i Hi. rewrite Z.land_spec, (testbit_above n x) by done. done.
Qed.

Lemma land_range_r n x y : 0 ≤ n → in_range n y → in_range n (Z.land x y).
Proof. rewrite Z.land_comm. apply land_range. Qed.

Lemma lor_range n x y : 0 ≤ n → in_range n x → in_range n y → in_range n (Z.lor x y).
Proof.
  intros Hn Hx Hy. apply in_range_bits; [done| |].
  - apply Z.lor_nonneg. split; [apply Hx|apply Hy].
  - intros i Hi. rewrite Z.lor_spec, (testbit_above n x), (testbit_above n y) by done.
    done.
Qed.

Lemma shiftr_range n x k : 0 ≤ k → in_range n x → in_range n (Z.shiftr x k).
Proof.
  intros Hk [Hx Hn]. split; [by apply Z.shiftr_nonneg|].
  rewrite Z.shiftr_div_pow2 by done.
  eapply Z.le_lt_trans; [|exact Hn]. apply Z.div_le_upper_bound; [lia|].
  assert (1 ≤ 2 ^ k) by lia. nia.
Qed.

Lemma range_weaken n m x : 0 ≤ n ≤ m → in_range n x → in_range m x.
Proof.
  intros Hnm [Hx Hn]. split; [done|].
  eapply Z.lt_le_trans; [exact Hn|]. apply Z.pow_le_mono_r; lia.
Qed.

Lemma not32_range x : is_u32 (not32 x).
Proof. by apply wrap_range. Qed.

Lemma has_bit x k : 0 ≤ k → has x (bit k) = Z.testbit x k.
Proof.
  intros Hk. unfold has, truth. destruct (Z.testbit x k) eqn:E.
  - destruct (Z.eqb_spec (Z.land x (bit k)) 0) as [H|]; [|done].
    apply (f_equal (fun z => Z.testbit z k)) in H.
    rewrite Z.land_spec, bit_spec, E, Z.eqb_refl, Z.bits_0 in H by done. done.
  - destruct (Z.eqb_spec (Z.land x (bit k)) 0) as [|H]; [done|]. exfalso. apply H.
    apply Z.bits_inj'. intros i Hi. rewrite Z.land_spec, bit_spec, Z.bits_0 by done.
    destruct (Z.eqb_spec k i) as [->|]; [by rewrite E|]. by rewrite andb_false_r.
Qed.

Lemma truth_0 : truth 0 = false.
Proof. done. Qed.

Lemma truth_of_bool b : truth (of_bool b) = b.
Proof. by destruct b. Qed.

Lemma i64_small x : 0 ≤ x < 2 ^ 63 → i64 x = x.
Proof.
  intros H. unfold i64. rewrite wrap_small; [|split; [lia|]].
  - destruct (Z.ltb_spec x (2 ^ 63)); lia.
  - apply Z.lt_trans with (2 ^ 63); [lia|done].
Qed.

#[global] Hint Rewrite Z.land_spec Z.lor_spec Z.lxor_spec Z.ldiff_spec Z.bits_0 : zbits.
#[global] Hint Rewrite Z.shiftl_spec Z.shiftr_spec Z.lnot_spec wrap_spec not32_spec
  bit_spec using lia : zbits.

#[global] Hint Resolve wrap_range land_range lor_range shiftr_range not32_range : word.
#[global] Hint Extern 5 (_ ≤ _) => lia : word.

(** Decide a closed range goal by evaluation. *)
Ltac closed_range :=
  lazymatch goal with
  | |- in_range _ ?x =>
    tryif (match x with context [?v] => is_var v end)
    then fail else (split; vm_compute; congruence)
  end.
#[global] Hint Extern 5 (in_range _ _) => closed_range : word.

(** Prove an equation between integers bit by bit. *)
Ltac zbitwise :=
  apply Z.bits_inj'; intros ?i ?Hi; autorewrite with zbits.

(** ** Lemmas on arrays and loops *)

Lemma alen_aset {A} (l : list A) i x : alen (aset l i x) = alen l.
Proof. unfold alen, aset. case_match; [done|]. by rewrite length_insert. Qed.

Lemma aget_aset_eq {A} d (l : list A) i x :
  0 ≤ i < alen l → aget d (aset l i x) i = x.
Proof.
  unfold aget, aset, alen. intros Hi. destruct (Z.ltb_spec i 0); [lia|].
  rewrite list_lookup_insert_eq by lia. done.
Qed.

Lemma aget_aset_ne {A} d (l : list A) i j x :
  i ≠ j → aget d (aset l i x) j = aget d l j.
Proof.
  unfold aget, aset. intros Hi.
  destruct (Z.ltb_spec j 0); [done|]. destruct (Z.ltb_spec i 0); [done|].
  rewrite list_lookup_insert_ne by lia. done.
Qed.

Lemma aget_aset {A} d (l : list A) i j x :
  0 ≤ i < alen l →
  aget d (aset l i x) j = if i =? j then x else aget d l j.
Proof.
  intros Hi. destruct (Z.eqb_spec i j) as [->|].
  - by apply aget_aset_eq.
  - by apply aget_aset_ne.
Qed.

Lemma aset_aget {A} d (l : list A) i : aset l i (aget d l i) = l.
Proof.
  unfold aget, aset. case_match; [done|].
  destruct (l !! Z.to_nat i) eqn:E; simpl.
  - by apply list_insert_id.
  - apply list_insert_ge. by apply lookup_ge_None.
Qed.

Lemma aset_aset {A} (l : list A) i x y : aset (aset l i x) i y = aset l i y.
Proof. unfold aset. case_match; [done|]. apply list_insert_insert_eq. Qed.

Lemma aget_replicate {A} (d x : A) n i :
  0 ≤ i < Z.of_nat n → aget d (replicate n x) i = x.
Proof.
  intros. unfold aget. destruct (Z.ltb_spec i 0); [lia|].
  rewrite lookup_replicate_2 by lia. done.
Qed.

Lemma alen_replicate {A} (x : A) n : alen (replicate n x) = Z.of_nat n.
Proof. unfold alen. by rewrite length_replicate. Qed.

Lemma for_range_nil {S} lo hi (body : Z → S → S) s :
  hi ≤ lo → for_range lo hi body s = s.
Proof. intros. unfold for_range. rewrite seqZ_nil by lia. done. Qed.

Lemma for_range_cons {S} lo hi (body : Z → S → S) s :
  lo < hi → for_range lo hi body s = for_range (lo + 1) hi body (body lo s).
Proof.
  intros. unfold for_range. rewrite seqZ_cons by lia. simpl.
  repeat f_equal; lia.
Qed.

Lemma for_range_ext {S} lo hi (body body' : Z → S → S) s :
  (∀ i s, lo ≤ i < hi → body i s = body' i s) → for_range lo hi body s = for_range lo hi body' s.
Proof.
  unfold for_range. intros H.
  assert (∀ l, (∀ i, i ∈ l → lo ≤ i < hi) → ∀ s,
    fold_left (fun s i => body i s) l s = fold_left (fun s i => body' i s) l s) as Hl.
  { induction l as [|i l IH]; intros Hin s'; simpl; [done|].
    rewrite H by (apply Hin; left). apply IH. intros j Hj. apply Hin. by right. }
  apply Hl. intros i Hi. apply elem_of_seqZ in Hi. lia.
Qed.

(** Induction over a counted loop: [P i s] is the invariant before iteration
    [i]. *)
Lemma for_range_ind {S} (P : Z → S → Prop) lo hi body s :
  lo ≤ hi → P lo s →
  (∀ i s, lo ≤ i < hi → P i s → P (i + 1) (body i s)) →
  P hi (for_range lo hi body s).
Proof.
  intros Hle H0 Hstep.
  assert (∀ n lo' s, lo ≤ lo' → hi = lo' + Z.of_nat n → P lo' s →
            P hi (for_range lo' hi body s)) as Hgen.
  { induction n as [|n IH]; intros lo' s' Hlo Hhi HP.
    - rewrite for_range_nil by lia. by replace hi with lo' by lia.
    - rewrite for_range_cons by lia. apply IH; [lia|lia|].
      apply Hstep; [lia|done]. }
  apply (Hgen (Z.to_nat (hi - lo))); [lia|lia|done].
Qed.

(** ** Case analysis on boolean conditions *)

(** Arithmetic with divisions by constants. *)
Ltac euclid := Z.to_euclidean_division_equations; lia.

(** Split the first boolean condition of the goal, remembering it. *)
Ltac case_if :=
  match goal with
  | |- context [if ?b then _ else _] => destruct b eqn:?
  end.

(** A boolean property of the integers of a range, decided by evaluation. *)
Lemma range_check (f : Z → bool) lo hi :
  forallb f (seqZ lo (hi - lo)) = true → ∀ x, lo ≤ x < hi → f x = true.
Proof.
  rewrite forallb_forall. intros H x Hx. apply H.
  apply list_elem_of_In, elem_of_seqZ. lia.
Qed.

(** [0xFF] and the other all-ones masks select low bits. *)
Lemma land_mask n x : 0 ≤ n → Z.land x (2 ^ n - 1) = wrap n x.
Proof. intros. replace (2 ^ n - 1) with (Z.ones n) by (rewrite Z.ones_equiv; lia).
  by apply Z.land_ones. Qed.

(** Two masked values combined: only the same bit of both can survive. *)
Lemma truth_land_bits a b j k : 0 ≤ j → 0 ≤ k →
  truth (Z.land (Z.land a (bit j)) (Z.land b (bit k))) =
    (j =? k) && Z.testbit a j && Z.testbit b k.
Proof.
  intros Hj Hk.
  replace (Z.land (Z.land a (bit j)) (Z.land b (bit k)))
    with (Z.land (if (j =? k) && Z.testbit b k then a else 0) (bit j)).
  - change (truth (Z.land ?x (bit j))) with (has x (bit j)). rewrite has_bit by done.
    destruct (Z.eqb_spec j k) as [->|]; [|by rewrite Z.bits_0].
    destruct (Z.testbit b k); simpl; [by rewrite andb_true_r|by rewrite Z.bits_0, andb_false_r].
  - zbitwise. destruct (Z.eqb_spec j k) as [->|]; simpl.
    + destruct (Z.testbit b k) eqn:E; destruct (Z.eqb_spec k i) as [->|];
        autorewrite with zbits; rewrite ?E, ?andb_true_r, ?andb_false_r; done.
    + autorewrite with zbits. destruct (Z.eqb_spec j i), (Z.eqb_spec k i);
        rewrite ?andb_true_r, ?andb_false_r; try done; lia.
Qed.

(** Appending the next byte of [x] to its low [k] bits. *)
Lemma lor_next_byte n k x : 0 ≤ k → k + 8 ≤ n →
  Z.lor (wrap k x) (wrap n (Z.shiftl (Z.land (Z.shiftr x k) 0xFF) k)) = wrap (k + 8) x.
Proof.
  intros Hk Hn. change 0xFF with (2 ^ 8 - 1). rewrite land_mask by done.
  zbitwise. destruct (Z.ltb_spec i k).
  - rewrite (Z.testbit_neg_r _ (i - k)), andb_false_r, orb_false_r by lia.
    simpl. destruct (Z.ltb_spec i (k + 8)); [done|lia].
  - simpl. rewrite wrap_spec, Z.shiftr_spec by lia. replace (i - k + k) with i by lia.
    destruct (Z.ltb_spec i (k + 8)), (Z.ltb_spec (i - k) 8), (Z.ltb_spec i n); done || lia.
Qed.
