(* ===== verification/Irq.v ===== *)
(** Interrupt lines: hw/core/irq.c and include/hw/irq.h.

    A device drives a [qemu_irq] by calling the handler of the input it is
    wired to.  The model keeps, for each line, the sequence of levels the
    handler has been called with; [line_calls] gives the calls an operation
    added, which the machine replays on the receiving device, in order.  The handlers the board wires (the NVIC inputs)
    never call back into the driving device, so replaying the calls after the
    device operation is the same as running them inside it. *)

From S2P Require Import Prelude.

(** [None] is a NULL [qemu_irq]; [Some calls] a line whose handler has been
    called with the levels [calls], oldest first. *)
Definition qemu_irq := option (list Z).

Definition qemu_set_irq (irq : qemu_irq) (level : Z) : qemu_irq :=
  match irq with
  | None => None
  | Some calls => Some (calls ++ [level])
  end.

Definition qemu_irq_raise (irq : qemu_irq) : qemu_irq := qemu_set_irq irq 1.

Definition qemu_irq_lower (irq : qemu_irq) : qemu_irq := qemu_set_irq irq 0.

Definition qemu_irq_pulse (irq : qemu_irq) : qemu_irq :=
  qemu_set_irq (qemu_set_irq irq 1) 0.

(** Last level the handler was called with; a line starts low. *)
Definition irq_level (irq : qemu_irq) : Z :=
  match irq with
  | None => 0
  | Some calls => default 0 (last calls)
  end.

(** The calls an operation added to a line. *)
Definition line_calls (old new : qemu_irq) : list Z :=
  match old, new with
  | Some l, Some l' => drop (length l) l'
  | _, _ => []
  end.

Definition connected (irq : qemu_irq) : Prop := is_Some irq.

Lemma irq_level_set irq level :
  connected irq → irq_level (qemu_set_irq irq level) = level.
Proof. intros [calls ->]. simpl. by rewrite last_snoc. Qed.

Lemma connected_set irq level : connected irq → connected (qemu_set_irq irq level).
Proof. intros [calls ->]. by eexists. Qed.

Lemma irq_level_raise irq : connected irq → irq_level (qemu_irq_raise irq) = 1.
Proof. apply irq_level_set. Qed.

Lemma irq_level_lower irq : connected irq → irq_level (qemu_irq_lower irq) = 0.
Proof. apply irq_level_set. Qed.

Lemma connected_raise irq : connected irq → connected (qemu_irq_raise irq).
Proof. apply connected_set. Qed.

Lemma connected_lower irq : connected irq → connected (qemu_irq_lower irq).
Proof. apply connected_set. Qed.

Lemma connected_pulse irq : connected irq → connected (qemu_irq_pulse irq).
Proof. intros. by apply connected_set, connected_set. Qed.

Create HintDb irq.
#[global] Hint Resolve connected_set connected_raise connected_lower connected_pulse : irq.

(** ** What an operation adds to a line *)

(** The line is still wired as it was and has been called with levels 0 and 1
    only. *)
Definition extends (i i' : qemu_irq) : Prop :=
  match i, i' with
  | Some l, Some l' => ∃ calls, l' = l ++ calls ∧ Forall (fun c => c = 0 ∨ c = 1) calls
  | None, None => True
  | _, _ => False
  end.

Lemma extends_refl i : extends i i.
Proof. destruct i as [l|]; [|done]. exists []. by rewrite app_nil_r. Qed.

Lemma extends_trans i j k : extends i j → extends j k → extends i k.
Proof.
  destruct i as [l|], j as [l'|], k as [l''|]; try done.
  intros (c & -> & Hc) (c' & -> & Hc'). exists (c ++ c'). split; [by rewrite app_assoc|].
  by apply Forall_app.
Qed.

#[export] Instance extends_preorder : PreOrder extends.
Proof. split; [exact extends_refl|exact extends_trans]. Qed.

Lemma extends_set i j level : level = 0 ∨ level = 1 → extends i j → extends i (qemu_set_irq j level).
Proof.
  intros Hl Hij. eapply extends_trans; [exact Hij|]. destruct j as [l|]; [|done].
  exists [level]. by split; [|constructor].
Qed.

Lemma extends_raise i j : extends i j → extends i (qemu_irq_raise j).
Proof. apply extends_set. by right. Qed.

Lemma extends_lower i j : extends i j → extends i (qemu_irq_lower j).
Proof. apply extends_set. by left. Qed.

Lemma extends_pulse i j : extends i j → extends i (qemu_irq_pulse j).
Proof. intros. apply extends_lower. by apply extends_raise. Qed.
#[global] Hint Resolve extends_refl extends_raise extends_lower extends_pulse : irq.

(** The calls added take the receiver from the old level to the new one. *)
Lemma line_calls_level i i' :
  extends i i' →
  Forall (fun c => c = 0 ∨ c = 1) (line_calls i i') ∧
  default (irq_level i) (last (line_calls i i')) = irq_level i'.
Proof.
  destruct i as [l|], i' as [l'|]; try done. intros (calls & -> & Hc). simpl.
  rewrite drop_app_length. split; [done|]. rewrite last_app. by destruct (last calls).
Qed.
