(* ===== verification/CanBus.v ===== *)
(** The CAN bus: net/can/can_core.c and include/net/can_emu.h.

    Buses and clients are heap objects that point at each other; here a bus is
    an identifier with its client queue, and a client an identifier with its
    [bus] pointer.  The callbacks of a client are the operations of the class
    [CanBusClient], so that the bus is proved once for every device that
    attaches to it. *)

From stdpp Require Import gmap.
From S2P Require Import Prelude.

(** ** Frames *)

Record qemu_can_frame := mk_frame {
  can_id : Z;   (* uint32_t: identifier with the EFF, RTR and ERR flags *)
  can_dlc : Z;  (* uint8_t *)
  flags : Z;    (* uint8_t *)
  fdata : list Z (* uint8_t[64] *)
}.

Definition QEMU_CAN_EFF_FLAG : Z := 0x80000000.
Definition QEMU_CAN_RTR_FLAG : Z := 0x40000000.
Definition QEMU_CAN_ERR_FLAG : Z := 0x20000000.
Definition QEMU_CAN_SFF_MASK : Z := 0x000007FF.
Definition QEMU_CAN_EFF_MASK : Z := 0x1FFFFFFF.
Definition QEMU_CAN_INV_FILTER : Z := 0x20000000.

Record qemu_can_filter := mk_filter { flt_can_id : Z; flt_can_mask : Z }.

(** ** Data length codes *)

Definition dlc2len : list Z :=
  [0; 1; 2; 3; 4; 5; 6; 7; 8; 12; 16; 20; 24; 32; 48; 64].

Definition can_dlc2len (dlc : Z) : Z := aget 0 dlc2len (Z.land dlc 0x0F).

Definition len2dlc : list Z :=
  [0; 1; 2; 3; 4; 5; 6; 7; 8;
   9; 9; 9; 9;
   10; 10; 10; 10;
   11; 11; 11; 11;
   12; 12; 12; 12;
   13; 13; 13; 13; 13; 13; 13; 13;
   14; 14; 14; 14; 14; 14; 14; 14;
   14; 14; 14; 14; 14; 14; 14; 14;
   15; 15; 15; 15; 15; 15; 15; 15;
   15; 15; 15; 15; 15; 15; 15; 15].

Definition can_len2dlc (len : Z) : Z :=
  if len >? 64 then 0xF else aget 0 len2dlc len.

(** ** The bus *)

(** What a device promises as a client: the two callbacks of
    [CanBusClientInfo], on the state of the device that owns the client. *)
Class CanBusClient (S : Type) := {
  can_receive_cb : S → bool;
  receive_cb : list qemu_can_frame → S → S * Z
}.

Record CanNet := mk_net {
  buses : gmap nat (list nat);  (* bus -> its clients, in queue order *)
  client_bus : gmap nat nat     (* client -> bus; absent is NULL *)
}.

#[export] Instance eta_CanNet : RecordEta CanNet :=
  fun r => mk_net (buses r) (client_bus r).

Definition clients_of (net : CanNet) (bus : nat) : list nat :=
  default [] (buses net !! bus).

Definition can_bus_instance_init (bus : nat) (net : CanNet) : CanNet :=
  net <| buses ::= insert bus [] |>.

Definition can_bus_insert_client (bus client : nat) (net : CanNet) : CanNet * Z :=
  let net := net <| client_bus ::= insert client bus |> in
  let net := net <| buses ::= insert bus (clients_of net bus ++ [client]) |> in
  (net, 0).

Definition can_bus_remove_client (client : nat) (net : CanNet) : CanNet * Z :=
  match client_bus net !! client with
  | None => (net, 0)
  | Some bus =>
    let net := net <| buses ::= insert bus
                        (filter (fun c => c ≠ client) (clients_of net bus)) |> in
    let net := net <| client_bus ::= delete client |> in
    (net, 1)
  end.

Section Send.
Context {S : Type} `{CanBusClient S}.

(** One iteration of the [QTAILQ_FOREACH] of [can_bus_client_send]. *)
Definition send_to_peer (client : nat) (frames : list qemu_can_frame)
    (acc : gmap nat S * Z) (peer : nat) : gmap nat S * Z :=
  let '(devs, ret) := acc in
  match devs !! peer with
  | None => acc
  | Some d =>
    if can_receive_cb d then
      if decide (peer = client) then acc
      else
        let '(d', n) := receive_cb frames d in
        (<[peer := d']> devs, if n >? 0 then 1 else ret)
    else acc
  end.

Definition can_bus_client_send (net : CanNet) (client : nat)
    (frames : list qemu_can_frame) (devs : gmap nat S) : gmap nat S * Z :=
  match client_bus net !! client with
  | None => (devs, -1)
  | Some bus => fold_left (send_to_peer client frames) (clients_of net bus) (devs, 0)
  end.
End Send.

(** ** Filters *)

Definition can_bus_filter_match (filter : qemu_can_filter) (id : Z) : bool :=
  if has (Z.lor id (flt_can_mask filter)) QEMU_CAN_ERR_FLAG
  then truth (Z.land (flt_can_mask filter) QEMU_CAN_ERR_FLAG)
  else
    let m := Z.land id (flt_can_mask filter)
             =? Z.land (flt_can_id filter) (flt_can_mask filter) in
    if has (flt_can_id filter) QEMU_CAN_INV_FILTER then negb m else m.

Definition can_bus_client_set_filters (client : nat) (filters : list qemu_can_filter) : Z :=
  0.

(** ** Properties of the length codes *)

(** A code survives the conversion to a length and back; only its low nibble
    counts. *)
Lemma dlc_len_dlc dlc : is_u8 dlc → can_len2dlc (can_dlc2len dlc) = Z.land dlc 0x0F.
Proof.
  intros Hd. apply Z.eqb_eq.
  apply (range_check (fun d => can_len2dlc (can_dlc2len d) =? Z.land d 0x0F) 0 256);
    [vm_compute; reflexivity|apply Hd].
Qed.

Lemma len_dlc_check len dlc : 0 ≤ len ≤ 64 → 0 ≤ dlc ≤ 15 →
  len ≤ can_dlc2len (can_len2dlc len) ∧
  (len ≤ can_dlc2len dlc → can_len2dlc len ≤ dlc).
Proof.
  intros Hl Hd.
  pose (ok := fun len dlc => (len <=? can_dlc2len (can_len2dlc len)) &&
                (implb (len <=? can_dlc2len dlc) (can_len2dlc len <=? dlc))).
  enough (ok len dlc = true) as Hok by (unfold ok in Hok; lia).
  revert dlc Hd.
  enough (forallb (ok len) (seqZ 0 (16 - 0)) = true) as Hall.
  { intros dlc Hd. apply (range_check _ _ _ Hall). lia. }
  apply (range_check (fun len => forallb (ok len) (seqZ 0 (16 - 0))) 0 65);
    [vm_compute; reflexivity|lia].
Qed.

(** ** Well-formed networks *)

(** The queues and the [bus] pointers agree: a client is in the queue of the
    bus it points at, once, and in no other. *)
Record net_wf (net : CanNet) : Prop := {
  wf_nodup : ∀ bus, NoDup (clients_of net bus);
  wf_member : ∀ bus c, c ∈ clients_of net bus ↔ client_bus net !! c = Some bus
}.

Lemma clients_of_insert net bus l bus' :
  clients_of (net <| buses ::= insert bus l |>) bus' =
    if decide (bus = bus') then l else clients_of net bus'.
Proof. unfold clients_of. simpl. rewrite lookup_insert. by case_decide. Qed.

Lemma clients_of_client_bus net f bus :
  clients_of (net <| client_bus ::= f |>) bus = clients_of net bus.
Proof. done. Qed.

Lemma instance_init_wf net bus :
  net_wf net → buses net !! bus = None → net_wf (can_bus_instance_init bus net).
Proof.
  intros [Hn Hm] Hb. unfold can_bus_instance_init. split.
  - intros b. rewrite clients_of_insert. case_decide; [constructor|done].
  - intros b c. rewrite clients_of_insert. simpl. case_decide; [subst|done].
    rewrite <- Hm. unfold clients_of. rewrite Hb. done.
Qed.

Lemma insert_client_wf net bus client :
  net_wf net → client_bus net !! client = None →
  net_wf (can_bus_insert_client bus client net).1.
Proof.
  intros [Hn Hm] Hc. unfold can_bus_insert_client. simpl. split.
  - intros b. rewrite clients_of_insert, !clients_of_client_bus. case_decide; [|done].
    apply NoDup_app. split_and!; [done| |apply NoDup_singleton].
    intros c Hin. rewrite list_elem_of_singleton. intros ->.
    apply Hm in Hin. congruence.
  - intros b c. rewrite clients_of_insert, !clients_of_client_bus. simpl.
    destruct (decide (c = client)) as [->|Hne].
    + rewrite lookup_insert_eq. case_decide; [subst; set_solver|].
      rewrite Hm. naive_solver.
    + rewrite lookup_insert_ne by done. rewrite <- Hm. case_decide; [subst|done].
      set_solver.
Qed.

Lemma remove_client_wf net client :
  net_wf net → net_wf (can_bus_remove_client client net).1.
Proof.
  intros [Hn Hm]. unfold can_bus_remove_client.
  destruct (client_bus net !! client) as [bus|] eqn:E; [|done]. simpl. split.
  - intros b. rewrite clients_of_client_bus, clients_of_insert.
    case_decide; [|done]. by apply NoDup_filter.
  - intros b c. rewrite clients_of_client_bus, clients_of_insert. simpl.
    destruct (decide (c = client)) as [->|Hne].
    + rewrite lookup_delete_eq. split; [|done]. case_decide.
      * rewrite list_elem_of_filter. naive_solver.
      * rewrite Hm. naive_solver.
    + rewrite lookup_delete_ne by done. rewrite <- Hm. case_decide; [subst|done].
      rewrite list_elem_of_filter. naive_solver.
Qed.

(** ** Delivery *)

Section Delivery.
Context {S : Type} `{CanBusClient S}.

(** What one send does to one device of the bus. *)
Definition delivered (client : nat) (frames : list qemu_can_frame)
    (queue : list nat) (p : nat) (d : S) : S :=
  if decide (p ∈ queue ∧ p ≠ client) then
    if can_receive_cb d then (receive_cb frames d).1 else d
  else d.

Lemma delivered_other client frames queue p d :
  p ∉ queue ∨ p = client → delivered client frames queue p d = d.
Proof. intros. unfold delivered. rewrite decide_False; [done|naive_solver]. Qed.

Lemma delivered_peer client frames queue p d :
  p ∈ queue → p ≠ client → delivered client frames queue p d =
    if can_receive_cb d then (receive_cb frames d).1 else d.
Proof. intros. unfold delivered. by rewrite decide_True. Qed.

Lemma send_to_peer_lookup client frames (acc : gmap nat S * Z) peer p :
  (send_to_peer client frames acc peer).1 !! p =
    delivered client frames [peer] p <$> acc.1 !! p.
Proof.
  destruct acc as [devs ret]. simpl.
  destruct (devs !! p) as [dp|] eqn:Ep; simpl; unfold send_to_peer;
    (destruct (devs !! peer) as [d|] eqn:E; simpl; [|destruct (decide (p = peer))]).
  - destruct (decide (p = peer)) as [->|Hne].
    + simplify_eq. destruct (decide (peer = client)).
      * rewrite delivered_other by auto. by destruct (can_receive_cb dp).
      * rewrite delivered_peer by set_solver.
        destruct (can_receive_cb dp); [|done].
        destruct (receive_cb frames dp). simpl. by rewrite lookup_insert_eq.
    + rewrite delivered_other by set_solver. repeat case_match; simpl; try done;
        by rewrite lookup_insert_ne.
  - congruence.
  - by rewrite delivered_other by set_solver.
  - repeat case_match; simpl; try done; rewrite lookup_insert_ne; congruence.
  - done.
  - done.
Qed.

Lemma send_fold_lookup client frames queue (acc : gmap nat S * Z) p :
  NoDup queue →
  (fold_left (send_to_peer client frames) queue acc).1 !! p =
    delivered client frames queue p <$> acc.1 !! p.
Proof.
  intros Hnd. revert acc. induction Hnd as [|peer queue Hni Hnd IH]; intros acc.
  - simpl. destruct (acc.1 !! p); [|done]. simpl.
    by rewrite delivered_other by set_solver.
  - simpl. rewrite IH, send_to_peer_lookup. destruct (acc.1 !! p) as [d|]; [|done].
    simpl. f_equal. destruct (decide (p = client)) as [->|].
    { by rewrite !delivered_other by auto. }
    destruct (decide (p = peer)) as [->|].
    { rewrite delivered_other by auto. by rewrite !delivered_peer by set_solver. }
    rewrite (delivered_other _ _ [peer]) by set_solver.
    destruct (decide (p ∈ queue)).
    + by rewrite !delivered_peer by set_solver.
    + by rewrite !delivered_other by set_solver.
Qed.

Lemma send_lookup net client frames (devs : gmap nat S) bus p :
  net_wf net → client_bus net !! client = Some bus →
  (can_bus_client_send net client frames devs).1 !! p =
    delivered client frames (clients_of net bus) p <$> devs !! p.
Proof.
  intros Hwf Hb. unfold can_bus_client_send. rewrite Hb.
  apply send_fold_lookup, Hwf.
Qed.
(** Whether some other client of the queue accepts the frames. *)
Definition accepted (client : nat) (frames : list qemu_can_frame) (queue : list nat)
    (devs : gmap nat S) : Prop :=
  ∃ p d, p ∈ queue ∧ p ≠ client ∧ devs !! p = Some d ∧ can_receive_cb d = true ∧
    0 < (receive_cb frames d).2.

(** One step of the loop: the result it leaves and the devices it does not
    reach. *)
Lemma send_to_peer_ret client frames (devs : gmap nat S) ret peer :
  let r := send_to_peer client frames (devs, ret) peer in
  (∀ p, p ≠ peer → r.1 !! p = devs !! p) ∧
  (r.2 = ret ∧ ¬ accepted client frames [peer] devs ∨ r.2 = 1 ∧ accepted client frames [peer] devs).
Proof.
  cbv zeta. split.
  { intros p Hp. rewrite send_to_peer_lookup. simpl. destruct (devs !! p) as [d|]; [|done]. simpl.
    by rewrite delivered_other by set_solver. }
  unfold send_to_peer, accepted. destruct (devs !! peer) as [d|] eqn:E; [|left; split; [done|]].
  2: { intros (p & d & Hp & _ & Hd & _). apply list_elem_of_singleton in Hp as ->. congruence. }
  destruct (can_receive_cb d) eqn:Hc; [|left; split; [done|]].
  2: { intros (p & d' & Hp & _ & Hd & Hc' & _). apply list_elem_of_singleton in Hp as ->. congruence. }
  destruct (decide (peer = client)) as [Heq|Hne]; [left; split; [done|]|].
  { intros (p & d' & Hp & Hn & _). apply list_elem_of_singleton in Hp as ->. congruence. }
  destruct (receive_cb frames d) as [d' n] eqn:Hr. simpl. destruct (Z.gtb_spec n 0) as [Hn|Hn].
  - right. split; [done|]. exists peer, d. split_and!; try done; [set_solver|by rewrite Hr].
  - left. split; [done|]. intros (p & d0 & Hp & _ & Hd & _ & H0).
    apply list_elem_of_singleton in Hp as ->. rewrite E in Hd. injection Hd as <-.
    rewrite Hr in H0. simpl in H0. lia.
Qed.

Lemma accepted_ext client frames queue (devs devs' : gmap nat S) :
  (∀ p, p ∈ queue → devs' !! p = devs !! p) →
  accepted client frames queue devs' ↔ accepted client frames queue devs.
Proof.
  intros Heq. split; intros (p & d & Hp & Hn & Hd & Hr); exists p, d; split_and!; try done;
    [by rewrite <- Heq|apply Hr|apply Hr|by rewrite Heq|apply Hr|apply Hr].
Qed.

Lemma accepted_cons client frames peer queue (devs : gmap nat S) :
  accepted client frames (peer :: queue) devs ↔
  accepted client frames [peer] devs ∨ accepted client frames queue devs.
Proof.
  unfold accepted. setoid_rewrite elem_of_cons. setoid_rewrite elem_of_nil. split.
  - intros (p & d & [->|Hp] & Hrest); [left|right]; eauto.
  - intros [(p & d & [->|[]] & Hrest)|(p & d & Hp & Hrest)]; eauto.
Qed.

Lemma send_fold_ret client frames queue (devs : gmap nat S) ret :
  NoDup queue →
  let r := (fold_left (send_to_peer client frames) queue (devs, ret)).2 in
  r = ret ∧ ¬ accepted client frames queue devs ∨ r = 1 ∧ accepted client frames queue devs.
Proof.
  intros Hnd. revert devs ret. induction Hnd as [|peer queue Hni Hnd IH]; intros devs ret;
    cbv zeta; cbn [fold_left].
  { left. split; [done|]. intros (p & d & Hp & _). by apply elem_of_nil in Hp. }
  destruct (send_to_peer_ret client frames devs ret peer) as [Hoth Hret].
  destruct (send_to_peer client frames (devs, ret) peer) as [devs' ret']. cbn [fst snd] in *.
  specialize (IH devs' ret'). cbv zeta in IH.
  rewrite (accepted_ext client frames queue devs devs') in IH
    by (intros p Hp; apply Hoth; by intros ->).
  rewrite accepted_cons. set (r := (fold_left _ queue _).2) in *.
  clearbody r. destruct Hret as [[? ?]|[? ?]], IH as [[? ?]|[? ?]]; intuition congruence.
Qed.

(** Sending on the bus.  On a well-formed bus, a send hands the frames
    exactly once to every other client that is ready to receive and to nobody
    else, leaves every other device (the sender's included) unchanged, and
    returns 1 if some client accepted the frames and 0 otherwise; a client
    that is not attached gets -1 and nothing happens. *)
Lemma can_bus_send_correct net client frames (devs : gmap nat S) :
  net_wf net →
  match client_bus net !! client with
  | None => can_bus_client_send net client frames devs = (devs, -1)
  | Some bus =>
    let r := can_bus_client_send net client frames devs in
    (∀ p d, devs !! p = Some d → r.1 !! p =
       Some (if decide (p ∈ clients_of net bus ∧ p ≠ client) then
               if can_receive_cb d then (receive_cb frames d).1 else d
             else d)) ∧
    (∀ p, devs !! p = None → r.1 !! p = None) ∧
    (r.2 = 1 ∧ accepted client frames (clients_of net bus) devs ∨
     r.2 = 0 ∧ ¬ accepted client frames (clients_of net bus) devs)
  end.
Proof.
  intros Hwf. destruct (client_bus net !! client) as [bus|] eqn:Hb.
  - cbv zeta. split_and!.
    + intros p d Hd. rewrite (send_lookup net client frames devs bus) by done. by rewrite Hd.
    + intros p Hd. rewrite (send_lookup net client frames devs bus) by done. by rewrite Hd.
    + unfold can_bus_client_send. rewrite Hb.
      destruct (send_fold_ret client frames (clients_of net bus) devs 0) as [?|?];
        [apply Hwf|by right|by left].
  - unfold can_bus_client_send. by rewrite Hb.
Qed.
End Delivery.

(** ** Queues *)

(** The operations that change the queues, as the objects are used: a bus is
    initialised when it is created, a client inserted when it is detached. *)
Inductive net_step : CanNet → CanNet → Prop :=
| step_init net bus : buses net !! bus = None → net_step net (can_bus_instance_init bus net)
| step_insert net bus c : client_bus net !! c = None →
    net_step net (can_bus_insert_client bus c net).1
| step_remove net c : net_step net (can_bus_remove_client c net).1.

Definition empty_net : CanNet := mk_net ∅ ∅.

(** The bus queues are consistent.  After any sequence of bus creations,
    attachments and detachments, every client is in the queue of the bus its
    pointer names, once, and in no other queue. *)
Lemma can_bus_queues_consistent net :
  rtc net_step empty_net net → net_wf net.
Proof.
  intros H. assert (net_wf empty_net) as Hwf.
  { split; [intros; constructor|]. intros b c. unfold clients_of. simpl. rewrite !lookup_empty.
    simpl. rewrite elem_of_nil. naive_solver. }
  induction H as [net|net net' net'' Hs _ IH]; [done|]. apply IH.
  destruct Hs; auto using instance_init_wf, insert_client_wf, remove_client_wf.
Qed.

Lemma can_bus_queues_consistent_witness :
  net_wf (can_bus_remove_client 1
    (can_bus_insert_client 0 2
      (can_bus_insert_client 0 1 (can_bus_instance_init 0 empty_net)).1).1).1.
Proof.
  apply can_bus_queues_consistent.
  eapply rtc_l; [apply (step_init empty_net 0); reflexivity|].
  eapply rtc_l; [apply (step_insert _ 0 1); reflexivity|].
  eapply rtc_l; [apply (step_insert _ 0 2); reflexivity|].
  eapply rtc_l; [apply (step_remove _ 1)|]. apply rtc_refl.
Defined.

(** Length codes.  Converting a data length code to a length and back
    gives the code (its low nibble); converting a length gives the smallest
    code whose length holds it. *)
Lemma can_length_codes dlc len code :
  is_u8 dlc → 0 ≤ len ≤ 64 → 0 ≤ code ≤ 15 →
  can_len2dlc (can_dlc2len dlc) = Z.land dlc 0x0F ∧
  len ≤ can_dlc2len (can_len2dlc len) ∧
  (len ≤ can_dlc2len code → can_len2dlc len ≤ code).
Proof.
  intros Hd Hl Hc. split; [by apply dlc_len_dlc|]. by apply len_dlc_check.
Qed.

Lemma can_length_codes_witness :
  can_len2dlc (can_dlc2len 0xFD) = 13 ∧ 20 ≤ can_dlc2len (can_len2dlc 20) ∧
  (20 ≤ can_dlc2len 12 → can_len2dlc 20 ≤ 12).
Proof.
  apply (can_length_codes 0xFD 20 12); [split; vm_compute; congruence|lia|lia].
Defined.
