(* ===== verification/CanDev.v ===== *)
(** The CAN controller of the board: hw/net/can/can.c and
    include/hw/net/can.h.

    The state of a controller is its register file and its interrupt line.  A
    transmission runs the [receive] callback of the other controllers inside
    the guest's register write, so the operations that can transmit work on the
    map of all controllers, keyed by bus client. *)

From stdpp Require Import gmap.
From S2P Require Import Prelude Irq CanBus.

(** ** Registers and bits *)

Definition NREG : Z := 11.

Definition TFI : Z := 0x00.
Definition TID : Z := 0x04.
Definition TDA : Z := 0x08.
Definition TDB : Z := 0x0C.
Definition RFI : Z := 0x10.
Definition RID : Z := 0x14.
Definition RDA : Z := 0x18.
Definition RDB : Z := 0x1C.
Definition SR : Z := 0x20.
Definition CMR : Z := 0x24.
Definition IER : Z := 0x28.

Definition DLC_POS : Z := 16.
Definition DLC_MASK : Z := Z.shiftl 0xF DLC_POS.
Definition RTR : Z := bit 30.
Definition FF : Z := bit 31.

Definition IDS : Z := 0x7FF.
Definition IDE : Z := 0x1FFFFFFF.

Definition RBS : Z := bit 0.
Definition DOS : Z := bit 1.
Definition TBS : Z := bit 2.
Definition TCS : Z := bit 3.

Definition TR : Z := bit 0.
Definition RRB : Z := bit 2.
Definition CDO : Z := bit 3.

Definition RIE : Z := bit 0.
Definition TIE : Z := bit 1.
Definition DOIE : Z := bit 3.

(** ** State *)

Record CanState := mk_CanState {
  tfi : Z; tid : Z; tda : Z; tdb : Z;
  rfi : Z; rid : Z; rda : Z; rdb : Z;
  sr : Z; cmr : Z; ier : Z;
  irq : qemu_irq
}.

#[export] Instance eta_CanState : RecordEta CanState := fun s =>
  mk_CanState (tfi s) (tid s) (tda s) (tdb s) (rfi s) (rid s) (rda s) (rdb s)
    (sr s) (cmr s) (ier s) (irq s).

(** ** Interrupts and status bits *)

Definition level_condition (s : CanState) : bool :=
  truth (Z.land (Z.land (ier s) RIE) (Z.land (sr s) RBS)) ||
  truth (Z.land (Z.land (ier s) DOIE) (Z.land (sr s) DOS)).

Definition pulse_condition (s : CanState) : bool :=
  truth (Z.land (Z.land (ier s) TIE) (Z.land (sr s) TCS)).

Definition check_and_set_interrupt (s : CanState) : CanState :=
  if level_condition s then s <| irq ::= qemu_irq_raise |>
  else if pulse_condition s then s <| irq ::= qemu_irq_pulse |>
  else s.

Definition check_and_clear_interrupt (s : CanState) : CanState :=
  if negb (truth (Z.land (Z.land (ier s) RIE) (Z.land (sr s) RBS)) ||
           truth (Z.land (Z.land (ier s) TIE) (Z.land (sr s) TCS)) ||
           truth (Z.land (Z.land (ier s) DOIE) (Z.land (sr s) DOS)))
  then s <| irq ::= qemu_irq_lower |>
  else s.

Definition set_status_bit (s : CanState) (status_bit : Z) : CanState :=
  check_and_set_interrupt (s <| sr ::= fun r => Z.lor r status_bit |>).

Definition reset_status_bit (s : CanState) (status_bit : Z) : CanState :=
  check_and_clear_interrupt (s <| sr ::= fun r => Z.land r (not32 status_bit) |>).

(** ** Reception *)

Definition can_can_receive (s : CanState) : bool := true.

(** One iteration of the copy of the data bytes into RDA and RDB. *)
Definition receive_byte (data : list Z) (i : Z) (s : CanState) : CanState :=
  if i <? 4
  then s <| rda ::= fun r => Z.lor r (u32 (Z.shiftl (aget 0 data i) (i * 8))) |>
  else s <| rdb ::= fun r => Z.lor r (u32 (Z.shiftl (aget 0 data i) ((i - 4) * 8))) |>.

Definition can_receive (buf : qemu_can_frame) (s : CanState) : CanState * Z :=
  let id := can_id buf in
  let dlc := can_dlc buf in
  let data := fdata buf in
  let s := if has (sr s) RBS then set_status_bit s DOS else s in
  let s := s <| rid := Z.land id QEMU_CAN_EFF_MASK |> in
  let s := s <| rfi := Z.lor (Z.lor (Z.land id QEMU_CAN_EFF_FLAG)
                                    (Z.land id QEMU_CAN_RTR_FLAG))
                             (Z.land (Z.shiftl dlc DLC_POS) DLC_MASK) |> in
  let s := s <| rda := 0 |> <| rdb := 0 |> in
  let s := for_range 0 (Z.min dlc 8) (receive_byte data) s in
  let s := set_status_bit s RBS in
  (s, 0).

(** [can_bus_client_info]: the controller as a client of the bus.  The send
    loop passes a buffer of frames; the callback reads the first one. *)
#[export] Instance can_bus_client_info : CanBusClient CanState := {|
  can_receive_cb := can_can_receive;
  receive_cb := fun frames s =>
    match frames with
    | [] => (s, 0)
    | buf :: _ => can_receive buf s
    end
|}.

(** ** Register reads *)

Definition can_read (s : CanState) (addr : Z) : Z :=
  if addr =? RFI then rfi s
  else if addr =? RID then rid s
  else if addr =? RDA then rda s
  else if addr =? RDB then rdb s
  else if addr =? SR then sr s
  else if addr =? CMR then cmr s
  else if addr =? IER then ier s
  else 0.

(** ** Transmission *)

(** One iteration of the copy of TDA and TDB into the frame. *)
Definition transmit_byte (s : CanState) (i : Z) (data : list Z) : list Z :=
  aset data i
    (if i <? 4
     then Z.land (Z.shiftr (tda s) (i * 8)) 0xFF
     else Z.land (Z.shiftr (tdb s) ((i - 4) * 8)) 0xFF).

(** The frame [can_transmit] builds from the transmit registers. *)
Definition transmit_frame (s : CanState) : qemu_can_frame :=
  let id := 0 in
  let id := Z.lor id (Z.land (tfi s) RTR) in
  let id := Z.lor id (Z.land (tfi s) FF) in
  let id := if has (tfi s) FF
            then Z.lor id (Z.land (tid s) IDS)
            else Z.lor id (Z.land (tid s) IDE) in
  let dlc := if negb (has (tfi s) RTR)
             then u8 (Z.shiftr (Z.land (tfi s) DLC_MASK) DLC_POS) else 0 in
  {| can_id := id;
     can_dlc := dlc;
     flags := 0x00;
     fdata := for_range 0 (Z.min dlc 8) (transmit_byte s) (replicate 64 0) |}.

Abbreviation devices := (gmap nat CanState).

Definition can_transmit (net : CanNet) (client : nat) (devs : devices) : devices :=
  match devs !! client with
  | None => devs
  | Some s =>
    let devs := (can_bus_client_send net client [transmit_frame s] devs).1 in
    alter (fun s => set_status_bit s TCS) client devs
  end.

(** ** Register writes *)

Definition can_write_cmr (net : CanNet) (client : nat) (val : Z) (devs : devices) : devices :=
  let devs :=
    if has val RRB then
      alter (fun s => (reset_status_bit s RBS) <| cmr ::= fun r => Z.land r (not32 RRB) |>)
        client devs
    else devs in
  let devs :=
    if has val CDO then
      alter (fun s => (reset_status_bit s DOS) <| cmr ::= fun r => Z.land r (not32 CDO) |>)
        client devs
    else devs in
  if has val TR then
    let devs := alter (fun s => s <| cmr ::= fun r => Z.land r (not32 TR) |>) client devs in
    let devs := alter (fun s => reset_status_bit s TCS) client devs in
    can_transmit net client devs
  else devs.

Definition can_write_ier (val : Z) (s : CanState) : CanState :=
  let s := s <| ier := u32 (Z.land val 0x0F) |> in
  let s := check_and_set_interrupt s in
  check_and_clear_interrupt s.

Definition can_write (net : CanNet) (client : nat) (addr val : Z) (devs : devices) : devices :=
  if addr =? TFI then alter (fun s => s <| tfi := u32 val |>) client devs
  else if addr =? TID then alter (fun s => s <| tid := u32 val |>) client devs
  else if addr =? TDA then alter (fun s => s <| tda := u32 val |>) client devs
  else if addr =? TDB then alter (fun s => s <| tdb := u32 val |>) client devs
  else if addr =? CMR then can_write_cmr net client val devs
  else if addr =? IER then alter (can_write_ier val) client devs
  else devs.

(** ** Reset and realize *)

Definition can_reset (s : CanState) : CanState :=
  let s := s <| tfi := 0 |> <| tid := 0 |> <| tda := 0 |> <| tdb := 0 |> in
  let s := s <| rfi := 0 |> <| rid := 0 |> <| rda := 0 |> <| rdb := 0 |> in
  let s := s <| sr := 0 |> <| cmr := 0 |> <| ier := 0 |> in
  s <| irq ::= qemu_irq_lower |>.

Definition can_can_connect_to_bus (client bus : nat) (net : CanNet) : CanNet * Z :=
  let '(net, ret) := can_bus_insert_client bus client net in
  if ret <? 0 then (net, -1) else (net, 0).

(** [canbus] is the link property: [None] when the device has no bus. *)
Definition can_realize (client : nat) (canbus : option nat) (net : CanNet) : CanNet :=
  match canbus with
  | Some bus => (can_can_connect_to_bus client bus net).1
  | None => net
  end.

(** ** The interrupt condition

    TIE is bit 1 of IER and TCS bit 3 of SR, DOIE is bit 3 of IER and DOS bit 1
    of SR: the products of the masked registers that [check_and_set_interrupt]
    and [check_and_clear_interrupt] test can only be non-zero for the pair RIE
    and RBS. *)

Lemma level_condition_spec s :
  level_condition s = Z.testbit (ier s) 0 && Z.testbit (sr s) 0.
Proof.
  unfold level_condition, RIE, RBS, DOIE, DOS. rewrite !truth_land_bits by done.
  simpl. by rewrite orb_false_r.
Qed.

Lemma pulse_condition_spec s : pulse_condition s = false.
Proof. unfold pulse_condition, TIE, TCS. by rewrite truth_land_bits. Qed.

Lemma check_and_set_interrupt_spec s :
  check_and_set_interrupt s =
    if Z.testbit (ier s) 0 && Z.testbit (sr s) 0
    then s <| irq ::= qemu_irq_raise |> else s.
Proof.
  unfold check_and_set_interrupt.
  by rewrite level_condition_spec, pulse_condition_spec.
Qed.

Lemma check_and_clear_interrupt_spec s :
  check_and_clear_interrupt s =
    if Z.testbit (ier s) 0 && Z.testbit (sr s) 0
    then s else s <| irq ::= qemu_irq_lower |>.
Proof.
  unfold check_and_clear_interrupt, RIE, RBS, DOIE, DOS, TIE, TCS.
  rewrite !truth_land_bits by done. simpl. rewrite !orb_false_r.
  by destruct (_ && _).
Qed.

(** ** Well-formed controllers

    Besides the ranges, the invariant says that CMR always reads as zero, that
    SR holds only the bits RBS, DOS and TCS, and what the code makes of the
    interrupt line: of the three interrupts that README_CAN.md and the comments
    in can.c document, only the receive interrupt drives it. *)

Definition receive_interrupt (s : CanState) : bool :=
  Z.testbit (ier s) 0 && Z.testbit (sr s) 0.
Definition overrun_interrupt (s : CanState) : bool :=
  Z.testbit (ier s) 3 && Z.testbit (sr s) 1.
Definition transmit_interrupt (s : CanState) : bool :=
  Z.testbit (ier s) 1 && Z.testbit (sr s) 3.

(** An enabled interrupt whose status bit is set, as documented. *)
Definition documented_interrupt (s : CanState) : bool :=
  receive_interrupt s || overrun_interrupt s || transmit_interrupt s.

Record can_regs_wf (s : CanState) : Prop := {
  wf_tfi : is_u32 (tfi s); wf_tid : is_u32 (tid s);
  wf_tda : is_u32 (tda s); wf_tdb : is_u32 (tdb s);
  wf_rfi : is_u32 (rfi s); wf_rid : is_u32 (rid s);
  wf_rda : is_u32 (rda s); wf_rdb : is_u32 (rdb s);
  wf_sr : in_range 4 (sr s); wf_tbs : Z.testbit (sr s) 2 = false;
  wf_cmr : cmr s = 0;
  wf_ier : in_range 4 (ier s);
  wf_conn : connected (irq s)
}.

Definition can_wf (s : CanState) : Prop :=
  can_regs_wf s ∧ irq_level (irq s) = of_bool (receive_interrupt s).

Record frame_wf (f : qemu_can_frame) : Prop := {
  fwf_id : is_u32 (can_id f);
  fwf_dlc : is_u8 (can_dlc f);
  fwf_len : length (fdata f) = 64%nat;
  fwf_data : ∀ i, is_u8 (aget 0 (fdata f) i)
}.

Lemma set_clear_interrupt_wf s :
  can_regs_wf s → can_wf (check_and_clear_interrupt (check_and_set_interrupt s)).
Proof.
  intros []. rewrite check_and_set_interrupt_spec, check_and_clear_interrupt_spec.
  unfold can_wf, receive_interrupt.
  destruct (Z.testbit (ier s) 0 && Z.testbit (sr s) 0) eqn:E; simpl; rewrite E; simpl;
    rewrite ?E; (split; [constructor; simpl; auto with irq|]);
    [by apply irq_level_raise|by apply irq_level_lower].
Qed.

(** Setting bit [k] when the line agrees with the condition before. *)
Lemma can_set_status_bit_wf s k :
  can_wf s → k = 0 ∨ k = 1 ∨ k = 3 → can_wf (set_status_bit s (bit k)).
Proof.
  intros [Hwf Hl] Hk. unfold set_status_bit. rewrite check_and_set_interrupt_spec. simpl.
  assert (in_range 4 (Z.lor (sr s) (bit k))) as Hr.
  { apply lor_range; [done|apply Hwf|]. by destruct Hk as [->|[->| ->]]. }
  assert (Z.testbit (Z.lor (sr s) (bit k)) 2 = false) as Ht.
  { rewrite Z.lor_spec, wf_tbs, bit_spec by (done || lia). lia. }
  unfold can_wf, receive_interrupt in *. destruct Hwf.
  destruct (Z.testbit (ier s) 0 && Z.testbit (Z.lor (sr s) (bit k)) 0) eqn:E;
    simpl; rewrite E; (split; [constructor; simpl; auto with irq|]).
  - by apply irq_level_raise.
  - rewrite Hl. revert E. rewrite Z.lor_spec.
    destruct (Z.testbit (ier s) 0), (Z.testbit (sr s) 0); done.
Qed.

Lemma can_reset_status_bit_wf s b :
  can_wf s → can_wf (reset_status_bit s b).
Proof.
  intros [Hwf Hl]. unfold reset_status_bit. rewrite check_and_clear_interrupt_spec. simpl.
  assert (in_range 4 (Z.land (sr s) (not32 b))) as Hr.
  { apply land_range; [done|apply Hwf]. }
  assert (Z.testbit (Z.land (sr s) (not32 b)) 2 = false) as Ht.
  { by rewrite Z.land_spec, wf_tbs. }
  unfold can_wf, receive_interrupt in *. destruct Hwf.
  destruct (Z.testbit (ier s) 0 && Z.testbit (Z.land (sr s) (not32 b)) 0) eqn:E;
    simpl; rewrite E; (split; [constructor; simpl; auto with irq|]).
  - rewrite Hl. revert E. rewrite Z.land_spec.
    destruct (Z.testbit (ier s) 0), (Z.testbit (sr s) 0); done.
  - by apply irq_level_lower.
Qed.

(** Assignments to registers that the interrupt condition does not read. *)
Lemma regs_line_wf s s' :
  can_regs_wf s' → can_wf s → sr s' = sr s → ier s' = ier s → irq s' = irq s → can_wf s'.
Proof.
  intros Hr [_ Hl] H1 H2 H3. split; [done|]. unfold receive_interrupt.
  by rewrite H1, H2, H3.
Qed.

(** Close [can_wf] for an assignment of registers that the line ignores. *)
Ltac solve_regs :=
  match goal with
  | H : can_wf ?s |- can_wf _ =>
    apply (regs_line_wf s); [|exact H|reflexivity..];
    destruct H as [[] _]; constructor; simpl; auto with word
  end.

(** ** Every operation preserves the invariant *)

Lemma receive_byte_wf data i s : can_wf s → can_wf (receive_byte data i s).
Proof. intros Hs. unfold receive_byte. case_if; solve_regs. Qed.

Lemma receive_bytes_wf data n s :
  can_wf s → can_wf (for_range 0 (Z.min n 8) (receive_byte data) s).
Proof.
  intros Hs. destruct (Z.le_gt_cases (Z.min n 8) 0).
  { by rewrite for_range_nil. }
  apply (for_range_ind (fun _ => can_wf)); [lia|done|].
  intros i s' _. apply receive_byte_wf.
Qed.

Lemma can_receive_wf f s : is_u32 (can_id f) → can_wf s → can_wf (can_receive f s).1.
Proof.
  intros Hid Hs. unfold can_receive. simpl.
  apply (can_set_status_bit_wf _ 0); [|auto]. apply receive_bytes_wf.
  assert (can_wf (if has (sr s) RBS then set_status_bit s DOS else s)) as H.
  { case_if; [apply (can_set_status_bit_wf _ 1); auto|done]. }
  revert H. generalize (if has (sr s) RBS then set_status_bit s DOS else s).
  clear s Hs. intros s Hs. solve_regs.
  apply lor_range; [done|apply lor_range; auto with word|].
  apply land_range_r; [done|]. by vm_compute.
Qed.

Lemma receive_cb_wf fs s :
  Forall (fun f => is_u32 (can_id f)) fs → can_wf s → can_wf (receive_cb fs s).1.
Proof.
  intros Hfs Hs. destruct Hfs as [|f fs Hf Hfs]; [done|]. by apply can_receive_wf.
Qed.

Lemma transmit_frame_id_u32 s : can_regs_wf s → is_u32 (can_id (transmit_frame s)).
Proof.
  intros []. simpl. assert (∀ m, is_u32 (Z.land (tid s) m)) by auto with word.
  case_if; repeat apply lor_range; auto with word.
Qed.

Lemma can_reset_wf s : connected (irq s) → can_wf (can_reset s).
Proof.
  intros Hc. split.
  - constructor; simpl; auto with irq; done.
  - by apply irq_level_lower.
Qed.

Lemma alter_Forall {A} (P : A → Prop) f k (m : gmap nat A) :
  map_Forall (fun _ => P) m → (∀ x, m !! k = Some x → P x → P (f x)) →
  map_Forall (fun _ => P) (alter f k m).
Proof.
  intros Hm Hf j y. rewrite lookup_alter. case_decide; [|apply Hm].
  subst. rewrite fmap_Some. intros (x & Hx & ->). apply Hf; [done|]. by apply (Hm j).
Qed.

Abbreviation devices_wf devs := (map_Forall (fun _ : nat => can_wf) devs).

Lemma send_to_peer_wf client fs acc peer :
  Forall (fun f => is_u32 (can_id f)) fs →
  devices_wf acc.1 → devices_wf (send_to_peer client fs acc peer).1.
Proof.
  intros Hfs Hd. destruct acc as [devs ret]. unfold send_to_peer. simpl in *.
  destruct (devs !! peer) as [d|] eqn:E; [|done].
  destruct (decide (peer = client)); simpl; [done|].
  destruct (match fs with [] => _ | _ => _ end) as [d' cnt] eqn:Er. simpl.
  apply map_Forall_insert_2; [|done].
  pose proof (receive_cb_wf fs d Hfs (Hd _ _ E)) as H. simpl in H. by rewrite Er in H.
Qed.

Lemma can_bus_client_send_wf net client fs devs :
  Forall (fun f => is_u32 (can_id f)) fs →
  devices_wf devs → devices_wf (can_bus_client_send net client fs devs).1.
Proof.
  intros Hfs Hd. unfold can_bus_client_send.
  destruct (client_bus net !! client) as [bus|]; [|done].
  assert (∀ acc : devices * Z, devices_wf acc.1 →
    devices_wf (fold_left (send_to_peer client fs) (clients_of net bus) acc).1) as H.
  { induction (clients_of net bus); intros acc Ha; [done|].
    simpl. apply IHl. by apply send_to_peer_wf. }
  by apply H.
Qed.

Lemma can_transmit_wf net client devs :
  devices_wf devs → devices_wf (can_transmit net client devs).
Proof.
  intros Hd. unfold can_transmit. destruct (devs !! client) as [s|] eqn:E; [|done].
  apply alter_Forall.
  - apply can_bus_client_send_wf; [|done]. constructor; [|constructor].
    apply transmit_frame_id_u32. by apply (Hd _ _ E).
  - intros x _ Hx. apply (can_set_status_bit_wf _ 3); auto.
Qed.

Lemma reset_then_cmr_wf s b m :
  can_wf s → can_wf ((reset_status_bit s b) <| cmr ::= fun r => Z.land r m |>).
Proof.
  intros Hs. apply (can_reset_status_bit_wf s b) in Hs. revert Hs.
  generalize (reset_status_bit s b). clear s. intros s Hs. solve_regs.
  by rewrite wf_cmr0.
Qed.

Lemma can_write_cmr_wf net client val devs :
  devices_wf devs → devices_wf (can_write_cmr net client val devs).
Proof.
  intros Hd. unfold can_write_cmr.
  set (devs1 := if has val RRB then _ else _).
  assert (devices_wf devs1) as H1.
  { subst devs1. case_if; [|done]. apply alter_Forall; [done|].
    intros. by apply reset_then_cmr_wf. }
  set (devs2 := if has val CDO then _ else _).
  assert (devices_wf devs2) as H2.
  { subst devs2. case_if; [|done]. apply alter_Forall; [done|].
    intros. by apply reset_then_cmr_wf. }
  case_if; [|done]. apply can_transmit_wf.
  apply alter_Forall; [apply alter_Forall; [done|]|].
  - intros s _ Hs. solve_regs. by rewrite wf_cmr0.
  - intros. by apply can_reset_status_bit_wf.
Qed.

Lemma can_write_ier_wf val s : can_wf s → can_wf (can_write_ier val s).
Proof.
  intros [[] _]. unfold can_write_ier. apply set_clear_interrupt_wf.
  constructor; simpl; auto.
  rewrite wrap_small; [|apply (range_weaken 4); [lia|]];
    (apply land_range_r; [done|by vm_compute]).
Qed.

Lemma can_write_wf net client addr val devs :
  devices_wf devs → devices_wf (can_write net client addr val devs).
Proof.
  intros Hd. unfold can_write.
  repeat case_if; auto using can_write_cmr_wf;
    (apply alter_Forall; [done|]; intros s _ Hs; auto using can_write_ier_wf; solve_regs).
Qed.

(** ** What the operations compute *)

Lemma can_ext s s' :
  tfi s = tfi s' → tid s = tid s' → tda s = tda s' → tdb s = tdb s' →
  rfi s = rfi s' → rid s = rid s' → rda s = rda s' → rdb s = rdb s' →
  sr s = sr s' → cmr s = cmr s' → ier s = ier s' → irq s = irq s' → s = s'.
Proof. destruct s, s'. simpl. by intros -> -> -> -> -> -> -> -> -> -> -> ->. Qed.

(** Setting and clearing a status bit changes SR and the line only. *)
Lemma set_status_bit_frame s b :
  ∃ l, set_status_bit s b = s <| sr ::= fun r => Z.lor r b |> <| irq := l |>.
Proof.
  unfold set_status_bit. rewrite check_and_set_interrupt_spec.
  destruct s. case_if; by eexists.
Qed.

Lemma reset_status_bit_frame s b :
  ∃ l, reset_status_bit s b = s <| sr ::= fun r => Z.land r (not32 b) |> <| irq := l |>.
Proof.
  unfold reset_status_bit. rewrite check_and_clear_interrupt_spec.
  destruct s. case_if; by eexists.
Qed.

(** [data] holds, up to [n], the bytes of the two words [x] and [y]. *)
Definition holds_bytes (data : list Z) (n x y : Z) : Prop :=
  ∀ i, 0 ≤ i < n →
    aget 0 data i = if i <? 4 then Z.land (Z.shiftr x (i * 8)) 0xFF
                    else Z.land (Z.shiftr y ((i - 4) * 8)) 0xFF.

(** The low bytes of the two data words that [n] bytes cover. *)
Definition low_a (n x : Z) : Z := wrap (8 * Z.min n 4) x.
Definition low_b (n y : Z) : Z := wrap (8 * Z.max 0 (n - 4)) y.

Lemma receive_bytes_spec data n x y s :
  0 ≤ n ≤ 8 → holds_bytes data n x y → rda s = 0 → rdb s = 0 →
  for_range 0 n (receive_byte data) s = s <| rda := low_a n x |> <| rdb := low_b n y |>.
Proof.
  intros Hn Hd Ha Hb.
  apply (for_range_ind (fun i s' => s' = s <| rda := low_a i x |> <| rdb := low_b i y |>)).
  - lia.
  - destruct s. simpl in *. subst. unfold low_a, low_b, wrap. simpl. by rewrite !Z.mod_1_r.
  - intros i s' Hi ->. unfold receive_byte. rewrite Hd by lia.
    unfold low_a, low_b. destruct (Z.ltb_spec i 4) as [H4|H4]; apply can_ext; simpl; try done.
    + rewrite Z.min_l, (Z.mul_comm i) by lia. rewrite lor_next_byte by lia.
      f_equal. lia.
    + by rewrite !Z.max_l by lia.
    + by rewrite !Z.min_r by lia.
    + rewrite Z.max_r, (Z.mul_comm (i - 4)) by lia. rewrite lor_next_byte by lia.
      f_equal. lia.
Qed.

Lemma transmit_bytes_spec s n :
  0 ≤ n ≤ 8 →
  let data := for_range 0 n (transmit_byte s) (replicate 64 0) in
  alen data = 64 ∧ holds_bytes data n (tda s) (tdb s).
Proof.
  intros Hn. apply (for_range_ind (fun i data => alen data = 64 ∧
    holds_bytes data i (tda s) (tdb s))).
  - lia.
  - split; [done|]. intros i Hi. lia.
  - intros i data Hi [Hl Hd]. unfold transmit_byte. split; [by rewrite alen_aset|].
    intros j Hj. rewrite aget_aset by lia. destruct (Z.eqb_spec i j) as [<-|]; [done|].
    apply Hd. lia.
Qed.

(** The registers after the reception of a frame whose first [min dlc 8] bytes
    are those of [x] and [y]. *)
Lemma can_receive_spec f s x y :
  0 ≤ can_dlc f → holds_bytes (fdata f) (Z.min (can_dlc f) 8) x y →
  ∃ l, (can_receive f s).1 =
    s <| sr ::= fun r => Z.lor (if has r RBS then Z.lor r DOS else r) RBS |>
      <| rid := Z.land (can_id f) QEMU_CAN_EFF_MASK |>
      <| rfi := Z.lor (Z.lor (Z.land (can_id f) QEMU_CAN_EFF_FLAG)
                             (Z.land (can_id f) QEMU_CAN_RTR_FLAG))
                      (Z.land (Z.shiftl (can_dlc f) DLC_POS) DLC_MASK) |>
      <| rda := low_a (Z.min (can_dlc f) 8) x |>
      <| rdb := low_b (Z.min (can_dlc f) 8) y |>
      <| irq := l |>.
Proof.
  intros Hdlc Hd. unfold can_receive. cbn [fst].
  rewrite (receive_bytes_spec _ _ x y) by (done || lia).
  match goal with
  | |- context [set_status_bit ?t RBS] => destruct (set_status_bit_frame t RBS) as [l ->]
  end.
  exists l. apply can_ext; simpl; try reflexivity;
    (destruct (has (sr s) RBS); [|reflexivity]);
    destruct (set_status_bit_frame s DOS) as [l' ->]; reflexivity.
Qed.

(** The data length code field of a transmit frame info word. *)
Definition tfi_dlc (s : CanState) : Z := Z.land (Z.shiftr (tfi s) 16) 0xF.

Lemma tfi_dlc_range s : 0 ≤ tfi_dlc s < 16.
Proof.
  unfold tfi_dlc. change 0xF with (2 ^ 4 - 1). rewrite land_mask by done.
  by apply wrap_range.
Qed.

Lemma transmit_frame_dlc s :
  can_dlc (transmit_frame s) = if has (tfi s) RTR then 0 else tfi_dlc s.
Proof.
  simpl. destruct (has (tfi s) RTR); [done|]. simpl.
  unfold DLC_MASK, DLC_POS. rewrite Z.shiftr_land, Z.shiftr_shiftl_l by done.
  change (Z.shiftl 15 (16 - 16)) with 0xF. apply wrap_small.
  pose proof (tfi_dlc_range s). unfold tfi_dlc in *. split; [lia|].
  apply Z.lt_trans with 16; [lia|done].
Qed.

Lemma transmit_frame_data s :
  let n := Z.min (can_dlc (transmit_frame s)) 8 in
  holds_bytes (fdata (transmit_frame s)) n (tda s) (tdb s).
Proof.
  intros n. apply transmit_bytes_spec. subst n. rewrite transmit_frame_dlc.
  pose proof (tfi_dlc_range s). case_if; lia.
Qed.

(** The three fields of the identifier word of a transmitted frame. *)
Lemma transmit_frame_id s :
  let id := can_id (transmit_frame s) in
  Z.land id QEMU_CAN_EFF_FLAG = Z.land (tfi s) FF ∧
  Z.land id QEMU_CAN_RTR_FLAG = Z.land (tfi s) RTR ∧
  Z.land id QEMU_CAN_EFF_MASK =
    if has (tfi s) FF then Z.land (tid s) IDS else Z.land (tid s) IDE.
Proof.
  unfold transmit_frame, RTR, FF, IDS, IDE, QEMU_CAN_EFF_MASK. cbn [can_id].
  change 0x7FF with (2 ^ 11 - 1). change 0x1FFFFFFF with (2 ^ 29 - 1).
  change QEMU_CAN_EFF_FLAG with (bit 31). change QEMU_CAN_RTR_FLAG with (bit 30).
  rewrite !land_mask by done.
  split_and!; (destruct (has (tfi s) (bit 31)); zbitwise; cbn [orb];
    destruct (Z.eqb_spec 31 i), (Z.eqb_spec 30 i), (Z.ltb_spec i 29), (Z.ltb_spec i 11);
    try lia; cbn [andb]; rewrite ?andb_true_r, ?andb_false_r, ?orb_false_r; done).
Qed.

Lemma dlc_field d : 0 ≤ d < 16 →
  Z.land (Z.shiftl d DLC_POS) DLC_MASK = Z.shiftl d DLC_POS.
Proof.
  intros Hd. unfold DLC_MASK. rewrite <- Z.shiftl_land. f_equal.
  change 0xF with (2 ^ 4 - 1). rewrite land_mask by done. by apply wrap_small.
Qed.

(** The other controllers of the bus receive the frame; the sender only gets
    TCS. *)
Lemma can_transmit_peer net bus c p s d (devs : devices) :
  net_wf net → client_bus net !! c = Some bus → client_bus net !! p = Some bus →
  p ≠ c → devs !! c = Some s → devs !! p = Some d →
  can_transmit net c devs !! p = Some (can_receive (transmit_frame s) d).1.
Proof.
  intros Hwf Hc Hp Hne Hs Hd. unfold can_transmit. rewrite Hs.
  rewrite lookup_alter_ne by done. erewrite send_lookup by done. rewrite Hd. simpl.
  rewrite delivered_peer by (done || by apply Hwf). done.
Qed.

Lemma can_transmit_self net c s (devs : devices) :
  net_wf net → devs !! c = Some s →
  can_transmit net c devs !! c = Some (set_status_bit s TCS).
Proof.
  intros Hwf Hs. unfold can_transmit. rewrite Hs. rewrite lookup_alter_eq.
  destruct (client_bus net !! c) as [bus|] eqn:Hb.
  - erewrite send_lookup by done. rewrite Hs. simpl. by rewrite delivered_other by auto.
  - unfold can_bus_client_send. rewrite Hb. simpl. by rewrite Hs.
Qed.

(** ** The controllers as a transition system

    What can happen to the controllers of a network: a guest write to any
    offset, a frame put on the bus from outside, a reset. *)

Inductive can_step (net : CanNet) : devices → devices → Prop :=
| can_step_write client addr val devs :
    can_step net devs (can_write net client addr val devs)
| can_step_receive client f devs :
    is_u32 (can_id f) →
    can_step net devs (alter (fun s => (can_receive f s).1) client devs)
| can_step_reset client devs :
    can_step net devs (alter can_reset client devs).

(** Controllers as [can_reset] leaves them. *)
Definition just_reset (devs : devices) : Prop :=
  map_Forall (fun _ s => ∃ s0, connected (irq s0) ∧ s = can_reset s0) devs.

Lemma can_step_wf net devs devs' :
  can_step net devs devs' → devices_wf devs → devices_wf devs'.
Proof.
  intros Hs Hd. destruct Hs.
  - by apply can_write_wf.
  - apply alter_Forall; [done|]. intros. by apply can_receive_wf.
  - apply alter_Forall; [done|]. intros x _ [[] _]. by apply can_reset_wf.
Qed.

(** What the documentation asks of the line, for the receive interrupt and
    against spurious ones. *)
Lemma can_wf_line s : can_wf s →
  (receive_interrupt s = true → irq_level (irq s) = 1) ∧
  (irq_level (irq s) ≠ 0 → documented_interrupt s = true).
Proof.
  intros [_ ->]. unfold documented_interrupt. by destruct (receive_interrupt s).
Qed.


(** A controller with a connected line and all registers zero. *)
Definition can_zero : CanState := mk_CanState 0 0 0 0 0 0 0 0 0 0 0 (Some []).

(** Two controllers on one bus, as the board wires them. *)
Definition two_net : CanNet :=
  can_realize 1 (Some 0%nat)
    (can_realize 0 (Some 0%nat) (can_bus_instance_init 0 (mk_net ∅ ∅))).
Definition two_devs : devices := <[0%nat := can_reset can_zero]> {[1%nat := can_reset can_zero]}.

Lemma two_net_wf : net_wf two_net.
Proof.
  apply (insert_client_wf _ 0 1); [|done]. apply (insert_client_wf _ 0 0); [|done].
  apply instance_init_wf; [|done]. split; [constructor|]. intros. split; [|done]. set_solver.
Qed.

Lemma two_devs_reset : just_reset two_devs.
Proof.
  assert (connected (irq can_zero)) by (by eexists).
  apply map_Forall_insert_2; [|apply map_Forall_singleton]; by exists can_zero.
Qed.


(** The writer of CMR with TR alone, after the frame has been sent. *)
Definition tr_done (s : CanState) : CanState :=
  set_status_bit (reset_status_bit (s <| cmr ::= fun r => Z.land r (not32 TR) |>) TCS) TCS.

Lemma tr_done_fields s :
  (tfi (tr_done s), tid (tr_done s), tda (tr_done s), tdb (tr_done s), rfi (tr_done s),
   rid (tr_done s), rda (tr_done s), rdb (tr_done s), ier (tr_done s)) =
  (tfi s, tid s, tda s, tdb s, rfi s, rid s, rda s, rdb s, ier s) ∧
  Z.testbit (sr (tr_done s)) 0 = Z.testbit (sr s) 0.
Proof.
  unfold tr_done. set (s0 := s <| cmr ::= _ |>).
  destruct (reset_status_bit_frame s0 TCS) as [l Hl].
  destruct (set_status_bit_frame (reset_status_bit s0 TCS) TCS) as [l' ->]. rewrite Hl.
  split; [done|]. simpl. unfold TCS.
  rewrite Z.lor_spec, Z.land_spec, not32_spec, !bit_spec by lia. simpl. by rewrite andb_true_r, orb_false_r.
Qed.

Lemma can_write_tr net bus c p s d (devs : devices) :
  net_wf net → client_bus net !! c = Some bus → client_bus net !! p = Some bus →
  p ≠ c → devs !! c = Some s → devs !! p = Some d →
  can_write net c CMR TR devs !! c = Some (tr_done s) ∧
  can_write net c CMR TR devs !! p = Some (can_receive (transmit_frame s) d).1.
Proof.
  intros Hwf Hc Hp Hne Hs Hd.
  change (can_write net c CMR TR devs) with (can_transmit net c
    (alter (fun s => reset_status_bit s TCS) c
       (alter (fun s => s <| cmr ::= fun r => Z.land r (not32 TR) |>) c devs))).
  set (s0 := s <| cmr ::= fun r => Z.land r (not32 TR) |>).
  destruct (reset_status_bit_frame s0 TCS) as [l Hl].
  set (devs1 := alter _ c (alter _ c devs)).
  assert (devs1 !! c = Some (reset_status_bit s0 TCS)) as H1
    by (unfold devs1; by rewrite !lookup_alter_eq, Hs).
  assert (devs1 !! p = Some d) as H2 by (unfold devs1; by rewrite !lookup_alter_ne by done).
  rewrite (can_transmit_self net c _ devs1 Hwf H1).
  rewrite (can_transmit_peer net bus c p _ d devs1 Hwf Hc Hp Hne H1 H2).
  split; [done|]. by rewrite Hl.
Qed.

Lemma receive_data_frame s d :
  has (tfi s) RTR = false →
  let d' := (can_receive (transmit_frame s) d).1 in
  rda d' = wrap (8 * Z.min (tfi_dlc s) 4) (tda s) ∧
  rdb d' = wrap (8 * Z.max 0 (Z.min (tfi_dlc s) 8 - 4)) (tdb s) ∧
  rfi d' = Z.lor (Z.land (tfi s) FF) (Z.shiftl (tfi_dlc s) DLC_POS) ∧
  Z.testbit (sr d') 0 = true ∧
  Z.testbit (sr d') 1 = Z.testbit (sr d) 1 || Z.testbit (sr d) 0 ∧
  (tfi d', tid d', tda d', tdb d', ier d') = (tfi d, tid d, tda d, tdb d, ier d).
Proof.
  intros Hrtr. cbv zeta.
  pose proof (transmit_frame_dlc s) as Hdlc. rewrite Hrtr in Hdlc.
  pose proof (tfi_dlc_range s).
  destruct (can_receive_spec (transmit_frame s) d (tda s) (tdb s)) as [l ->].
  { rewrite Hdlc. lia. }
  { apply transmit_frame_data. }
  destruct (transmit_frame_id s) as (He & Hr & _).
  cbn [rda rdb rfi sr tfi tid tda tdb ier update]. rewrite Hdlc, He, Hr.
  replace (Z.land (tfi s) RTR) with 0.
  2: { unfold has, truth in Hrtr. lia. }
  rewrite Z.lor_0_r, dlc_field by done. unfold low_a, low_b, RBS, DOS.
  split_and!; try done.
  - by rewrite <- Z.min_assoc.
  - rewrite Z.lor_spec, bit_spec by done. apply orb_true_r.
  - rewrite Z.lor_spec, bit_spec, has_bit by done. rewrite orb_false_r.
    destruct (Z.testbit (sr d) 0).
    + rewrite Z.lor_spec, bit_spec by done. by rewrite !orb_true_r.
    + by rewrite orb_false_r.
Qed.

(** C6.  a transmission of a data frame is received by every other controller
    of the bus: the bytes the data length code covers (at most eight) are those
    of TDA and TDB and the others read as zero, RFI carries FF and the code,
    RBS is set, and DOS is set if RBS already was; the transmit registers of
    the receiver do not change. *)
Theorem can_transmit_received net bus c p s d (devs : devices) :
  net_wf net → client_bus net !! c = Some bus → client_bus net !! p = Some bus →
  p ≠ c → devs !! c = Some s → devs !! p = Some d →
  has (tfi s) RTR = false →
  ∃ d', can_transmit net c devs !! p = Some d' ∧
    rda d' = wrap (8 * Z.min (tfi_dlc s) 4) (tda s) ∧
    rdb d' = wrap (8 * Z.max 0 (Z.min (tfi_dlc s) 8 - 4)) (tdb s) ∧
    rfi d' = Z.lor (Z.land (tfi s) FF) (Z.shiftl (tfi_dlc s) DLC_POS) ∧
    Z.testbit (sr d') 0 = true ∧
    Z.testbit (sr d') 1 = Z.testbit (sr d) 1 || Z.testbit (sr d) 0 ∧
    (tfi d', tid d', tda d', tdb d', ier d') = (tfi d, tid d, tda d, tdb d, ier d).
Proof.
  intros Hwf Hc Hp Hne Hs Hd Hrtr. eexists. split; [by eapply can_transmit_peer|].
  by apply receive_data_frame.
Qed.

(** Controller 0 holding an eight-byte data frame, controller 1 just reset. *)
Definition loaded : CanState :=
  (can_reset can_zero) <| tfi := Z.shiftl 8 16 |> <| tid := 0x123 |>
    <| tda := 0x44434241 |> <| tdb := 0x48474645 |>.
Definition loaded_devs : devices := <[0%nat := loaded]> two_devs.

Lemma can_transmit_received_witness :
  ∃ d', can_transmit two_net 0 loaded_devs !! 1%nat = Some d' ∧
    rda d' = 0x44434241 ∧ rdb d' = 0x48474645.
Proof.
  destruct (can_transmit_received two_net 0 0 1 loaded (can_reset can_zero) loaded_devs)
    as (d' & H & Ha & Hb & _); [exact two_net_wf|done..|].
  exists d'. split; [exact H|]. rewrite Ha, Hb. split; reflexivity.
Defined.

(** the identifier a receiver sees.  With FF clear the 29 low bits of TID
    arrive; with FF set, which the register description calls the extended
    frame format with a 29-bit identifier, only the 11 low bits do. *)
Lemma can_transmit_identifier net bus c p s d (devs : devices) :
  net_wf net → client_bus net !! c = Some bus → client_bus net !! p = Some bus →
  p ≠ c → devs !! c = Some s → devs !! p = Some d →
  ∃ d', can_transmit net c devs !! p = Some d' ∧
    rid d' = if Z.testbit (tfi s) 31 then wrap 11 (tid s) else wrap 29 (tid s).
Proof.
  intros Hwf Hc Hp Hne Hs Hd. eexists. split; [by eapply can_transmit_peer|].
  pose proof (transmit_frame_dlc s) as Hdlc. pose proof (tfi_dlc_range s).
  destruct (can_receive_spec (transmit_frame s) d (tda s) (tdb s)) as [l ->].
  { rewrite Hdlc. case_if; lia. }
  { apply transmit_frame_data. }
  destruct (transmit_frame_id s) as (_ & _ & Hi). cbn [rid update]. rewrite Hi.
  unfold FF. rewrite has_bit by done. unfold IDS, IDE.
  change 0x7FF with (2 ^ 11 - 1). change 0x1FFFFFFF with (2 ^ 29 - 1).
  by rewrite !land_mask.
Qed.

Lemma can_transmit_identifier_witness :
  ∃ d', can_transmit two_net 0
          (<[0%nat := loaded <| tfi := FF |> <| tid := 0x18DAF110 |>]> two_devs) !! 1%nat
        = Some d' ∧ rid d' = 0x110.
Proof.
  destruct (can_transmit_identifier two_net 0 0 1
    (loaded <| tfi := FF |> <| tid := 0x18DAF110 |>) (can_reset can_zero)
    (<[0%nat := loaded <| tfi := FF |> <| tid := 0x18DAF110 |>]> two_devs))
    as (d' & H & Hi); [exact two_net_wf|done..|].
  exists d'. split; [exact H|]. rewrite Hi. reflexivity.
Defined.

(** a remote frame reaches the receivers with a zero data length code and
    no data, whatever the DLC field of TFI asks for. *)
Lemma can_remote_frame_received net bus c p s d (devs : devices) :
  net_wf net → client_bus net !! c = Some bus → client_bus net !! p = Some bus →
  p ≠ c → devs !! c = Some s → devs !! p = Some d →
  Z.testbit (tfi s) 30 = true →
  ∃ d', can_transmit net c devs !! p = Some d' ∧
    rfi d' = Z.lor (Z.land (tfi s) FF) RTR ∧ rda d' = 0 ∧ rdb d' = 0.
Proof.
  intros Hwf Hc Hp Hne Hs Hd Hr. eexists. split; [by eapply can_transmit_peer|].
  pose proof (transmit_frame_dlc s) as Hdlc. unfold RTR in Hdlc at 1.
  rewrite has_bit, Hr in Hdlc by done.
  destruct (can_receive_spec (transmit_frame s) d (tda s) (tdb s)) as [l ->].
  { rewrite Hdlc. lia. }
  { apply transmit_frame_data. }
  destruct (transmit_frame_id s) as (He & Hrt & _).
  cbn [rfi rda rdb update]. rewrite Hdlc, He, Hrt.
  split_and!; [|apply Z.mod_1_r..].
  rewrite dlc_field, Z.lor_0_r by done. f_equal.
  unfold RTR. zbitwise. destruct (Z.eqb_spec 30 i) as [<-|]; [by rewrite Hr|].
  apply andb_false_r.
Qed.

Lemma can_remote_frame_received_witness :
  ∃ d', can_transmit two_net 0
          (<[0%nat := loaded <| tfi ::= fun r => Z.lor r RTR |>]> two_devs) !! 1%nat
        = Some d' ∧ rfi d' = RTR.
Proof.
  destruct (can_remote_frame_received two_net 0 0 1
    (loaded <| tfi ::= fun r => Z.lor r RTR |>) (can_reset can_zero)
    (<[0%nat := loaded <| tfi ::= fun r => Z.lor r RTR |>]> two_devs))
    as (d' & H & Hi & _); [exact two_net_wf|done..|].
  exists d'. split; [exact H|]. rewrite Hi. reflexivity.
Defined.

(** with RIE clear no status bit ever drives the interrupt line, whatever
    TIE and DOIE are: the transmit-complete and data-overrun interrupts of IER
    are never signalled. *)
Lemma tie_doie_never_signal s status_bit :
  Z.testbit (ier s) 0 = false → irq (set_status_bit s status_bit) = irq s.
Proof.
  intros H. unfold set_status_bit. rewrite check_and_set_interrupt_spec. simpl.
  by rewrite H.
Qed.

Lemma tie_doie_never_signal_witness :
  irq (set_status_bit (loaded <| ier := Z.lor TIE DOIE |>) TCS) = irq loaded.
Proof. exact (tie_doie_never_signal (loaded <| ier := Z.lor TIE DOIE |>) TCS eq_refl). Defined.

Lemma alter_Some {A} (f : A → A) k (m : gmap nat A) x :
  m !! k = Some x → alter f k m = <[k := f x]> m.
Proof.
  intros Hx. apply map_eq. intros j. rewrite lookup_alter, lookup_insert.
  case_decide; [subst|done]. by rewrite Hx.
Qed.

Lemma alter_if {A} (b : bool) (f : A → A) k (m : gmap nat A) :
  (if b then alter f k m else m) = alter (if b then f else id) k m.
Proof.
  destruct b; [done|]. apply map_eq. intros j. rewrite lookup_alter.
  case_decide; [subst|done]. by destruct (m !! j).
Qed.

(** The RRB and CDO commands, taken or not. *)
Lemma release_if_spec (b : bool) st m s :
  can_wf s →
  ∃ s' l, (if b then fun s => (reset_status_bit s st) <| cmr ::= fun r => Z.land r m |>
           else id) s = s' ∧
    s' = s <| sr ::= fun r => if b then Z.land r (not32 st) else r |> <| irq := l |> ∧
    can_wf s'.
Proof.
  intros Hs. destruct b.
  - destruct (reset_status_bit_frame s st) as [l E]. eexists _, l. split; [done|].
    split; [|by apply reset_then_cmr_wf]. rewrite E. pose proof (wf_cmr s (proj1 Hs)) as Hc.
    apply can_ext; simpl; rewrite ?Hc; done.
  - exists s, (irq s). split; [done|]. split; [by apply can_ext|done].
Qed.

Lemma release_write net c val s :
  can_wf s → Z.testbit val 0 = false →
  ∃ s', (∀ devs : devices, devs !! c = Some s → can_write net c CMR val devs = <[c := s']> devs) ∧
    (∀ i, 0 ≤ i → Z.testbit (sr s') i = Z.testbit (sr s) i &&
       negb (((i =? 0) && Z.testbit val 2) || ((i =? 1) && Z.testbit val 3))) ∧
    irq_level (irq s') = of_bool (Z.testbit (ier s) 0 && Z.testbit (sr s') 0) ∧
    (tfi s', tid s', tda s', tdb s', rfi s', rid s', rda s', rdb s', cmr s', ier s') =
    (tfi s, tid s, tda s, tdb s, rfi s, rid s, rda s, rdb s, cmr s, ier s).
Proof.
  intros Hwf Htr.
  destruct (release_if_spec (Z.testbit val 2) RBS (not32 (bit 2)) s Hwf)
    as (s1 & l1 & H1 & E1 & Hwf1).
  destruct (release_if_spec (Z.testbit val 3) DOS (not32 (bit 3)) s1 Hwf1)
    as (s2 & l2 & H2 & E2 & [Hr2 Hl2]).
  exists s2. split.
  { intros devs Hs. unfold can_write. simpl. unfold can_write_cmr, RRB, CDO, TR.
    rewrite !has_bit, Htr by done. rewrite !alter_if, (alter_Some _ _ _ s Hs), H1.
    rewrite (alter_Some _ _ _ s1) by apply lookup_insert_eq. by rewrite H2, insert_insert_eq. }
  clear H1 H2. subst s2 s1. simpl in *. split_and!; try done. intros i Hi. unfold RBS, DOS.
  assert ((i <? 32) = false → Z.testbit (sr s) i = false) as Hhi.
  { intros. apply (testbit_above 4); [apply Hwf|lia]. }
  revert Hhi. destruct (Z.testbit val 2), (Z.testbit val 3); autorewrite with zbits;
    rewrite ?(Z.eqb_sym i 0), ?(Z.eqb_sym i 1); destruct (i <? 32); intros Hhi;
    rewrite ?(Hhi eq_refl); destruct (0 =? i), (1 =? i), (Z.testbit (sr s) i); done.
Qed.

(** a command write without TR clears RBS when RRB is set and DOS when CDO
    is set, changes no other status bit, no other register and no other
    controller, and leaves the line high only if RIE and RBS still are. *)
Lemma can_release_commands net c val s (devs : devices) :
  devs !! c = Some s → can_wf s → Z.testbit val 0 = false →
  ∃ s', can_write net c CMR val devs = <[c := s']> devs ∧
    (∀ i, 0 ≤ i → Z.testbit (sr s') i = Z.testbit (sr s) i &&
       negb (((i =? 0) && Z.testbit val 2) || ((i =? 1) && Z.testbit val 3))) ∧
    irq_level (irq s') = of_bool (Z.testbit (ier s) 0 && Z.testbit (sr s') 0) ∧
    (tfi s', tid s', tda s', tdb s', rfi s', rid s', rda s', rdb s', cmr s', ier s') =
    (tfi s, tid s, tda s, tdb s, rfi s, rid s, rda s, rdb s, cmr s, ier s).
Proof.
  intros Hs Hwf Htr. destruct (release_write net c val s Hwf Htr) as (s' & Hw & H).
  exists s'. split; [by apply Hw|exact H].
Qed.

Lemma can_release_commands_witness :
  ∃ s', can_write two_net 1 CMR (Z.lor RRB CDO)
          (<[1%nat := (can_receive (transmit_frame loaded) (can_reset can_zero)).1]> two_devs)
        !! 1%nat = Some s' ∧ sr s' = 0.
Proof.
  pose (d := (can_receive (transmit_frame loaded) (can_reset can_zero)).1).
  destruct (can_release_commands two_net 1 (Z.lor RRB CDO) d (<[1%nat := d]> two_devs))
    as (s' & H & Hsr & _).
  - apply lookup_insert_eq.
  - apply can_receive_wf; [by vm_compute|]. apply can_reset_wf. by eexists.
  - reflexivity.
  - exists s'. split; [fold d; rewrite H; apply lookup_insert_eq|].
    apply Z.bits_inj'. intros i Hi. rewrite Hsr, Z.bits_0 by done.
    change (sr d) with (bit 0). rewrite bit_spec by done.
    destruct (Z.eqb_spec 0 i) as [<-|]; reflexivity.
Defined.

(** Controller 0 sends to controller 1; the callback returns 0, so the result of
    the send does too. *)
Lemma can_bus_send_correct_witness :
  (can_bus_client_send two_net 0 [transmit_frame can_zero] two_devs).1 !! 1%nat =
    Some (can_receive (transmit_frame can_zero) (can_reset can_zero)).1 ∧
  (can_bus_client_send two_net 0 [transmit_frame can_zero] two_devs).2 = 0.
Proof.
  destruct (can_bus_send_correct two_net 0 [transmit_frame can_zero] two_devs two_net_wf)
    as (Hd & _ & [[Hr _]|[Hr _]]).
  - vm_compute in Hr. discriminate Hr.
  - split; [|exact Hr]. rewrite (Hd 1%nat (can_reset can_zero) eq_refl). vm_compute. reflexivity.
Defined.
