(* ===== verification/Timer.v ===== *)
(** Timer lists: util/qemu-timer.c.

    A timer list is the queue of its active timers, each with its expiry time;
    a timer that is not in the queue has [expire_time == -1].  Callbacks run
    with the list unlocked and can re-arm timers, so running the list threads
    the world the callbacks change. *)

From S2P Require Import Prelude.
From Stdlib Require Import Sorted.
From stdpp Require Import sets.
#[local] Open Scope Z_scope.

(** [active_timers]: timers with their [expire_time], in list order. *)
Abbreviation TimerList T := (list (T * Z)).

Section TimerList.
Context {T : Type} `{EqDecision T}.

(** [ts->expire_time]. *)
Fixpoint expire_time (tl : TimerList T) (ts : T) : Z :=
  match tl with
  | [] => -1
  | (t, e) :: tl => if decide (t = ts) then e else expire_time tl ts
  end.

Definition timer_expired_ns (head : option (T * Z)) (current_time : Z) : bool :=
  match head with
  | None => false
  | Some (_, e) => e <=? current_time
  end.

Fixpoint timer_del_locked (tl : TimerList T) (ts : T) : TimerList T :=
  match tl with
  | [] => []
  | (t, e) :: tl => if decide (t = ts) then tl else (t, e) :: timer_del_locked tl ts
  end.

(** The new queue, and whether the timer became its head. *)
Fixpoint timer_mod_ns_locked (tl : TimerList T) (ts : T) (expire : Z) : TimerList T * bool :=
  match tl with
  | hd :: tl' =>
    if timer_expired_ns (Some hd) expire
    then (hd :: (timer_mod_ns_locked tl' ts expire).1, false)
    else ((ts, Z.max expire 0) :: tl, true)
  | [] => ([(ts, Z.max expire 0)], true)
  end.

Definition timer_del (tl : TimerList T) (ts : T) : TimerList T := timer_del_locked tl ts.

Definition timer_mod_ns (tl : TimerList T) (ts : T) (expire : Z) : TimerList T :=
  (timer_mod_ns_locked (timer_del_locked tl ts) ts expire).1.

Definition timer_mod_anticipate_ns (tl : TimerList T) (ts : T) (expire : Z) : TimerList T :=
  let old := expire_time tl ts in
  if (old =? -1) || (old >? expire) then
    let tl := if negb (old =? -1) then timer_del_locked tl ts else tl in
    (timer_mod_ns_locked tl ts expire).1
  else tl.

(** Timers created with [timer_new_ns] have scale 1. *)
Definition timer_mod (scale : Z) (tl : TimerList T) (ts : T) (expire : Z) : TimerList T :=
  timer_mod_ns tl ts (expire * scale).

Definition timer_pending (tl : TimerList T) (ts : T) : bool := 0 <=? expire_time tl ts.

Section Run.
Context {W : Type}.
(** The list lives in the world the callbacks change. *)
Context (get : W → TimerList T) (set : TimerList T → W → W).
Context (cb : T → W → W).

(** The loop of [timerlist_run_timers] on the virtual clock (enabled, no
    record/replay); [None] when the fuel runs out. *)
Fixpoint timerlist_run_timers (fuel : nat) (current_time : Z) (w : W) (progress : bool)
  : option (W * bool) :=
  match get w with
  | [] => Some (w, progress)
  | (ts, e) :: rest =>
    if negb (timer_expired_ns (Some (ts, e)) current_time) then Some (w, progress)
    else
      match fuel with
      | O => None
      | S fuel =>
        timerlist_run_timers fuel current_time (cb ts (set rest w)) true
      end
  end.
End Run.
End TimerList.

#[global] Arguments timer_mod_ns : simpl never.
#[global] Arguments timer_pending : simpl never.

(** ** The queue stays sorted, with no timer twice *)

Section Laws.
Context {T : Type} `{EqDecision T}.
Implicit Types (tl : TimerList T) (ts : T).

Definition sorted tl : Prop := StronglySorted (fun a b => a.2 ≤ b.2) tl.

Record timers_wf tl : Prop := {
  twf_sorted : sorted tl;
  twf_nodup : NoDup tl.*1;
  twf_pos : Forall (fun a => 0 ≤ a.2) tl
}.

Lemma timer_del_sub tl ts a : a ∈ timer_del_locked tl ts → a ∈ tl.
Proof.
  induction tl as [|[t e] tl IH]; simpl; [done|]. case_decide; set_solver.
Qed.

Lemma timer_del_wf tl ts : timers_wf tl → timers_wf (timer_del_locked tl ts).
Proof.
  induction tl as [|[t e] tl IH]; intros [Hs Hn Hp]; [done|].
  apply StronglySorted_inv in Hs as [Hs Ha].
  rewrite fmap_cons, NoDup_cons in Hn. destruct Hn as [Hni Hn]. apply Forall_cons in Hp as [He Hp].
  assert (timers_wf tl) as Hwf by done. simpl. case_decide; [done|].
  destruct (IH Hwf) as [Hs' Hn' Hp']. split.
  - constructor; [done|]. rewrite Forall_forall in Ha |- *.
    intros a Hin. eapply Ha, timer_del_sub. done.
  - rewrite fmap_cons. apply NoDup_cons. split; [|done]. intros Hin. apply Hni.
    rewrite list_elem_of_fmap in Hin |- *. destruct Hin as (a & -> & Hin).
    exists a. split; [done|]. by eapply timer_del_sub.
  - by constructor.
Qed.

Lemma timer_del_not_in tl ts : NoDup tl.*1 → ts ∉ (timer_del_locked tl ts).*1.
Proof.
  induction tl as [|[t e] tl IH]; simpl; intros Hn; [set_solver|].
  apply NoDup_cons in Hn as [Hni Hn]. case_decide; [by subst|].
  simpl. set_solver.
Qed.

Lemma timer_mod_locked_elem tl ts expire a :
  a ∈ (timer_mod_ns_locked tl ts expire).1 ↔ a = (ts, Z.max expire 0) ∨ a ∈ tl.
Proof.
  induction tl as [|[t e] tl IH]; simpl; [set_solver|].
  destruct (e <=? expire); simpl; set_solver.
Qed.

Lemma timer_mod_locked_wf tl ts expire :
  timers_wf tl → ts ∉ tl.*1 → timers_wf (timer_mod_ns_locked tl ts expire).1.
Proof.
  induction tl as [|[t e] tl IH]; intros [Hs Hn Hp] Hni.
  - split; simpl; [repeat constructor|apply NoDup_singleton|].
    apply Forall_singleton. simpl. lia.
  - apply Forall_cons in Hp as Hp'. destruct Hp' as [He Hp']. simpl in He |- *.
    destruct (Z.leb_spec e expire) as [Hle|Hlt].
    + apply StronglySorted_inv in Hs as [Hs Ha]. rewrite fmap_cons, NoDup_cons in Hn. destruct Hn as [Hnt Hn].
      destruct IH as [Hs' Hn' Hp'']; [done|set_solver|]. split.
      * constructor; [done|]. rewrite Forall_forall in Ha |- *. intros a.
        rewrite timer_mod_locked_elem. intros [->|Hin]; [simpl; lia|by apply Ha].
      * csimpl. apply NoDup_cons. split; [|done]. rewrite list_elem_of_fmap.
        intros (a & -> & Hin). rewrite timer_mod_locked_elem in Hin.
        destruct Hin as [->|Hin]; [set_solver|]. apply Hnt.
        rewrite list_elem_of_fmap. by exists a.
      * by constructor.
    + split; simpl.
      * constructor; [done|]. apply StronglySorted_inv in Hs as [_ Ha].
        constructor; [simpl; lia|]. eapply Forall_impl; [exact Ha|].
        intros a Hle. simpl in *. lia.
      * by apply NoDup_cons.
      * constructor; [simpl; lia|done].
Qed.

Lemma timer_mod_ns_wf tl ts expire : timers_wf tl → timers_wf (timer_mod_ns tl ts expire).
Proof.
  intros Hwf. apply timer_mod_locked_wf; [by apply timer_del_wf|].
  apply timer_del_not_in, Hwf.
Qed.

Lemma timer_del_absent tl ts : ts ∉ tl.*1 → timer_del_locked tl ts = tl.
Proof.
  induction tl as [|[t e] tl IH]; csimpl; intros Hni; [done|].
  rewrite decide_False by set_solver. f_equal. set_solver.
Qed.

Lemma expire_time_absent tl ts : ts ∉ tl.*1 → expire_time tl ts = -1.
Proof.
  induction tl as [|[t e] tl IH]; csimpl; intros Hni; [done|].
  rewrite decide_False by set_solver. set_solver.
Qed.

Lemma expire_time_mod_locked tl ts expire ts' :
  ts ∉ tl.*1 →
  expire_time (timer_mod_ns_locked tl ts expire).1 ts' =
    if decide (ts = ts') then Z.max expire 0 else expire_time tl ts'.
Proof.
  induction tl as [|[t e] tl IH]; csimpl; intros Hni; [done|].
  destruct (e <=? expire); simpl; [|done].
  destruct (decide (t = ts')), (decide (ts = ts')); subst; set_solver.
Qed.

Lemma expire_time_del tl ts ts' :
  NoDup tl.*1 →
  expire_time (timer_del_locked tl ts) ts' = if decide (ts = ts') then -1 else expire_time tl ts'.
Proof.
  intros Hn. destruct (decide (ts = ts')) as [<-|Hne].
  { apply expire_time_absent, timer_del_not_in, Hn. }
  induction tl as [|[t e] tl IH]; csimpl; [done|].
  rewrite fmap_cons, NoDup_cons in Hn. destruct Hn as [_ Hn].
  destruct (decide (t = ts)) as [->|]; [by rewrite decide_False|].
  simpl. case_decide; auto.
Qed.

(** Re-arming sets the timer's expiry, clipped at 0, and no other. *)
Lemma expire_time_mod tl ts expire ts' :
  timers_wf tl →
  expire_time (timer_mod_ns tl ts expire) ts' =
    if decide (ts = ts') then Z.max expire 0 else expire_time tl ts'.
Proof.
  intros Hwf. unfold timer_mod_ns.
  rewrite expire_time_mod_locked by apply timer_del_not_in, Hwf.
  case_decide; [done|]. rewrite expire_time_del by apply Hwf. by rewrite decide_False.
Qed.

(** The timers that have expired at [now]. *)
Definition expired (now : Z) tl : TimerList T := filter (fun a => a.2 ≤ now) tl.

Lemma expired_none now tl : Forall (fun a => now < a.2) tl → expired now tl = [].
Proof.
  induction 1 as [|a tl Ha _ IH]; [done|]. unfold expired.
  rewrite filter_cons_False by lia. exact IH.
Qed.

Lemma sorted_after now a tl :
  sorted (a :: tl) → now < a.2 → Forall (fun a => now < a.2) (a :: tl).
Proof.
  intros [_ Ha]%StronglySorted_inv Hlt. constructor; [done|].
  eapply Forall_impl; [exact Ha|]. simpl. lia.
Qed.

(** Arming an inactive timer in the future leaves the expired ones alone. *)
Lemma expired_mod_future now tl ts expire :
  ts ∉ tl.*1 → now < expire → expired now (timer_mod_ns tl ts expire) = expired now tl.
Proof.
  intros Hni Hlt. unfold timer_mod_ns. rewrite timer_del_absent by done. clear Hni.
  unfold expired. induction tl as [|[t e] tl IH]; simpl.
  - by rewrite filter_cons_False by (simpl; lia).
  - destruct (e <=? expire); simpl.
    + rewrite !filter_cons. case_decide; by rewrite IH.
    + by rewrite (filter_cons_False _ (ts, _)) by (simpl; lia).
Qed.

Lemma expired_cons now a tl :
  expired now (a :: tl) = if decide (a.2 ≤ now) then a :: expired now tl else expired now tl.
Proof. unfold expired. by rewrite filter_cons. Qed.

Lemma not_in_expired now tl ts : ts ∉ tl.*1 → ts ∉ (expired now tl).*1.
Proof.
  intros Hni Hin. apply Hni. rewrite list_elem_of_fmap in Hin |- *.
  destruct Hin as (a & -> & [_ Hin]%list_elem_of_filter). by exists a.
Qed.

(** A timer is among the expired ones when it is pending with a deadline past. *)
Lemma in_expired now tl ts :
  timers_wf tl →
  ts ∈ (expired now tl).*1 ↔ timer_pending tl ts = true ∧ expire_time tl ts ≤ now.
Proof.
  unfold timer_pending. rewrite Z.leb_le. intros [_ Hn Hp].
  induction tl as [|[t e] tl IH]; simpl.
  { split; [by intros ?%elem_of_nil|lia]. }
  rewrite fmap_cons, NoDup_cons in Hn. destruct Hn as [Hni Hn].
  apply Forall_cons in Hp as [He Hp]. simpl in He, Hni. rewrite expired_cons. simpl.
  destruct (decide (t = ts)) as [->|Hne].
  - case_decide; csimpl; [split; [lia|by left]|]. split; [|lia].
    intros Hin. by apply (not_in_expired now) in Hni.
  - rewrite <- IH by done. case_decide; csimpl; [|done]. rewrite elem_of_cons. naive_solver.
Qed.

Lemma timers_wf_tail a tl : timers_wf (a :: tl) → timers_wf tl ∧ a.1 ∉ tl.*1.
Proof.
  intros [Hs Hn Hp]. rewrite fmap_cons, NoDup_cons in Hn. destruct Hn as [Hni Hn].
  apply StronglySorted_inv in Hs as [Hs _]. apply Forall_cons in Hp as [_ Hp]. done.
Qed.
End Laws.

(** ** Running the list

    Callbacks that keep the invariant and touch only timers of the future make
    the loop terminate, having fired exactly the timers expired at the start,
    in the order of the list. *)

Section RunLaws.
Context {T : Type} `{EqDecision T} {W : Type}.
Context (get : W → TimerList T) (set : TimerList T → W → W) (cb : T → W → W).
Context (I : W → Prop) (now : Z).
Hypothesis get_set : ∀ tl w, get (set tl w) = tl.
Hypothesis I_wf : ∀ w, I w → timers_wf (get w).
Hypothesis I_pop : ∀ w a tl, I w → get w = a :: tl → I (set tl w).
Hypothesis cb_I : ∀ ts w, I w → ts ∉ (get w).*1 → I (cb ts w).
Hypothesis cb_future : ∀ ts w,
  I w → ts ∉ (get w).*1 → expired now (get (cb ts w)) = expired now (get w).

(** Take the timer off the list and run its callback. *)
Definition fire (w : W) (a : T * Z) : W := cb a.1 (set (tail (get w)) w).

Lemma fire_expired w a rest :
  I w → get w = a :: rest → I (fire w a) ∧ expired now (get (fire w a)) = expired now rest.
Proof.
  intros HI Hget. unfold fire. rewrite Hget. simpl.
  pose proof (I_wf w HI) as Hwf. rewrite Hget in Hwf.
  destruct (timers_wf_tail _ _ Hwf) as [Hwf' Hni].
  assert (I (set rest w)) as HI1 by (eapply I_pop; done). split.
  - apply cb_I; rewrite ?get_set; done.
  - rewrite cb_future; rewrite ?get_set; done.
Qed.

(** Induction over the callbacks of one run: [P l w] holds before the expired
    timers [l] fire. *)
Lemma run_timers_ind (P : TimerList T → W → Prop) w :
  (∀ w a rest, I w → get w = a :: rest → a.2 ≤ now →
     P (a :: expired now rest) w → P (expired now rest) (fire w a)) →
  I w → P (expired now (get w)) w → P [] (foldl fire w (expired now (get w))).
Proof.
  intros Hstep. remember (expired now (get w)) as l eqn:Hl. revert w Hl.
  induction l as [|a l IH]; intros w Hl HI HP; [done|]. simpl.
  pose proof (I_wf w HI) as Hwf.
  destruct (get w) as [|b rest] eqn:Hget; [done|].
  destruct (Z.le_gt_cases b.2 now) as [Hle|Hgt].
  - unfold expired in Hl. rewrite filter_cons_True in Hl by done.
    fold (expired now rest) in Hl. injection Hl as -> ->.
    destruct (fire_expired w b rest HI Hget) as [HI' Hexp].
    apply IH; [done..|]. by apply Hstep.
  - pose proof (sorted_after now _ _ (twf_sorted _ Hwf) Hgt) as Hall.
    by rewrite (expired_none _ _ Hall) in Hl.
Qed.

Lemma run_timers_expired fuel w p :
  I w → (length (expired now (get w)) ≤ fuel)%nat →
  let w' := foldl fire w (expired now (get w)) in
  timerlist_run_timers get set cb fuel now w p =
    Some (w', p || bool_decide (expired now (get w) ≠ [])) ∧
  I w' ∧ Forall (fun a => now < a.2) (get w').
Proof.
  revert w p. induction fuel as [|fuel IH]; intros w p HI Hlen;
    pose proof (I_wf w HI) as Hwf; simpl;
    destruct (get w) as [|[ts e] rest] eqn:Hget.
  1,3: simpl; rewrite orb_false_r, Hget; auto.
  - destruct (Z.leb_spec e now) as [Hle|Hlt].
    + unfold expired in Hlen. rewrite filter_cons_True in Hlen by done. simpl in Hlen. lia.
    + pose proof (sorted_after now _ _ (twf_sorted _ Hwf) Hlt) as Hall.
      rewrite (expired_none _ _ Hall). simpl. rewrite orb_false_r, Hget. auto.
  - destruct (Z.leb_spec e now) as [Hle|Hlt]; simpl.
    + assert (expired now ((ts, e) :: rest) = (ts, e) :: expired now rest) as Hcons
        by (apply filter_cons_True; done).
      rewrite Hcons in Hlen |- *. simpl in Hlen.
      destruct (fire_expired w (ts, e) rest HI Hget) as [HI1 Hexp].
      assert (cb ts (set rest w) = fire w (ts, e)) as Hf by (unfold fire; by rewrite Hget).
      destruct (IH (fire w (ts, e)) true) as (Hrun & HI' & Hall).
      { done. }
      { rewrite Hexp. lia. }
      rewrite Hexp in Hrun, HI', Hall. simpl.
      rewrite Hf.
      replace (bool_decide ((ts, e) :: expired now rest ≠ [])) with true by done.
      by rewrite Hrun, orb_true_r.
    + pose proof (sorted_after now _ _ (twf_sorted _ Hwf) Hlt) as Hall.
      rewrite (expired_none _ _ Hall). simpl. rewrite orb_false_r, Hget. auto.
Qed.
End RunLaws.

(** ** The queue implements a table of deadlines *)

Inductive timer_op (T : Type) :=
| OpMod (ts : T) (expire : Z)
| OpAnticipate (ts : T) (expire : Z)
| OpDel (ts : T).
Arguments OpMod {T}.
Arguments OpAnticipate {T}.
Arguments OpDel {T}.

Section Table.
Context {T : Type} `{EqDecision T}.
Implicit Types (tl : TimerList T).

Definition timer_apply tl (op : timer_op T) : TimerList T :=
  match op with
  | OpMod ts e => timer_mod_ns tl ts e
  | OpAnticipate ts e => timer_mod_anticipate_ns tl ts e
  | OpDel ts => timer_del tl ts
  end.

(** A deadline per timer, -1 for none. *)
Definition set_deadline (d : T → Z) (ts : T) (e : Z) (ts' : T) : Z :=
  if decide (ts = ts') then e else d ts'.

Definition deadline_apply (d : T → Z) (op : timer_op T) : T → Z :=
  match op with
  | OpMod ts e => set_deadline d ts (Z.max e 0)
  | OpAnticipate ts e =>
    if decide (d ts = -1 ∨ e < d ts) then set_deadline d ts (Z.max e 0) else d
  | OpDel ts => set_deadline d ts (-1)
  end.

Lemma anticipate_eq tl ts e : timers_wf tl →
  timer_mod_anticipate_ns tl ts e =
    if decide (expire_time tl ts = -1 ∨ e < expire_time tl ts) then timer_mod_ns tl ts e else tl.
Proof.
  intros Hwf. unfold timer_mod_anticipate_ns.
  destruct (Z.eqb_spec (expire_time tl ts) (-1)) as [H1|H1]; simpl.
  - rewrite decide_True by auto. unfold timer_mod_ns.
    rewrite timer_del_absent; [done|]. intros Hin.
    apply list_elem_of_fmap in Hin as ([t x] & -> & Hin).
    pose proof (twf_pos _ Hwf) as Hpos. rewrite Forall_forall in Hpos.
    assert (expire_time tl t = x) as Hx; [|specialize (Hpos _ Hin); simpl in *; lia].
    clear H1 Hpos. pose proof (twf_nodup _ Hwf) as Hnd. clear Hwf.
    induction tl as [|[t' x'] tl IH]; [by apply elem_of_nil in Hin|]. csimpl in *.
    apply NoDup_cons in Hnd as [Hni Hnd]. apply elem_of_cons in Hin as [[= -> ->]|Hin];
      [by rewrite decide_True|]. rewrite decide_False; [by apply IH|].
    intros ->. apply Hni, list_elem_of_fmap. by exists (t, x).
  - destruct (Z.gtb_spec (expire_time tl ts) e).
    + rewrite decide_True by lia. done.
    + rewrite decide_False by lia. done.
Qed.

Lemma timer_apply_spec tl op : timers_wf tl →
  timers_wf (timer_apply tl op) ∧
  ∀ ts, expire_time (timer_apply tl op) ts = deadline_apply (expire_time tl) op ts.
Proof.
  intros Hwf. destruct op as [ts e|ts e|ts]; simpl.
  - split; [by apply timer_mod_ns_wf|]. intros ts'. by rewrite expire_time_mod.
  - rewrite anticipate_eq by done. case_decide; [|done].
    split; [by apply timer_mod_ns_wf|]. intros ts'. by rewrite expire_time_mod.
  - split; [by apply timer_del_wf|]. intros ts'. by apply expire_time_del, Hwf.
Qed.

(** The queue of active timers.  After any sequence of arming, advancing
    and deleting timers, the queue is sorted by deadline and holds each timer
    at most once, and the deadline of every timer is the one a table of
    deadlines would hold: the last one set (clipped at 0), the earlier of the
    two for an anticipation, none after a deletion. *)
Lemma timer_queue_correct (ops : list (timer_op T)) :
  let tl := foldl timer_apply [] ops in
  timers_wf tl ∧ ∀ ts, expire_time tl ts = foldl deadline_apply (fun _ => -1) ops ts.
Proof.
  cbv zeta. induction ops as [|op ops IH] using rev_ind.
  { split; [|done]. split; [constructor|constructor|constructor]. }
  rewrite !foldl_app. simpl. destruct IH as [Hwf Heq].
  destruct (timer_apply_spec _ op Hwf) as [Hwf' Heq']. split; [done|]. intros ts.
  rewrite Heq'. destruct op; simpl; unfold set_deadline; rewrite ?Heq; repeat case_decide; done || auto.
Qed.
End Table.
