(* ===== verification/UartDev.v ===== *)
(** The UART: qemu/hw/char/uart.c and qemu/include/hw/char/uart.h.

    [UartState] is the device structure.  The character backend is the log of
    the calls the device makes on it; the two timers are entries of a timer
    list ([Timer.v]); the virtual clock is an argument of the operations that
    read it.  [update_params] divides by guest-controlled values, so the
    operations that call it return an [outcome]. *)

From S2P Require Import Prelude Irq Timer.

(** ** Registers and bits *)

Definition RXDATA : Z := 0x00.
Definition TXDATA : Z := 0x04.
Definition STATUS : Z := 0x08.
Definition CONTROL : Z := 0x0C.
Definition DIVISOR : Z := 0x10.

Definition PE : Z := bit 0.
Definition FE : Z := bit 1.
Definition BRK : Z := bit 2.
Definition ROE : Z := bit 3.
Definition TOE : Z := bit 4.
Definition TMT : Z := bit 5.
Definition TRDY : Z := bit 6.
Definition RRDY : Z := bit 7.
Definition E : Z := bit 8.

Definition CLK_FREQ : Z := 115200.
Definition NANOSECONDS_PER_SECOND : Z := 1000000000.

Inductive timer_id := rx_timer | tx_timer.

#[export] Instance timer_id_eq_dec : EqDecision timer_id.
Proof. solve_decision. Defined.

(** Calls on the character backend. *)
Inductive chr_event :=
| ChrWrite (ch : Z)
| ChrAcceptInput
| ChrSetParams (speed parity data_bits stop_bits : Z).

Record UartState := mk_UartState {
  timers : TimerList timer_id;
  can_receive : Z;
  clk_freq : Z; baudrate : Z; char_tx_time : Z; frame_size : Z;
  rxdata : Z; txdata : Z; status : Z; control : Z; divisor : Z;
  tx_shift_register : Z; rx_shift_register : Z;
  irq : qemu_irq;
  chr : list chr_event
}.

#[export] Instance eta_UartState : RecordEta UartState := fun s =>
  mk_UartState (timers s) (can_receive s) (clk_freq s) (baudrate s) (char_tx_time s)
    (frame_size s) (rxdata s) (txdata s) (status s) (control s) (divisor s)
    (tx_shift_register s) (rx_shift_register s) (irq s) (chr s).

(** ** Interrupts and status bits *)

Definition check_and_set_interrupt (s : UartState) : UartState :=
  if has (control s) (status s) then s <| irq ::= qemu_irq_raise |> else s.

Definition check_and_clear_interrupt (s : UartState) : UartState :=
  if negb (has (control s) (status s)) then s <| irq ::= qemu_irq_lower |> else s.

Definition error_bits : Z := Z.lor (Z.lor (Z.lor (Z.lor PE FE) BRK) ROE) TOE.

Definition set_status_bit (s : UartState) (status_bit : Z) : UartState :=
  let s := s <| status ::= fun r => Z.lor r status_bit |> in
  let s := if has (status s) error_bits then s <| status ::= fun r => Z.lor r E |> else s in
  check_and_set_interrupt s.

Definition reset_status_bit (s : UartState) (status_bit : Z) : UartState :=
  let s := s <| status ::= fun r => Z.land r (not32 status_bit) |> in
  check_and_clear_interrupt s.

(** ** Line parameters and the character clock *)

(** C division of unsigned integers. *)
Definition udiv (x y : Z) : outcome Z :=
  if y =? 0 then Abort DivideByZero else Ok (x / y).

(** [divisor + 1] is a [uint32_t], the other operands are [uint64_t]. *)
Definition update_params (s : UartState) : outcome UartState :=
  br ← udiv (clk_freq s) (u32 (divisor s + 1));
  let s := s <| baudrate := br |> in
  let s := s <| frame_size := 1 + 8 + 1 + 1 |> in
  ns ← udiv NANOSECONDS_PER_SECOND (baudrate s);
  let s := s <| char_tx_time := u64 (ns * frame_size s) |> in
  mret (s <| chr ::= fun l => l ++ [ChrSetParams (i32 br) 0x45 8 1] |>).

Definition wait_for_ch_tx_time (now : Z) (s : UartState) (timer : timer_id) : UartState :=
  s <| timers ::= fun tl => timer_mod 1 tl timer (i64 (now + char_tx_time s)) |>.

Definition timeout_rx (s : UartState) : UartState :=
  let s := s <| rxdata := rx_shift_register s |> in
  let s := s <| can_receive := 1 |> in
  if has (status s) RRDY then set_status_bit s ROE
  else set_status_bit s RRDY.

Definition timeout_tx (now : Z) (s : UartState) : UartState :=
  let ch := tx_shift_register s in
  let s := s <| chr ::= fun l => l ++ [ChrWrite ch] |> in
  if negb (has (status s) TRDY) then
    let s := reset_status_bit s TMT in
    let s := set_status_bit s TRDY in
    let s := s <| tx_shift_register := u8 (txdata s) |> in
    wait_for_ch_tx_time now s tx_timer
  else set_status_bit s TMT.

(** The callback of each timer. *)
Definition uart_timer_cb (now : Z) (timer : timer_id) (s : UartState) : UartState :=
  match timer with
  | rx_timer => timeout_rx s
  | tx_timer => timeout_tx now s
  end.

(** ** Reset, input and register accesses *)

Definition uart_reset (s : UartState) : outcome UartState :=
  let s := s <| rxdata := 0 |> <| txdata := 0 |> in
  let s := s <| status := Z.lor (Z.lor 0 TRDY) TMT |> in
  let s := s <| control := 0 |> <| divisor := 1 |> in
  let s := s <| can_receive := 1 |> in
  let s := s <| irq ::= qemu_irq_lower |> in
  let s := s <| chr ::= fun l => l ++ [ChrAcceptInput] |> in
  update_params s.

Definition uart_can_receive (s : UartState) : Z := 1.

(** [buf] holds the one character that [uart_can_receive] allows. *)
Definition uart_receive (now : Z) (buf : Z) (s : UartState) : UartState :=
  if truth (can_receive s) then
    let s := s <| rx_shift_register := buf |> in
    let s := s <| can_receive := 0 |> in
    let s := wait_for_ch_tx_time now s rx_timer in
    s <| chr ::= fun l => l ++ [ChrAcceptInput] |>
  else s.

Definition uart_read (addr : Z) (s : UartState) : UartState * Z :=
  if addr =? RXDATA then
    let retvalue := Z.land (rxdata s) 0xFF in
    (reset_status_bit s RRDY, retvalue)
  else if addr =? TXDATA then (s, 0)
  else if addr =? STATUS then (s, status s)
  else if addr =? CONTROL then (s, control s)
  else if addr =? DIVISOR then (s, divisor s)
  else (s, 0).

(** The [TXDATA] case of [uart_write]. *)
Definition uart_write_txdata (now val : Z) (s : UartState) : UartState :=
  let s := s <| txdata := u32 val |> in
  if has (status s) TMT then
    let s := reset_status_bit s TMT in
    let s := set_status_bit s TRDY in
    let s := s <| tx_shift_register := u8 (txdata s) |> in
    wait_for_ch_tx_time now s tx_timer
  else if negb (has (status s) TRDY) then set_status_bit s TOE
  else reset_status_bit s TRDY.

Definition uart_write (now addr val : Z) (s : UartState) : outcome UartState :=
  if addr =? RXDATA then mret s
  else if addr =? TXDATA then mret (uart_write_txdata now val s)
  else if addr =? STATUS then
    mret (check_and_clear_interrupt (check_and_set_interrupt (s <| status := u32 val |>)))
  else if addr =? CONTROL then
    mret (check_and_clear_interrupt (check_and_set_interrupt (s <| control := u32 val |>)))
  else if addr =? DIVISOR then update_params (s <| divisor := u32 val |>)
  else mret s.

(** [uart_init] on a zeroed object whose interrupt line is connected; no timer
    is active. *)
Definition uart_init (line : qemu_irq) : UartState :=
  mk_UartState [] 0 CLK_FREQ 0 0 0 0 0 0 0 0 0 0 line [].

Definition uart_realize (s : UartState) : outcome UartState := uart_reset s.

Definition set_timers (tl : TimerList timer_id) (s : UartState) : UartState :=
  s <| timers := tl |>.

(** The main loop runs the timers that have expired at [now]; each of the two
    fires at most once as a callback re-arms only in the future. *)
Definition uart_run_timers (now : Z) (s : UartState) : option (UartState * bool) :=
  timerlist_run_timers timers set_timers (uart_timer_cb now) 2 now s false.

(** ** Effects of the status operations *)

(** The STATUS value [set_status_bit] leaves. *)
Definition status_set (st b : Z) : Z :=
  if has (Z.lor st b) error_bits then Z.lor (Z.lor st b) E else Z.lor st b.

Definition line_condition (s : UartState) : bool := has (control s) (status s).

Lemma set_status_bit_eq s b :
  set_status_bit s b =
    s <| status := status_set (status s) b |>
      <| irq ::= fun i => if has (control s) (status_set (status s) b)
                         then qemu_irq_raise i else i |>.
Proof.
  destruct s. unfold set_status_bit, check_and_set_interrupt, status_set. simpl.
  repeat (case_if; simpl in *); congruence || reflexivity.
Qed.

Lemma reset_status_bit_eq s b :
  reset_status_bit s b =
    s <| status := Z.land (status s) (not32 b) |>
      <| irq ::= fun i => if has (control s) (Z.land (status s) (not32 b))
                         then i else qemu_irq_lower i |>.
Proof.
  destruct s. unfold reset_status_bit, check_and_clear_interrupt. simpl.
  repeat (case_if; simpl in *); congruence || reflexivity.
Qed.

#[global] Arguments set_status_bit : simpl never.
#[global] Arguments reset_status_bit : simpl never.

Lemma status_set_spec st b i : 0 ≤ i → i ≠ 8 →
  Z.testbit (status_set st b) i = Z.testbit st i || Z.testbit b i.
Proof.
  intros Hi Hne. unfold status_set. case_if; rewrite ?Z.lor_spec; [|done].
  unfold E. rewrite bit_spec by lia. destruct (Z.eqb_spec 8 i); [lia|].
  by rewrite orb_false_r.
Qed.

Lemma status_set_range st b : is_u32 st → is_u32 b → is_u32 (status_set st b).
Proof. intros. unfold status_set. case_if; repeat apply lor_range; auto with word. Qed.

(** The fields the status operations leave alone. *)

Lemma set_bit_timers s b : timers (set_status_bit s b) = timers s.
Proof. by rewrite set_status_bit_eq. Qed.
Lemma set_bit_can_receive s b : can_receive (set_status_bit s b) = can_receive s.
Proof. by rewrite set_status_bit_eq. Qed.
Lemma set_bit_char_tx_time s b : char_tx_time (set_status_bit s b) = char_tx_time s.
Proof. by rewrite set_status_bit_eq. Qed.
Lemma set_bit_rxdata s b : rxdata (set_status_bit s b) = rxdata s.
Proof. by rewrite set_status_bit_eq. Qed.
Lemma set_bit_txdata s b : txdata (set_status_bit s b) = txdata s.
Proof. by rewrite set_status_bit_eq. Qed.
Lemma set_bit_control s b : control (set_status_bit s b) = control s.
Proof. by rewrite set_status_bit_eq. Qed.
Lemma set_bit_tx_shift_register s b : tx_shift_register (set_status_bit s b) = tx_shift_register s.
Proof. by rewrite set_status_bit_eq. Qed.
Lemma set_bit_rx_shift_register s b : rx_shift_register (set_status_bit s b) = rx_shift_register s.
Proof. by rewrite set_status_bit_eq. Qed.
Lemma set_bit_chr s b : chr (set_status_bit s b) = chr s.
Proof. by rewrite set_status_bit_eq. Qed.
Lemma reset_bit_timers s b : timers (reset_status_bit s b) = timers s.
Proof. by rewrite reset_status_bit_eq. Qed.
Lemma reset_bit_can_receive s b : can_receive (reset_status_bit s b) = can_receive s.
Proof. by rewrite reset_status_bit_eq. Qed.
Lemma reset_bit_char_tx_time s b : char_tx_time (reset_status_bit s b) = char_tx_time s.
Proof. by rewrite reset_status_bit_eq. Qed.
Lemma reset_bit_rxdata s b : rxdata (reset_status_bit s b) = rxdata s.
Proof. by rewrite reset_status_bit_eq. Qed.
Lemma reset_bit_txdata s b : txdata (reset_status_bit s b) = txdata s.
Proof. by rewrite reset_status_bit_eq. Qed.
Lemma reset_bit_control s b : control (reset_status_bit s b) = control s.
Proof. by rewrite reset_status_bit_eq. Qed.
Lemma reset_bit_tx_shift_register s b : tx_shift_register (reset_status_bit s b) = tx_shift_register s.
Proof. by rewrite reset_status_bit_eq. Qed.
Lemma reset_bit_rx_shift_register s b : rx_shift_register (reset_status_bit s b) = rx_shift_register s.
Proof. by rewrite reset_status_bit_eq. Qed.
Lemma reset_bit_chr s b : chr (reset_status_bit s b) = chr s.
Proof. by rewrite reset_status_bit_eq. Qed.
Lemma set_bit_status s b : status (set_status_bit s b) = status_set (status s) b.
Proof. by rewrite set_status_bit_eq. Qed.
Lemma reset_bit_status s b : status (reset_status_bit s b) = Z.land (status s) (not32 b).
Proof. by rewrite reset_status_bit_eq. Qed.

Create Rewrite HintDb uartf.
#[global] Hint Rewrite set_bit_timers set_bit_can_receive set_bit_char_tx_time set_bit_rxdata set_bit_txdata
  set_bit_control set_bit_tx_shift_register set_bit_rx_shift_register set_bit_chr
  set_bit_status reset_bit_timers reset_bit_can_receive reset_bit_char_tx_time
  reset_bit_rxdata reset_bit_txdata reset_bit_control reset_bit_tx_shift_register
  reset_bit_rx_shift_register reset_bit_chr reset_bit_status : uartf.

Lemma has_mono c st st' :
  (∀ i, 0 ≤ i → Z.testbit st i = true → Z.testbit st' i = true) →
  has c st = true → has c st' = true.
Proof.
  unfold has, truth. intros Hsub. rewrite !negb_true_iff, !Z.eqb_neq. intros Hne H0. apply Hne.
  apply Z.bits_inj'. intros i Hi. apply (f_equal (fun z => Z.testbit z i)) in H0.
  rewrite Z.land_spec, Z.bits_0 in *. specialize (Hsub i Hi).
  destruct (Z.testbit c i), (Z.testbit st i); try done.
  rewrite Hsub in H0 by done. done.
Qed.

Lemma has_status_set c st b : has c st = true → has c (status_set st b) = true.
Proof.
  apply has_mono. intros i Hi Hb. unfold status_set. case_if; rewrite ?Z.lor_spec, ?Hb; done.
Qed.

Lemma has_status_reset c st b : has c (Z.land st b) = true → has c st = true.
Proof.
  apply has_mono. intros i Hi. rewrite Z.land_spec. by destruct (Z.testbit st i).
Qed.

(** ** Well-formed devices

    Besides the ranges and the timer list, the invariant relates the line
    parameters to each other and says that the interrupt line is high exactly
    when a status bit and its control bit are both set. *)

Record uart_wf (s : UartState) : Prop := {
  uwf_timers : timers_wf (timers s);
  uwf_can_receive : can_receive s = 0 ∨ can_receive s = 1;
  uwf_clk : clk_freq s = CLK_FREQ;
  uwf_baud : 1 ≤ baudrate s ≤ CLK_FREQ;
  uwf_frame : frame_size s = 11;
  uwf_time : char_tx_time s = NANOSECONDS_PER_SECOND / baudrate s * 11;
  uwf_rxdata : is_u8 (rxdata s); uwf_txdata : is_u32 (txdata s);
  uwf_status : is_u32 (status s); uwf_control : is_u32 (control s);
  uwf_divisor : is_u32 (divisor s);
  uwf_tx_shift : is_u8 (tx_shift_register s); uwf_rx_shift : is_u8 (rx_shift_register s);
  uwf_conn : connected (irq s);
  uwf_line : irq_level (irq s) = of_bool (line_condition s)
}.

Lemma char_tx_time_bounds s : uart_wf s → 95480 ≤ char_tx_time s ≤ 11000000000.
Proof.
  intros []. rewrite uwf_time0. unfold NANOSECONDS_PER_SECOND, CLK_FREQ in *.
  assert (8680 ≤ 1000000000 / baudrate s ≤ 1000000000); [|lia].
  split; [apply Z.div_le_lower_bound; lia|].
  apply Z.div_le_upper_bound; lia.
Qed.

(** The virtual clock counts nanoseconds from the start of the machine. *)
Definition clock_ok (now : Z) : Prop := 0 ≤ now < 2 ^ 62.

Lemma deadline_exact now s : uart_wf s → clock_ok now →
  i64 (now + char_tx_time s) = now + char_tx_time s.
Proof.
  intros Hs Hn. apply char_tx_time_bounds in Hs. unfold clock_ok in Hn.
  apply i64_small. lia.
Qed.

Lemma wait_timers now s t : uart_wf s → clock_ok now →
  timers (wait_for_ch_tx_time now s t) = timer_mod_ns (timers s) t (now + char_tx_time s).
Proof.
  intros Hs Hn. unfold wait_for_ch_tx_time, timer_mod. simpl.
  by rewrite deadline_exact, Z.mul_1_r.
Qed.

(** Assignments to the fields that the interrupt line does not depend on. *)
Ltac solve_uart :=
  match goal with
  | H : uart_wf ?s |- uart_wf _ =>
    destruct H; constructor; simpl; auto with word irq
  end.

Lemma set_status_bit_wf s b : is_u32 b → uart_wf s → uart_wf (set_status_bit s b).
Proof.
  intros Hb Hs. rewrite set_status_bit_eq. pose proof (uwf_line s Hs) as Hl.
  solve_uart; [by apply status_set_range|by case_if; auto with irq|].
  unfold line_condition in *. simpl. case_if; [by apply irq_level_raise|].
  rewrite Hl. destruct (has (control s) (status s)) eqn:E1; [|done].
  rewrite has_status_set in * by done. done.
Qed.

Lemma reset_status_bit_wf s b : uart_wf s → uart_wf (reset_status_bit s b).
Proof.
  intros Hs. rewrite reset_status_bit_eq. pose proof (uwf_line s Hs) as Hl.
  solve_uart; [by case_if; auto with irq|].
  unfold line_condition in *. simpl. case_if; [|by apply irq_level_lower].
  rewrite Hl. rewrite (has_status_reset _ _ (not32 b)) by done. done.
Qed.

Lemma wait_for_ch_tx_time_wf now s t : uart_wf s → uart_wf (wait_for_ch_tx_time now s t).
Proof. intros Hs. solve_uart. by apply timer_mod_ns_wf. Qed.

Create HintDb uart.
#[export] Hint Resolve set_status_bit_wf reset_status_bit_wf wait_for_ch_tx_time_wf : uart.
#[export] Hint Extern 1 (in_range 32 _) => closed_range : uart.

Lemma timeout_rx_wf s : uart_wf s → uart_wf (timeout_rx s).
Proof.
  intros Hs. unfold timeout_rx.
  case_if; apply set_status_bit_wf; try closed_range; solve_uart.
Qed.

Lemma timeout_tx_wf now s : uart_wf s → uart_wf (timeout_tx now s).
Proof.
  intros Hs. unfold timeout_tx.
  assert (uart_wf (s <| chr ::= fun l => l ++ [ChrWrite (tx_shift_register s)] |>)) as H
    by solve_uart.
  revert H. generalize (s <| chr ::= fun l => l ++ [ChrWrite (tx_shift_register s)] |>).
  clear Hs. intros s' Hs'. case_if; [|auto with uart]. apply wait_for_ch_tx_time_wf.
  assert (uart_wf (set_status_bit (reset_status_bit s' TMT) TRDY)) as Hs2 by auto with uart.
  solve_uart.
Qed.

Lemma set_clear_wf s s' :
  uart_wf s → is_u32 (status s') → is_u32 (control s') →
  s' = s <| status := status s' |> <| control := control s' |> →
  uart_wf (check_and_clear_interrupt (check_and_set_interrupt s')).
Proof.
  intros Hs H1 H2 ->. unfold check_and_clear_interrupt, check_and_set_interrupt.
  simpl in *. destruct (has (control s') (status s')) eqn:Hh; simpl; rewrite Hh; simpl;
    solve_uart; unfold line_condition; simpl; rewrite Hh;
    [by apply irq_level_raise|by apply irq_level_lower].
Qed.

(** [update_params] succeeds exactly for the divisors below the clock
    frequency. *)
Lemma update_params_spec s : clk_freq s = CLK_FREQ → is_u32 (divisor s) →
  let br := CLK_FREQ / (divisor s + 1) in
  update_params s =
    if divisor s <? CLK_FREQ
    then Ok (s <| baudrate := br |> <| frame_size := 11 |>
               <| char_tx_time := NANOSECONDS_PER_SECOND / br * 11 |>
               <| chr ::= fun l => l ++ [ChrSetParams br 0x45 8 1] |>)
    else Abort DivideByZero.
Proof.
  intros Hc [Hd0 Hd] br. unfold update_params. rewrite Hc. unfold CLK_FREQ in *.
  destruct (Z.ltb_spec (divisor s) 115200) as [Hlt|Hge].
  - rewrite (wrap_small 32) by (split; lia). unfold udiv.
    destruct (Z.eqb_spec (divisor s + 1) 0); [lia|]. simpl. fold br.
    assert (1 ≤ br ≤ 115200) as Hbr.
    { split; [apply Z.div_le_lower_bound; lia|apply Z.div_le_upper_bound; lia]. }
    destruct (Z.eqb_spec br 0); [lia|]. simpl. unfold NANOSECONDS_PER_SECOND.
    assert (0 ≤ 1000000000 / br ≤ 1000000000) as Hns.
    { split; [apply Z.div_pos; lia|apply Z.div_le_upper_bound; lia]. }
    rewrite wrap_small by (split; lia).
    assert (i32 br = br) as ->; [|done].
    unfold i32. rewrite wrap_small by (split; lia). destruct (Z.ltb_spec br (2 ^ 31)); lia.
  - unfold udiv. destruct (Z.eqb_spec (u32 (divisor s + 1)) 0); [done|]. simpl.
    assert (115200 / u32 (divisor s + 1) = 0) as ->; [|done].
    apply Z.div_small. split; [lia|].
    destruct (Z.eq_dec (divisor s + 1) (2 ^ 32)) as [Heq|].
    { rewrite Heq in *. by exfalso. }
    rewrite wrap_small by (split; lia). lia.
Qed.

Lemma update_params_wf s s' :
  clk_freq s = CLK_FREQ → is_u32 (divisor s) →
  (∀ br, 1 ≤ br ≤ CLK_FREQ → uart_wf (s <| baudrate := br |> <| frame_size := 11 |>
               <| char_tx_time := NANOSECONDS_PER_SECOND / br * 11 |>)) →
  update_params s = Ok s' → uart_wf s'.
Proof.
  intros Hc Hd Hs. rewrite update_params_spec by done.
  destruct (Z.ltb_spec (divisor s) CLK_FREQ) as [Hlt|]; [|done]. intros [= <-].
  destruct Hd. unfold CLK_FREQ in *. assert (1 ≤ 115200 / (divisor s + 1) ≤ 115200) as Hbr.
  { split; [apply Z.div_le_lower_bound; lia|apply Z.div_le_upper_bound; lia]. }
  specialize (Hs _ Hbr). solve_uart.
Qed.

Lemma uart_receive_wf now b s : is_u8 b → uart_wf s → uart_wf (uart_receive now b s).
Proof.
  intros Hb Hs. unfold uart_receive. case_if; [|done].
  assert (uart_wf (s <| rx_shift_register := b |> <| can_receive := 0 |>)) as H by solve_uart.
  apply (wait_for_ch_tx_time_wf now _ rx_timer) in H. solve_uart.
Qed.

Lemma uart_read_wf addr s : uart_wf s → uart_wf (uart_read addr s).1.
Proof. intros Hs. unfold uart_read. repeat case_if; simpl; auto with uart. Qed.

Lemma uart_write_txdata_wf now val s : uart_wf s → uart_wf (uart_write_txdata now val s).
Proof.
  intros Hs. unfold uart_write_txdata.
  assert (uart_wf (s <| txdata := u32 val |>)) as H by solve_uart.
  revert H. generalize (s <| txdata := u32 val |>). clear. intros s Hs.
  repeat case_if; auto with uart. apply wait_for_ch_tx_time_wf.
  assert (uart_wf (set_status_bit (reset_status_bit s TMT) TRDY)) as Hs2 by auto with uart.
  solve_uart.
Qed.

Lemma uart_write_wf now addr val s s' :
  uart_wf s → uart_write now addr val s = Ok s' → uart_wf s'.
Proof.
  intros Hs. unfold uart_write. repeat case_if; try (intros [= <-]).
  1,6: done.
  - by apply uart_write_txdata_wf.
  - apply (set_clear_wf s); simpl; auto with word; apply Hs || by destruct s.
  - apply (set_clear_wf s); simpl; auto with word; apply Hs || by destruct s.
  - apply update_params_wf; simpl; [apply Hs|auto with word|].
    intros br Hbr. solve_uart.
Qed.

Lemma uart_reset_wf s s' :
  timers_wf (timers s) → clk_freq s = CLK_FREQ → connected (irq s) →
  is_u8 (tx_shift_register s) → is_u8 (rx_shift_register s) →
  uart_reset s = Ok s' → uart_wf s'.
Proof.
  intros Ht Hc Hi Htx Hrx. apply update_params_wf; [done|done|].
  intros br Hbr. constructor; simpl; auto with irq; try done.
  by rewrite irq_level_lower.
Qed.

Lemma pop_wf s a tl : uart_wf s → timers s = a :: tl → uart_wf (s <| timers := tl |>).
Proof.
  intros Hs Hget. pose proof (uwf_timers s Hs) as Ht. rewrite Hget in Ht.
  apply timers_wf_tail in Ht as [Ht _]. solve_uart.
Qed.

Lemma uart_timer_cb_wf now t s : uart_wf s → uart_wf (uart_timer_cb now t s).
Proof. destruct t; [apply timeout_rx_wf|apply timeout_tx_wf]. Qed.

(** ** Running the device *)

Lemma uart_cb_future now t s :
  clock_ok now → uart_wf s → t ∉ (timers s).*1 →
  expired now (timers (uart_timer_cb now t s)) = expired now (timers s).
Proof.
  intros Hn Hs Hni. destruct t; simpl.
  - unfold timeout_rx. by case_if; rewrite set_status_bit_eq.
  - unfold timeout_tx. case_if; [|by rewrite set_status_bit_eq].
    unfold wait_for_ch_tx_time, timer_mod. rewrite set_status_bit_eq, reset_status_bit_eq.
    simpl. rewrite deadline_exact, Z.mul_1_r by done.
    apply expired_mod_future; [done|]. apply char_tx_time_bounds in Hs. lia.
Qed.

Definition fire_timer (now : Z) : UartState → timer_id * Z → UartState :=
  fire timers set_timers (uart_timer_cb now).

Lemma get_set_timers tl s : timers (set_timers tl s) = tl.
Proof. reflexivity. Qed.

Lemma expired_at_most_two now (tl : TimerList timer_id) :
  timers_wf tl → (length (expired now tl) ≤ 2)%nat.
Proof.
  intros [_ Hn _]. transitivity (length tl); [apply length_filter|].
  rewrite <- (length_fmap fst). change 2%nat with (length [rx_timer; tx_timer]).
  apply submseteq_length, NoDup_submseteq; [done|].
  intros [] _; [left|right; left].
Qed.

Lemma uart_run_timers_spec now s :
  uart_wf s → clock_ok now →
  let s' := foldl (fire_timer now) s (expired now (timers s)) in
  uart_run_timers now s = Some (s', bool_decide (expired now (timers s) ≠ [])) ∧
  uart_wf s' ∧ Forall (fun a => now < a.2) (timers s').
Proof.
  intros Hs Hn.
  pose proof (run_timers_expired timers set_timers (uart_timer_cb now) uart_wf now
    get_set_timers uwf_timers pop_wf (fun t s H _ => uart_timer_cb_wf now t s H)
    (fun t s => uart_cb_future now t s Hn) 2 s false Hs) as H.
  apply H, expired_at_most_two, uwf_timers, Hs.
Qed.

(** Induction over the callbacks of one run of the timers. *)
Lemma uart_advance_ind (P : TimerList timer_id → UartState → Prop) now s s' progress :
  uart_wf s → clock_ok now → uart_run_timers now s = Some (s', progress) →
  (∀ s t e rest, uart_wf s → timers s = (t, e) :: rest → e ≤ now →
     t ∉ (expired now rest).*1 →
     P ((t, e) :: expired now rest) s →
     P (expired now rest) (uart_timer_cb now t (set_timers rest s))) →
  P (expired now (timers s)) s → P [] s'.
Proof.
  intros Hs Hn Hrun Hstep. destruct (uart_run_timers_spec now s Hs Hn) as (Heq & _ & _).
  rewrite Heq in Hrun. injection Hrun as <- _.
  apply (run_timers_ind timers set_timers (uart_timer_cb now) uart_wf now
    get_set_timers uwf_timers pop_wf (fun t s H _ => uart_timer_cb_wf now t s H)
    (fun t s => uart_cb_future now t s Hn) P); [|done].
  intros w [t e] rest Hw Hget Hle HP. unfold fire. rewrite Hget. simpl.
  pose proof (uwf_timers w Hw) as Hwf. rewrite Hget in Hwf.
  destruct (timers_wf_tail _ _ Hwf) as [_ Hni].
  apply (Hstep w t e rest); try done. by apply not_in_expired.
Qed.

Inductive uart_event :=
| EvRead (addr : Z)
| EvWrite (addr val : Z)
| EvReceive (buf : Z)
| EvReset
| EvAdvance (now : Z).

(** One operation of the guest, of the backend, or of the main loop. *)
Inductive uart_step : Z * UartState → uart_event → Z * UartState → Prop :=
| step_read now addr s :
    uart_step (now, s) (EvRead addr) (now, (uart_read addr s).1)
| step_write now addr val s s' :
    uart_write now addr val s = Ok s' →
    uart_step (now, s) (EvWrite addr val) (now, s')
| step_receive now b s :
    is_u8 b → uart_step (now, s) (EvReceive b) (now, uart_receive now b s)
| step_reset now s s' :
    uart_reset s = Ok s' → uart_step (now, s) EvReset (now, s')
| step_advance now now' s s' progress :
    now ≤ now' → clock_ok now' → uart_run_timers now' s = Some (s', progress) →
    uart_step (now, s) (EvAdvance now') (now', s').

(** Runs in which every event is allowed by [G] in the state it happens in. *)
Inductive uart_run (G : UartState → uart_event → Prop)
  : Z * UartState → list uart_event → Z * UartState → Prop :=
| run_done c : uart_run G c [] c
| run_event c e c' es c'' :
    G c.2 e → uart_step c e c' → uart_run G c' es c'' → uart_run G c (e :: es) c''.

Definition any_event (_ : UartState) (_ : uart_event) : Prop := True.

Lemma uart_step_wf c e c' :
  uart_step c e c' → clock_ok c.1 → uart_wf c.2 → clock_ok c'.1 ∧ uart_wf c'.2.
Proof.
  destruct 1 as [| |now b s Hb| |now now' s s' p Hle Hok Hrun]; simpl; intros Hn Hs.
  - auto using uart_read_wf.
  - eauto using uart_write_wf.
  - auto using uart_receive_wf.
  - split; [done|]. eapply uart_reset_wf; [..|done]; apply Hs.
  - destruct (uart_run_timers_spec now' s Hs Hok) as (Heq & Hwf & _).
    rewrite Heq in Hrun. by injection Hrun as <- _.
Qed.

Lemma uart_run_inv (G : UartState → uart_event → Prop) (P : Z * UartState → Prop) c es c' :
  (∀ c e c', G c.2 e → uart_step c e c' → clock_ok c.1 → uart_wf c.2 → P c → P c') →
  uart_run G c es c' → clock_ok c.1 → uart_wf c.2 → P c → P c'.
Proof.
  intros Hstep. induction 1 as [|c e c1 es c2 HG Hs _ IH]; intros Hn Hwf HP; [done|].
  destruct (uart_step_wf _ _ _ Hs Hn Hwf). eauto.
Qed.

Lemma uart_realize_wf line s : connected line → uart_realize (uart_init line) = Ok s → uart_wf s.
Proof.
  intros Hl. unfold uart_realize. 
  apply uart_reset_wf; simpl; [repeat constructor|reflexivity|exact Hl|closed_range..].
Qed.

Lemma uart_run_wf G c es c' :
  uart_run G c es c' → clock_ok c.1 → uart_wf c.2 → clock_ok c'.1 ∧ uart_wf c'.2.
Proof.
  intros Hrun Hn Hs.
  eapply (uart_run_inv G (fun c => clock_ok c.1 ∧ uart_wf c.2)); [|exact Hrun|auto..].
  intros c1 e c2 _ Hst Hc Hw _. by apply (uart_step_wf _ _ _ Hst).
Qed.

(** C32.  Every state reached from realization by guest accesses, received
    characters, resets and timer expiries is well formed: registers in range,
    the character time equal to eleven bit times of the current baud rate, a
    sorted timer list, the interrupt line high exactly when an enabled status
    bit is set; and the timers of such a state run to completion, leaving only
    deadlines in the future. *)
Theorem uart_reachable_invariant line now s0 es now' s :
  connected line → clock_ok now → uart_realize (uart_init line) = Ok s0 →
  uart_run any_event (now, s0) es (now', s) →
  uart_wf s ∧
  ∀ t, now' ≤ t → clock_ok t → ∃ s' progress,
    uart_run_timers t s = Some (s', progress) ∧ Forall (fun a => t < a.2) (timers s').
Proof.
  intros Hl Hn Hr Hrun. apply uart_realize_wf in Hr; [|exact Hl].
  destruct (uart_run_wf _ _ _ _ Hrun Hn Hr) as [_ Hs]. simpl in Hs.
  split; [exact Hs|]. intros t _ Ht.
  destruct (uart_run_timers_spec t s Hs Ht) as (Heq & _ & Hall). eauto.
Qed.
