(* ===== verification/UartSpec.v ===== *)
(** What the UART promises: the transmitter is a two-place queue that sends
    every accepted character in order, the receiver delivers a character one
    character time after it arrives, and the line parameters follow DIVISOR. *)

From S2P Require Import Prelude Irq Timer UartDev.

(** ** The transmitter refines a two-place queue

    The shift register is the front of the queue and TXDATA its second place;
    TMT and TRDY say which places are free. *)

Record TxSpec := mk_TxSpec { tx_queued : list Z; tx_sent : list Z; tx_overrun : bool }.

(** A write to a full queue overwrites the second place and is an overrun. *)
Definition tx_put (b : Z) (a : TxSpec) : TxSpec :=
  match tx_queued a with
  | [] => mk_TxSpec [b] (tx_sent a) (tx_overrun a)
  | [x] => mk_TxSpec [x; b] (tx_sent a) (tx_overrun a)
  | x :: _ => mk_TxSpec [x; b] (tx_sent a) true
  end.

(** The front character leaves the device. *)
Definition tx_shift_out (a : TxSpec) : TxSpec :=
  match tx_queued a with
  | [] => a
  | x :: q => mk_TxSpec q (tx_sent a ++ [x]) (tx_overrun a)
  end.

Definition chr_written (e : chr_event) : option Z :=
  match e with ChrWrite ch => Some ch | _ => None end.

Definition tx_queue (s : UartState) : list Z :=
  if Z.testbit (status s) 5 then []
  else tx_shift_register s :: if Z.testbit (status s) 6 then [] else [u8 (txdata s)].

Definition tx_abs (s : UartState) : TxSpec :=
  mk_TxSpec (tx_queue s) (omap chr_written (chr s)) (Z.testbit (status s) 4).

(** An empty shift register has an empty TXDATA behind it, and the transmit
    timer runs exactly while a character is being shifted. *)
Definition tx_inv (s : UartState) : Prop :=
  (Z.testbit (status s) 5 = true → Z.testbit (status s) 6 = true) ∧
  timer_pending (timers s) tx_timer = negb (Z.testbit (status s) 5).

Lemma status_reset_spec st k i : 0 ≤ k → 0 ≤ i < 32 →
  Z.testbit (Z.land st (not32 (bit k))) i = Z.testbit st i && negb (k =? i).
Proof.
  intros Hk Hi. rewrite Z.land_spec, not32_spec, bit_spec by lia.
  destruct (Z.ltb_spec i 32); [done|lia].
Qed.

Lemma has_TMT st : has st TMT = Z.testbit st 5.
Proof. by apply has_bit. Qed.
Lemma has_TRDY st : has st TRDY = Z.testbit st 6.
Proof. by apply has_bit. Qed.
Lemma has_RRDY st : has st RRDY = Z.testbit st 7.
Proof. by apply has_bit. Qed.

(** Evaluate registers and status bits after status operations. *)
Ltac status_bits :=
  unfold TMT, TRDY, TOE, ROE, RRDY in *;
  repeat (progress (autorewrite with uartf; simpl));
  rewrite ?status_set_spec, ?status_reset_spec, ?bit_spec by lia; simpl;
  rewrite ?andb_true_r, ?andb_false_r, ?orb_true_r, ?orb_false_r; simpl.

Lemma pending_mod (tl : TimerList timer_id) t t' e : timers_wf tl →
  timer_pending (timer_mod_ns tl t e) t' =
    if decide (t = t') then true else timer_pending tl t'.
Proof.
  intros Hwf. unfold timer_pending. rewrite expire_time_mod by done.
  case_decide; [|done]. apply Z.leb_le. lia.
Qed.

Lemma u8_u32 x : u8 (u32 x) = u8 x.
Proof. by apply wrap_wrap. Qed.

(** The registers after each branch that touches the transmitter. *)

Lemma write_txdata_idle now val s :
  Z.testbit (status s) 5 = true →
  let s' := uart_write_txdata now val s in
  status s' = status_set (Z.land (status s) (not32 TMT)) TRDY ∧
  chr s' = chr s ∧ tx_shift_register s' = u8 val ∧
  timers s' = timer_mod 1 (timers s) tx_timer (i64 (now + char_tx_time s)).
Proof.
  intros E5. unfold uart_write_txdata. simpl. rewrite has_TMT, E5.
  unfold wait_for_ch_tx_time. simpl. autorewrite with uartf. simpl.
  by rewrite u8_u32.
Qed.

Lemma write_txdata_busy now val s :
  Z.testbit (status s) 5 = false →
  let s' := uart_write_txdata now val s in
  status s' = (if Z.testbit (status s) 6 then Z.land (status s) (not32 TRDY)
               else status_set (status s) TOE) ∧
  chr s' = chr s ∧ tx_shift_register s' = tx_shift_register s ∧ txdata s' = u32 val ∧
  timers s' = timers s.
Proof.
  intros E5. unfold uart_write_txdata. simpl. rewrite has_TMT, E5, has_TRDY.
  destruct (Z.testbit (status s) 6); simpl; autorewrite with uartf; done.
Qed.

Lemma timeout_tx_fields now s :
  let s' := timeout_tx now s in
  chr s' = chr s ++ [ChrWrite (tx_shift_register s)] ∧
  if Z.testbit (status s) 6
  then status s' = status_set (status s) TMT ∧ timers s' = timers s ∧
       tx_shift_register s' = tx_shift_register s
  else status s' = status_set (Z.land (status s) (not32 TMT)) TRDY ∧
       tx_shift_register s' = u8 (txdata s) ∧
       timers s' = timer_mod 1 (timers s) tx_timer (i64 (now + char_tx_time s)).
Proof.
  unfold timeout_tx. simpl. rewrite has_TRDY.
  destruct (Z.testbit (status s) 6); simpl; unfold wait_for_ch_tx_time; simpl;
    autorewrite with uartf; done.
Qed.

Lemma timeout_tx_frame now s :
  let s' := timeout_tx now s in
  rxdata s' = rxdata s ∧ rx_shift_register s' = rx_shift_register s ∧
  can_receive s' = can_receive s ∧ char_tx_time s' = char_tx_time s.
Proof.
  unfold timeout_tx. simpl. case_if; simpl; unfold wait_for_ch_tx_time; simpl;
    autorewrite with uartf; done.
Qed.

Lemma timeout_rx_fields s :
  let s' := timeout_rx s in
  chr s' = chr s ∧ txdata s' = txdata s ∧ tx_shift_register s' = tx_shift_register s ∧
  timers s' = timers s ∧ rxdata s' = rx_shift_register s ∧ can_receive s' = 1 ∧
  status s' = status_set (status s) (if Z.testbit (status s) 7 then ROE else RRDY).
Proof.
  unfold timeout_rx. simpl. rewrite has_RRDY.
  destruct (Z.testbit (status s) 7); autorewrite with uartf; done.
Qed.

Lemma write_txdata_refines now val s :
  uart_wf s → clock_ok now → tx_inv s →
  tx_abs (uart_write_txdata now val s) = tx_put (u8 val) (tx_abs s) ∧
  tx_inv (uart_write_txdata now val s).
Proof.
  intros Hs Hn [Hi Hp]. unfold tx_put, tx_abs, tx_queue, tx_inv.
  destruct (Z.testbit (status s) 5) eqn:E5; simpl.
  - destruct (write_txdata_idle now val s E5) as (-> & -> & -> & ->).
    unfold timer_mod. status_bits. rewrite pending_mod by apply Hs. done.
  - destruct (write_txdata_busy now val s E5) as (-> & -> & -> & -> & ->).
    destruct (Z.testbit (status s) 6) eqn:E6; status_bits; rewrite ?E5, ?E6, ?u8_u32; done.
Qed.

Lemma fire_rx_tx s e rest :
  timers s = (rx_timer, e) :: rest → tx_inv s →
  tx_abs (timeout_rx (set_timers rest s)) = tx_abs s ∧
  tx_inv (timeout_rx (set_timers rest s)).
Proof.
  intros Ht. unfold tx_inv, tx_abs, tx_queue.
  destruct (timeout_rx_fields (set_timers rest s)) as (-> & -> & -> & -> & _ & _ & ->).
  rewrite Ht. unfold timer_pending. simpl.
  destruct (Z.testbit (status s) 7); status_bits; done.
Qed.

Lemma fire_tx_tx now s e rest :
  uart_wf s → timers s = (tx_timer, e) :: rest → tx_inv s →
  tx_abs (timeout_tx now (set_timers rest s)) = tx_shift_out (tx_abs s) ∧
  tx_inv (timeout_tx now (set_timers rest s)).
Proof.
  intros Hs Ht [Hi Hp]. pose proof (uwf_timers s Hs) as Hwf. rewrite Ht in Hwf, Hp.
  destruct (timers_wf_tail _ _ Hwf) as [Hwf' Hni]. destruct Hwf as [_ _ Hpos].
  apply Forall_cons in Hpos as [He _]. simpl in He.
  assert (Z.testbit (status s) 5 = false) as E5.
  { revert Hp. unfold timer_pending. simpl. destruct (Z.testbit (status s) 5); [|done].
    intros H%Z.leb_gt. lia. }
  unfold tx_inv, tx_abs, tx_queue, tx_shift_out. pose proof (timeout_tx_fields now (set_timers rest s)) as [Hc H].
  rewrite Hc. clear Hc.
  rewrite omap_app. revert H. simpl. rewrite E5. simpl.
  destruct (Z.testbit (status s) 6) eqn:E6.
  - intros (-> & -> & _). status_bits. rewrite E6.
    unfold timer_pending. rewrite expire_time_absent by done. done.
  - intros (-> & -> & ->). unfold timer_mod. status_bits. rewrite ?E5. simpl.
    rewrite pending_mod by done. done.
Qed.

Lemma advance_tx now s s' progress :
  uart_wf s → clock_ok now → tx_inv s → uart_run_timers now s = Some (s', progress) →
  tx_inv s' ∧
  tx_abs s' = if decide (tx_timer ∈ (expired now (timers s)).*1)
              then tx_shift_out (tx_abs s) else tx_abs s.
Proof.
  intros Hs Hn Hi Hrun.
  set (goal := if decide (tx_timer ∈ (expired now (timers s)).*1)
               then tx_shift_out (tx_abs s) else tx_abs s).
  cut (tx_inv s' ∧ (if decide (tx_timer ∈ ([] : TimerList timer_id).*1)
                    then tx_shift_out (tx_abs s') else tx_abs s') = goal).
  { by rewrite decide_False by (by intros ?%elem_of_nil). }
  apply (uart_advance_ind (fun l w => tx_inv w ∧
       (if decide (tx_timer ∈ l.*1) then tx_shift_out (tx_abs w) else tx_abs w) = goal)
    _ _ _ _ Hs Hn Hrun); [|done].
  intros w t e rest Hw Hget Hle Hni [Hti Hg]. destruct t.
  - destruct (fire_rx_tx w e rest Hget Hti) as [Ha ?]. split; [done|]. simpl uart_timer_cb.
    rewrite Ha, <- Hg. csimpl. destruct (decide (tx_timer ∈ (expired now rest).*1)).
    + rewrite decide_True by (by right). done.
    + rewrite decide_False; [done|]. by intros [?|?]%elem_of_cons.
  - destruct (fire_tx_tx now w e rest Hw Hget Hti) as [Ha ?]. split; [done|].
    simpl uart_timer_cb. rewrite Ha, <- Hg. csimpl. rewrite decide_False by done. done.
Qed.

(** A guest that polls TRDY before it writes TXDATA and keeps the TMT and TRDY
    bits when it writes STATUS, and resets that find the transmitter idle. *)
Definition tx_polite (s : UartState) (e : uart_event) : Prop :=
  match e with
  | EvWrite addr val =>
    (addr = TXDATA → Z.testbit (status s) 6 = true) ∧
    (addr = STATUS → Z.testbit val 5 = Z.testbit (status s) 5 ∧
                     Z.testbit val 6 = Z.testbit (status s) 6)
  | EvReset => Z.testbit (status s) 5 = true
  | _ => True
  end.

(** The character a guest access hands to the transmitter. *)
Definition tx_written (e : uart_event) : option Z :=
  match e with
  | EvWrite addr val => if addr =? TXDATA then Some (u8 val) else None
  | _ => None
  end.

Definition tx_all (s : UartState) : list Z := omap chr_written (chr s) ++ tx_queue s.

(** Operations that touch neither the transmitter's bits, registers nor timer. *)
Lemma tx_frame s s' :
  Z.testbit (status s') 5 = Z.testbit (status s) 5 →
  Z.testbit (status s') 6 = Z.testbit (status s) 6 →
  tx_shift_register s' = tx_shift_register s → txdata s' = txdata s →
  timer_pending (timers s') tx_timer = timer_pending (timers s) tx_timer →
  omap chr_written (chr s') = omap chr_written (chr s) →
  tx_inv s → tx_inv s' ∧ tx_all s' = tx_all s.
Proof.
  intros H5 H6 Hsr Hd Ht Hc. unfold tx_inv, tx_all, tx_queue.
  by rewrite H5, H6, Hsr, Hd, Ht, Hc.
Qed.

Lemma tx_all_shift_out s s' :
  tx_abs s' = tx_shift_out (tx_abs s) → tx_all s' = tx_all s.
Proof.
  unfold tx_abs, tx_shift_out, tx_all. simpl.
  destruct (tx_queue s) as [|x q]; intros [= -> -> _]; [done|]. by rewrite <- app_assoc.
Qed.

Lemma tx_all_put s s' b :
  tx_abs s' = tx_put b (tx_abs s) → Z.testbit (status s) 6 = true →
  tx_all s' = tx_all s ++ [b].
Proof.
  unfold tx_abs, tx_put, tx_all. intros Heq H6. revert Heq. simpl.
  assert (tx_queue s = if Z.testbit (status s) 5 then [] else [tx_shift_register s]) as ->
    by (unfold tx_queue; by rewrite H6).
  destruct (Z.testbit (status s) 5); intros [= -> -> _];
    by rewrite ?app_nil_r, <- ?app_assoc.
Qed.

Lemma set_clear_interrupt_fields s :
  let s' := check_and_clear_interrupt (check_and_set_interrupt s) in
  status s' = status s ∧ control s' = control s ∧ txdata s' = txdata s ∧
  tx_shift_register s' = tx_shift_register s ∧ timers s' = timers s ∧ chr s' = chr s.
Proof.
  unfold check_and_clear_interrupt, check_and_set_interrupt.
  destruct (has (control s) (status s)) eqn:H; simpl; rewrite H; done.
Qed.

Lemma write_tx now addr val s s' :
  uart_wf s → clock_ok now → tx_polite s (EvWrite addr val) → tx_inv s →
  uart_write now addr val s = Ok s' →
  tx_inv s' ∧ tx_all s' = tx_all s ++ omap tx_written [EvWrite addr val].
Proof.
  intros Hs Hn [Hp1 Hp2] Hi. unfold uart_write. simpl.
  destruct (Z.eqb_spec addr RXDATA) as [->|]; [intros [= <-]; by rewrite app_nil_r|].
  destruct (Z.eqb_spec addr TXDATA) as [->|].
  { intros [= <-]. destruct (write_txdata_refines now val s Hs Hn Hi) as [Ha ?].
    split; [done|]. by apply tx_all_put, Hp1. }
  rewrite app_nil_r. destruct (Z.eqb_spec addr STATUS) as [->|].
  { intros [= <-]. destruct (Hp2 eq_refl) as [H5 H6].
    pose proof (set_clear_interrupt_fields (s <| status := u32 val |>)) as H.
    simpl in H. destruct H as (H1 & _ & H2 & H3 & H4 & H7).
    apply tx_frame; rewrite ?H1, ?H4, ?H7; try done; by rewrite wrap_spec. }
  destruct (Z.eqb_spec addr CONTROL) as [->|].
  { intros [= <-]. pose proof (set_clear_interrupt_fields (s <| control := u32 val |>)) as H.
    simpl in H. destruct H as (H1 & _ & H2 & H3 & H4 & H7).
    apply tx_frame; rewrite ?H1, ?H4, ?H7; done. }
  destruct (Z.eqb_spec addr DIVISOR) as [->|]; [|by intros [= <-]].
  rewrite update_params_spec by (apply Hs || (simpl; auto with word)).
  case_if; [|done]. intros [= <-]. apply tx_frame; try done. simpl.
  by rewrite omap_app, app_nil_r.
Qed.

Lemma read_tx addr s : tx_inv s → tx_inv (uart_read addr s).1 ∧ tx_all (uart_read addr s).1 = tx_all s.
Proof.
  intros Hi. unfold uart_read. repeat case_if; try done. simpl.
  apply tx_frame; status_bits; done.
Qed.

Lemma receive_tx now b s :
  uart_wf s → tx_inv s → tx_inv (uart_receive now b s) ∧ tx_all (uart_receive now b s) = tx_all s.
Proof.
  intros Hs Hi. unfold uart_receive. case_if; [|done].
  apply tx_frame; try done; simpl; [|by rewrite omap_app, app_nil_r].
  unfold timer_mod. by rewrite pending_mod by apply Hs.
Qed.

(** The fields after a reset of a well-formed device. *)
Lemma reset_fields s s' : uart_wf s → uart_reset s = Ok s' →
  status s' = Z.lor TRDY TMT ∧ timers s' = timers s ∧ can_receive s' = 1 ∧
  omap chr_written (chr s') = omap chr_written (chr s).
Proof.
  intros Hs. unfold uart_reset. rewrite update_params_spec by (done || apply Hs).
  simpl. intros [= <-]. simpl. by rewrite !omap_app, !app_nil_r.
Qed.

(** A reset of an idle transmitter loses nothing. *)
Lemma reset_tx s s' :
  uart_wf s → tx_inv s → Z.testbit (status s) 5 = true → uart_reset s = Ok s' →
  tx_inv s' ∧ tx_abs s' = mk_TxSpec [] (tx_sent (tx_abs s)) false ∧ tx_all s' = tx_all s.
Proof.
  intros Hs [_ Hp] H5 Hr. destruct (reset_fields s s' Hs Hr) as (H1 & H2 & _ & H4).
  unfold tx_inv, tx_abs, tx_all, tx_queue. rewrite H1, H2, H4, Hp, H5. done.
Qed.

Lemma step_tx c e c' :
  uart_step c e c' → tx_polite c.2 e → clock_ok c.1 → uart_wf c.2 → tx_inv c.2 →
  tx_inv c'.2 ∧ tx_all c'.2 = tx_all c.2 ++ omap tx_written [e].
Proof.
  destruct 1 as [| | | |now now' s s' p Hle Hok Hrun]; simpl; intros Hp Hn Hs Hi;
    rewrite ?app_nil_r.
  - by apply read_tx.
  - by eapply (write_tx now).
  - by apply receive_tx.
  - by destruct (reset_tx s s') as (? & _ & ?).
  - destruct (advance_tx _ _ _ _ Hs Hok Hi Hrun) as [? Ha]. split; [done|].
    revert Ha. case_decide; [by apply tx_all_shift_out|].
    unfold tx_all, tx_abs. by intros [= -> -> _].
Qed.

(** C5.  Lossless, ordered transmission.  In every run in which the guest
    writes TXDATA only while TRDY is set, every write to STATUS keeps the bits
    TMT and TRDY as they are, and every reset finds TMT set (nothing being
    sent), the characters sent to the backend followed by those still in the
    device are the characters before the run followed by the low bytes written
    to TXDATA, in order.  Reads, writes to the other registers, received
    characters and the times at which the timers run are arbitrary. *)
Theorem uart_tx_fifo c es c' :
  uart_run tx_polite c es c' → clock_ok c.1 → uart_wf c.2 → tx_inv c.2 →
  tx_inv c'.2 ∧ tx_all c'.2 = tx_all c.2 ++ omap tx_written es.
Proof.
  induction 1 as [|c e c1 es c2 HG Hs _ IH]; intros Hn Hwf Hi.
  { by rewrite app_nil_r. }
  destruct (uart_step_wf _ _ _ Hs Hn Hwf) as [Hn1 Hwf1].
  destruct (step_tx _ _ _ Hs HG Hn Hwf Hi) as [Hi1 Heq].
  destruct (IH Hn1 Hwf1 Hi1) as [? ->]. split; [done|].
  rewrite Heq, <- app_assoc. f_equal. by destruct (tx_written e) eqn:E; simpl; rewrite E.
Qed.

(** *** The transmitter drains *)

Lemma advance_tx_deadline now s s' progress :
  uart_wf s → clock_ok now → uart_run_timers now s = Some (s', progress) →
  expire_time (timers s) tx_timer ≤ now →
  char_tx_time s' = char_tx_time s ∧
  expire_time (timers s') tx_timer ≤ now + char_tx_time s.
Proof.
  intros Hs Hn Hrun Hd. pose proof (char_tx_time_bounds s Hs) as Hb.
  cut (char_tx_time s' = char_tx_time s ∧
       (tx_timer ∈ ([] : TimerList timer_id).*1 ∨
        expire_time (timers s') tx_timer ≤ now + char_tx_time s)).
  { intros [? [Hin|?]]; [by apply elem_of_nil in Hin|done]. }
  apply (uart_advance_ind (fun l w => char_tx_time w = char_tx_time s ∧
     (tx_timer ∈ l.*1 ∨ expire_time (timers w) tx_timer ≤ now + char_tx_time s))
     _ _ _ _ Hs Hn Hrun); [|split; [done|right; lia]].
  intros w t e rest Hw Hget Hle Hni [Hc Hor].
  pose proof (uwf_timers w Hw) as Hwf. rewrite Hget in Hwf.
  destruct (timers_wf_tail _ _ Hwf) as [Hwf' Hni']. simpl in Hni'.
  rewrite Hget in Hor. destruct t; simpl uart_timer_cb.
  - destruct (timeout_rx_fields (set_timers rest w)) as (_ & _ & _ & -> & _).
    split; [|revert Hor; csimpl; rewrite elem_of_cons; naive_solver].
    unfold timeout_rx. simpl. case_if; autorewrite with uartf; done.
  - split.
    { by destruct (timeout_tx_frame now (set_timers rest w)) as (_ & _ & _ & ->). }
    right. destruct (timeout_tx_fields now (set_timers rest w)) as [_ H]. revert H.
    case_if; intros (_ & H1 & H2).
    + rewrite H1. simpl. rewrite expire_time_absent by done. unfold clock_ok in Hn. lia.
    + rewrite H2. unfold timer_mod. rewrite expire_time_mod by done. simpl.
      rewrite deadline_exact, Hc by done. unfold clock_ok in Hn. lia.
Qed.

Lemma tx_shift_out_due now s s' progress :
  uart_wf s → clock_ok now → tx_inv s → uart_run_timers now s = Some (s', progress) →
  expire_time (timers s) tx_timer ≤ now →
  tx_inv s' ∧ tx_abs s' = tx_shift_out (tx_abs s).
Proof.
  intros Hs Hn Hi Hrun Hd. destruct (advance_tx _ _ _ _ Hs Hn Hi Hrun) as [? ->].
  split; [done|]. case_decide as Hin; [done|].
  rewrite in_expired in Hin by apply Hs. destruct Hi as [_ Hp].
  unfold tx_abs, tx_shift_out, tx_queue. simpl.
  destruct (Z.testbit (status s) 5); [done|]. exfalso. apply Hin. by rewrite Hp.
Qed.

(** C36.  The transmitter makes progress.  Running the timers once at or after
    the transmit deadline and once again a character time later sends, in
    order, every character that was in the device and leaves the shift
    register empty (TMT set). *)
Theorem uart_tx_drains s t1 t2 :
  uart_wf s → tx_inv s → clock_ok t1 → clock_ok t2 →
  expire_time (timers s) tx_timer ≤ t1 → t1 + char_tx_time s ≤ t2 →
  ∃ s1 p1 s2 p2,
    uart_run_timers t1 s = Some (s1, p1) ∧ uart_run_timers t2 s1 = Some (s2, p2) ∧
    omap chr_written (chr s2) = omap chr_written (chr s) ++ tx_queue s ∧
    tx_queue s2 = [] ∧ has (status s2) TMT = true.
Proof.
  intros Hs Hi H1 H2 Hd Ht.
  destruct (uart_run_timers_spec t1 s Hs H1) as (Hr1 & Hs1 & _).
  destruct (tx_shift_out_due _ _ _ _ Hs H1 Hi Hr1 Hd) as [Hi1 Ha1].
  destruct (advance_tx_deadline _ _ _ _ Hs H1 Hr1 Hd) as [Hc Hd1].
  set (s1 := foldl _ s _) in *.
  destruct (uart_run_timers_spec t2 s1 Hs1 H2) as (Hr2 & _ & _).
  assert (expire_time (timers s1) tx_timer ≤ t2) as Hd2 by lia.
  destruct (tx_shift_out_due _ _ _ _ Hs1 H2 Hi1 Hr2 Hd2) as [Hi2 Ha2].
  set (s2 := foldl _ s1 _) in *. do 4 eexists. split; [exact Hr1|]. split; [exact Hr2|].
  rewrite Ha1 in Ha2. unfold tx_abs, tx_shift_out, tx_queue in Ha2 |- *. simpl in Ha2.
  rewrite has_TMT.
  destruct (Z.testbit (status s) 5), (Z.testbit (status s) 6), (Z.testbit (status s2) 5);
    simpl in Ha2; try discriminate Ha2; injection Ha2; intros;
    rewrite ?app_nil_r, <- ?app_assoc in *; auto.
Qed.

(** ** The receiver refines a one-place buffer behind a shift register *)

Record RxSpec := mk_RxSpec {
  rx_holding : option Z; rx_shifting : option Z; rx_overrun : bool
}.

(** A character that arrives while another is shifted in is ignored. *)
Definition rx_arrive (b : Z) (a : RxSpec) : RxSpec :=
  match rx_shifting a with
  | None => mk_RxSpec (rx_holding a) (Some b) (rx_overrun a)
  | Some _ => a
  end.

(** A character shifted in replaces the one held; if that was unread, it is an
    overrun. *)
Definition rx_shift_in (a : RxSpec) : RxSpec :=
  match rx_shifting a with
  | None => a
  | Some x => mk_RxSpec (Some x) None (rx_overrun a || bool_decide (is_Some (rx_holding a)))
  end.

Definition rx_take (a : RxSpec) : RxSpec := mk_RxSpec None (rx_shifting a) (rx_overrun a).

Definition rx_abs (s : UartState) : RxSpec :=
  mk_RxSpec (if Z.testbit (status s) 7 then Some (rxdata s) else None)
    (if truth (can_receive s) then None else Some (rx_shift_register s))
    (Z.testbit (status s) 3).

(** The receive timer runs exactly while a character is being shifted in. *)
Definition rx_inv (s : UartState) : Prop :=
  timer_pending (timers s) rx_timer = negb (truth (can_receive s)).

Lemma receive_rx now b s : uart_wf s → rx_inv s →
  rx_abs (uart_receive now b s) = rx_arrive b (rx_abs s) ∧ rx_inv (uart_receive now b s).
Proof.
  intros Hs Hi. unfold uart_receive, rx_arrive, rx_abs, rx_inv in *.
  destruct (truth (can_receive s)) eqn:Hc; simpl; [|by rewrite ?Hc].
  unfold timer_mod. rewrite pending_mod by apply Hs. done.
Qed.

Lemma fire_rx_rx s e rest :
  uart_wf s → timers s = (rx_timer, e) :: rest → rx_inv s →
  rx_abs (timeout_rx (set_timers rest s)) = rx_shift_in (rx_abs s) ∧
  rx_inv (timeout_rx (set_timers rest s)).
Proof.
  intros Hs Ht Hi. pose proof (uwf_timers s Hs) as Hwf. rewrite Ht in Hwf.
  destruct (timers_wf_tail _ _ Hwf) as [Hwf' Hni]. destruct Hwf as [_ _ Hpos].
  apply Forall_cons in Hpos as [He _]. simpl in He.
  assert (truth (can_receive s) = false) as Hc.
  { unfold rx_inv, timer_pending in Hi. rewrite Ht in Hi. simpl in Hi.
    destruct (truth (can_receive s)); [|done]. apply Z.leb_gt in Hi. lia. }
  destruct (timeout_rx_fields (set_timers rest s)) as (_ & _ & _ & H1 & H2 & H3 & H4).
  unfold rx_inv, rx_abs, rx_shift_in. rewrite H1, H2, H3, H4. simpl. rewrite Hc.
  unfold timer_pending. rewrite expire_time_absent by done. split; [|done].
  destruct (Z.testbit (status s) 7) eqn:E7; status_bits; rewrite ?E7; done.
Qed.

Lemma fire_tx_rx now s e rest :
  timers s = (tx_timer, e) :: rest → timers_wf rest → rx_inv s →
  rx_abs (timeout_tx now (set_timers rest s)) = rx_abs s ∧
  rx_inv (timeout_tx now (set_timers rest s)).
Proof.
  intros Ht Hwf Hi. unfold rx_inv, rx_abs in *.
  destruct (timeout_tx_frame now (set_timers rest s)) as (-> & -> & -> & _).
  destruct (timeout_tx_fields now (set_timers rest s)) as [_ H].
  rewrite Ht in Hi. unfold timer_pending in *. simpl in H, Hi |- *. revert H.
  destruct (Z.testbit (status s) 6).
  - intros (-> & -> & _). status_bits. done.
  - intros (-> & _ & ->). unfold timer_mod. rewrite expire_time_mod by done.
    status_bits. done.
Qed.

Lemma advance_rx now s s' progress :
  uart_wf s → clock_ok now → rx_inv s → uart_run_timers now s = Some (s', progress) →
  rx_inv s' ∧
  rx_abs s' = if decide (rx_timer ∈ (expired now (timers s)).*1)
              then rx_shift_in (rx_abs s) else rx_abs s.
Proof.
  intros Hs Hn Hi Hrun.
  set (goal := if decide (rx_timer ∈ (expired now (timers s)).*1)
               then rx_shift_in (rx_abs s) else rx_abs s).
  cut (rx_inv s' ∧ (if decide (rx_timer ∈ ([] : TimerList timer_id).*1)
                    then rx_shift_in (rx_abs s') else rx_abs s') = goal).
  { by rewrite decide_False by (by intros ?%elem_of_nil). }
  apply (uart_advance_ind (fun l w => rx_inv w ∧
       (if decide (rx_timer ∈ l.*1) then rx_shift_in (rx_abs w) else rx_abs w) = goal)
    _ _ _ _ Hs Hn Hrun); [|done].
  intros w t e rest Hw Hget Hle Hni [Hti Hg].
  pose proof (uwf_timers w Hw) as Hwf. rewrite Hget in Hwf.
  destruct (timers_wf_tail _ _ Hwf) as [Hwf' _]. destruct t.
  - destruct (fire_rx_rx w e rest Hw Hget Hti) as [Ha ?]. split; [done|].
    simpl uart_timer_cb. rewrite Ha, <- Hg. csimpl. rewrite decide_False by done. done.
  - destruct (fire_tx_rx now w e rest Hget Hwf' Hti) as [Ha ?]. split; [done|].
    simpl uart_timer_cb. rewrite Ha, <- Hg. csimpl.
    destruct (decide (rx_timer ∈ (expired now rest).*1)).
    + rewrite decide_True by (by right). done.
    + rewrite decide_False; [done|]. by intros [?|?]%elem_of_cons.
Qed.

Lemma if_expired {A} now (tl : TimerList timer_id) t (a b : A) :
  timers_wf tl →
  (if decide (t ∈ (expired now tl).*1) then a else b) =
  if timer_pending tl t && (expire_time tl t <=? now) then a else b.
Proof.
  intros Hwf. case_decide as Hd; rewrite in_expired, <- Z.leb_le in Hd by done.
  - by destruct Hd as [-> ->].
  - destruct (timer_pending _ _), (_ <=? _); try done. by exfalso; apply Hd.
Qed.

(** *** Both sides at once *)

Definition uart_abs (s : UartState) : TxSpec * RxSpec := (tx_abs s, rx_abs s).

Definition uart_inv (s : UartState) : Prop := uart_wf s ∧ tx_inv s ∧ rx_inv s.

Lemma tx_abs_frame s s' :
  (∀ i, i = 4 ∨ i = 5 ∨ i = 6 → Z.testbit (status s') i = Z.testbit (status s) i) →
  tx_shift_register s' = tx_shift_register s → txdata s' = txdata s →
  timer_pending (timers s') tx_timer = timer_pending (timers s) tx_timer →
  omap chr_written (chr s') = omap chr_written (chr s) →
  tx_inv s → tx_inv s' ∧ tx_abs s' = tx_abs s.
Proof.
  intros Hb Hsr Hd Ht Hc. unfold tx_inv, tx_abs, tx_queue.
  by rewrite !Hb, Hsr, Hd, Ht, Hc by auto.
Qed.

Lemma rx_abs_frame s s' :
  (∀ i, i = 3 ∨ i = 7 → Z.testbit (status s') i = Z.testbit (status s) i) →
  rxdata s' = rxdata s → rx_shift_register s' = rx_shift_register s →
  can_receive s' = can_receive s →
  timer_pending (timers s') rx_timer = timer_pending (timers s) rx_timer →
  rx_inv s → rx_inv s' ∧ rx_abs s' = rx_abs s.
Proof.
  intros Hb Hd Hsr Hc Ht. unfold rx_inv, rx_abs. by rewrite !Hb, Hd, Hsr, Hc, Ht by auto.
Qed.

Lemma write_txdata_rx now val s :
  uart_wf s → rx_inv s →
  rx_inv (uart_write_txdata now val s) ∧ rx_abs (uart_write_txdata now val s) = rx_abs s.
Proof.
  intros Hs. unfold uart_write_txdata, wait_for_ch_tx_time. simpl. rewrite has_TMT, has_TRDY.
  destruct (Z.testbit (status s) 5), (Z.testbit (status s) 6); simpl;
    apply rx_abs_frame; intros; status_bits; try done;
    try (destruct_or!; subst; status_bits; done);
    unfold timer_mod; by rewrite pending_mod by apply Hs.
Qed.

Lemma write_other now addr val s s' :
  uart_inv s → addr ≠ TXDATA → addr ≠ STATUS → uart_write now addr val s = Ok s' →
  uart_inv s' ∧ uart_abs s' = uart_abs s.
Proof.
  intros (Hs & Ht & Hr) H1 H2 Hw. pose proof (uart_write_wf _ _ _ _ _ Hs Hw) as Hs'.
  cut ((tx_inv s' ∧ tx_abs s' = tx_abs s) ∧ rx_inv s' ∧ rx_abs s' = rx_abs s).
  { intros [[? Ha] [? Hb]]. unfold uart_inv, uart_abs. by rewrite Ha, Hb. }
  revert Hw. clear Hs'. unfold uart_write.
  destruct (Z.eqb_spec addr RXDATA); [by intros [= <-]|].
  destruct (Z.eqb_spec addr TXDATA); [done|]. destruct (Z.eqb_spec addr STATUS); [done|].
  destruct (Z.eqb_spec addr CONTROL).
  { intros [= <-]. unfold check_and_clear_interrupt, check_and_set_interrupt. simpl.
    destruct (has (u32 val) (status s)) eqn:H; simpl; rewrite H; simpl;
      (split; [by apply tx_abs_frame|by apply rx_abs_frame]). }
  destruct (Z.eqb_spec addr DIVISOR); [|by intros [= <-]].
  rewrite update_params_spec by (apply Hs || (simpl; auto with word)).
  case_if; [|done]. intros [= <-]. split; [|by apply rx_abs_frame].
  apply tx_abs_frame; try done. simpl. by rewrite omap_app, app_nil_r.
Qed.

Lemma receive_both now b s : uart_inv s → is_u8 b →
  uart_inv (uart_receive now b s) ∧ uart_abs (uart_receive now b s) = (tx_abs s, rx_arrive b (rx_abs s)).
Proof.
  intros (Hs & Ht & Hr) Hb. destruct (receive_rx now b s Hs Hr) as [Ha Hr'].
  assert (tx_inv (uart_receive now b s) ∧ tx_abs (uart_receive now b s) = tx_abs s) as [Ht' Ha'].
  { unfold uart_receive. case_if; [|done]. apply tx_abs_frame; try done; simpl.
    - unfold timer_mod. by rewrite pending_mod by apply Hs.
    - by rewrite omap_app, app_nil_r. }
  unfold uart_inv, uart_abs. rewrite Ha, Ha'. auto using uart_receive_wf.
Qed.

Lemma read_rxdata_both s : uart_inv s →
  uart_inv (uart_read RXDATA s).1 ∧ uart_abs (uart_read RXDATA s).1 = (tx_abs s, rx_take (rx_abs s)).
Proof.
  intros (Hs & Ht & Hr). pose proof (uart_read_wf RXDATA s Hs) as Hs'.
  cut (tx_inv (uart_read RXDATA s).1 ∧ tx_abs (uart_read RXDATA s).1 = tx_abs s).
  { intros [? Ha]. unfold uart_inv, uart_abs. rewrite Ha. split; [split_and!; try done|f_equal].
    - unfold rx_inv. simpl. by autorewrite with uartf.
    - unfold rx_abs, rx_take. simpl. by status_bits. }
  apply tx_abs_frame; simpl; autorewrite with uartf; try done.
  intros i Hi. unfold RRDY. destruct_or!; subst; by status_bits.
Qed.

Lemma reset_both s s' :
  uart_inv s → Z.testbit (status s) 5 = true → can_receive s = 1 → uart_reset s = Ok s' →
  uart_inv s' ∧ uart_abs s' = (mk_TxSpec [] (tx_sent (tx_abs s)) false, mk_RxSpec None None false).
Proof.
  intros (Hs & Ht & Hr) H5 Hc Hrs. destruct (reset_tx s s' Hs Ht H5 Hrs) as (Ht' & Ha & _).
  destruct (reset_fields s s' Hs Hrs) as (H1 & H2 & H3 & _).
  unfold uart_inv, uart_abs. rewrite Ha. unfold rx_inv, rx_abs in *.
  rewrite H1, H2, H3. rewrite Hc in Hr. split_and!; try done.
  eapply uart_reset_wf; [..|exact Hrs]; apply Hs.
Qed.

(** C30.  The device implements two abstract machines side by side: a
    two-place transmit queue and a receive buffer behind a shift register.  A
    write to TXDATA is [tx_put], an expiry of the transmit timer
    [tx_shift_out] (TXDATA moves to the shift register, TOE records the
    overrun of a full queue); a received character is [rx_arrive], an expiry
    of the receive timer [rx_shift_in] (ROE records an unread character), a
    read of RXDATA returns the held character and is [rx_take]; a reset of an
    idle device empties both.  Each of these leaves the other machine as it
    was, every other read leaves the device alone, every other write that
    succeeds, except one to STATUS (which loads the flags), leaves both
    machines, and each keeps the invariant of the device and of both sides. *)
Theorem uart_refines_queues now s :
  clock_ok now → uart_inv s →
  (∀ val, ∃ s', uart_write now TXDATA val s = Ok s' ∧ uart_inv s' ∧
     uart_abs s' = (tx_put (u8 val) (tx_abs s), rx_abs s)) ∧
  (∀ b, is_u8 b → uart_inv (uart_receive now b s) ∧
     uart_abs (uart_receive now b s) = (tx_abs s, rx_arrive b (rx_abs s))) ∧
  (uart_inv (uart_read RXDATA s).1 ∧ uart_abs (uart_read RXDATA s).1 = (tx_abs s, rx_take (rx_abs s)) ∧
     ∀ b, rx_holding (rx_abs s) = Some b → (uart_read RXDATA s).2 = b) ∧
  (∃ s' p, uart_run_timers now s = Some (s', p) ∧ uart_inv s' ∧
     tx_abs s' = (if timer_pending (timers s) tx_timer && (expire_time (timers s) tx_timer <=? now)
                  then tx_shift_out (tx_abs s) else tx_abs s) ∧
     rx_abs s' = (if timer_pending (timers s) rx_timer && (expire_time (timers s) rx_timer <=? now)
                  then rx_shift_in (rx_abs s) else rx_abs s)) ∧
  (∀ s', Z.testbit (status s) 5 = true → can_receive s = 1 → uart_reset s = Ok s' →
     uart_inv s' ∧ uart_abs s' = (mk_TxSpec [] (tx_sent (tx_abs s)) false, mk_RxSpec None None false)) ∧
  (∀ addr, addr ≠ RXDATA → (uart_read addr s).1 = s) ∧
  (∀ addr val s', addr ≠ TXDATA → addr ≠ STATUS → uart_write now addr val s = Ok s' →
     uart_inv s' ∧ uart_abs s' = uart_abs s).
Proof.
  intros Hn Hi. pose proof Hi as (Hs & Ht & Hr). split_and!.
  - intros val. exists (uart_write_txdata now val s). split; [done|].
    destruct (write_txdata_refines now val s Hs Hn Ht) as [Ha ?].
    destruct (write_txdata_rx now val s Hs Hr) as [? Hb].
    unfold uart_inv, uart_abs. rewrite Ha, Hb. auto using uart_write_txdata_wf.
  - intros b. by apply receive_both.
  - by apply read_rxdata_both.
  - by apply read_rxdata_both.
  - simpl. intros b. case_if; [|done]. intros [= <-].
    change 255 with (2 ^ 8 - 1). rewrite land_mask by done. apply wrap_small, Hs.
  - destruct (uart_run_timers_spec now s Hs Hn) as (Hrun & Hs' & _).
    destruct (advance_tx _ _ _ _ Hs Hn Ht Hrun) as [Ht' Hta].
    destruct (advance_rx _ _ _ _ Hs Hn Hr Hrun) as [Hr' Hra].
    do 2 eexists. split; [exact Hrun|]. rewrite <- !if_expired by apply Hs. done.
  - intros s'. by apply reset_both.
  - intros addr Ha. unfold uart_read. destruct (Z.eqb_spec addr RXDATA); [done|].
    repeat case_if; done.
  - intros addr val s'. by apply write_other.
Qed.

(** Reception takes one character time.  A character received by an idle
    receiver leaves RRDY clear at every instant before the character time has
    passed; at or after it RRDY is set, ROE unchanged, a read of RXDATA
    returns the character and clears RRDY, and the receiver is idle again. *)
Lemma uart_rx_delivery now b s t :
  uart_wf s → clock_ok now → rx_inv s → is_u8 b →
  truth (can_receive s) = true → has (status s) RRDY = false →
  now ≤ t → clock_ok t →
  ∃ s' p, uart_run_timers t (uart_receive now b s) = Some (s', p) ∧
    has (status s') RRDY = (now + char_tx_time s <=? t) ∧
    Z.testbit (status s') 3 = Z.testbit (status s) 3 ∧
    (now + char_tx_time s ≤ t →
     truth (can_receive s') = true ∧ (uart_read RXDATA s').2 = b ∧
     has (status (uart_read RXDATA s').1) RRDY = false).
Proof.
  intros Hs Hn Hi Hb Hc. rewrite has_RRDY. intros H7 Hle Ht.
  destruct (receive_rx now b s Hs Hi) as [Ha Hi1].
  assert (expire_time (timers (uart_receive now b s)) rx_timer = now + char_tx_time s) as He.
  { unfold uart_receive. rewrite Hc. simpl. unfold timer_mod.
    rewrite deadline_exact, expire_time_mod by (done || apply Hs). simpl.
    apply char_tx_time_bounds in Hs. unfold clock_ok in Hn. lia. }
  assert (timer_pending (timers (uart_receive now b s)) rx_timer = true) as Hp.
  { rewrite Hi1. unfold uart_receive. by rewrite Hc. }
  apply (uart_receive_wf now b) in Hs as Hs1; [|done].
  destruct (uart_run_timers_spec t _ Hs1 Ht) as (Hrun & Hs2 & _).
  destruct (advance_rx _ _ _ _ Hs1 Ht Hi1 Hrun) as [_ Hra].
  do 2 eexists. split; [exact Hrun|]. set (s2 := foldl _ _ _) in *. rewrite has_RRDY.
  unfold rx_abs, rx_shift_in, rx_arrive in Hra, Ha. rewrite Hc, H7 in Ha. simpl in Ha.
  rewrite Ha in Hra. simpl in Hra.
  case_decide as Hd; rewrite in_expired, Hp, He in Hd by apply Hs1; simpl in Hra;
    destruct (Z.leb_spec (now + char_tx_time s) t); try (exfalso; naive_solver lia).
  - injection Hra as Hr1 Hr2 Hr3. destruct (Z.testbit (status s2) 7); [|done].
    injection Hr1 as Hr1. rewrite orb_false_r in Hr3. split_and!; [done|done|].
    intros _. simpl. change 255 with (2 ^ 8 - 1).
    rewrite land_mask, Hr1, wrap_small, has_RRDY by done. split_and!.
    + by destruct (truth (can_receive s2)).
    + done.
    + status_bits. done.
  - injection Hra as Hr1 Hr2 Hr3. destruct (Z.testbit (status s2) 7); [done|].
    split_and!; [done|done|lia].
Qed.

(** C40.  DIVISOR sets the speed or stops the emulator.  Writing DIVISOR
    succeeds exactly when the 32-bit value is below the clock frequency; the
    baud rate is then the clock divided by the value plus one, and a character
    takes eleven bit times.  Every other value divides by zero on the host,
    the wrapped 0xFFFFFFFF included. *)
Theorem uart_divisor_write now val s :
  uart_wf s →
  (u32 val < CLK_FREQ →
     ∃ s', uart_write now DIVISOR val s = Ok s' ∧ divisor s' = u32 val ∧
       baudrate s' = CLK_FREQ / (u32 val + 1) ∧
       char_tx_time s' = NANOSECONDS_PER_SECOND / baudrate s' * 11) ∧
  (CLK_FREQ ≤ u32 val → uart_write now DIVISOR val s = Abort DivideByZero).
Proof.
  intros Hs. change (uart_write now DIVISOR val s) with (update_params (s <| divisor := u32 val |>)).
  rewrite update_params_spec by (apply Hs || (simpl; auto with word)). simpl.
  destruct (Z.ltb_spec (u32 val) CLK_FREQ); split; intros; try lia; eauto.
Qed.

(** A reset does not stop the timers.  If a character is being shifted
    out when the device is reset, TMT reads as set (nothing to send) yet the
    character is still written to the backend when its old deadline passes. *)
Lemma uart_reset_stale_character s t s1 :
  uart_wf s → timers s = [(tx_timer, t)] → clock_ok t → uart_reset s = Ok s1 →
  has (status s1) TMT = true ∧
  ∃ s2 p, uart_run_timers t s1 = Some (s2, p) ∧
    omap chr_written (chr s2) = omap chr_written (chr s) ++ [tx_shift_register s].
Proof.
  intros Hs Htm Ht Hr.
  assert (uart_wf s1) as Hs1 by (eapply uart_reset_wf; [..|exact Hr]; apply Hs).
  destruct (reset_fields s s1 Hs Hr) as (H1 & H2 & _ & H4).
  assert (tx_shift_register s1 = tx_shift_register s) as H3.
  { revert Hr. unfold uart_reset. rewrite update_params_spec by (done || apply Hs).
    simpl. by intros [= <-]. }
  rewrite H1. split; [done|]. destruct (uart_run_timers_spec t s1 Hs1 Ht) as (Hrun & _ & _).
  do 2 eexists. split; [exact Hrun|]. rewrite H2, Htm, expired_cons. simpl.
  rewrite decide_True by lia. simpl. unfold fire_timer, fire. simpl.
  destruct (timeout_tx_fields t (set_timers (tail (timers s1)) s1)) as [-> _].
  rewrite omap_app. simpl. by rewrite H3, H4.
Qed.

(** ** A concrete device *)

Definition uart0 : UartState := Eval vm_compute in
  match uart_realize (uart_init (Some [])) with
  | Ok s => s
  | Abort _ => uart_init None
  end.

Lemma uart0_realized : uart_realize (uart_init (Some [])) = Ok uart0.
Proof. vm_compute. reflexivity. Qed.

Lemma uart0_wf : uart_wf uart0.
Proof. apply (uart_realize_wf (Some [])); [by eexists|apply uart0_realized]. Qed.

Lemma uart0_inv : tx_inv uart0 ∧ rx_inv uart0.
Proof. by vm_compute. Qed.

(** The step relation as a function, with a guard on the events. *)
Definition exec_event (e : uart_event) (c : Z * UartState) : option (Z * UartState) :=
  match e with
  | EvRead addr => Some (c.1, (uart_read addr c.2).1)
  | EvWrite addr val =>
    match uart_write c.1 addr val c.2 with Ok s => Some (c.1, s) | Abort _ => None end
  | EvReceive b =>
    if bool_decide (is_u8 b) then Some (c.1, uart_receive c.1 b c.2) else None
  | EvReset => match uart_reset c.2 with Ok s => Some (c.1, s) | Abort _ => None end
  | EvAdvance t =>
    if (c.1 <=? t) && (0 <=? t) && (t <? 2 ^ 62)
    then match uart_run_timers t c.2 with Some (s, _) => Some (t, s) | None => None end
    else None
  end.

Fixpoint exec_events (g : UartState → uart_event → bool) (es : list uart_event)
  (c : Z * UartState) : option (Z * UartState) :=
  match es with
  | [] => Some c
  | e :: es => if g c.2 e then exec_event e c ≫= exec_events g es else None
  end.

Lemma exec_event_sound e c c' : exec_event e c = Some c' → uart_step c e c'.
Proof.
  destruct c as [now s], e; simpl.
  - intros [= <-]. constructor.
  - destruct (uart_write _ _ _ _) eqn:H; [|done]. intros [= <-]. by constructor.
  - case_bool_decide; [|done]. intros [= <-]. by constructor.
  - destruct (uart_reset _) eqn:H; [|done]. intros [= <-]. by constructor.
  - case_if; [|done]. rewrite !andb_true_iff, !Z.leb_le, Z.ltb_lt in *.
    destruct (uart_run_timers _ _) as [[s' p]|] eqn:H; [|done]. intros [= <-].
    eapply step_advance; [..|exact H]; unfold clock_ok; lia.
Qed.

Lemma exec_events_sound (g : UartState → uart_event → bool) (G : UartState → uart_event → Prop)
  es c c' :
  (∀ s e, g s e = true → G s e) → exec_events g es c = Some c' → uart_run G c es c'.
Proof.
  intros Hg. revert c. induction es as [|e es IH]; intros c; simpl.
  - intros [= <-]. constructor.
  - destruct (g c.2 e) eqn:Hge; [|done]. destruct (exec_event e c) as [c1|] eqn:He; [|done].
    simpl. intros Hes. econstructor; eauto using exec_event_sound.
Qed.

Definition tx_polite_b (s : UartState) (e : uart_event) : bool :=
  match e with
  | EvWrite addr _ => negb (addr =? STATUS) && (negb (addr =? TXDATA) || Z.testbit (status s) 6)
  | EvReset => Z.testbit (status s) 5
  | _ => true
  end.

Lemma tx_polite_b_sound s e : tx_polite_b s e = true → tx_polite s e.
Proof.
  destruct e; simpl; try done. rewrite andb_true_iff, orb_true_iff, !negb_true_iff, !Z.eqb_neq.
  naive_solver.
Qed.

(** Two characters written and one received after a reset; the time of one
    character passes. *)
Definition demo_events : list uart_event :=
  [EvReset; EvWrite CONTROL 0x40; EvWrite TXDATA 0x148; EvReceive 0x21; EvWrite TXDATA 0x69;
   EvAdvance 200000; EvRead RXDATA].

Definition uart_demo : UartState := Eval vm_compute in
  from_option snd uart0 (exec_events tx_polite_b demo_events (0, uart0)).

Lemma demo_run : uart_run tx_polite (0, uart0) demo_events (200000, uart_demo).
Proof. apply (exec_events_sound tx_polite_b _ _ _ _ tx_polite_b_sound). by vm_compute. Qed.

Lemma uart_reachable_invariant_witness :
  uart_wf uart_demo ∧
  ∃ s' progress, uart_run_timers 500000 uart_demo = Some (s', progress) ∧
    Forall (fun a => 500000 < a.2) (timers s').
Proof.
  destruct (uart_reachable_invariant (Some []) 0 uart0 demo_events 200000 uart_demo)
    as [H1 H2].
  - by eexists.
  - done.
  - exact uart0_realized.
  - apply (exec_events_sound (fun _ _ => true)); [done|]. vm_compute. reflexivity.
  - split; [exact H1|]. by apply H2.
Defined.

Lemma uart_tx_fifo_witness :
  tx_all uart_demo = [0x48; 0x69] ∧ omap chr_written (chr uart_demo) = [0x48].
Proof.
  destruct (uart_tx_fifo _ _ _ demo_run) as [_ H]; [done|apply uart0_wf|apply uart0_inv|].
  split; [exact H|reflexivity].
Defined.

Lemma demo_wf : uart_wf uart_demo.
Proof. apply (uart_run_wf _ _ _ _ demo_run); [done|apply uart0_wf]. Qed.

Lemma demo_inv : tx_inv uart_demo ∧ rx_inv uart_demo.
Proof. by vm_compute. Qed.

Lemma uart_tx_drains_witness :
  ∃ s1 p1 s2 p2,
    uart_run_timers 400000 uart_demo = Some (s1, p1) ∧ uart_run_timers 600000 s1 = Some (s2, p2) ∧
    omap chr_written (chr s2) = [0x48; 0x69] ∧ tx_queue s2 = [] ∧ has (status s2) TMT = true.
Proof.
  apply (uart_tx_drains uart_demo 400000 600000);
    [exact demo_wf|apply demo_inv|done|done|by vm_compute|by vm_compute].
Defined.

Lemma uart_refines_queues_witness :
  ∃ s', uart_write 200000 TXDATA 0x0A uart_demo = Ok s' ∧ uart_inv s' ∧
    uart_abs s' = (mk_TxSpec [0x69; 0x0A] [0x48] false, mk_RxSpec None None false).
Proof.
  destruct (uart_refines_queues 200000 uart_demo) as [H _];
    [done|exact (conj demo_wf demo_inv)|].
  exact (H 0x0A).
Defined.

Lemma uart_rx_delivery_witness :
  ∃ s' p, uart_run_timers 190971 (uart_receive 0 0x41 uart0) = Some (s', p) ∧
    (uart_read RXDATA s').2 = 0x41.
Proof.
  destruct (uart_rx_delivery 0 0x41 uart0 190971) as (s' & p & H1 & _ & _ & H2);
    [exact uart0_wf|done|apply uart0_inv|by vm_compute..|].
  exists s', p. split; [exact H1|]. by apply H2.
Defined.

Lemma uart_divisor_write_witness :
  uart_write 0 DIVISOR 0xFFFFFFFF uart0 = Abort DivideByZero ∧
  ∃ s', uart_write 0 DIVISOR 1000 uart0 = Ok s' ∧ baudrate s' = 115.
Proof.
  split.
  - apply (uart_divisor_write 0 0xFFFFFFFF uart0 uart0_wf). by vm_compute.
  - destruct (proj1 (uart_divisor_write 0 1000 uart0 uart0_wf) eq_refl) as (s' & H1 & _ & H2 & _).
    exists s'. split; [exact H1|exact H2].
Defined.

(** The demo device once its first character is being shifted. *)
Definition uart_shifting : UartState := Eval vm_compute in uart_write_txdata 0 0x48 uart0.

Lemma shifting_wf : uart_wf uart_shifting.
Proof. apply (uart_write_txdata_wf 0 0x48 uart0 uart0_wf). Qed.

Definition uart_restarted : UartState := Eval vm_compute in
  match uart_reset uart_shifting with Ok s => s | Abort _ => uart0 end.

Lemma uart_reset_stale_character_witness :
  has (status uart_restarted) TMT = true ∧
  ∃ s2 p, uart_run_timers 190971 uart_restarted = Some (s2, p) ∧
    omap chr_written (chr s2) = [0x48].
Proof.
  apply (uart_reset_stale_character uart_shifting 190971 uart_restarted shifting_wf);
    [reflexivity|done|vm_compute; reflexivity].
Defined.
