(* ===== verification/Clock.v ===== *)
(** Clocks: qemu/hw/core/clock.c and include/hw/clock.h.

    Clocks are heap objects organized in trees; they live in a store indexed by
    their identity.  A change of period is propagated from a clock to those it
    feeds, calling the callbacks registered for the event; the calls are recorded
    in order. *)

From stdpp Require Import sets.
From S2P Require Import Prelude.

Record Clock (R : Type) := mk_clock {
  cl_period : Z;       (* uint64_t, units of 2^-32 ns *)
  multiplier : Z;      (* uint32_t *)
  divider : Z;         (* uint32_t *)
  callback : option Z; (* the events of the callback, if there is one *)
  cl_source : option R;
  children : list R    (* newest first *)
}.
Arguments mk_clock {R}.
Arguments cl_period {R}.
Arguments multiplier {R}.
Arguments divider {R}.
Arguments callback {R}.
Arguments cl_source {R}.
Arguments children {R}.

#[export] Instance eta_Clock {R} : RecordEta (Clock R) := fun c =>
  mk_clock (cl_period c) (multiplier c) (divider c) (callback c) (cl_source c) (children c).

Definition CLOCK_PERIOD_1SEC : Z := Z.shiftl 1000000000 32.
Definition CLOCK_PERIOD_FROM_HZ (hz : Z) : Z := if hz =? 0 then 0 else CLOCK_PERIOD_1SEC / hz.
Definition CLOCK_PERIOD_FROM_NS (ns : Z) : Z := u64 (ns * (CLOCK_PERIOD_1SEC / 1000000000)).
Definition CLOCK_PERIOD_TO_HZ (per : Z) : Z := if per =? 0 then 0 else CLOCK_PERIOD_1SEC / per.

(** [(__int128_t)a * b / c], truncated to 64 bits. *)
Definition muldiv64 (a b c : Z) : Z := u64 (a * b / c).

Section Values.
Context {R : Type}.
Implicit Types c : Clock R.

Definition clock_initfn : Clock R := mk_clock 0 1 1 None None [].
Definition clock_get c : Z := cl_period c.
Definition clock_has_source c : bool := match cl_source c with Some _ => true | None => false end.
Definition clock_is_enabled c : bool := negb (cl_period c =? 0).
Definition clock_get_hz c : Z := u32 (CLOCK_PERIOD_TO_HZ (clock_get c)).
Definition clock_get_child_period c : Z := muldiv64 (cl_period c) (multiplier c) (divider c).

Definition clock_ticks_to_ns c (ticks : Z) : Z :=
  let ns_low := u64 (cl_period c * ticks) in
  let ns_high := u64 (Z.shiftr (cl_period c * ticks) 64) in
  if truth (Z.land ns_high (Z.shiftl (2 ^ 33 - 1) 31)) then 2 ^ 63 - 1
  else Z.lor (Z.shiftr ns_low 32) (u64 (Z.shiftl ns_high 32)).

(** [divu128] leaves the low half of the quotient in [lo]. *)
Definition clock_ns_to_ticks c (ns : Z) : Z :=
  let lo := u64 (Z.shiftl ns 32) in
  let hi := Z.shiftr ns 32 in
  if cl_period c =? 0 then 0
  else u64 ((Z.shiftl hi 64 + lo) / cl_period c).
End Values.

Inductive ClockEvent := ClockUpdate | ClockPreUpdate.

(** The bit of an event. *)
Definition clock_event_bit (event : ClockEvent) : Z :=
  match event with ClockUpdate => 1 | ClockPreUpdate => 2 end.

(** [clk->callback && (clk->callback_events & event)]. *)
Definition wants_event {R} (c : Clock R) (event : ClockEvent) : bool :=
  match callback c with Some events => has events (clock_event_bit event) | None => false end.

Section Trees.
Context {R : Type} `{EqDecision R}.

Definition clocks := R → Clock R.

Definition cupd (r : R) (f : Clock R → Clock R) (st : clocks) : clocks :=
  fun r' => if decide (r' = r) then f (st r') else st r'.

Definition clock_set (clk : R) (per : Z) (st : clocks) : clocks * bool :=
  if cl_period (st clk) =? per then (st, false) else (cupd clk (fun c => c <| cl_period := per |>) st, true).

Definition clock_set_hz (clk : R) (hz : Z) (st : clocks) : clocks * bool :=
  clock_set clk (CLOCK_PERIOD_FROM_HZ hz) st.

Definition clock_set_mul_div (clk : R) (mul div : Z) (st : clocks) : outcome (clocks * bool) :=
  assert_c (negb (div =? 0));;
  mret (if (multiplier (st clk) =? mul) && (divider (st clk) =? div) then (st, false)
        else (cupd clk (fun c => c <| multiplier := mul |> <| divider := div |>) st, true)).

(** A clock that is a child of a device, as all of them are. *)
Definition clock_set_callback (clk : R) (events : Z) (st : clocks) : clocks :=
  cupd clk (fun c => c <| callback := Some events |>) st.

Abbreviation calls := (list (R * ClockEvent)).

Definition clock_call_callback (clk : R) (event : ClockEvent) (w : clocks * calls) : clocks * calls :=
  if wants_event (w.1 clk) event then (w.1, w.2 ++ [(clk, event)]) else w.

(** The callbacks called are appended to the log; the fuel bounds the depth of
    the tree below the clock. *)
Fixpoint clock_propagate_period (fuel : nat) (clk : R) (call_callbacks : bool) (w : clocks * calls)
  : clocks * calls :=
  match fuel with
  | O => w
  | S fuel =>
    let child_period := clock_get_child_period (w.1 clk) in
    fold_left (fun (w : clocks * calls) child =>
      if cl_period (w.1 child) =? child_period then w
      else
        let w := if call_callbacks then clock_call_callback child ClockPreUpdate w else w in
        let w := (cupd child (fun c => c <| cl_period := child_period |>) w.1, w.2) in
        let w := if call_callbacks then clock_call_callback child ClockUpdate w else w in
        clock_propagate_period fuel child call_callbacks w)
      (children (w.1 clk)) w
  end.

Definition clock_propagate (fuel : nat) (clk : R) (w : clocks * calls) : clocks * calls :=
  clock_propagate_period fuel clk true w.

Definition clock_update (fuel : nat) (clk : R) (value : Z) (w : clocks * calls) : clocks * calls :=
  let '(st, changed) := clock_set clk value w.1 in
  if changed : bool then clock_propagate fuel clk (st, w.2) else (st, w.2).

Definition clock_set_source (fuel : nat) (clk src : R) (w : clocks * calls) : outcome (clocks * calls) :=
  let st := w.1 in
  assert_c (negb (clock_has_source (st clk)));;
  let st := cupd clk (fun c => c <| cl_period := clock_get_child_period (st src) |>) st in
  let st := cupd src (fun c => c <| children ::= cons clk |>) st in
  let st := cupd clk (fun c => c <| cl_source := Some src |>) st in
  mret (clock_propagate_period fuel clk false (st, w.2)).
End Trees.

(** ** Propagation makes the tree consistent *)

Section Propagation.
Context {R : Type} `{EqDecision R}.
Implicit Types (st : clocks (R := R)) (log : list (R * ClockEvent)).

(** Sources and children mirror each other, and no clock feeds itself:
    [height] decreases from a clock to those it feeds. *)
Record tree_wf (height : R → nat) st : Prop := {
  tw_mirror : ∀ p c, c ∈ children (st p) ↔ cl_source (st c) = Some p;
  tw_height : ∀ p c, cl_source (st c) = Some p → (height c < height p)%nat
}.

(** Every clock fed by another has the period that one gives. *)
Definition fed st (c : R) : Prop :=
  ∀ p, cl_source (st c) = Some p → cl_period (st c) = clock_get_child_period (st p).

Definition consistent st : Prop := ∀ c, fed st c.

(** Only periods differ. *)
Definition same_tree st st' : Prop := ∀ r, st' r = (st r) <| cl_period := cl_period (st' r) |>.

#[local] Instance same_tree_preorder : PreOrder same_tree.
Proof.
  split; [intros st r; by destruct (st r)|]. intros a b c H1 H2 r. rewrite (H2 r). simpl.
  by rewrite (H1 r).
Qed.

Lemma same_tree_source st st' r : same_tree st st' → cl_source (st' r) = cl_source (st r).
Proof. intros H. by rewrite H. Qed.

Lemma same_tree_wf height st st' : same_tree st st' → tree_wf height st → tree_wf height st'.
Proof.
  intros H [Hm Hh]. split.
  - intros p c. rewrite (H p), (H c). apply Hm.
  - intros p c. rewrite (H c). apply Hh.
Qed.

Lemma same_tree_set st r v : same_tree st (cupd r (fun c => c <| cl_period := v |>) st).
Proof. intros r'. unfold cupd. case_decide; by destruct (st r'). Qed.

Lemma same_tree_wants st st' r ev : same_tree st st' → wants_event (st' r) ev = wants_event (st r) ev.
Proof. intros H. by rewrite H. Qed.

(** What a call has done: nothing above, every change notified to the clocks
    that asked for it, and nobody else called. *)
Record propagated (height : R → nat) (n : nat) (w w' : clocks * list (R * ClockEvent)) : Prop := {
  pr_tree : same_tree w.1 w'.1;
  pr_above : ∀ r, (n ≤ height r)%nat → w'.1 r = w.1 r;
  pr_notified : ∃ log, w'.2 = w.2 ++ log ∧
    (∀ r ev, w'.1 r ≠ w.1 r → wants_event (w.1 r) ev = true → (r, ev) ∈ log) ∧
    (∀ r ev, (r, ev) ∈ log → wants_event (w.1 r) ev = true ∧ (height r < n)%nat)
}.

Lemma propagated_refl height n w : propagated height n w w.
Proof.
  split; [done|done|]. exists []. rewrite app_nil_r. split_and!; [done|done|]. by intros r ev ?%elem_of_nil.
Qed.

Lemma clock_eq_dec_stable (a b : Clock R) : Decision (a = b).
Proof. unfold Decision. decide equality; apply _ || solve_decision. Qed.

Lemma propagated_trans height n k a b c :
  (k ≤ n)%nat → propagated height k a b → propagated height n b c → propagated height n a c.
Proof.
  intros Hk [T1 A1 (l1 & E1 & N1 & O1)] [T2 A2 (l2 & E2 & N2 & O2)]. split.
  - by transitivity b.1.
  - intros r Hr. rewrite A2, A1 by lia. done.
  - exists (l1 ++ l2). rewrite E2, E1, app_assoc. split_and!; [done| |].
    + intros r ev Hr Hw. apply elem_of_app.
      destruct (clock_eq_dec_stable (b.1 r) (a.1 r)) as [E|E]; [rewrite <- E in Hr|].
      * right. apply N2; [done|]. by rewrite (same_tree_wants a.1).
      * left. by apply N1.
    + intros r ev [Hin|Hin]%elem_of_app.
      * destruct (O1 r ev Hin). split; [done|lia].
      * destruct (O2 r ev Hin) as [Hw ?]. by rewrite (same_tree_wants a.1) in Hw.
Qed.

(** Setting the child's period and notifying it. *)
Definition set_child (child : R) (v : Z) (w : clocks * list (R * ClockEvent)) : clocks * list (R * ClockEvent) :=
  let w := clock_call_callback child ClockPreUpdate w in
  clock_call_callback child ClockUpdate (cupd child (fun c => c <| cl_period := v |>) w.1, w.2).

(** The visit of one child. *)
Definition visit (fuel : nat) (child_period : Z) (w : clocks * list (R * ClockEvent)) (child : R) :=
  if cl_period (w.1 child) =? child_period then w
  else clock_propagate_period fuel child true (set_child child child_period w).

Lemma set_child_fields child v w :
  (set_child child v w).1 = cupd child (fun c => c <| cl_period := v |>) w.1 ∧
  (set_child child v w).2 = w.2 ++
    (if wants_event (w.1 child) ClockPreUpdate then [(child, ClockPreUpdate)] else []) ++
    (if wants_event (w.1 child) ClockUpdate then [(child, ClockUpdate)] else []).
Proof.
  assert (∀ ev, wants_event (cupd child (fun c => c <| cl_period := v |>) w.1 child) ev = wants_event (w.1 child) ev)
    as Hw by (intros ev; apply same_tree_wants, same_tree_set).
  unfold set_child, clock_call_callback. cbv zeta.
  destruct (wants_event (w.1 child) ClockPreUpdate); cbn [fst snd]; rewrite Hw;
    destruct (wants_event (w.1 child) ClockUpdate); cbn [fst snd app]; rewrite ?app_nil_r, <- ?app_assoc; done.
Qed.

Lemma set_child_propagated height n child v w :
  (height child < n)%nat → propagated height n w (set_child child v w).
Proof.
  intros Hc. destruct (set_child_fields child v w) as [H1 H2]. split; rewrite ?H1, ?H2.
  - apply same_tree_set.
  - intros r Hr. unfold cupd. case_decide; [subst; lia|done].
  - eexists. split; [reflexivity|]. split.
    + intros r ev. unfold cupd. case_decide; [subst|done]. intros _ Hw.
      destruct ev; rewrite Hw; apply elem_of_app; [right|left]; set_solver.
    + intros r ev Hin. apply elem_of_app in Hin as [Hin|Hin]; revert Hin;
        (match goal with |- context [wants_event ?c ?e] => destruct (wants_event c e) eqn:Ew end; [|by intros ?%elem_of_nil]);
        intros [= -> ->]%list_elem_of_singleton; done.
Qed.

Definition propagates (height : R → nat) (fuel : nat) : Prop :=
  ∀ clk w (X : R → Prop), (height clk < fuel)%nat → tree_wf height w.1 →
    (∀ c, ¬ X c → cl_source (w.1 c) ≠ Some clk → fed w.1 c) →
    let w' := clock_propagate_period fuel clk true w in
    propagated height (height clk) w w' ∧ ∀ c, ¬ X c → fed w'.1 c.

Lemma visit_spec height fuel clk w child (X : R → Prop) :
  propagates height fuel → (height clk ≤ fuel)%nat → tree_wf height w.1 →
  cl_source (w.1 child) = Some clk → (∀ c, ¬ X c → c ≠ child → fed w.1 c) →
  let w' := visit fuel (clock_get_child_period (w.1 clk)) w child in
  propagated height (height clk) w w' ∧ ∀ c, ¬ X c → fed w'.1 c.
Proof.
  intros IH Hf Hwf Hsrc Hfed. cbv zeta. unfold visit.
  pose proof (tw_height _ _ Hwf _ _ Hsrc) as Hh.
  destruct (Z.eqb_spec (cl_period (w.1 child)) (clock_get_child_period (w.1 clk))) as [E|E].
  { split; [apply propagated_refl|]. intros c Hc. destruct (decide (c = child)) as [->|]; [|by apply Hfed].
    intros p Hp. simpl in Hp. rewrite Hsrc in Hp. by injection Hp as <-. }
  set (v := clock_get_child_period (w.1 clk)) in *.
  pose proof (set_child_propagated height (height clk) child v w Hh) as Hset.
  destruct (set_child_fields child v w) as [Hw1 _]. set (w1 := set_child child v w) in *.
  destruct (IH child w1 X) as [Hp Hall]; [lia|by eapply same_tree_wf; [apply Hset|]| |].
  - intros c Hc Hcs p Hps. rewrite (same_tree_source w.1) in Hps, Hcs by apply Hset. rewrite Hw1.
    assert (p ≠ child) as Hpc by congruence. unfold cupd. rewrite (decide_False (P := p = child)) by done.
    destruct (decide (c = child)) as [->|Hcc]; [|by apply Hfed].
    simpl. rewrite Hsrc in Hps. by injection Hps as <-.
  - split; [|done]. apply (propagated_trans _ _ (height clk) _ w1); [done|done|].
    destruct Hp as [T A (log & El & N & O)]. split; [done|intros r Hr; apply A; lia|].
    exists log. split_and!; [done|done|]. intros r ev Hin. destruct (O r ev Hin). split; [done|lia].
Qed.

Lemma propagate_spec height fuel : propagates height fuel.
Proof.
  induction fuel as [|fuel IH]; intros clk w X Hf Hwf Hfed; [lia|].
  cbn [clock_propagate_period]. fold (visit fuel (clock_get_child_period (w.1 clk))).
  assert (∀ l w1, propagated height (height clk) w w1 → (∀ c, c ∈ l → cl_source (w.1 c) = Some clk) →
    (∀ c, ¬ X c → c ∉ l → fed w1.1 c) →
    let w' := fold_left (visit fuel (clock_get_child_period (w.1 clk))) l w1 in
    propagated height (height clk) w w' ∧ ∀ c, ¬ X c → fed w'.1 c) as H.
  { induction l as [|child l IHl]; intros w1 Hp Hl Hfed1; [simpl; split; [done|]; intros; apply Hfed1; set_solver|].
    cbn [fold_left]. assert (w1.1 clk = w.1 clk) as Hclk by (apply (pr_above _ _ _ _ Hp); lia).
    rewrite <- Hclk. destruct (visit_spec height fuel clk w1 child (fun c => X c ∨ (c ∈ l ∧ c ≠ child)) IH)
      as [Hv Hfv]; [lia|by eapply same_tree_wf; [apply Hp|]| | |].
    - rewrite (same_tree_source w.1) by apply Hp. apply Hl. set_solver.
    - intros c Hc Hne. apply Hfed1; [tauto|]. set_solver.
    - rewrite Hclk. apply IHl.
      + rewrite <- Hclk. by eapply propagated_trans.
      + set_solver.
      + intros c Hc Hcl. rewrite <- Hclk. apply Hfv. tauto. }
  apply H; [apply propagated_refl| |].
  - intros c Hc. by apply (tw_mirror _ _ Hwf).
  - intros c HX Hc. apply Hfed; [done|]. intros Hs. apply Hc. by apply (tw_mirror _ _ Hwf).
Qed.

End Propagation.
