(* ===== verification/Ptimer.v ===== *)
(** Periodic countdown timers: qemu/hw/core/ptimer.c.

    A ptimer belongs to a device and calls it back when it expires; the callback
    may itself change the ptimer, so the operations that can trigger it act on
    the device's whole state, of which the ptimer is a part. *)

From S2P Require Import Prelude Timer.

(** ** Policies *)

Definition PTIMER_POLICY_WRAP_AFTER_ONE_PERIOD : Z := bit 0.
Definition PTIMER_POLICY_CONTINUOUS_TRIGGER : Z := bit 1.
Definition PTIMER_POLICY_NO_IMMEDIATE_TRIGGER : Z := bit 2.
Definition PTIMER_POLICY_NO_IMMEDIATE_RELOAD : Z := bit 3.
Definition PTIMER_POLICY_NO_COUNTER_ROUND_DOWN : Z := bit 4.
Definition PTIMER_POLICY_TRIGGER_ONLY_ON_DECREMENT : Z := bit 5.

Definition DELTA_ADJUST : Z := 1.
Definition DELTA_NO_ADJUST : Z := -1.

(** ** State *)

Record ptimer_state := mk_ptimer {
  enabled : Z;      (* 0 disabled, 1 periodic, 2 one-shot *)
  limit : Z;        (* uint64_t *)
  delta : Z;        (* uint64_t *)
  period_frac : Z;  (* uint32_t *)
  period : Z;       (* int64_t *)
  last_event : Z;   (* int64_t *)
  next_event : Z;   (* int64_t *)
  policy_mask : Z;  (* uint8_t *)
  timer : TimerList unit;  (* the QEMUTimer, alone in its queue *)
  in_transaction : bool;
  need_reload : bool
}.

#[export] Instance eta_ptimer : RecordEta ptimer_state := fun s =>
  mk_ptimer (enabled s) (limit s) (delta s) (period_frac s) (period s) (last_event s)
    (next_event s) (policy_mask s) (timer s) (in_transaction s) (need_reload s).

Definition policy (s : ptimer_state) (p : Z) : bool := has (policy_mask s) p.

(** Leading zeros of a 64-bit value. *)
Definition clz64 (x : Z) : Z := if x =? 0 then 64 else 63 - Z.log2 x.

Section Ptimer.
(** Whether the rate of timeouts is limited: neither icount nor qtest is
    enabled. *)
Context (limited : bool).

(** Ten microseconds at least between timeouts of a periodic timer. *)
Definition too_fast (d per : Z) : bool := (u64 (d * per) <? 10000) && limited.

(** ** Reading the counter *)

(** The scaled 64-bit division of the time left by the period. *)
Definition scaled_div (rem period period_frac : Z) : outcome Z :=
  let shift := Z.min (clz64 rem) (clz64 period) in
  let rem := u64 (Z.shiftl rem shift) in
  let div := u64 (Z.shiftl period shift) in
  let div :=
    if 32 <=? shift then Z.lor div (u64 (Z.shiftl period_frac (shift - 32)))
    else
      let div := if negb (shift =? 0) then Z.lor div (Z.shiftr period_frac (32 - shift)) else div in
      if truth (u32 (Z.shiftl period_frac shift)) then u64 (div + 1) else div in
  if div =? 0 then Abort DivideByZero else Ok (rem / div).

Definition round_up (now counter : Z) (s : ptimer_state) : Z :=
  if policy s PTIMER_POLICY_NO_COUNTER_ROUND_DOWN && negb (now =? last_event s)
  then u64 (counter + 1) else counter.

Definition ptimer_get_count (now : Z) (s : ptimer_state) : outcome Z :=
  if truth (enabled s) && negb (delta s =? 0) then
    let expired := 0 <=? i64 (now - next_event s) in
    let oneshot := enabled s =? 2 in
    if expired then mret (round_up now 0 s)
    else
      let fast := negb oneshot && too_fast (delta s) (u64 (period s)) in
      let per := if fast then 10000 / delta s else u64 (period s) in
      let frac := if fast then 0 else period_frac s in
      counter ← scaled_div (u64 (next_event s - now)) per frac;
      if policy s PTIMER_POLICY_WRAP_AFTER_ONE_PERIOD && negb oneshot && (delta s =? limit s) &&
         (if now =? last_event s then counter =? u64 (limit s + DELTA_ADJUST)
          else counter =? limit s)
      then mret 0
      else mret (round_up now counter s)
  else mret (delta s).

(** ** Changing the timer, in a transaction *)

Definition request_reload (s : ptimer_state) : ptimer_state :=
  if truth (enabled s) then s <| need_reload := true |> else s.

Definition ptimer_set_count (count : Z) (s : ptimer_state) : outcome ptimer_state :=
  assert_c (in_transaction s);;
  mret (request_reload (s <| delta := count |>)).

Definition ptimer_run (oneshot : bool) (s : ptimer_state) : outcome ptimer_state :=
  let was_disabled := negb (truth (enabled s)) in
  assert_c (in_transaction s);;
  if was_disabled && (period s =? 0) && (period_frac s =? 0) then mret s
  else
    let s := s <| enabled := if oneshot then 2 else 1 |> in
    mret (if was_disabled then s <| need_reload := true |> else s).

Definition ptimer_stop (now : Z) (s : ptimer_state) : outcome ptimer_state :=
  assert_c (in_transaction s);;
  if negb (truth (enabled s)) then mret s
  else
    count ← ptimer_get_count now s;
    mret (s <| delta := count |> <| timer := timer_del (timer s) () |>
            <| enabled := 0 |> <| need_reload := false |>).

Definition ptimer_set_period (now per : Z) (s : ptimer_state) : outcome ptimer_state :=
  assert_c (in_transaction s);;
  count ← ptimer_get_count now s;
  mret (request_reload (s <| delta := count |> <| period := per |> <| period_frac := 0 |>)).

(** [raw_period] is the period of the clock, 32.32 fixed point. *)
Definition ptimer_set_period_from_clock (now raw_period divisor : Z) (s : ptimer_state)
  : outcome ptimer_state :=
  assert_c (in_transaction s);;
  count ← ptimer_get_count now s;
  let frac := u64 (wrap 32 raw_period * divisor) in
  let per := i64 (i64 (wrap 32 (Z.shiftr raw_period 32) * divisor) + Z.shiftr frac 32) in
  mret (request_reload (s <| delta := count |> <| period := per |> <| period_frac := u32 frac |>)).

Definition ptimer_set_freq (now freq : Z) (s : ptimer_state) : outcome ptimer_state :=
  assert_c (in_transaction s);;
  count ← ptimer_get_count now s;
  if freq =? 0 then Abort DivideByZero
  else
    mret (request_reload (s <| delta := count |> <| period := 1000000000 / freq |>
            <| period_frac := u32 (Z.shiftl 1000000000 32 / freq) |>)).

Definition ptimer_set_limit (lim : Z) (reload : bool) (s : ptimer_state) : outcome ptimer_state :=
  assert_c (in_transaction s);;
  let s := s <| limit := lim |> in
  mret (if reload then request_reload (s <| delta := lim |>) else s).

Definition ptimer_get_limit (s : ptimer_state) : Z := limit s.

Definition ptimer_transaction_begin (s : ptimer_state) : outcome ptimer_state :=
  assert_c (negb (in_transaction s));;
  mret (s <| in_transaction := true |> <| need_reload := false |>).

(** ** Reloading, expiry and the callback *)

(** The counts to the next event, from the counter and the adjustment. *)
Definition reload_delta (delta_adjust : Z) (s : ptimer_state) : Z :=
  let adjusted := negb (delta_adjust =? DELTA_NO_ADJUST) in
  let d := if policy s PTIMER_POLICY_WRAP_AFTER_ONE_PERIOD && adjusted
           then u64 (delta s + delta_adjust) else delta s in
  let d := if (d =? 0) && policy s PTIMER_POLICY_CONTINUOUS_TRIGGER &&
              (enabled s =? 1) && (limit s =? 0) then 1 else d in
  let d := if (d =? 0) && policy s PTIMER_POLICY_NO_IMMEDIATE_TRIGGER && adjusted then 1 else d in
  if (d =? 0) && policy s PTIMER_POLICY_NO_IMMEDIATE_RELOAD &&
     (enabled s =? 1) && negb (limit s =? 0) then 1 else d.

Definition ptimer_disable (s : ptimer_state) : ptimer_state :=
  s <| timer := timer_del (timer s) () |> <| enabled := 0 |>.

(** What [ptimer_reload] does once the callback has run. *)
Definition reload_timer (delta_adjust : Z) (s : ptimer_state) : ptimer_state :=
  let s := if (delta s =? 0) && negb (policy s PTIMER_POLICY_NO_IMMEDIATE_RELOAD)
           then s <| delta := limit s |> else s in
  if (period s =? 0) && (period_frac s =? 0) then ptimer_disable s
  else
    let d := reload_delta delta_adjust s in
    if d =? 0 then (if enabled s =? 0 then s else ptimer_disable s)
    else
      let fast := (enabled s =? 1) && too_fast d (u64 (period s)) in
      let per := if fast then 10000 / d else u64 (period s) in
      let frac := if fast then 0 else period_frac s in
      let next := i64 (next_event s + u64 (d * per)) in
      let next := if truth frac then i64 (next + Z.shiftr (u64 (frac * d)) 32) else next in
      s <| last_event := next_event s |> <| next_event := next |>
        <| timer := timer_mod 1 (timer s) () next |>.

Section Device.
Context {W : Type} (get : W → ptimer_state) (set : ptimer_state → W → W).
(** The device's callback, at a time. *)
Context (callback : Z → W → outcome W).

Definition ptimer_trigger (now : Z) (w : W) : outcome W := callback now w.

Definition ptimer_reload (now delta_adjust : Z) (w : W) : outcome W :=
  let suppress_trigger := (delta_adjust =? 0) &&
    policy (get w) PTIMER_POLICY_TRIGGER_ONLY_ON_DECREMENT in
  w ← (if (delta (get w) =? 0) && negb (policy (get w) PTIMER_POLICY_NO_IMMEDIATE_TRIGGER) &&
          negb suppress_trigger
       then ptimer_trigger now w else mret w);
  mret (set (reload_timer delta_adjust (get w)) w).

(** The loop of the commit; [None] when the fuel runs out. *)
Fixpoint commit_loop (fuel : nat) (now : Z) (w : W) : outcome (option W) :=
  if need_reload (get w) && truth (enabled (get w)) then
    match fuel with
    | O => mret None
    | S fuel =>
      w ← ptimer_reload now 0
            (set ((get w) <| need_reload := false |> <| next_event := now |>) w);
      commit_loop fuel now w
    end
  else mret (Some w).

Definition ptimer_transaction_commit (fuel : nat) (now : Z) (w : W) : outcome (option W) :=
  assert_c (in_transaction (get w));;
  r ← commit_loop fuel now w;
  mret (option_map (fun w => set ((get w) <| in_transaction := false |>) w) r).

Definition ptimer_tick (fuel : nat) (now : Z) (w : W) : outcome (option W) :=
  s ← ptimer_transaction_begin (get w);
  let w := set s w in
  if enabled s =? 2 then
    w ← ptimer_trigger now (set (s <| delta := 0 |> <| enabled := 0 |>) w);
    ptimer_transaction_commit fuel now w
  else
    let delta_adjust := if (delta s =? 0) || (limit s =? 0) then DELTA_NO_ADJUST else DELTA_ADJUST in
    let trigger := policy s PTIMER_POLICY_NO_IMMEDIATE_TRIGGER || (delta_adjust =? DELTA_ADJUST) in
    w ← ptimer_reload now delta_adjust (set (s <| delta := limit s |>) w);
    w ← (if trigger then ptimer_trigger now w else mret w);
    ptimer_transaction_commit fuel now w.
End Device.

(** A timer with its policy, its callback given. *)
Definition ptimer_init (policy_mask : Z) : outcome ptimer_state :=
  assert_c (negb (has policy_mask PTIMER_POLICY_TRIGGER_ONLY_ON_DECREMENT &&
                  has policy_mask PTIMER_POLICY_NO_IMMEDIATE_TRIGGER));;
  mret (mk_ptimer 0 0 0 0 0 0 0 policy_mask [] false false).
End Ptimer.

(** ** The scaled division *)

Lemma clz64_bound x : 0 ≤ x < 2 ^ 64 → 0 ≤ clz64 x ≤ 64 ∧ x * 2 ^ clz64 x < 2 ^ 64.
Proof.
  intros Hx. unfold clz64. destruct (Z.eqb_spec x 0) as [->|Hn]; [lia|].
  pose proof (Z.log2_spec x ltac:(lia)) as [H1 H2].
  assert (Z.log2 x < 64) by (apply Z.log2_lt_pow2; lia).
  pose proof (Z.log2_nonneg x). split; [lia|].
  replace (2 ^ 64) with (2 ^ Z.succ (Z.log2 x) * 2 ^ (63 - Z.log2 x)).
  - apply Z.mul_lt_mono_pos_r; [apply Z.pow_pos_nonneg; lia|done].
  - rewrite <- Z.pow_add_r by lia. f_equal. lia.
Qed.

Lemma clz64_small x n : 0 ≤ n ≤ 64 → 0 ≤ x < 2 ^ n → 64 - n ≤ clz64 x.
Proof.
  intros Hn Hx. unfold clz64. destruct (Z.eqb_spec x 0) as [->|]; [lia|].
  assert (Z.log2 x < n) by (apply Z.log2_lt_pow2; lia). lia.
Qed.

(** The bits of a multiple of [2 ^ s] and of a number below [2 ^ s] are apart. *)
Lemma lor_low a b s : 0 ≤ s → 0 ≤ b < 2 ^ s → Z.lor (a * 2 ^ s) b = a * 2 ^ s + b.
Proof.
  intros Hs Hb. rewrite <- Z.shiftl_mul_pow2 by done.
  assert (Z.land (Z.shiftl a s) b = 0) as H0.
  { apply Z.bits_inj'. intros i Hi. rewrite Z.land_spec, Z.bits_0.
    destruct (Z.lt_ge_cases i s); [by rewrite Z.shiftl_spec_low by lia|].
    by rewrite (testbit_above s b i), andb_false_r. }
  rewrite <- Z.lxor_lor by done. symmetry. by apply Z.add_nocarry_lxor.
Qed.

(** The divisor: the period in fixed point, scaled; exactly so when at least 32
    places are shifted, rounded up otherwise. *)
Definition scaled_divisor (s period period_frac : Z) : Z :=
  let div := u64 (Z.shiftl period s) in
  if 32 <=? s then Z.lor div (u64 (Z.shiftl period_frac (s - 32)))
  else
    let div := if negb (s =? 0) then Z.lor div (Z.shiftr period_frac (32 - s)) else div in
    if truth (u32 (Z.shiftl period_frac s)) then u64 (div + 1) else div.

Definition raw (period period_frac : Z) : Z := period * 2 ^ 32 + period_frac.

Lemma pow_split a b : 0 ≤ b ≤ a → 2 ^ a = 2 ^ b * 2 ^ (a - b).
Proof. intros. rewrite <- Z.pow_add_r by lia. f_equal. lia. Qed.

Lemma scaled_divisor_exact s per frac :
  is_u32 per → is_u32 frac → 32 ≤ s ≤ 64 → per * 2 ^ s < 2 ^ 64 →
  frac * 2 ^ (s - 32) < 2 ^ 64 → scaled_divisor s per frac = raw per frac * 2 ^ (s - 32).
Proof.
  intros Hp Hf Hs Hov Hov2. unfold scaled_divisor. destruct (Z.leb_spec 32 s); [|lia].
  assert (0 < 2 ^ (s - 32)) by (apply Z.pow_pos_nonneg; lia).
  assert (0 < 2 ^ s) by (apply Z.pow_pos_nonneg; lia). unfold in_range in *.
  rewrite !Z.shiftl_mul_pow2 by lia. rewrite !wrap_small by (unfold in_range; nia).
  rewrite lor_low; [|lia|].
  - unfold raw. rewrite (pow_split s 32) by lia. ring.
  - split; [nia|]. rewrite (pow_split s 32) by lia. nia.
Qed.

Lemma scaled_divisor_up s per frac :
  is_u32 per → is_u32 frac → 0 ≤ s < 32 →
  raw per frac ≤ scaled_divisor s per frac * 2 ^ (32 - s).
Proof.
  intros Hp Hf Hs. unfold scaled_divisor. destruct (Z.leb_spec 32 s); [lia|].
  assert (1 ≤ 2 ^ s ≤ 2 ^ 31) as Hps
    by (split; [change 1 with (2 ^ 0)|]; apply Z.pow_le_mono_r; lia).
  assert (2 ^ 32 = 2 ^ s * 2 ^ (32 - s)) as Hsplit by (apply pow_split; lia).
  assert (1 ≤ 2 ^ (32 - s)) as Hq by (change 1 with (2 ^ 0); apply Z.pow_le_mono_r; lia).
  unfold in_range in *. rewrite !Z.shiftl_mul_pow2 by lia. rewrite Z.shiftr_div_pow2 by lia.
  assert (0 ≤ per * 2 ^ s ≤ (2 ^ 32 - 1) * 2 ^ 31) as Hps2 by (split; [lia|apply Z.mul_le_mono_nonneg; lia]).
  rewrite (wrap_small 64 (per * 2 ^ s)) by (unfold in_range; lia).
  set (q := 2 ^ (32 - s)) in *.
  assert (frac = q * (frac / q) + frac mod q) as Hdm by (apply Z.div_mod; lia).
  pose proof (Z.mod_pos_bound frac q ltac:(lia)).
  assert (0 ≤ frac / q < 2 ^ s) as Hfq.
  { split; [apply Z.div_pos; lia|]. apply Z.div_lt_upper_bound; [lia|]. rewrite Z.mul_comm. lia. }
  assert ((if negb (s =? 0) then Z.lor (per * 2 ^ s) (frac / q) else per * 2 ^ s) = per * 2 ^ s + frac / q) as ->.
  { destruct (Z.eqb_spec s 0) as [->|]; simpl; [|apply lor_low; lia].
    change (2 ^ 0) with 1 in *. lia. }
  assert (u32 (frac * 2 ^ s) = (frac mod q) * 2 ^ s) as ->.
  { unfold wrap. rewrite Hsplit. rewrite (Z.mul_comm (2 ^ s) q). rewrite Z.mul_mod_distr_r by lia. done. }
  unfold raw. destruct (truth (frac mod q * 2 ^ s)) eqn:E.
  - rewrite (wrap_small 64) by (unfold in_range; lia). nia.
  - unfold truth in E. apply negb_false_iff, Z.eqb_eq in E. assert (frac mod q = 0) by nia. nia.
Qed.

(** The quotient is never above the exact one, and is exact for less than
    [2 ^ 32] nanoseconds. *)
Lemma scaled_div_spec rem per frac :
  0 < rem < 2 ^ 63 → is_u32 per → is_u32 frac → 0 < raw per frac →
  ∃ q, scaled_div rem per frac = Ok q ∧ 0 ≤ q ≤ rem * 2 ^ 32 / raw per frac ∧
    (rem < 2 ^ 32 → q = rem * 2 ^ 32 / raw per frac).
Proof.
  intros Hrem Hp Hf Hraw. unfold scaled_div. set (s := Z.min (clz64 rem) (clz64 per)).
  fold (scaled_divisor s per frac).
  destruct (clz64_bound rem) as [Hc1 Ho1]; [lia|]. destruct (clz64_bound per) as [Hc2 Ho2];
    [unfold in_range in Hp; lia|].
  assert (0 ≤ s ≤ 64) as Hs by lia.
  assert (2 ^ s ≤ 2 ^ clz64 rem) as Hm1 by (apply Z.pow_le_mono_r; lia).
  assert (2 ^ s ≤ 2 ^ clz64 per) as Hm2 by (apply Z.pow_le_mono_r; lia).
  assert (0 < 2 ^ s) as Hpos by (apply Z.pow_pos_nonneg; lia).
  assert (u64 (Z.shiftl rem s) = rem * 2 ^ s) as ->.
  { rewrite Z.shiftl_mul_pow2 by lia. apply wrap_small. unfold in_range. nia. }
  assert (per * 2 ^ s < 2 ^ 64) as Hov by (unfold in_range in Hp; nia).
  destruct (Z.le_gt_cases 32 s) as [H32|H32].
  - assert (0 < 2 ^ (s - 32)) as Hps by (apply Z.pow_pos_nonneg; lia).
    assert (2 ^ (s - 32) * 2 ^ 32 = 2 ^ s) as Hsp.
    { rewrite <- Z.pow_add_r by lia. f_equal. lia. }
    rewrite scaled_divisor_exact by (done || unfold in_range in *; nia).
    destruct (Z.eqb_spec (raw per frac * 2 ^ (s - 32)) 0); [nia|]. eexists. split; [done|].
    replace (rem * 2 ^ s) with (rem * 2 ^ 32 * 2 ^ (s - 32)) by (rewrite <- Hsp; ring).
    rewrite Z.div_mul_cancel_r by lia. split; [|done]. split; [apply Z.div_pos; lia|lia].
  - pose proof (scaled_divisor_up s per frac Hp Hf ltac:(lia)) as Hup.
    assert (0 < 2 ^ (32 - s)) as Hq by (apply Z.pow_pos_nonneg; lia).
    assert (0 < scaled_divisor s per frac) as Hd by nia.
    destruct (Z.eqb_spec (scaled_divisor s per frac) 0); [lia|]. eexists. split; [done|]. split.
    + split; [apply Z.div_pos; nia|]. apply Z.div_le_lower_bound; [done|].
      pose proof (Z.mul_div_le (rem * 2 ^ s) (scaled_divisor s per frac) Hd) as Hle.
      set (q := rem * 2 ^ s / scaled_divisor s per frac) in *.
      assert (0 ≤ q) by (apply Z.div_pos; nia).
      assert (2 ^ 32 = 2 ^ s * 2 ^ (32 - s)) as -> by (apply pow_split; lia). nia.
    + intros Hr. pose proof (clz64_small rem 32 ltac:(lia) ltac:(lia)).
      pose proof (clz64_small per 32 ltac:(lia) Hp). lia.
Qed.
