(* ===== verification/Wiring.v ===== *)
(** What the operations of the peripherals do to their interrupt lines: every
    operation only adds calls with level 0 or 1, on the lines of the devices it
    changes. *)

From stdpp Require Import gmap.
From S2P Require Import Prelude Irq Timer CanBus CanDev UartDev.

(** ** UART *)

Module Uart.
Import UartDev.

Lemma set_extends i s b : extends i (irq s) → extends i (irq (set_status_bit s b)).
Proof. unfold set_status_bit, check_and_set_interrupt. repeat case_if; simpl; auto with irq. Qed.

Lemma reset_extends i s b : extends i (irq s) → extends i (irq (reset_status_bit s b)).
Proof. unfold reset_status_bit, check_and_clear_interrupt. repeat case_if; simpl; auto with irq. Qed.

Lemma set_clear_extends i s :
  extends i (irq s) → extends i (irq (check_and_clear_interrupt (check_and_set_interrupt s))).
Proof.
  unfold check_and_set_interrupt, check_and_clear_interrupt. repeat case_if; simpl; auto with irq.
Qed.

Lemma update_params_extends s s' : update_params s = Ok s' → irq s' = irq s.
Proof.
  unfold update_params, udiv. simpl. case_if; [done|]. simpl. case_if; [done|]. simpl.
  by intros [= <-].
Qed.

Lemma read_extends addr s : extends (irq s) (irq (uart_read addr s).1).
Proof. unfold uart_read. repeat case_if; simpl; auto using reset_extends with irq. Qed.

Lemma write_extends now addr val s s' :
  uart_write now addr val s = Ok s' → extends (irq s) (irq s').
Proof.
  unfold uart_write. repeat case_if; intros H; try (injection H as <-).
  - apply extends_refl.
  - unfold uart_write_txdata. cbv zeta. repeat case_if; simpl;
      repeat first [apply set_extends | apply reset_extends]; apply extends_refl.
  - apply set_clear_extends, extends_refl.
  - apply set_clear_extends, extends_refl.
  - apply update_params_extends in H. rewrite H. apply extends_refl.
  - apply extends_refl.
Qed.

Lemma uart_receive_extends now b s : extends (irq s) (irq (uart_receive now b s)).
Proof. unfold uart_receive. case_if; apply extends_refl. Qed.

Lemma timer_cb_extends now t s : extends (irq s) (irq (uart_timer_cb now t s)).
Proof.
  destruct t; simpl; [unfold timeout_rx|unfold timeout_tx]; cbv zeta; case_if; simpl;
    repeat first [apply set_extends | apply reset_extends]; apply extends_refl.
Qed.

Lemma run_timers_extends now s s' p :
  uart_wf s → clock_ok now → uart_run_timers now s = Some (s', p) → extends (irq s) (irq s').
Proof.
  intros Hs Hn Hrun.
  apply (uart_advance_ind (fun _ x => extends (irq s) (irq x)) now s s' p Hs Hn Hrun); [|done].
  intros x t e rest _ _ _ _ Hx. etrans; [exact Hx|]. apply (timer_cb_extends now t (set_timers rest x)).
Qed.
End Uart.

(** ** CAN controllers *)

Module Can.
Import CanDev.

Lemma can_set_extends i s b : extends i (irq s) → extends i (irq (set_status_bit s b)).
Proof. unfold set_status_bit, check_and_set_interrupt. repeat case_if; simpl; auto with irq. Qed.

Lemma can_reset_extends i s b : extends i (irq s) → extends i (irq (reset_status_bit s b)).
Proof. unfold reset_status_bit, check_and_clear_interrupt. repeat case_if; simpl; auto with irq. Qed.

Lemma write_ier_extends val s : extends (irq s) (irq (can_write_ier val s)).
Proof.
  unfold can_write_ier, check_and_set_interrupt, check_and_clear_interrupt.
  repeat case_if; simpl; auto with irq.
Qed.

Lemma receive_extends f s : extends (irq s) (irq (can_receive f s).1).
Proof.
  unfold can_receive. cbv zeta. simpl. apply can_set_extends.
  assert (∀ n x, irq (for_range 0 n (receive_byte (fdata f)) x) = irq x) as ->.
  { intros n x. destruct (Z.le_gt_cases 0 n) as [Hn|]; [|by rewrite for_range_nil by lia].
    apply (for_range_ind (fun _ y => irq y = irq x)); [done|done|].
    intros i y _ <-. unfold receive_byte. by case_if. }
  simpl. case_if; [apply can_set_extends|]; apply extends_refl.
Qed.

(** The same controllers, each with its line extended. *)
Definition lines_extend (devs devs' : devices) : Prop :=
  ∀ c, option_Forall2 (fun s s' => extends (irq s) (irq s')) (devs !! c) (devs' !! c).

#[global] Instance lines_extend_preorder : PreOrder lines_extend.
Proof.
  split.
  - intros d c. destruct (d !! c); constructor. apply extends_refl.
  - intros d1 d2 d3 H12 H23 c. specialize (H12 c). specialize (H23 c).
    destruct H12; inversion H23; subst; constructor. by etrans.
Qed.

Lemma alter_extends f c (devs : devices) :
  (∀ s, extends (irq s) (irq (f s))) → lines_extend devs (alter f c devs).
Proof.
  intros Hf k. rewrite lookup_alter. case_decide as Hk.
  - subst. destruct (devs !! k); constructor. apply Hf.
  - destruct (devs !! k); constructor. apply extends_refl.
Qed.

Lemma client_send_extends net client fs (devs : devices) :
  lines_extend devs (can_bus_client_send net client fs devs).1.
Proof.
  unfold can_bus_client_send. destruct (client_bus net !! client) as [bus|]; [|done].
  assert (∀ acc : devices * Z, lines_extend acc.1
    (fold_left (send_to_peer client fs) (clients_of net bus) acc).1) as H; [|apply (H (devs, 0))].
  induction (clients_of net bus) as [|peer queue IH]; intros acc; [done|].
  cbn [fold_left]. etrans; [|apply IH]. destruct acc as [d ret]. unfold send_to_peer. simpl.
  destruct (d !! peer) as [x|] eqn:Hp; [|done]. case_decide; [done|].
  destruct (match fs with [] => _ | _ => _ end) as [x' cnt] eqn:Hr. simpl.
  intros k. rewrite lookup_insert. case_decide as Hk.
  - subst k. rewrite Hp. constructor. destruct fs as [|f fs]; injection Hr as <- _.
    + apply extends_refl.
    + apply receive_extends.
  - destruct (d !! k); constructor. apply extends_refl.
Qed.

(** ** A register write as the sequence of its effects on one controller each

    A write of CMR with TR acts on the writer's own line, then on those of the
    controllers that receive the frame, then on the writer's again. *)

Definition cmr_commands (val : Z) (client : nat) (devs : devices) : devices :=
  let devs :=
    if has val RRB then
      alter (fun s => (reset_status_bit s RBS) <| cmr ::= fun r => Z.land r (not32 RRB) |>)
        client devs
    else devs in
  let devs :=
    if has val CDO then
      alter (fun s => (reset_status_bit s DOS) <| cmr ::= fun r => Z.land r (not32 CDO) |>)
        client devs
    else devs in
  let devs := alter (fun s => s <| cmr ::= fun r => Z.land r (not32 TR) |>) client devs in
  alter (fun s => reset_status_bit s TCS) client devs.

Definition send_frame (net : CanNet) (client : nat) (devs : devices) : devices :=
  match devs !! client with
  | None => devs
  | Some s => (can_bus_client_send net client [transmit_frame s] devs).1
  end.

Definition can_write_stages (net : CanNet) (client : nat) (addr val : Z) : list (devices → devices) :=
  if (addr =? CMR) && has val TR then
    [ cmr_commands val client; send_frame net client;
      alter (fun s => set_status_bit s TCS) client ]
  else [ can_write net client addr val ].

Lemma can_write_stages_eq net client addr val devs :
  foldl (fun d f => f d) devs (can_write_stages net client addr val) =
  can_write net client addr val devs.
Proof.
  unfold can_write_stages. destruct ((addr =? CMR) && has val TR) eqn:Hc; [|done].
  apply andb_prop in Hc as [->%Z.eqb_eq Htr]. simpl.
  change (can_write net client CMR val devs) with (can_write_cmr net client val devs).
  unfold can_write_cmr, can_transmit, send_frame. rewrite Htr. fold (cmr_commands val client devs).
  destruct (cmr_commands val client devs !! client) as [s|] eqn:Hs; [done|].
  apply alter_id. congruence.
Qed.

Lemma can_write_stages_extend net client addr val f devs :
  f ∈ can_write_stages net client addr val → lines_extend devs (f devs).
Proof.
  assert (∀ d b m, lines_extend d (alter (fun s => (reset_status_bit s b) <| cmr ::= m |>) client d)) as Hr.
  { intros d b m. apply alter_extends. intros s. simpl. apply can_reset_extends, extends_refl. }
  assert (∀ v, lines_extend devs (cmr_commands v client devs)) as Hcmr.
  { intros v. unfold cmr_commands. cbv zeta.
    etrans; [|apply alter_extends; intros s; apply can_reset_extends, extends_refl].
    etrans; [|apply alter_extends; intros s; apply extends_refl].
    repeat case_if; try done; (etrans; [|apply Hr]); done. }
  unfold can_write_stages. destruct ((addr =? CMR) && has val TR) eqn:Hc; intros Hf.
  - repeat (apply elem_of_cons in Hf as [->|Hf]); [auto| | |by apply elem_of_nil in Hf].
    + unfold send_frame. destruct (devs !! client); [apply client_send_extends|done].
    + apply alter_extends. intros s. apply can_set_extends, extends_refl.
  - apply list_elem_of_singleton in Hf as ->. unfold can_write, can_write_cmr.
    repeat match goal with |- context [if ?b then _ else _] => destruct b eqn:? end; try done;
      try (apply alter_extends; intros s; first [apply extends_refl|apply write_ier_extends]);
      try (apply Hr); try (etrans; apply Hr).
Qed.
End Can.
