(* ===== verification/NvicState.v ===== *)
(** State of the interrupt controller and of the parts of the CPU it owns:
    qemu/include/hw/intc/armv7m_nvic.h, the [v7m], [pmsav7], [pmsav8] and [sau]
    structures of qemu/target/arm/cpu.h, and the register-field accessors of
    qemu/include/qemu/bitops.h and qemu/include/hw/registerfields.h. *)

From S2P Require Import Prelude Irq.

(** ** Bit fields *)

(** [MAKE_64BIT_MASK(shift, length)] for the lengths used (1 to 64). *)
Definition MAKE_64BIT_MASK (shift length : Z) : Z :=
  u64 (Z.shiftl (Z.shiftr (2 ^ 64 - 1) (64 - length)) shift).

Definition extract32 (value start length : Z) : Z :=
  Z.land (Z.shiftr value start) (Z.shiftr (2 ^ 32 - 1) (32 - length)).

Definition deposit32 (value start length fieldval : Z) : Z :=
  let mask := u32 (Z.shiftl (Z.shiftr (2 ^ 32 - 1) (32 - length)) start) in
  Z.lor (Z.land value (not32 mask)) (Z.land (u32 (Z.shiftl fieldval start)) mask).

(** A register field: shift and length, as [FIELD] declares it. *)
Record field := mk_field { shift : Z; flen : Z }.

Definition field_mask (f : field) : Z := MAKE_64BIT_MASK (shift f) (flen f).
Definition FIELD_EX32 (storage : Z) (f : field) : Z := extract32 storage (shift f) (flen f).
Definition FIELD_DP32 (storage : Z) (f : field) (val : Z) : Z :=
  deposit32 storage (shift f) (flen f) (wrap (flen f) val).

Definition CCR_NONBASETHRDENA := mk_field 0 1.
Definition CCR_USERSETMPEND := mk_field 1 1.
Definition CCR_UNALIGN_TRP := mk_field 3 1.
Definition CCR_DIV_0_TRP := mk_field 4 1.
Definition CCR_BFHFNMIGN := mk_field 8 1.
Definition CCR_STKALIGN := mk_field 9 1.
Definition CCR_TRD := mk_field 20 1.
Definition SCR_SLEEPDEEP := mk_field 2 1.
Definition SCR_SLEEPDEEPS := mk_field 3 1.
Definition AIRCR_VECTRESET := mk_field 0 1.
Definition AIRCR_VECTCLRACTIVE := mk_field 1 1.
Definition AIRCR_SYSRESETREQ := mk_field 2 1.
Definition AIRCR_SYSRESETREQS := mk_field 3 1.
Definition AIRCR_PRIGROUP := mk_field 8 3.
Definition AIRCR_BFHFNMINS := mk_field 13 1.
Definition AIRCR_PRIS := mk_field 14 1.
Definition AIRCR_VECTKEY := mk_field 16 16.
Definition CFSR_BFSR := mk_field 8 8.
Definition HFSR_FORCED := mk_field 30 1.
Definition MPU_CTRL_ENABLE := mk_field 0 1.
Definition MPU_CTRL_HFNMIENA := mk_field 1 1.
Definition MPU_CTRL_PRIVDEFENA := mk_field 2 1.
Definition CLIDR_CTYPE_ALL := mk_field 0 21.
Definition CSSELR_INDEX := mk_field 0 4.
Definition CONTROL_SPSEL := mk_field 1 1.
Definition FPCCR_LSPACT := mk_field 0 1.
Definition FPCCR_USER := mk_field 1 1.
Definition FPCCR_THREAD := mk_field 3 1.
Definition FPCCR_HFRDY := mk_field 4 1.
Definition FPCCR_MMRDY := mk_field 5 1.
Definition FPCCR_BFRDY := mk_field 6 1.
Definition FPCCR_SFRDY := mk_field 7 1.
Definition FPCCR_MONRDY := mk_field 8 1.
Definition FPCCR_SPLIMVIOL := mk_field 9 1.
Definition FPCCR_UFRDY := mk_field 10 1.
Definition FPCCR_RES0 := mk_field 11 15.
Definition FPCCR_CLRONRETS := mk_field 27 1.
Definition FPCCR_CLRONRET := mk_field 28 1.
Definition FPCCR_LSPENS := mk_field 29 1.
Definition FPCCR_LSPEN := mk_field 30 1.
Definition FPCCR_ASPEN := mk_field 31 1.

(** The bitwise or of the masks of several fields. *)
Definition masks (fs : list field) : Z := foldr (fun f m => Z.lor (field_mask f) m) 0 fs.

Definition FPCCR_BANKED_MASK : Z :=
  masks [FPCCR_LSPACT; FPCCR_USER; FPCCR_THREAD; FPCCR_MMRDY; FPCCR_SPLIMVIOL; FPCCR_UFRDY;
         FPCCR_ASPEN].

Definition FPCR_FZ16 : Z := bit 19.
Definition FPCR_RMODE_MASK : Z := Z.shiftl 3 22.
Definition FPCR_FZ : Z := bit 24.
Definition FPCR_DN : Z := bit 25.
Definition FPCR_AHP : Z := bit 26.
Definition FPCR_LTPSIZE_SHIFT : Z := 16.

(** ** Exception numbers *)

Definition ARMV7M_EXCP_RESET : Z := 1.
Definition ARMV7M_EXCP_NMI : Z := 2.
Definition ARMV7M_EXCP_HARD : Z := 3.
Definition ARMV7M_EXCP_MEM : Z := 4.
Definition ARMV7M_EXCP_BUS : Z := 5.
Definition ARMV7M_EXCP_USAGE : Z := 6.
Definition ARMV7M_EXCP_SECURE : Z := 7.
Definition ARMV7M_EXCP_SVC : Z := 11.
Definition ARMV7M_EXCP_DEBUG : Z := 12.
Definition ARMV7M_EXCP_PENDSV : Z := 14.
Definition ARMV7M_EXCP_SYSTICK : Z := 15.

Definition NVIC_MAX_VECTORS : Z := 512.
Definition NVIC_INTERNAL_VECTORS : Z := 16.
Definition NVIC_FIRST_IRQ : Z := NVIC_INTERNAL_VECTORS.
Definition NVIC_MAX_IRQ : Z := NVIC_MAX_VECTORS - NVIC_FIRST_IRQ.
Definition NVIC_NOEXC_PRIO : Z := 0x100.
Definition NVIC_NS_PRIO_LIMIT : Z := 0x80.

(** ** Registers banked between the security states

    An array indexed by [M_REG_NS = 0] and [M_REG_S = 1]; [attrs.secure] and
    the [secure] arguments select the element. *)

Record banked (A : Type) := mk_banked { ns : A; sec : A }.
Arguments mk_banked {A}.
Arguments ns {A}.
Arguments sec {A}.

Definition bget {A} (b : banked A) (secure : bool) : A := if secure then sec b else ns b.
Definition bset {A} (secure : bool) (x : A) (b : banked A) : banked A :=
  if secure then mk_banked (ns b) x else mk_banked x (sec b).

(** ** The CPU *)

(** [ARMISARegisters] indices the controller shows. *)
Inductive idreg :=
| ID_PFR0 | ID_PFR1 | ID_DFR0 | ID_AFR0 | ID_MMFR0 | ID_MMFR1 | ID_MMFR2 | ID_MMFR3
| ID_ISAR0 | ID_ISAR1 | ID_ISAR2 | ID_ISAR3 | ID_ISAR4 | ID_ISAR5 | CLIDR.

(** What [IDAUInterfaceClass.check] answers for an address: region, exempt, NS
    and NSC. *)
Record idau_answer := mk_idau { idau_region : Z; idau_exempt : bool; idau_ns : bool; idau_nsc : bool }.

(** What the CPU model fixes: features, identification and sizes, and the
    attribution unit linked to the CPU. *)
Record CpuModel := mk_CpuModel {
  FEATURE_V7 : bool; FEATURE_V8 : bool; FEATURE_V8_1M : bool;
  FEATURE_M : bool; FEATURE_M_MAIN : bool; FEATURE_M_SECURITY : bool;
  FEATURE_THUMB_DSP : bool; FEATURE_PMSA : bool; FEATURE_NEON : bool; aa32_mve : bool;
  aa32_m_sec_state : bool;
  idau : option (Z → idau_answer);
  aa32_vfp_simd : bool; aa32_ras : bool; any_fp16 : bool; aa32_lob : bool;
  midr : Z; revidr : Z; ctr : Z; ccsidr : list Z; idregs : idreg → Z;
  mvfr0 : Z; mvfr1 : Z; mvfr2 : Z;
  pmsav7_dregion : Z; sau_sregion : Z
}.

(** [env->v7m] and [env->regs[13]]. *)
Record V7M := mk_V7M {
  sp : Z; other_sp : Z; other_ss_msp : Z; other_ss_psp : Z; msplim : banked Z; psplim : banked Z;
  vpr : Z; ltpsize : Z;
  vecbase : banked Z; basepri : banked Z; control : banked Z; ccr : banked Z; cfsr : banked Z;
  hfsr : Z; dfsr : Z; sfsr : Z; mmfar : banked Z; bfar : Z; sfar : Z;
  mpu_ctrl : banked Z; exception : Z;
  primask : banked Z; faultmask : banked Z; aircr : Z; secure_state : bool;
  csselr : banked Z; scr : banked Z;
  fpcar : banked Z; fpccr : banked Z; fpdscr : banked Z; cpacr : banked Z; nsacr : Z
}.

#[export] Instance eta_V7M : RecordEta V7M := fun s =>
  mk_V7M (sp s) (other_sp s) (other_ss_msp s) (other_ss_psp s) (msplim s) (psplim s) (vpr s)
    (ltpsize s) (vecbase s) (basepri s) (control s) (ccr s) (cfsr s) (hfsr s)
    (dfsr s) (sfsr s) (mmfar s) (bfar s) (sfar s) (mpu_ctrl s) (exception s) (primask s)
    (faultmask s) (aircr s) (secure_state s) (csselr s) (scr s) (fpcar s) (fpccr s) (fpdscr s)
    (cpacr s) (nsacr s).

(** [env->pmsav7], [env->pmsav8] and [env->sau]. *)
Record MpuState := mk_MpuState {
  rnr : banked Z; drbar : list Z; drsr : list Z; dracr : list Z;
  rbar : banked (list Z); rlar : banked (list Z); mair0 : banked Z; mair1 : banked Z;
  sau_ctrl : Z; sau_rnr : Z; sau_rbar : list Z; sau_rlar : list Z
}.

#[export] Instance eta_MpuState : RecordEta MpuState := fun s =>
  mk_MpuState (rnr s) (drbar s) (drsr s) (dracr s) (rbar s) (rlar s) (mair0 s) (mair1 s)
    (sau_ctrl s) (sau_rnr s) (sau_rbar s) (sau_rlar s).

(** Calls into the rest of the emulator. *)
Inductive cpu_effect := TlbFlush | RebuildHflags | SystemResetRequest.

Record ArmCpu := mk_ArmCpu {
  model : CpuModel; v7m : V7M; mpu : MpuState; effects : list cpu_effect
}.

#[export] Instance eta_ArmCpu : RecordEta ArmCpu := fun s =>
  mk_ArmCpu (model s) (v7m s) (mpu s) (effects s).

(** ** The interrupt controller *)

(** [enabled], [pending] and [active] are bytes that only hold 0 and 1. *)
Record VecInfo := mk_VecInfo {
  prio : Z; enabled : bool; pending : bool; active : bool; level : Z
}.

#[export] Instance eta_VecInfo : RecordEta VecInfo := fun s =>
  mk_VecInfo (prio s) (enabled s) (pending s) (active s) (level s).

Definition vec_zero : VecInfo := mk_VecInfo 0 false false false 0.

Record NVICState := mk_NVICState {
  cpu : ArmCpu;
  vectors : list VecInfo; sec_vectors : list VecInfo;
  prigroup : banked Z; num_prio_bits : Z; itns : list bool;
  vectpending : Z; vectpending_is_s_banked : bool;
  exception_prio : Z; vectpending_prio : Z;
  num_irq : Z; excpout : qemu_irq; sysresetreq : qemu_irq
}.

#[export] Instance eta_NVICState : RecordEta NVICState := fun s =>
  mk_NVICState (cpu s) (vectors s) (sec_vectors s) (prigroup s) (num_prio_bits s) (itns s)
    (vectpending s) (vectpending_is_s_banked s) (exception_prio s) (vectpending_prio s)
    (num_irq s) (excpout s) (sysresetreq s).

(** [s->vectors[i]] and [s->sec_vectors[i]]. *)
Definition vec (s : NVICState) (i : Z) : VecInfo := aget vec_zero (vectors s) i.
Definition sec_vec (s : NVICState) (i : Z) : VecInfo := aget vec_zero (sec_vectors s) i.

(** A [VecInfo] pointer: the array and the index. *)
Definition get_vec (s : NVICState) (secure : bool) (i : Z) : VecInfo :=
  if secure then sec_vec s i else vec s i.

Definition upd_vec (secure : bool) (i : Z) (f : VecInfo → VecInfo) (s : NVICState) : NVICState :=
  if secure then s <| sec_vectors ::= fun l => aset l i (f (aget vec_zero l i)) |>
  else s <| vectors ::= fun l => aset l i (f (aget vec_zero l i)) |>.

Definition v7m_of (s : NVICState) : V7M := v7m (cpu s).
Definition model_of (s : NVICState) : CpuModel := model (cpu s).

Definition set_v7m (f : V7M → V7M) (s : NVICState) : NVICState :=
  s <| cpu ::= fun c => c <| v7m ::= f |> |>.
Definition set_mpu (f : MpuState → MpuState) (s : NVICState) : NVICState :=
  s <| cpu ::= fun c => c <| mpu ::= f |> |>.
Definition effect (e : cpu_effect) (s : NVICState) : NVICState :=
  s <| cpu ::= fun c => c <| effects ::= fun l => l ++ [e] |> |>.

(** [aircr & R_V7M_AIRCR_..._MASK]. *)
Definition aircr_has (s : NVICState) (f : field) : bool :=
  has (aircr (v7m_of s)) (field_mask f).
