(* ===== verification/NvicCore.v ===== *)
(** Prioritization, pending, acknowledgement and completion of exceptions:
    the first half of qemu/hw/intc/armv7m_nvic.c, with its reset and realize
    functions. *)

From S2P Require Import Prelude Irq NvicState.

Definition signal_sysresetreq (s : NVICState) : NVICState :=
  match sysresetreq s with
  | Some _ => s <| sysresetreq ::= qemu_irq_pulse |>
  | None => effect SystemResetRequest s
  end.

Definition nvic_pending_prio (s : NVICState) : Z := vectpending_prio s.

(** The loop of [nvic_rettobase], from [irq] on with [nhand] handlers seen. *)
Fixpoint rettobase_loop (s : NVICState) (irqs : list Z) (nhand : Z) : bool :=
  match irqs with
  | [] => true
  | irq :: irqs =>
    if active (vec s irq) ||
       (FEATURE_M_SECURITY (model_of s) && (irq <? NVIC_INTERNAL_VECTORS) &&
        active (sec_vec s irq))
    then if nhand + 1 =? 2 then false else rettobase_loop s irqs (nhand + 1)
    else rettobase_loop s irqs nhand
  end.

Definition nvic_rettobase (s : NVICState) : bool :=
  rettobase_loop s (seqZ ARMV7M_EXCP_RESET (num_irq s - ARMV7M_EXCP_RESET)) 0.

Definition nvic_isrpending (s : NVICState) : bool :=
  if vectpending s >? NVIC_FIRST_IRQ then true
  else existsb (fun irq => pending (vec s irq))
         (seqZ NVIC_FIRST_IRQ (num_irq s - NVIC_FIRST_IRQ)).

Definition exc_is_banked (exc : Z) : bool :=
  (exc =? ARMV7M_EXCP_HARD) || (exc =? ARMV7M_EXCP_MEM) || (exc =? ARMV7M_EXCP_USAGE) ||
  (exc =? ARMV7M_EXCP_SVC) || (exc =? ARMV7M_EXCP_PENDSV) || (exc =? ARMV7M_EXCP_SYSTICK).

Definition nvic_gprio_mask (s : NVICState) (secure : bool) : Z :=
  u32 (Z.shiftl (2 ^ 32 - 1) (bget (prigroup s) secure + 1)).

(** The value [exc_targets_secure] returns when its assertion holds. *)
Definition targets_secure_of (s : NVICState) (exc : Z) : bool :=
  if negb (FEATURE_M_SECURITY (model_of s)) then false
  else if NVIC_FIRST_IRQ <=? exc then negb (aget false (itns s) exc)
  else if (exc =? ARMV7M_EXCP_NMI) || (exc =? ARMV7M_EXCP_BUS) then
    negb (aircr_has s AIRCR_BFHFNMINS)
  else if exc =? ARMV7M_EXCP_SECURE then true
  else if exc =? ARMV7M_EXCP_DEBUG then false
  else true.

Definition exc_targets_secure (s : NVICState) (exc : Z) : outcome bool :=
  if negb (FEATURE_M_SECURITY (model_of s)) || (NVIC_FIRST_IRQ <=? exc)
  then mret (targets_secure_of s exc)
  else assert_c (negb (exc_is_banked exc));; mret (targets_secure_of s exc).

Definition exc_group_prio (s : NVICState) (rawprio : Z) (targets_secure : bool) : Z :=
  if rawprio <? 0 then rawprio
  else
    let rawprio := Z.land rawprio (nvic_gprio_mask s targets_secure) in
    if negb targets_secure && aircr_has s AIRCR_PRIS
    then Z.shiftr rawprio 1 + NVIC_NS_PRIO_LIMIT
    else rawprio.

(** ** Recomputing the cached state *)

(** The local variables of the scan. *)
Record scan := mk_scan {
  pend_prio : Z; active_prio : Z; pend_irq : Z; pending_is_s_banked : bool; pend_subprio : Z
}.

#[export] Instance eta_scan : RecordEta scan := fun r =>
  mk_scan (pend_prio r) (active_prio r) (pend_irq r) (pending_is_s_banked r) (pend_subprio r).

Definition scan_start : scan := mk_scan NVIC_NOEXC_PRIO NVIC_NOEXC_PRIO 0 false 0.

(** The body of the inner loop for exception [i] in bank S ([bank = true]) or
    NS; a non-banked exception has no S entry. *)
Definition scan_secure (s : NVICState) (i : Z) (bank : bool) (r : scan) : scan :=
  if bank && negb (exc_is_banked i) then r
  else
    let v := get_vec s bank i in
    let targets_secure :=
      if bank then true else negb (exc_is_banked i) && targets_secure_of s i in
    let p := exc_group_prio s (prio v) targets_secure in
    let subprio := Z.land (prio v) (not32 (nvic_gprio_mask s targets_secure)) in
    let r :=
      if enabled v && pending v &&
         ((p <? pend_prio r) ||
          ((p =? pend_prio r) && (0 <=? p) && (subprio <? pend_subprio r)))
      then r <| pend_prio := p |> <| pend_subprio := subprio |> <| pend_irq := i |>
             <| pending_is_s_banked := bank |>
      else r in
    if active v && (p <? active_prio r) then r <| active_prio := p |> else r.

Definition nvic_recompute_state_secure (s : NVICState) : NVICState :=
  let r := for_range 1 (num_irq s)
             (fun i r => scan_secure s i false (scan_secure s i true r)) scan_start in
  s <| vectpending_is_s_banked := pending_is_s_banked r |> <| vectpending := pend_irq r |>
    <| vectpending_prio := pend_prio r |> <| exception_prio := active_prio r |>.

(** The loop body without the Security extension. *)
Definition scan_plain (s : NVICState) (i : Z) (r : scan) : scan :=
  let v := vec s i in
  let r :=
    if enabled v && pending v && (prio v <? pend_prio r)
    then r <| pend_prio := prio v |> <| pend_irq := i |> else r in
  if active v && (prio v <? active_prio r) then r <| active_prio := prio v |> else r.

Definition nvic_recompute_state (s : NVICState) : NVICState :=
  if FEATURE_M_SECURITY (model_of s) then nvic_recompute_state_secure s
  else
    let r := for_range 1 (num_irq s) (scan_plain s) scan_start in
    let active_prio' :=
      if active_prio r >? 0 then Z.land (active_prio r) (nvic_gprio_mask s false)
      else active_prio r in
    let pend_prio' :=
      if pend_prio r >? 0 then Z.land (pend_prio r) (nvic_gprio_mask s false)
      else pend_prio r in
    s <| vectpending := pend_irq r |> <| vectpending_prio := pend_prio' |>
      <| exception_prio := active_prio' |>.

(** ** Execution priority *)

Definition nvic_exec_prio (s : NVICState) : Z :=
  let env := v7m_of s in
  let running := NVIC_NOEXC_PRIO in
  let running :=
    if ns (basepri env) >? 0 then exc_group_prio s (ns (basepri env)) false else running in
  let running :=
    if sec (basepri env) >? 0 then
      let basepri' := exc_group_prio s (sec (basepri env)) true in
      if running >? basepri' then basepri' else running
    else running in
  let running :=
    if truth (ns (primask env)) then
      if aircr_has s AIRCR_PRIS then
        if running >? NVIC_NS_PRIO_LIMIT then NVIC_NS_PRIO_LIMIT else running
      else 0
    else running in
  let running := if truth (sec (primask env)) then 0 else running in
  let running :=
    if truth (ns (faultmask env)) then
      if aircr_has s AIRCR_BFHFNMINS then -1
      else if aircr_has s AIRCR_PRIS then
        if running >? NVIC_NS_PRIO_LIMIT then NVIC_NS_PRIO_LIMIT else running
      else 0
    else running in
  let running :=
    if truth (sec (faultmask env)) then if aircr_has s AIRCR_BFHFNMINS then -3 else -1
    else running in
  Z.min running (exception_prio s).

Definition armv7m_nvic_neg_prio_requested (s : NVICState) (secure : bool) : outcome bool :=
  if truth (bget (faultmask (v7m_of s)) secure) then mret true
  else if active (get_vec s secure ARMV7M_EXCP_HARD) then mret true
  else if active (vec s ARMV7M_EXCP_NMI) then
    ts ← exc_targets_secure s ARMV7M_EXCP_NMI;
    mret (eqb ts secure)
  else mret false.

Definition armv7m_nvic_can_take_pending_exception (s : NVICState) : bool :=
  nvic_exec_prio s >? nvic_pending_prio s.

Definition armv7m_nvic_raw_execution_priority (s : NVICState) : Z := exception_prio s.

(** ** Priorities of exceptions *)

(** [prio] is a [uint8_t] argument. *)
Definition set_prio (irq : Z) (secure : bool) (p : Z) (s : NVICState) : outcome NVICState :=
  assert_c (ARMV7M_EXCP_NMI <? irq);;
  assert_c (irq <? num_irq s);;
  let p := Z.land (u8 p) (MAKE_64BIT_MASK (8 - num_prio_bits s) (num_prio_bits s)) in
  if secure then
    assert_c (exc_is_banked irq);;
    mret (upd_vec true irq (fun v => v <| prio := p |>) s)
  else mret (upd_vec false irq (fun v => v <| prio := p |>) s).

Definition get_prio (s : NVICState) (irq : Z) (secure : bool) : outcome Z :=
  assert_c (ARMV7M_EXCP_NMI <? irq);;
  assert_c (irq <? num_irq s);;
  if secure then
    assert_c (exc_is_banked irq);;
    mret (prio (sec_vec s irq))
  else mret (prio (vec s irq)).

Definition nvic_irq_update (s : NVICState) : NVICState :=
  let s := nvic_recompute_state s in
  let lvl := of_bool (nvic_pending_prio s <? exception_prio s) in
  s <| excpout ::= fun i => qemu_set_irq i lvl |>.

(** ** Pending exceptions *)

Definition armv7m_nvic_clear_pending (irq : Z) (secure : bool) (s : NVICState)
  : outcome NVICState :=
  assert_c ((ARMV7M_EXCP_RESET <? irq) && (irq <? num_irq s));;
  assert_c (negb secure || exc_is_banked irq);;
  if pending (get_vec s secure irq) then
    mret (nvic_irq_update (upd_vec secure irq (fun v => v <| pending := false |>) s))
  else mret s.

(** The HardFault vector a fault is escalated to. *)
Definition escalation_bank (s : NVICState) (targets_secure : bool) : bool :=
  FEATURE_M_SECURITY (model_of s) && (targets_secure || negb (aircr_has s AIRCR_BFHFNMINS)).

(** The last statement: set the pending bit of the chosen vector. *)
Definition pend_vec (bank : bool) (irq : Z) (s : NVICState) : NVICState :=
  if negb (pending (get_vec s bank irq)) then
    nvic_irq_update (upd_vec bank irq (fun v => v <| pending := true |>) s)
  else s.

Definition forced_fault (s : NVICState) : NVICState :=
  set_v7m (fun m => m <| hfsr ::= fun h => Z.lor h (field_mask HFSR_FORCED) |>) s.

(** The part of [do_armv7m_nvic_set_pending] after the derived-exception
    checks: escalate a synchronous exception that cannot be taken, then pend. *)
Definition set_pending_escalate (irq : Z) (secure bank targets_secure : bool) (s : NVICState)
  : outcome NVICState :=
  if (ARMV7M_EXCP_HARD <=? irq) && (irq <? ARMV7M_EXCP_PENDSV) then
    let running := nvic_exec_prio s in
    let v := get_vec s bank irq in
    if (running <=? exc_group_prio s (prio v) secure) || negb (enabled v) then
      let hbank := escalation_bank s targets_secure in
      if running <=? prio (get_vec s hbank ARMV7M_EXCP_HARD) then Abort CpuAbort
      else mret (pend_vec hbank ARMV7M_EXCP_HARD (forced_fault s))
    else mret (pend_vec bank irq s)
  else mret (pend_vec bank irq s).

Definition do_armv7m_nvic_set_pending (irq : Z) (secure derived : bool) (s : NVICState)
  : outcome NVICState :=
  let is_banked := exc_is_banked irq in
  assert_c ((ARMV7M_EXCP_RESET <? irq) && (irq <? num_irq s));;
  assert_c (negb secure || is_banked);;
  let bank := is_banked && secure in
  let v := get_vec s bank irq in
  targets_secure ← (if is_banked then mret secure else exc_targets_secure s irq);
  if derived then
    assert_c ((ARMV7M_EXCP_HARD <=? irq) && (irq <? ARMV7M_EXCP_PENDSV));;
    if (irq =? ARMV7M_EXCP_DEBUG) && (nvic_exec_prio s <=? exc_group_prio s (prio v) secure)
    then mret s
    else if (irq =? ARMV7M_EXCP_HARD) && (vectpending_prio s <=? prio v) then Abort CpuAbort
    else set_pending_escalate irq secure bank targets_secure s
  else set_pending_escalate irq secure bank targets_secure s.

Definition armv7m_nvic_set_pending (irq : Z) (secure : bool) (s : NVICState) : outcome NVICState :=
  do_armv7m_nvic_set_pending irq secure false s.

Definition armv7m_nvic_set_pending_derived (irq : Z) (secure : bool) (s : NVICState)
  : outcome NVICState :=
  do_armv7m_nvic_set_pending irq secure true s.

(** ** Lazy floating-point stacking *)

Inductive lazy_choice := LazyIgnore | LazyEscalate (b : bool) | LazyUnreachable.

(** The [switch] on the exception: whether the saved context in FPCCR makes it
    escalate. *)
Definition lazyfp_choice (irq : Z) (fpccr_s fpccr' : Z) : lazy_choice :=
  if irq =? ARMV7M_EXCP_DEBUG then
    if negb (has fpccr_s (field_mask FPCCR_MONRDY)) then LazyIgnore else LazyEscalate false
  else if irq =? ARMV7M_EXCP_MEM then
    LazyEscalate (negb (has fpccr' (field_mask FPCCR_MMRDY)))
  else if irq =? ARMV7M_EXCP_USAGE then
    LazyEscalate (negb (has fpccr' (field_mask FPCCR_UFRDY)))
  else if irq =? ARMV7M_EXCP_BUS then
    LazyEscalate (negb (has fpccr_s (field_mask FPCCR_BFRDY)))
  else if irq =? ARMV7M_EXCP_SECURE then
    LazyEscalate (negb (has fpccr_s (field_mask FPCCR_SFRDY)))
  else LazyUnreachable.

Definition armv7m_nvic_set_pending_lazyfp (irq : Z) (secure : bool) (s : NVICState)
  : outcome NVICState :=
  let is_banked := exc_is_banked irq in
  let fpccr_s := sec (fpccr (v7m_of s)) in
  let fpccr' := bget (fpccr (v7m_of s)) secure in
  assert_c ((ARMV7M_EXCP_RESET <? irq) && (irq <? num_irq s));;
  assert_c (negb secure || is_banked);;
  targets_secure ← (if is_banked then mret secure else exc_targets_secure s irq);
  match lazyfp_choice irq fpccr_s fpccr' with
  | LazyIgnore => mret s
  | LazyUnreachable => Abort NotReached
  | LazyEscalate escalate =>
    let bank := if escalate then escalation_bank s targets_secure else is_banked && secure in
    let irq := if escalate then ARMV7M_EXCP_HARD else irq in
    let v := get_vec s bank irq in
    if (negb (enabled v) || (nvic_exec_prio s <=? exc_group_prio s (prio v) secure)) &&
       negb (has fpccr_s (field_mask FPCCR_HFRDY))
    then Abort CpuAbort
    else
      let s := if escalate then forced_fault s else s in
      if negb (pending (get_vec s bank irq)) then
        mret (nvic_recompute_state (upd_vec bank irq (fun v => v <| pending := true |>) s))
      else mret s
  end.

(** ** Taking and completing exceptions *)

Definition arm_v7m_is_handler_mode (m : V7M) : bool := negb (exception m =? 0).

Definition v7m_using_psp (m : V7M) : bool :=
  negb (arm_v7m_is_handler_mode m) &&
  has (bget (control m) (secure_state m)) (field_mask CONTROL_SPSEL).

Definition write_v7m_exception (new_exc : Z) (m : V7M) : V7M :=
  let old_is_psp := v7m_using_psp m in
  let m := m <| exception := new_exc |> in
  let new_is_psp := v7m_using_psp m in
  if negb (eqb old_is_psp new_is_psp)
  then m <| other_sp := sp m |> <| sp := other_sp m |> else m.

Definition armv7m_nvic_acknowledge_irq (s : NVICState) : outcome NVICState :=
  let pending' := vectpending s in
  let running := nvic_exec_prio s in
  assert_c ((ARMV7M_EXCP_RESET <? pending') && (pending' <? num_irq s));;
  let bank := vectpending_is_s_banked s in
  let v := get_vec s bank pending' in
  assert_c (enabled v);;
  assert_c (pending v);;
  assert_c (vectpending_prio s <? running);;
  let s := upd_vec bank pending' (fun v => v <| active := true |> <| pending := false |>) s in
  let s := set_v7m (write_v7m_exception (vectpending s)) s in
  mret (nvic_irq_update s).

Definition vectpending_targets_secure (s : NVICState) : outcome bool :=
  if vectpending_is_s_banked s then mret true
  else if exc_is_banked (vectpending s) then mret false
  else exc_targets_secure s (vectpending s).

Definition armv7m_nvic_get_pending_irq_info (s : NVICState) : outcome (Z * bool) :=
  let pending' := vectpending s in
  assert_c ((ARMV7M_EXCP_RESET <? pending') && (pending' <? num_irq s));;
  targets_secure ← vectpending_targets_secure s;
  mret (pending', targets_secure).

(** The vector v8M forcibly deactivates at a negative priority, or the given
    one. *)
Definition complete_vec (s : NVICState) (v : option (bool * Z)) : option (bool * Z) :=
  if FEATURE_V8 (model_of s) then
    let raw := armv7m_nvic_raw_execution_priority s in
    if raw =? -1 then Some (negb (aircr_has s AIRCR_BFHFNMINS), ARMV7M_EXCP_HARD)
    else if raw =? -2 then Some (false, ARMV7M_EXCP_NMI)
    else if raw =? -3 then Some (true, ARMV7M_EXCP_HARD)
    else v
  else v.

(** Returns the new state with the return value (-1, 0 or 1). *)
Definition armv7m_nvic_complete_irq (irq : Z) (secure : bool) (s : NVICState)
  : outcome (NVICState * Z) :=
  assert_c ((ARMV7M_EXCP_RESET <? irq) && (irq <? num_irq s));;
  let bank := secure && exc_is_banked irq in
  wrong_state ← (if exc_is_banked irq then mret false
                 else ts ← exc_targets_secure s irq; mret (negb (eqb ts secure)));
  let v := if (wrong_state : bool) then None else Some (bank, irq) in
  let ret :=
    if (wrong_state : bool) then -1
    else if negb (active (get_vec s bank irq)) then -1
    else of_bool (nvic_rettobase s) in
  match complete_vec s v with
  | None => mret (s, ret)
  | Some (b, i) =>
    let s := upd_vec b i (fun v => v <| active := false |>) s in
    s ← (if truth (level (get_vec s b i)) then
           assert_c (NVIC_FIRST_IRQ <=? irq);;
           mret (upd_vec b i (fun v => v <| pending := true |>) s)
         else mret s);
    mret (nvic_irq_update s, ret)
  end.

Definition armv7m_nvic_get_ready_status (s : NVICState) (irq : Z) (secure : bool) : outcome bool :=
  let is_banked := exc_is_banked irq in
  let running := nvic_exec_prio s in
  assert_c ((ARMV7M_EXCP_RESET <? irq) && (irq <? num_irq s));;
  assert_c (negb secure || is_banked);;
  if irq =? ARMV7M_EXCP_HARD then mret (running >? -1)
  else
    let v := get_vec s (is_banked && secure) irq in
    mret (enabled v && (exc_group_prio s (prio v) secure <? running)).

(** ** Input lines *)

(** [vec->level] is a byte. *)
Definition set_irq_level (n level' : Z) (s : NVICState) : outcome NVICState :=
  let n := n + NVIC_FIRST_IRQ in
  assert_c ((NVIC_FIRST_IRQ <=? n) && (n <? num_irq s));;
  if negb (level' =? level (vec s n)) then
    let s := upd_vec false n (fun v => v <| level := u8 level' |>) s in
    if truth level' then armv7m_nvic_set_pending n false s else mret s
  else mret s.

Definition nvic_nmi_trigger (n level' : Z) (s : NVICState) : outcome NVICState :=
  if truth level' then armv7m_nvic_set_pending ARMV7M_EXCP_NMI false s else mret s.

Definition nvic_systick_trigger (n level' : Z) (s : NVICState) : outcome NVICState :=
  if truth level' then armv7m_nvic_set_pending ARMV7M_EXCP_SYSTICK (truth n) s else mret s.

(** ** Reset, realize and load *)

Definition reset_prio (s : NVICState) : Z := if FEATURE_V8 (model_of s) then -4 else -3.

Definition enable_vec (bank : bool) (i : Z) (b : bool) : NVICState → NVICState :=
  upd_vec bank i (fun v => v <| enabled := b |>).
Definition prio_vec (bank : bool) (i p : Z) : NVICState → NVICState :=
  upd_vec bank i (fun v => v <| prio := p |>).

(** The assignments to single vectors, after the arrays have been cleared. *)
Definition reset_assignments (s : NVICState) : NVICState :=
  let s := enable_vec false ARMV7M_EXCP_NMI true s in
  let s := enable_vec false ARMV7M_EXCP_SVC true s in
  let s := enable_vec false ARMV7M_EXCP_PENDSV true s in
  let s := enable_vec false ARMV7M_EXCP_SYSTICK true s in
  let s := enable_vec false ARMV7M_EXCP_DEBUG false s in
  let s := prio_vec false ARMV7M_EXCP_RESET (reset_prio s) s in
  let s := prio_vec false ARMV7M_EXCP_NMI (-2) s in
  let s := prio_vec false ARMV7M_EXCP_HARD (-1) s in
  if FEATURE_M_SECURITY (model_of s) then
    let s := enable_vec true ARMV7M_EXCP_HARD true s in
    let s := enable_vec true ARMV7M_EXCP_SVC true s in
    let s := enable_vec true ARMV7M_EXCP_PENDSV true s in
    let s := enable_vec true ARMV7M_EXCP_SYSTICK true s in
    let s := prio_vec true ARMV7M_EXCP_HARD (-1) s in
    enable_vec false ARMV7M_EXCP_HARD false s
  else enable_vec false ARMV7M_EXCP_HARD true s.

(** The two [memset]s and the priority grouping. *)
Definition reset_clear (s : NVICState) : NVICState :=
  s <| vectors := replicate (Z.to_nat NVIC_MAX_VECTORS) vec_zero |>
    <| sec_vectors := replicate (Z.to_nat NVIC_INTERNAL_VECTORS) vec_zero |>
    <| prigroup := mk_banked 0 0 |>.

(** The cached fields and the interrupt targets. *)
Definition reset_cache (s : NVICState) : NVICState :=
  let s := s <| exception_prio := NVIC_NOEXC_PRIO |> <| vectpending := 0 |>
             <| vectpending_is_s_banked := false |> <| vectpending_prio := NVIC_NOEXC_PRIO |> in
  if FEATURE_M_SECURITY (model_of s)
  then s <| itns := replicate (Z.to_nat NVIC_MAX_VECTORS) false |>
  else s <| itns ::= fun l =>
         for_range NVIC_FIRST_IRQ NVIC_MAX_VECTORS (fun i l => aset l i true) l |>.

Definition armv7m_nvic_reset (s : NVICState) : NVICState :=
  effect RebuildHflags (reset_cache (reset_assignments (reset_clear s))).

(** [None] is the error the function reports through [errp]. *)
Definition armv7m_nvic_realize (s : NVICState) : option NVICState :=
  if negb (FEATURE_M (model_of s)) then None
  else if num_irq s >? NVIC_MAX_IRQ then None
  else
    let s := s <| num_irq ::= fun n => n + NVIC_FIRST_IRQ |> in
    if num_prio_bits s =? 0 then
      Some (s <| num_prio_bits := if FEATURE_V7 (model_of s) then 8 else 2 |>)
    else
      let min_prio_bits := if FEATURE_V7 (model_of s) then 3 else 2 in
      if (num_prio_bits s <? min_prio_bits) || (num_prio_bits s >? 8) then None else Some s.

(** The return value and the state after loading a snapshot. *)
Definition nvic_post_load (s : NVICState) : Z * NVICState :=
  if negb (prio (vec s ARMV7M_EXCP_RESET) =? reset_prio s) ||
     negb (prio (vec s ARMV7M_EXCP_NMI) =? -2) || negb (prio (vec s ARMV7M_EXCP_HARD) =? -1)
  then (1, s)
  else if existsb (fun i => truth (Z.land (prio (vec s i)) (Z.lnot 0xff)))
            (seqZ ARMV7M_EXCP_MEM (num_irq s - ARMV7M_EXCP_MEM))
  then (1, s)
  else (0, nvic_recompute_state s).

Definition nvic_security_post_load (s : NVICState) : Z :=
  if negb (prio (sec_vec s ARMV7M_EXCP_HARD) =? -1) &&
     negb (prio (sec_vec s ARMV7M_EXCP_HARD) =? -3)
  then 1
  else if existsb (fun i => truth (Z.land (prio (sec_vec s i)) (Z.lnot 0xff)))
            (seqZ ARMV7M_EXCP_MEM (16 - ARMV7M_EXCP_MEM))
  then 1
  else 0.
