(* ===== verification/NvicRead.v ===== *)
(** Reads of the system control space: [nvic_readl], [nvic_sysreg_read] and
    their helpers in qemu/hw/intc/armv7m_nvic.c. *)

From S2P Require Import Prelude Irq NvicState NvicCore.

(** [val |= (1 << k)] when the condition holds. *)
Definition or_bit (b : bool) (k : Z) (val : Z) : Z := if b then Z.lor val (bit k) else val.

(** A register that exists only with a feature; without it the access goes to
    [bad_offset] and reads as zero. *)
Definition when (b : bool) (val : Z) : Z := if b then val else 0.

(** Registers of the Secure state only: read as zero from Non-secure. *)
Definition secure_only (secure : bool) (val : Z) : Z := if negb secure then 0 else val.

(** NVIC_ITNS: one bit per vector, from [startvec] on. *)
Definition read_itns (s : NVICState) (offset : Z) (secure : bool) : Z :=
  let startvec := 8 * (offset - 0x380) + NVIC_FIRST_IRQ in
  if negb secure then 0
  else for_range 0 (Z.min 32 (num_irq s - startvec))
         (fun i val => or_bit (aget false (itns s) (startvec + i)) i val) 0.

(** ICSR. *)
Definition read_icsr (s : NVICState) (secure : bool) : outcome Z :=
  let val := exception (v7m_of s) in
  val ← (if truth (vectpending s) then
           ts ← (if negb secure && FEATURE_V8_1M (model_of s)
                 then vectpending_targets_secure s else mret false);
           let vp := if (ts : bool) then 1 else vectpending s in
           mret (Z.lor val (Z.shiftl (Z.land vp 0x1ff) 12))
         else mret val);
  let val := or_bit (nvic_isrpending s) 22 val in
  let val := or_bit (nvic_rettobase s) 11 val in
  let val := or_bit (pending (get_vec s secure ARMV7M_EXCP_SYSTICK)) 26 val in
  let val := or_bit (pending (get_vec s secure ARMV7M_EXCP_PENDSV)) 28 val in
  mret (or_bit ((secure || aircr_has s AIRCR_BFHFNMINS) && pending (vec s ARMV7M_EXCP_NMI)) 31 val).

(** AIRCR. *)
Definition read_aircr (s : NVICState) (secure : bool) : Z :=
  let val := Z.lor 0xfa050000 (Z.shiftl (bget (prigroup s) secure) 8) in
  if secure then Z.lor val (aircr (v7m_of s))
  else if FEATURE_V8 (model_of s) then
    Z.lor val (Z.land (aircr (v7m_of s)) (field_mask AIRCR_BFHFNMINS))
  else val.

(** CCR. *)
Definition read_ccr (s : NVICState) (secure : bool) : Z :=
  let val := bget (ccr (v7m_of s)) secure in
  let val := Z.lor val (Z.land (ns (ccr (v7m_of s))) (field_mask CCR_BFHFNMIGN)) in
  if negb secure && negb (aircr_has s AIRCR_BFHFNMINS)
  then Z.land val (not32 (field_mask CCR_BFHFNMIGN)) else val.

(** SHCSR. *)
Definition read_shcsr (s : NVICState) (secure : bool) : Z :=
  let val := 0 in
  let val :=
    if secure then
      let val := or_bit (active (sec_vec s ARMV7M_EXCP_MEM)) 0 val in
      let val := or_bit (active (sec_vec s ARMV7M_EXCP_HARD)) 2 val in
      let val := or_bit (active (sec_vec s ARMV7M_EXCP_USAGE)) 3 val in
      let val := or_bit (active (sec_vec s ARMV7M_EXCP_SVC)) 7 val in
      let val := or_bit (active (sec_vec s ARMV7M_EXCP_PENDSV)) 10 val in
      let val := or_bit (active (sec_vec s ARMV7M_EXCP_SYSTICK)) 11 val in
      let val := or_bit (pending (sec_vec s ARMV7M_EXCP_USAGE)) 12 val in
      let val := or_bit (pending (sec_vec s ARMV7M_EXCP_MEM)) 13 val in
      let val := or_bit (pending (sec_vec s ARMV7M_EXCP_SVC)) 15 val in
      let val := or_bit (enabled (sec_vec s ARMV7M_EXCP_MEM)) 16 val in
      let val := or_bit (enabled (sec_vec s ARMV7M_EXCP_USAGE)) 18 val in
      let val := or_bit (pending (sec_vec s ARMV7M_EXCP_HARD)) 21 val in
      let val := or_bit (active (vec s ARMV7M_EXCP_SECURE)) 4 val in
      let val := or_bit (enabled (vec s ARMV7M_EXCP_SECURE)) 19 val in
      or_bit (pending (vec s ARMV7M_EXCP_SECURE)) 20 val
    else
      let val := or_bit (active (vec s ARMV7M_EXCP_MEM)) 0 val in
      let val :=
        if FEATURE_V8 (model_of s) then
          let val := or_bit (active (vec s ARMV7M_EXCP_HARD)) 2 val in
          or_bit (pending (vec s ARMV7M_EXCP_HARD)) 21 val
        else val in
      let val := or_bit (active (vec s ARMV7M_EXCP_USAGE)) 3 val in
      let val := or_bit (active (vec s ARMV7M_EXCP_SVC)) 7 val in
      let val := or_bit (active (vec s ARMV7M_EXCP_PENDSV)) 10 val in
      let val := or_bit (active (vec s ARMV7M_EXCP_SYSTICK)) 11 val in
      let val := or_bit (pending (vec s ARMV7M_EXCP_USAGE)) 12 val in
      let val := or_bit (pending (vec s ARMV7M_EXCP_MEM)) 13 val in
      let val := or_bit (pending (vec s ARMV7M_EXCP_SVC)) 15 val in
      let val := or_bit (enabled (vec s ARMV7M_EXCP_MEM)) 16 val in
      or_bit (enabled (vec s ARMV7M_EXCP_USAGE)) 18 val in
  let val :=
    if secure || aircr_has s AIRCR_BFHFNMINS then
      let val := or_bit (active (vec s ARMV7M_EXCP_BUS)) 1 val in
      let val := or_bit (pending (vec s ARMV7M_EXCP_BUS)) 14 val in
      let val := or_bit (enabled (vec s ARMV7M_EXCP_BUS)) 17 val in
      or_bit (FEATURE_V8 (model_of s) && active (vec s ARMV7M_EXCP_NMI)) 5 val
    else val in
  or_bit (active (vec s ARMV7M_EXCP_DEBUG)) 8 val.

(** The identification registers 0xd40 to 0xd74. *)
Definition main_idregs : list idreg :=
  [ID_PFR0; ID_PFR1; ID_DFR0; ID_AFR0; ID_MMFR0; ID_MMFR1; ID_MMFR2; ID_MMFR3;
   ID_ISAR0; ID_ISAR1; ID_ISAR2; ID_ISAR3; ID_ISAR4; ID_ISAR5].

Definition read_idreg (s : NVICState) (offset : Z) : Z :=
  when (FEATURE_M_MAIN (model_of s))
    (idregs (model_of s) (aget ID_PFR0 main_idregs ((offset - 0xd40) / 4))).

(** The region a v8M MPU alias register selects. *)
Definition mpu_alias_region (s : NVICState) (secure : bool) (aliasno : Z) : Z :=
  let region := bget (rnr (mpu (cpu s))) secure in
  if truth aliasno then deposit32 region 0 2 aliasno else region.

(** MPU_RBAR and its aliases. *)
Definition read_mpu_rbar (s : NVICState) (offset : Z) (secure : bool) : Z :=
  let m := mpu (cpu s) in
  if FEATURE_V8 (model_of s) then
    let region := mpu_alias_region s secure ((offset - 0xd9c) / 8) in
    if pmsav7_dregion (model_of s) <=? region then 0
    else aget 0 (bget (rbar m) secure) region
  else
    let region := bget (rnr m) secure in
    if pmsav7_dregion (model_of s) <=? region then 0
    else Z.lor (Z.land (aget 0 (drbar m) region) (not32 0x1f)) (Z.land region 0xf).

(** MPU_RASR, MPU_RLAR and their aliases. *)
Definition read_mpu_rasr (s : NVICState) (offset : Z) (secure : bool) : Z :=
  let m := mpu (cpu s) in
  if FEATURE_V8 (model_of s) then
    let region := mpu_alias_region s secure ((offset - 0xda0) / 8) in
    if pmsav7_dregion (model_of s) <=? region then 0
    else aget 0 (bget (rlar m) secure) region
  else
    let region := bget (rnr m) secure in
    if pmsav7_dregion (model_of s) <=? region then 0
    else Z.lor (Z.shiftl (Z.land (aget 0 (dracr m) region) 0xffff) 16)
               (Z.land (aget 0 (drsr m) region) 0xffff).

(** The SAU registers and the MPU attribute registers of v8M. *)
Definition read_sau (s : NVICState) (offset : Z) (secure : bool) : Z :=
  let m := mpu (cpu s) in
  when (FEATURE_V8 (model_of s))
    (if offset =? 0xdc0 then bget (mair0 m) secure
     else if offset =? 0xdc4 then bget (mair1 m) secure
     else secure_only secure
       (if offset =? 0xdd0 then sau_ctrl m
        else if offset =? 0xdd4 then sau_sregion (model_of s)
        else if offset =? 0xdd8 then sau_rnr m
        else if offset =? 0xddc then
          if sau_sregion (model_of s) <=? sau_rnr m then 0 else aget 0 (sau_rbar m) (sau_rnr m)
        else if offset =? 0xde0 then
          if sau_sregion (model_of s) <=? sau_rnr m then 0 else aget 0 (sau_rlar m) (sau_rnr m)
        else if offset =? 0xde4 then sfsr (v7m_of s)
        else sfar (v7m_of s))).

(** FPCCR. *)
Definition read_fpccr (s : NVICState) (secure : bool) : Z :=
  if negb (aa32_vfp_simd (model_of s)) then 0
  else if secure then sec (fpccr (v7m_of s))
  else
    let mask := masks [FPCCR_LSPEN; FPCCR_CLRONRET; FPCCR_MONRDY] in
    let mask := if aircr_has s AIRCR_BFHFNMINS
                then Z.lor mask (masks [FPCCR_BFRDY; FPCCR_HFRDY]) else mask in
    Z.lor (Z.land (sec (fpccr (v7m_of s))) mask) (ns (fpccr (v7m_of s))).

(** One of the registers at the given offsets. *)
Definition one_of (offset : Z) (l : list Z) : bool := existsb (Z.eqb offset) l.

Definition nvic_readl (s : NVICState) (offset : Z) (secure : bool) : outcome Z :=
  let m := model_of s in
  let env := v7m_of s in
  if offset =? 4 then
    mret (when (FEATURE_V7 m) (u32 ((num_irq s - NVIC_FIRST_IRQ) / 32 - 1)))
  else if offset =? 0xc then mret 0
  else if (0x380 <=? offset) && (offset <=? 0x3bf) then
    mret (when (FEATURE_V8 m) (read_itns s offset secure))
  else if offset =? 0xcfc then mret (when (FEATURE_V8_1M m) (revidr m))
  else if offset =? 0xd00 then mret (midr m)
  else if offset =? 0xd04 then read_icsr s secure
  else if offset =? 0xd08 then mret (bget (vecbase env) secure)
  else if offset =? 0xd0c then mret (read_aircr s secure)
  else if offset =? 0xd10 then mret (when (FEATURE_V7 m) (bget (scr env) secure))
  else if offset =? 0xd14 then mret (read_ccr s secure)
  else if offset =? 0xd24 then mret (when (FEATURE_V7 m) (read_shcsr s secure))
  else if offset =? 0xd2c then mret (when (FEATURE_M_MAIN m) (hfsr env))
  else if offset =? 0xd30 then mret (dfsr env)
  else if offset =? 0xd34 then mret (when (FEATURE_M_MAIN m) (bget (mmfar env) secure))
  else if offset =? 0xd38 then
    mret (when (FEATURE_M_MAIN m)
            (if negb secure && negb (aircr_has s AIRCR_BFHFNMINS) then 0 else bfar env))
  else if offset =? 0xd3c then mret 0
  else if one_of offset [0xd40; 0xd44; 0xd48; 0xd4c; 0xd50; 0xd54; 0xd58; 0xd5c;
                         0xd60; 0xd64; 0xd68; 0xd6c; 0xd70; 0xd74] then mret (read_idreg s offset)
  else if offset =? 0xd78 then mret (idregs m CLIDR)
  else if offset =? 0xd7c then mret (ctr m)
  else if offset =? 0xd80 then
    mret (aget 0 (ccsidr m) (Z.land (bget (csselr env) secure) (field_mask CSSELR_INDEX)))
  else if offset =? 0xd84 then mret (bget (csselr env) secure)
  else if offset =? 0xd88 then mret (when (aa32_vfp_simd m) (bget (cpacr env) secure))
  else if offset =? 0xd8c then mret (when (secure && aa32_vfp_simd m) (nsacr env))
  else if offset =? 0xd90 then mret (u32 (Z.shiftl (pmsav7_dregion m) 8))
  else if offset =? 0xd94 then mret (bget (mpu_ctrl env) secure)
  else if offset =? 0xd98 then mret (bget (rnr (mpu (cpu s))) secure)
  else if one_of offset [0xd9c; 0xda4; 0xdac; 0xdb4] then mret (read_mpu_rbar s offset secure)
  else if one_of offset [0xda0; 0xda8; 0xdb0; 0xdb8] then mret (read_mpu_rasr s offset secure)
  else if one_of offset [0xdc0; 0xdc4; 0xdd0; 0xdd4; 0xdd8; 0xddc; 0xde0; 0xde4; 0xde8]
       then mret (read_sau s offset secure)
  else if offset =? 0xf04 then mret 0
  else if offset =? 0xf34 then mret (read_fpccr s secure)
  else if offset =? 0xf38 then mret (when (aa32_vfp_simd m) (bget (fpcar env) secure))
  else if offset =? 0xf3c then mret (when (aa32_vfp_simd m) (bget (fpdscr env) secure))
  else if offset =? 0xf40 then mret (mvfr0 m)
  else if offset =? 0xf44 then mret (mvfr1 m)
  else if offset =? 0xf48 then mret (mvfr2 m)
  else mret 0.

(** ** Accesses of any size *)

Record MemTxAttrs := mk_attrs { secure : bool; user : bool }.

Definition nvic_user_access_ok (s : NVICState) (offset : Z) (attrs : MemTxAttrs) : bool :=
  if offset =? 0xf00
  then has (bget (ccr (v7m_of s)) (secure attrs)) (field_mask CCR_USERSETMPEND)
  else false.

(** [Some bank] for the vector the field shows, [None] where it is RAZ/WI. *)
Definition shpr_bank (s : NVICState) (exc : Z) (attrs : MemTxAttrs) : outcome (option bool) :=
  if one_of exc [ARMV7M_EXCP_MEM; ARMV7M_EXCP_USAGE; ARMV7M_EXCP_SVC; ARMV7M_EXCP_PENDSV;
                 ARMV7M_EXCP_SYSTICK]
  then mret (Some (secure attrs))
  else if exc =? ARMV7M_EXCP_BUS then
    if negb (secure attrs) && negb (aircr_has s AIRCR_BFHFNMINS) then mret None
    else mret (Some false)
  else if exc =? ARMV7M_EXCP_SECURE then
    if negb (secure attrs) then mret None else mret (Some false)
  else if exc =? ARMV7M_EXCP_DEBUG then mret (Some false)
  else if ((8 <=? exc) && (exc <=? 10)) || (exc =? 13) then mret None
  else Abort NotReached.

(** An interrupt the access may see: all from Secure, those assigned to
    Non-secure otherwise. *)
Definition irq_visible (s : NVICState) (attrs : MemTxAttrs) (n : Z) : bool :=
  secure attrs || aget false (itns s) n.

(** The loops over one bit per interrupt (enable, pending and active). *)
Definition read_irq_bits (f : VecInfo → bool) (s : NVICState) (startvec size : Z)
  (attrs : MemTxAttrs) : Z :=
  for_range 0 (Z.min (size * 8) (num_irq s - startvec))
    (fun i val => or_bit (f (vec s (startvec + i)) && irq_visible s attrs (startvec + i)) i val) 0.

(** The loop over one byte per interrupt. *)
Definition read_irq_prios (s : NVICState) (startvec size : Z) (attrs : MemTxAttrs) : Z :=
  for_range 0 (Z.min size (num_irq s - startvec))
    (fun i val =>
       if irq_visible s attrs (startvec + i)
       then Z.lor val (u32 (Z.shiftl (prio (vec s (startvec + i))) (8 * i))) else val) 0.

(** The loop over the system handler priority fields. *)
Fixpoint read_shpr (s : NVICState) (offset : Z) (attrs : MemTxAttrs) (idxs : list Z) (val : Z)
  : outcome Z :=
  match idxs with
  | [] => mret val
  | i :: idxs =>
    let hdlidx := offset - 0xd14 + i in
    sbank ← shpr_bank s hdlidx attrs;
    match sbank with
    | None => read_shpr s offset attrs idxs val
    | Some b =>
      p ← get_prio s hdlidx b;
      read_shpr s offset attrs idxs (deposit32 val (i * 8) 8 p)
    end
  end.

Definition read_cfsr (s : NVICState) (attrs : MemTxAttrs) : Z :=
  let val := bget (cfsr (v7m_of s)) (secure attrs) in
  if negb (secure attrs) && negb (aircr_has s AIRCR_BFHFNMINS)
  then Z.land val (not32 (field_mask CFSR_BFSR))
  else Z.lor val (Z.land (ns (cfsr (v7m_of s))) (field_mask CFSR_BFSR)).

Definition nvic_id : list Z := [0x00; 0xb0; 0x1b; 0x00; 0x0d; 0xe0; 0x05; 0xb1].

(** [lo <= x <= hi]. *)
Definition between (lo hi x : Z) : bool := (lo <=? x) && (x <=? hi).

(** [None] is [MEMTX_ERROR], a bus fault for the guest. *)
Definition nvic_sysreg_read (s : NVICState) (addr size : Z) (attrs : MemTxAttrs)
  : outcome (option Z) :=
  let offset := u32 addr in
  if user attrs && negb (nvic_user_access_ok s addr attrs) then mret None
  else
    val ← (if between 0x100 0x13f offset then
             mret (read_irq_bits enabled s (8 * (offset + 0x80 - 0x180) + NVIC_FIRST_IRQ) size attrs)
           else if between 0x180 0x1bf offset then
             mret (read_irq_bits enabled s (8 * (offset - 0x180) + NVIC_FIRST_IRQ) size attrs)
           else if between 0x200 0x23f offset then
             mret (read_irq_bits pending s (8 * (offset + 0x80 - 0x280) + NVIC_FIRST_IRQ) size attrs)
           else if between 0x280 0x2bf offset then
             mret (read_irq_bits pending s (8 * (offset - 0x280) + NVIC_FIRST_IRQ) size attrs)
           else if between 0x300 0x33f offset then
             mret (when (FEATURE_V7 (model_of s))
                     (read_irq_bits active s (8 * (offset - 0x300) + NVIC_FIRST_IRQ) size attrs))
           else if between 0x400 0x5ef offset then
             mret (read_irq_prios s (offset - 0x400 + NVIC_FIRST_IRQ) size attrs)
           else if between 0xd18 0xd1b offset && negb (FEATURE_M_MAIN (model_of s)) then mret 0
           else if between 0xd18 0xd23 offset then
             read_shpr s offset attrs (seqZ 0 size) 0
           else if between 0xd28 0xd2b offset then
             mret (when (FEATURE_M_MAIN (model_of s))
                     (extract32 (read_cfsr s attrs) ((offset - 0xd28) * 8) (size * 8)))
           else if between 0xfe0 0xfff offset then
             mret (if truth (Z.land offset 3) then 0
                   else aget 0 nvic_id (Z.shiftr (offset - 0xfe0) 2))
           else if size =? 4 then nvic_readl s offset (secure attrs)
           else mret 0);
    mret (Some val).
