(* ===== verification/NvicWrite.v ===== *)
(** Writes to the system control space: [nvic_writel] and [nvic_sysreg_write]
    in qemu/hw/intc/armv7m_nvic.c. *)

From S2P Require Import Prelude Irq NvicState NvicCore NvicRead.

(** [vec->pending = ...], [vec->active = ...]. *)
Definition pending_vec (bank : bool) (i : Z) (b : bool) : NVICState → NVICState :=
  upd_vec bank i (fun v => v <| pending := b |>).
Definition active_vec (bank : bool) (i : Z) (b : bool) : NVICState → NVICState :=
  upd_vec bank i (fun v => v <| active := b |>).

(** [(value & (1 << k)) != 0]. *)
Definition vbit (value k : Z) : bool := has value (bit k).

Definition write_itns (s : NVICState) (offset value : Z) : NVICState :=
  let startvec := 8 * (offset - 0x380) + NVIC_FIRST_IRQ in
  let s := for_range 0 (Z.min 32 (num_irq s - startvec))
             (fun i s => s <| itns ::= fun l =>
                aset l (startvec + i) (truth (Z.land (Z.shiftr value i) 1)) |>) s in
  nvic_irq_update s.

(** ICSR: NMI first, then PendSV, then SysTick. *)
Definition write_icsr (s : NVICState) (value : Z) (secure : bool) : outcome NVICState :=
  s ← (if secure || aircr_has s AIRCR_BFHFNMINS then
         if vbit value 31 then armv7m_nvic_set_pending ARMV7M_EXCP_NMI false s
         else if vbit value 30 && FEATURE_V8 (model_of s)
         then armv7m_nvic_clear_pending ARMV7M_EXCP_NMI false s
         else mret s
       else mret s);
  s ← (if vbit value 28 then armv7m_nvic_set_pending ARMV7M_EXCP_PENDSV secure s
       else if vbit value 27 then armv7m_nvic_clear_pending ARMV7M_EXCP_PENDSV secure s
       else mret s);
  if vbit value 26 then armv7m_nvic_set_pending ARMV7M_EXCP_SYSTICK secure s
  else if vbit value 25 then armv7m_nvic_clear_pending ARMV7M_EXCP_SYSTICK secure s
  else mret s.

Definition write_aircr (s : NVICState) (value : Z) (secure : bool) : NVICState :=
  if Z.shiftr value (shift AIRCR_VECTKEY) =? 0x05fa then
    let s :=
      if has value (field_mask AIRCR_SYSRESETREQ) &&
         (secure || negb (aircr_has s AIRCR_SYSRESETREQS))
      then signal_sysresetreq s else s in
    let s :=
      if FEATURE_M_MAIN (model_of s)
      then s <| prigroup ::= bset secure (FIELD_EX32 value AIRCR_PRIGROUP) |> else s in
    let s :=
      if secure then
        let s := set_v7m (fun m => m <| aircr := Z.land value
                   (masks [AIRCR_SYSRESETREQS; AIRCR_BFHFNMINS; AIRCR_PRIS]) |>) s in
        if aircr_has s AIRCR_BFHFNMINS
        then enable_vec false ARMV7M_EXCP_HARD true (prio_vec true ARMV7M_EXCP_HARD (-3) s)
        else enable_vec false ARMV7M_EXCP_HARD false (prio_vec true ARMV7M_EXCP_HARD (-1) s)
      else s in
    nvic_irq_update s
  else s.

Definition write_ccr (s : NVICState) (value : Z) (secure : bool) : NVICState :=
  let mask := masks [CCR_STKALIGN; CCR_BFHFNMIGN; CCR_DIV_0_TRP; CCR_UNALIGN_TRP;
                     CCR_USERSETMPEND; CCR_NONBASETHRDENA] in
  let mask := if FEATURE_V8_1M (model_of s) && secure then Z.lor mask (field_mask CCR_TRD)
              else mask in
  let value := Z.land value mask in
  let value := if FEATURE_V8 (model_of s)
               then Z.lor value (masks [CCR_NONBASETHRDENA; CCR_STKALIGN]) else value in
  let ign := field_mask CCR_BFHFNMIGN in
  if secure then
    let s := set_v7m (fun m => m <| ccr ::= fun c =>
               bset false (Z.lor (Z.land (ns c) (not32 ign)) (Z.land value ign)) c |>) s in
    set_v7m (fun m => m <| ccr ::= bset true (Z.land value (not32 ign)) |>) s
  else
    let value :=
      if negb (aircr_has s AIRCR_BFHFNMINS)
      then Z.lor (Z.land value (not32 ign)) (Z.land (ns (ccr (v7m_of s))) ign) else value in
    set_v7m (fun m => m <| ccr ::= bset false value |>) s.

(** SHCSR: the three groups of assignments. *)
Definition write_shcsr (s : NVICState) (value : Z) (secure : bool) : NVICState :=
  let v := vbit value in
  let s :=
    if secure then
      let s := active_vec true ARMV7M_EXCP_MEM (v 0) s in
      let s := active_vec true ARMV7M_EXCP_USAGE (v 3) s in
      let s := active_vec true ARMV7M_EXCP_SVC (v 7) s in
      let s := active_vec true ARMV7M_EXCP_PENDSV (v 10) s in
      let s := active_vec true ARMV7M_EXCP_SYSTICK (v 11) s in
      let s := pending_vec true ARMV7M_EXCP_USAGE (v 12) s in
      let s := pending_vec true ARMV7M_EXCP_MEM (v 13) s in
      let s := pending_vec true ARMV7M_EXCP_SVC (v 15) s in
      let s := enable_vec true ARMV7M_EXCP_MEM (v 16) s in
      let s := enable_vec true ARMV7M_EXCP_BUS (v 17) s in
      let s := enable_vec true ARMV7M_EXCP_USAGE (v 18) s in
      let s := pending_vec true ARMV7M_EXCP_HARD (v 21) s in
      let s := active_vec false ARMV7M_EXCP_SECURE (v 4) s in
      let s := enable_vec false ARMV7M_EXCP_SECURE (v 19) s in
      pending_vec false ARMV7M_EXCP_SECURE (v 20) s
    else
      let s := active_vec false ARMV7M_EXCP_MEM (v 0) s in
      let s := if FEATURE_V8 (model_of s)
               then pending_vec false ARMV7M_EXCP_HARD (v 21) s else s in
      let s := active_vec false ARMV7M_EXCP_USAGE (v 3) s in
      let s := active_vec false ARMV7M_EXCP_SVC (v 7) s in
      let s := active_vec false ARMV7M_EXCP_PENDSV (v 10) s in
      let s := active_vec false ARMV7M_EXCP_SYSTICK (v 11) s in
      let s := pending_vec false ARMV7M_EXCP_USAGE (v 12) s in
      let s := pending_vec false ARMV7M_EXCP_MEM (v 13) s in
      let s := pending_vec false ARMV7M_EXCP_SVC (v 15) s in
      let s := enable_vec false ARMV7M_EXCP_MEM (v 16) s in
      enable_vec false ARMV7M_EXCP_USAGE (v 18) s in
  let s :=
    if secure || aircr_has s AIRCR_BFHFNMINS then
      let s := active_vec false ARMV7M_EXCP_BUS (v 1) s in
      let s := pending_vec false ARMV7M_EXCP_BUS (v 14) s in
      enable_vec false ARMV7M_EXCP_BUS (v 17) s
    else s in
  let via_alias := negb secure && secure_state (v7m_of s) && aircr_has s AIRCR_BFHFNMINS in
  let s := if via_alias && negb (v 5) then active_vec false ARMV7M_EXCP_NMI false s else s in
  let s := if via_alias && negb (v 2) then active_vec false ARMV7M_EXCP_HARD false s else s in
  let s := active_vec false ARMV7M_EXCP_DEBUG (v 8) s in
  nvic_irq_update s.

(** ** MPU, SAU and floating-point context registers *)

(** MPU_RBAR and its aliases; v7M can name the region in the value. *)
Definition write_mpu_rbar (s : NVICState) (offset value : Z) (secure : bool) : NVICState :=
  let dregion := pmsav7_dregion (model_of s) in
  if FEATURE_V8 (model_of s) then
    let region := mpu_alias_region s secure ((offset - 0xd9c) / 8) in
    if dregion <=? region then s
    else effect TlbFlush (set_mpu (fun m => m <| rbar ::= fun b =>
           bset secure (aset (bget b secure) region value) b |>) s)
  else if vbit value 4 then
    let region := extract32 value 0 4 in
    if dregion <=? region then s
    else
      let s := set_mpu (fun m => m <| rnr ::= bset secure region |>) s in
      effect TlbFlush (set_mpu (fun m => m <| drbar ::= fun l =>
        aset l region (Z.land value (not32 0x1f)) |>) s)
  else
    let region := bget (rnr (mpu (cpu s))) secure in
    if dregion <=? region then s
    else effect TlbFlush (set_mpu (fun m => m <| drbar ::= fun l =>
           aset l region (Z.land value (not32 0x1f)) |>) s).

(** MPU_RASR, MPU_RLAR and their aliases. *)
Definition write_mpu_rasr (s : NVICState) (offset value : Z) (secure : bool) : NVICState :=
  let dregion := pmsav7_dregion (model_of s) in
  if FEATURE_V8 (model_of s) then
    let region := mpu_alias_region s secure ((offset - 0xd9c) / 8) in
    if dregion <=? region then s
    else effect TlbFlush (set_mpu (fun m => m <| rlar ::= fun b =>
           bset secure (aset (bget b secure) region value) b |>) s)
  else
    let region := bget (rnr (mpu (cpu s))) secure in
    if dregion <=? region then s
    else effect TlbFlush (set_mpu (fun m =>
           m <| drsr ::= fun l => aset l region (Z.land value 0xff3f) |>
             <| dracr ::= fun l => aset l region (Z.land (Z.shiftr value 16) 0x173f) |>) s).

(** MPU_MAIR0, MPU_MAIR1 and the SAU registers. *)
Definition write_sau (s : NVICState) (offset value : Z) (secure : bool) : NVICState :=
  let m := model_of s in
  let region := sau_rnr (mpu (cpu s)) in
  if negb (FEATURE_V8 m) then s
  else if offset =? 0xdc0 then
    if truth (pmsav7_dregion m) then set_mpu (fun m => m <| mair0 ::= bset secure value |>) s else s
  else if offset =? 0xdc4 then
    if truth (pmsav7_dregion m) then set_mpu (fun m => m <| mair1 ::= bset secure value |>) s else s
  else if offset =? 0xdd4 then s
  else if negb secure then s
  else if offset =? 0xdd0 then set_mpu (fun m => m <| sau_ctrl := Z.land value 3 |>) s
  else if offset =? 0xdd8 then
    if sau_sregion m <=? value then s else set_mpu (fun m => m <| sau_rnr := value |>) s
  else if offset =? 0xddc then
    if sau_sregion m <=? region then s
    else effect TlbFlush (set_mpu (fun m => m <| sau_rbar ::= fun l =>
           aset l region (Z.land value (not32 0x1f)) |>) s)
  else if offset =? 0xde0 then
    if sau_sregion m <=? region then s
    else effect TlbFlush (set_mpu (fun m => m <| sau_rlar ::= fun l =>
           aset l region (Z.land value (not32 0x1c)) |>) s)
  else if offset =? 0xde4 then
    set_v7m (fun m => m <| sfsr ::= fun r => Z.land r (not32 value) |>) s
  else set_v7m (fun m => m <| sfsr := value |>) s.

(** Copy a field from the written value to the Secure FPCCR. *)
Definition copy_field (f : field) (value fpccr_s : Z) : Z :=
  FIELD_DP32 fpccr_s f (FIELD_EX32 value f).

Definition write_fpccr (s : NVICState) (value : Z) (secure : bool) : NVICState :=
  if negb (aa32_vfp_simd (model_of s)) then s
  else
    let value :=
      if negb (FEATURE_V8 (model_of s)) then
        Z.land value (masks [FPCCR_LSPACT; FPCCR_USER; FPCCR_THREAD; FPCCR_HFRDY; FPCCR_MMRDY;
                             FPCCR_BFRDY; FPCCR_MONRDY; FPCCR_LSPEN; FPCCR_ASPEN])
      else value in
    let value := Z.land value (not32 (field_mask FPCCR_RES0)) in
    if negb secure then
      let r := sec (fpccr (v7m_of s)) in
      let r := if negb (has r (field_mask FPCCR_LSPENS)) then copy_field FPCCR_LSPEN value r else r in
      let r := if negb (has r (field_mask FPCCR_CLRONRETS))
               then copy_field FPCCR_CLRONRET value r else r in
      let r := if aircr_has s AIRCR_BFHFNMINS
               then copy_field FPCCR_BFRDY value (copy_field FPCCR_HFRDY value r) else r in
      let r := copy_field FPCCR_MONRDY value r in
      set_v7m (fun m => m <| fpccr := mk_banked (Z.land value FPCCR_BANKED_MASK) r |>) s
    else set_v7m (fun m => m <| fpccr ::= bset true value |>) s.

Definition write_fpdscr (s : NVICState) (value : Z) (secure : bool) : NVICState :=
  if aa32_vfp_simd (model_of s) then
    let mask := Z.lor (Z.lor (Z.lor FPCR_AHP FPCR_DN) FPCR_FZ) FPCR_RMODE_MASK in
    let mask := if any_fp16 (model_of s) then Z.lor mask FPCR_FZ16 else mask in
    let value := Z.land value mask in
    let value := if aa32_lob (model_of s) then Z.lor value (Z.shiftl 4 FPCR_LTPSIZE_SHIFT)
                 else value in
    set_v7m (fun m => m <| fpdscr ::= bset secure value |>) s
  else s.

(** [arm_v7m_csselr_razwi] of target/arm/cpu.h. *)
Definition arm_v7m_csselr_razwi (s : NVICState) : bool :=
  truth (Z.land (idregs (model_of s) CLIDR) (field_mask CLIDR_CTYPE_ALL)).

Definition nvic_writel (offset value : Z) (secure : bool) (s : NVICState) : outcome NVICState :=
  let m := model_of s in
  if (0x380 <=? offset) && (offset <=? 0x3bf) then
    mret (if FEATURE_V8 m && secure then write_itns s offset value else s)
  else if offset =? 0xd04 then write_icsr s value secure
  else if offset =? 0xd08 then
    mret (set_v7m (fun m => m <| vecbase ::= bset secure (Z.land value 0xffffff80) |>) s)
  else if offset =? 0xd0c then mret (write_aircr s value secure)
  else if offset =? 0xd10 then
    mret (if FEATURE_V7 m then
            set_v7m (fun m => m <| scr ::= bset secure
              (Z.land value (not32 (masks [SCR_SLEEPDEEP; SCR_SLEEPDEEPS]))) |>) s
          else s)
  else if offset =? 0xd14 then mret (if FEATURE_M_MAIN m then write_ccr s value secure else s)
  else if offset =? 0xd24 then mret (if FEATURE_V7 m then write_shcsr s value secure else s)
  else if offset =? 0xd2c then
    mret (if FEATURE_M_MAIN m
          then set_v7m (fun m => m <| hfsr ::= fun r => Z.land r (not32 value) |>) s else s)
  else if offset =? 0xd30 then
    mret (set_v7m (fun m => m <| dfsr ::= fun r => Z.land r (not32 value) |>) s)
  else if offset =? 0xd34 then
    mret (if FEATURE_M_MAIN m then set_v7m (fun m => m <| mmfar ::= bset secure value |>) s else s)
  else if offset =? 0xd38 then
    mret (if FEATURE_M_MAIN m && (secure || aircr_has s AIRCR_BFHFNMINS)
          then set_v7m (fun m => m <| bfar := value |>) s else s)
  else if offset =? 0xd84 then
    mret (if negb (arm_v7m_csselr_razwi s)
          then set_v7m (fun m => m <| csselr ::= bset secure
                 (Z.land value (field_mask CSSELR_INDEX)) |>) s else s)
  else if offset =? 0xd88 then
    mret (if aa32_vfp_simd m
          then set_v7m (fun m => m <| cpacr ::= bset secure (Z.land value (Z.shiftl 0xf 20)) |>) s
          else s)
  else if offset =? 0xd8c then
    mret (if secure && aa32_vfp_simd m
          then set_v7m (fun m => m <| nsacr := Z.land value (Z.shiftl 3 10) |>) s else s)
  else if offset =? 0xd94 then
    mret (effect TlbFlush (set_v7m (fun m => m <| mpu_ctrl ::= bset secure (Z.land value
      (masks [MPU_CTRL_ENABLE; MPU_CTRL_HFNMIENA; MPU_CTRL_PRIVDEFENA])) |>) s))
  else if offset =? 0xd98 then
    mret (if pmsav7_dregion m <=? value then s
          else set_mpu (fun m => m <| rnr ::= bset secure value |>) s)
  else if one_of offset [0xd9c; 0xda4; 0xdac; 0xdb4] then mret (write_mpu_rbar s offset value secure)
  else if one_of offset [0xda0; 0xda8; 0xdb0; 0xdb8] then mret (write_mpu_rasr s offset value secure)
  else if one_of offset [0xdc0; 0xdc4; 0xdd0; 0xdd4; 0xdd8; 0xddc; 0xde0; 0xde4; 0xde8]
       then mret (write_sau s offset value secure)
  else if offset =? 0xf00 then
    let excnum := Z.land value 0x1ff + NVIC_FIRST_IRQ in
    if FEATURE_M_MAIN m && (excnum <? num_irq s) then armv7m_nvic_set_pending excnum false s
    else mret s
  else if offset =? 0xf34 then mret (write_fpccr s value secure)
  else if offset =? 0xf38 then
    mret (if aa32_vfp_simd m
          then set_v7m (fun m => m <| fpcar ::= bset secure (Z.land value (not32 7)) |>) s else s)
  else if offset =? 0xf3c then mret (write_fpdscr s value secure)
  else mret s.

(** ** Accesses of any size *)

(** Set enable and Clear enable. *)
Definition write_irq_enable (startvec size value : Z) (setval : bool) (attrs : MemTxAttrs)
  (s : NVICState) : NVICState :=
  let s := for_range 0 (Z.min (size * 8) (num_irq s - startvec))
    (fun i s => if vbit value i && irq_visible s attrs (startvec + i)
                then enable_vec false (startvec + i) setval s else s) s in
  nvic_irq_update s.

(** Set pend and Clear pend; a held-high line of an inactive interrupt keeps it
    pending. *)
Definition write_irq_pending (startvec size value : Z) (setval : bool) (attrs : MemTxAttrs)
  (s : NVICState) : NVICState :=
  let s := for_range 0 (Z.min (size * 8) (num_irq s - startvec))
    (fun i s =>
       if vbit value i && irq_visible s attrs (startvec + i) &&
          negb (negb setval && truth (level (vec s (startvec + i))) &&
                negb (active (vec s (startvec + i))))
       then pending_vec false (startvec + i) setval s else s) s in
  nvic_irq_update s.

(** Interrupt priorities, one byte each. *)
Fixpoint write_irq_prios (startvec value : Z) (attrs : MemTxAttrs) (idxs : list Z) (s : NVICState)
  : outcome NVICState :=
  match idxs with
  | [] => mret s
  | i :: idxs =>
    s ← (if irq_visible s attrs (startvec + i)
         then set_prio (startvec + i) false (Z.land (Z.shiftr value (i * 8)) 0xff) s
         else mret s);
    write_irq_prios startvec value attrs idxs s
  end.

(** System handler priorities. *)
Fixpoint write_shpr (offset value : Z) (attrs : MemTxAttrs) (idxs : list Z) (s : NVICState)
  : outcome NVICState :=
  match idxs with
  | [] => mret s
  | i :: idxs =>
    let hdlidx := offset - 0xd14 + i in
    sbank ← shpr_bank s hdlidx attrs;
    s ← match sbank with
        | None => mret s
        | Some b => set_prio hdlidx b (extract32 (u32 value) (i * 8) 8) s
        end;
    write_shpr offset value attrs idxs s
  end.

Definition write_cfsr (offset value : Z) (attrs : MemTxAttrs) (s : NVICState) : NVICState :=
  let bfsr := field_mask CFSR_BFSR in
  let value := u64 (Z.shiftl value ((offset - 0xd28) * 8)) in
  let value := if negb (secure attrs) && negb (aircr_has s AIRCR_BFHFNMINS)
               then Z.land value (u64 (Z.lnot bfsr)) else value in
  let s := set_v7m (fun m => m <| cfsr ::= fun c =>
             bset (secure attrs) (Z.land (bget c (secure attrs)) (not32 value)) c |>) s in
  if secure attrs then
    set_v7m (fun m => m <| cfsr ::= fun c =>
      bset false (Z.land (ns c) (not32 (Z.land value bfsr))) c |>) s
  else s.

(** The access without the final rebuild of the cached flags. *)
Definition sysreg_write_body (offset value size : Z) (attrs : MemTxAttrs) (s : NVICState)
  : outcome NVICState :=
  if between 0x100 0x13f offset then
    mret (write_irq_enable (8 * (offset + 0x80 - 0x180) + NVIC_FIRST_IRQ) size value true attrs s)
  else if between 0x180 0x1bf offset then
    mret (write_irq_enable (8 * (offset - 0x180) + NVIC_FIRST_IRQ) size value false attrs s)
  else if between 0x200 0x23f offset then
    mret (write_irq_pending (8 * (offset + 0x80 - 0x280) + NVIC_FIRST_IRQ) size value true attrs s)
  else if between 0x280 0x2bf offset then
    mret (write_irq_pending (8 * (offset - 0x280) + NVIC_FIRST_IRQ) size value false attrs s)
  else if between 0x300 0x33f offset then mret s
  else if between 0x400 0x5ef offset then
    let startvec := offset - 0x400 + NVIC_FIRST_IRQ in
    s ← write_irq_prios startvec value attrs (seqZ 0 (Z.min size (num_irq s - startvec))) s;
    mret (nvic_irq_update s)
  else if between 0xd18 0xd1b offset && negb (FEATURE_M_MAIN (model_of s)) then mret s
  else if between 0xd18 0xd23 offset then
    s ← write_shpr offset value attrs (seqZ 0 size) s;
    mret (nvic_irq_update s)
  else if between 0xd28 0xd2b offset then
    mret (if FEATURE_M_MAIN (model_of s) then write_cfsr offset value attrs s else s)
  else if size =? 4 then nvic_writel offset (u32 value) (secure attrs) s
  else mret s.

(** [None] is [MEMTX_ERROR]. *)
Definition nvic_sysreg_write (addr value size : Z) (attrs : MemTxAttrs) (s : NVICState)
  : outcome (option NVICState) :=
  if user attrs && negb (nvic_user_access_ok s addr attrs) then mret None
  else
    s ← sysreg_write_body (u32 addr) value size attrs s;
    mret (Some (effect RebuildHflags s)).
