(* ===== verification/SysTick.v ===== *)
(** The SysTick timer: qemu/hw/timer/armv7m_systick.c. *)

From S2P Require Import Prelude Irq Timer Clock Ptimer NvicRead.

Definition SYSTICK_ENABLE : Z := bit 0.
Definition SYSTICK_TICKINT : Z := bit 1.
Definition SYSTICK_CLKSOURCE : Z := bit 2.
Definition SYSTICK_COUNTFLAG : Z := bit 16.
Definition SYSCALIB_NOREF : Z := bit 31.
Definition SYSCALIB_SKEW : Z := bit 30.
Definition SYSCALIB_TENMS : Z := bit 24 - 1.

Section SysTick.
Context {R : Type} (limited : bool).

(** The clock inputs are the device's own clocks; [None] as a transaction's
    result is a commit that does not end. *)
Record SysTickState := mk_systick {
  control : Z;        (* uint32_t *)
  ptimer : ptimer_state;
  irq : qemu_irq;
  refclk : Clock R;
  cpuclk : Clock R
}.

#[export] Instance eta_SysTick : RecordEta SysTickState := fun s =>
  mk_systick (control s) (ptimer s) (irq s) (refclk s) (cpuclk s).

Definition set_ptimer (p : ptimer_state) (s : SysTickState) : SysTickState := s <| ptimer := p |>.

(** An operation on the ptimer. *)
Definition on_ptimer (f : ptimer_state → outcome ptimer_state) (s : SysTickState) : outcome SysTickState :=
  p ← f (ptimer s); mret (set_ptimer p s).

Definition systick_set_period_from_clock (now : Z) (s : SysTickState) : outcome SysTickState :=
  let clk := if has (control s) SYSTICK_CLKSOURCE then cpuclk s else refclk s in
  on_ptimer (ptimer_set_period_from_clock limited now (clock_get clk) 1) s.

Definition systick_timer_tick (now : Z) (s : SysTickState) : outcome SysTickState :=
  let s := s <| control ::= fun c => Z.lor c SYSTICK_COUNTFLAG |> in
  let s := if has (control s) SYSTICK_TICKINT then s <| irq ::= qemu_irq_pulse |> else s in
  if ptimer_get_limit (ptimer s) =? 0 then on_ptimer (ptimer_stop limited now) s else mret s.

(** A block between begin and commit. *)
Definition transaction (fuel : nat) (now : Z) (body : SysTickState → outcome SysTickState)
    (s : SysTickState) : outcome (option SysTickState) :=
  s ← on_ptimer ptimer_transaction_begin s;
  s ← body s;
  ptimer_transaction_commit limited ptimer set_ptimer systick_timer_tick fuel now s.

(** ** Registers *)

(** The value read and the state after it; [None] is a bus fault. *)
Definition calibration (s : SysTickState) : Z :=
  if negb (clock_has_source (refclk s)) then SYSCALIB_NOREF
  else
    let val := Z.land (u32 (clock_ns_to_ticks (refclk s) 10000000 - 1)) SYSCALIB_TENMS in
    if negb (clock_ticks_to_ns (refclk s) (val + 1) =? 10000000) then Z.lor val SYSCALIB_SKEW else val.

Definition systick_read (now addr : Z) (attrs : MemTxAttrs) (s : SysTickState)
  : outcome (option (SysTickState * Z)) :=
  if user attrs then mret None
  else if addr =? 0x0 then
    mret (Some (s <| control ::= fun c => Z.land c (not32 SYSTICK_COUNTFLAG) |>, control s))
  else if addr =? 0x4 then mret (Some (s, u32 (ptimer_get_limit (ptimer s))))
  else if addr =? 0x8 then
    count ← ptimer_get_count limited now (ptimer s);
    mret (Some (s, u32 count))
  else if addr =? 0xc then mret (Some (s, calibration s))
  else mret (Some (s, 0)).

Definition write_control (now value : Z) (s : SysTickState) : outcome SysTickState :=
  let oldval := control s in
  let s := s <| control ::= fun c => Z.lor (Z.land c 0xfffffff8) (Z.land value 7) |> in
  s ← (if has (Z.lxor oldval value) SYSTICK_CLKSOURCE then systick_set_period_from_clock now s else mret s);
  if has (Z.lxor oldval value) SYSTICK_ENABLE then
    if has value SYSTICK_ENABLE then on_ptimer (ptimer_run false) s
    else on_ptimer (ptimer_stop limited now) s
  else mret s.

Definition write_current (now : Z) (s : SysTickState) : outcome SysTickState :=
  s ← (if ptimer_get_limit (ptimer s) =? 0 then on_ptimer (ptimer_stop limited now) s else mret s);
  s ← on_ptimer (ptimer_set_count 0) s;
  mret (s <| control ::= fun c => Z.land c (not32 SYSTICK_COUNTFLAG) |>).

(** [Some None] is a bus fault. *)
Definition systick_write (fuel : nat) (now addr value : Z) (attrs : MemTxAttrs) (s : SysTickState)
  : outcome (option (option SysTickState)) :=
  if user attrs then mret (Some None)
  else if addr =? 0x0 then
    let value := if negb (clock_has_source (refclk s)) then Z.lor value SYSTICK_CLKSOURCE else value in
    r ← transaction fuel now (write_control now value) s; mret (option_map Some r)
  else if addr =? 0x4 then
    r ← transaction fuel now (on_ptimer (ptimer_set_limit (Z.land value 0xffffff) false)) s;
    mret (option_map Some r)
  else if addr =? 0x8 then
    r ← transaction fuel now (write_current now) s; mret (option_map Some r)
  else mret (Some (Some s)).

(** ** Reset, realize, clocks and expiry *)

Definition reset_body (now : Z) (s : SysTickState) : outcome SysTickState :=
  let s := s <| control := if negb (clock_has_source (refclk s)) then SYSTICK_CLKSOURCE else 0 |> in
  s ← on_ptimer (ptimer_stop limited now) s;
  s ← on_ptimer (ptimer_set_count 0) s;
  s ← on_ptimer (ptimer_set_limit 0 false) s;
  systick_set_period_from_clock now s.

Definition systick_reset (fuel : nat) (now : Z) (s : SysTickState) : outcome (option SysTickState) :=
  transaction fuel now (reset_body now) s.

(** The clock callbacks: the test of the clock in use has an empty body. *)
Definition systick_cpuclk_update (fuel : nat) (now : Z) (s : SysTickState) : outcome (option SysTickState) :=
  transaction fuel now (on_ptimer (ptimer_set_period_from_clock limited now (clock_get (cpuclk s)) 1)) s.

Definition systick_refclk_update (fuel : nat) (now : Z) (s : SysTickState) : outcome (option SysTickState) :=
  transaction fuel now (on_ptimer (ptimer_set_period_from_clock limited now (clock_get (refclk s)) 1)) s.

Definition systick_policy : Z :=
  Z.lor (Z.lor PTIMER_POLICY_WRAP_AFTER_ONE_PERIOD PTIMER_POLICY_NO_COUNTER_ROUND_DOWN)
    (Z.lor PTIMER_POLICY_NO_IMMEDIATE_RELOAD PTIMER_POLICY_TRIGGER_ONLY_ON_DECREMENT).

(** [None] when the CPU clock is not connected. *)
Definition systick_realize (irq : qemu_irq) (refclk cpuclk : Clock R) : outcome (option SysTickState) :=
  p ← ptimer_init systick_policy;
  mret (if clock_has_source cpuclk then Some (mk_systick 0 p irq refclk cpuclk) else None).

(** The ptimer's timer expires. *)
Definition systick_expire (fuel : nat) (now : Z) (s : SysTickState) : outcome (option SysTickState) :=
  ptimer_tick limited ptimer set_ptimer systick_timer_tick fuel now
    (s <| ptimer ::= fun p => p <| timer := [] |> |>).
End SysTick.
