(* ===== verification/SysTickSpec.v ===== *)
(** What the SysTick timer promises: its invariant, the value of its counter,
    and the time between its ticks. *)

From S2P Require Import Prelude Irq Timer Clock Ptimer NvicRead SysTick.

Section Schedule.
Context (limited : bool).
Implicit Types p : ptimer_state.

(** Nanoseconds for [d] counts: the exact time rounded down, or about ten
    microseconds where the rate is limited. *)
Definition event_time (d : Z) p : Z :=
  if too_fast limited d (period p) then d * (10000 / d) else d * raw (period p) (period_frac p) / 2 ^ 32.

Record core p : Prop := {
  co_policy : policy_mask p = systick_policy;
  co_enabled : enabled p = 0 ∨ enabled p = 1;
  co_limit : 0 ≤ limit p < 2 ^ 24;
  co_delta : 0 ≤ delta p ≤ 2 ^ 24;
  co_period : is_u32 (period p);
  co_frac : is_u32 (period_frac p);
  co_zero : period p = 0 → period_frac p = 0;
  co_timer : timer p = [] ∨ ∃ e, timer p = [((), e)]
}.

(** A running timer: armed for the next event, which is the time of the counter,
    or one more count, after the last. *)
Record running (now : Z) p : Prop := {
  ru_armed : timer p = [((), next_event p)];
  ru_last : 0 ≤ last_event p ≤ now;
  ru_next : ∃ d, 1 ≤ d ≤ 2 ^ 24 ∧ (d = delta p ∨ d = delta p + 1) ∧
    next_event p = last_event p + event_time d p
}.

(** Between transactions. *)
Record settled (now : Z) p : Prop := {
  se_core : core p;
  se_out : in_transaction p = false;
  se_off : enabled p = 0 → timer p = [];
  se_on : enabled p = 1 → 1 ≤ period p ∧ running now p
}.

(** In a transaction. *)
Record midway (now : Z) p : Prop := {
  mw_core : core p;
  mw_in : in_transaction p = true;
  mw_off : enabled p = 0 → timer p = [];
  mw_on : enabled p = 1 → 1 ≤ period p ∧ (need_reload p = true ∨ running now p)
}.

Lemma policies p : core p →
  policy p PTIMER_POLICY_WRAP_AFTER_ONE_PERIOD = true ∧ policy p PTIMER_POLICY_CONTINUOUS_TRIGGER = false ∧
  policy p PTIMER_POLICY_NO_IMMEDIATE_TRIGGER = false ∧ policy p PTIMER_POLICY_NO_IMMEDIATE_RELOAD = true ∧
  policy p PTIMER_POLICY_NO_COUNTER_ROUND_DOWN = true ∧
  policy p PTIMER_POLICY_TRIGGER_ONLY_ON_DECREMENT = true.
Proof. intros []. unfold policy. by rewrite co_policy0. Qed.

Lemma too_fast_spec d per : 0 ≤ d ≤ 2 ^ 24 → is_u32 per → too_fast limited d per = (d * per <? 10000) && limited.
Proof. intros Hd Hp. unfold too_fast. unfold in_range in *. by rewrite wrap_small by (unfold in_range; nia). Qed.

Lemma event_time_bounds d p : core p → 1 ≤ period p → 1 ≤ d ≤ 2 ^ 24 → 1 ≤ event_time d p ≤ 2 ^ 56 + 10000.
Proof.
  intros [] Hp Hd. unfold event_time. rewrite too_fast_spec by (done || lia).
  unfold in_range, raw in *. set (P := period p * 2 ^ 32 + period_frac p) in *.
  assert (1 * 2 ^ 32 ≤ d * P) by nia. assert (d * P ≤ 2 ^ 24 * 2 ^ 64) by nia.
  destruct (_ && _) eqn:E.
  - apply andb_prop in E as [E _]. apply Z.ltb_lt in E. assert (d < 10000) by nia.
    assert (1 ≤ 10000 / d) by (apply Z.div_le_lower_bound; lia).
    pose proof (Z.mul_div_le 10000 d ltac:(lia)). nia.
  - split; [apply Z.div_le_lower_bound; lia|]. etrans; [apply Z.div_le_mono; [lia|eassumption]|]. done.
Qed.

(** ** The counter *)

(** The period the counter is read with. *)
Definition count_period p : Z :=
  if too_fast limited (delta p) (period p) then 10000 / delta p else period p.
Definition count_frac p : Z := if too_fast limited (delta p) (period p) then 0 else period_frac p.

Lemma count_period_ok p :
  core p → 1 ≤ period p → delta p ≠ 0 →
  is_u32 (count_period p) ∧ is_u32 (count_frac p) ∧ 1 ≤ count_period p.
Proof.
  intros [] Hp Hd. unfold count_period, count_frac. rewrite too_fast_spec by (done || lia).
  destruct (_ && _) eqn:E; [|done]. apply andb_prop in E as [E _]. apply Z.ltb_lt in E.
  assert (delta p < 10000) by nia.
  assert (1 ≤ 10000 / delta p ≤ 10000).
  { split; [apply Z.div_le_lower_bound; lia|]. apply Z.div_le_upper_bound; nia. }
  unfold in_range. lia.
Qed.

Definition rounded (now counter : Z) p : Z := if now =? last_event p then counter else counter + 1.

(** In the period after a tick the counter reads zero. *)
Definition wrapping (now counter : Z) p : bool :=
  (delta p =? limit p) && (if now =? last_event p then counter =? limit p + 1 else counter =? limit p).

Lemma round_up_spec now c p : core p → 0 ≤ c < 2 ^ 63 → round_up now c p = rounded now c p.
Proof.
  intros Hc Hr. unfold round_up, rounded. destruct (policies p Hc) as (_ & _ & _ & _ & -> & _).
  destruct (now =? last_event p); [done|]. simpl. apply wrap_small. unfold in_range. lia.
Qed.

(** The event time in terms of what the counter is read with: all of it is less
    than the counts times the period, unless reading and scheduling disagree
    on the rate limit, when there are few counts. *)
Lemma count_covers d p :
  core p → 1 ≤ period p → delta p ≠ 0 → 1 ≤ d ≤ 2 ^ 24 → d = delta p ∨ d = delta p + 1 →
  event_time d p * 2 ^ 32 ≤ d * raw (count_period p) (count_frac p) ∨
  event_time d p ≤ 40000.
Proof.
  intros Hc Hp Hn Hd Hdd. pose proof Hc as [_ _ _ Hdelta Hper Hfrac _ _].
  unfold event_time, count_period, count_frac. rewrite !too_fast_spec by (done || lia).
  destruct limited; rewrite ?andb_true_r, ?andb_false_r.
  - destruct (Z.ltb_spec (d * period p) 10000) as [H1|H1].
    + right. pose proof (Z.mul_div_le 10000 d ltac:(lia)). lia.
    + destruct (Z.ltb_spec (delta p * period p) 10000) as [H2|H2].
      * right. apply Z.div_le_upper_bound; [lia|]. unfold raw, in_range in *.
        assert (delta p < 10000 ∧ period p < 10000) by nia. nia.
      * left. rewrite Z.mul_comm. apply Z.mul_div_le. lia.
  - left. rewrite Z.mul_comm. apply Z.mul_div_le. lia.
Qed.

Lemma get_count_unfold now p :
  core p → enabled p = 1 → delta p ≠ 0 → 1 ≤ period p → 0 ≤ now < 2 ^ 62 → 0 ≤ next_event p < 2 ^ 63 →
  now < next_event p →
  ∃ q, ptimer_get_count limited now p = Ok (if wrapping now q p then 0 else rounded now q p) ∧
    let exact := (next_event p - now) * 2 ^ 32 / raw (count_period p) (count_frac p) in
    0 ≤ q ≤ exact ∧ q < 2 ^ 63 ∧ (next_event p - now < 2 ^ 32 → q = exact).
Proof.
  intros Hc He Hd Hp Hn Hnx Hlt. destruct (count_period_ok p Hc Hp Hd) as (Hcp & Hcf & Hcp1).
  destruct (scaled_div_spec (next_event p - now) (count_period p) (count_frac p)) as (q & Hq & Hqr & Hqe);
    [lia|done|done|unfold raw, in_range in *; lia|].
  assert (2 ^ 32 ≤ raw (count_period p) (count_frac p)) as Hraw by (unfold raw, in_range in *; lia).
  assert (q < 2 ^ 63) as Hq63.
  { apply Z.le_lt_trans with (next_event p - now); [|lia]. etrans; [apply Hqr|].
    apply Z.div_le_upper_bound; nia. }
  exists q. split; [|done]. unfold ptimer_get_count. rewrite He. simpl.
  destruct (Z.eqb_spec (delta p) 0); [done|]. simpl.
  assert (i64 (now - next_event p) < 0) as Hneg.
  { unfold i64, wrap. rewrite <- (Z.mod_add (now - next_event p) 1 (2 ^ 64)) by lia.
    rewrite Z.mod_small by lia. destruct (Z.ltb_spec (now - next_event p + 1 * 2 ^ 64) (2 ^ 63)); lia. }
  destruct (Z.leb_spec 0 (i64 (now - next_event p))); [lia|].
  assert (u64 (period p) = period p) as ->
    by (apply wrap_small, (range_weaken 32); [lia|apply Hc]).
  assert (u64 (next_event p - now) = next_event p - now) as -> by (apply wrap_small; unfold in_range; lia).
  fold (count_period p) (count_frac p). rewrite Hq. unfold mbind, outcome_bind.
  destruct (policies p Hc) as (-> & _). rewrite round_up_spec by (done || lia).
  pose proof (co_limit p Hc). unfold DELTA_ADJUST.
  assert (u64 (limit p + 1) = limit p + 1) as -> by (apply wrap_small; unfold in_range; lia).
  unfold wrapping. simpl. destruct (delta p =? limit p), (now =? last_event p); simpl;
    repeat case_if; done.
Qed.

Lemma running_next now p :
  core p → 1 ≤ period p → running now p → now < 2 ^ 62 → 0 ≤ last_event p < next_event p ∧ next_event p < 2 ^ 63.
Proof.
  intros Hc Hp [_ Hl (d & Hd & _ & ->)] Hn. pose proof (event_time_bounds d p Hc Hp Hd). lia.
Qed.

(** Reading the counter never fails, and it stays within 25 bits. *)
Lemma get_count_ok now p :
  core p → now < 2 ^ 62 → (enabled p = 1 → 1 ≤ period p ∧ running now p) →
  ∃ c, ptimer_get_count limited now p = Ok c ∧ 0 ≤ c ≤ 2 ^ 24.
Proof.
  intros Hc Hn Hon. destruct (co_enabled p Hc) as [He|He].
  { exists (delta p). unfold ptimer_get_count. rewrite He. split; [done|apply Hc]. }
  destruct (Hon He) as [Hp Hru]. destruct (running_next now p Hc Hp Hru Hn) as [Hl Hnx].
  destruct (decide (delta p = 0)) as [Hd|Hd].
  { exists 0. unfold ptimer_get_count. rewrite He, Hd. done. }
  destruct Hru as [_ Hlast (d & Hd24 & Hdd & Hnext)].
  destruct (Z.le_gt_cases (next_event p) now) as [Hexp|Hlt].
  - exists (rounded now 0 p). split.
    + unfold ptimer_get_count. rewrite He. simpl. destruct (Z.eqb_spec (delta p) 0); [done|]. simpl.
      rewrite i64_small by lia. destruct (Z.leb_spec 0 (now - next_event p)); [|lia].
      rewrite round_up_spec by (done || lia). done.
    + unfold rounded. case_if; lia.
  - destruct (get_count_unfold now p Hc He Hd Hp) as (q & Hq & Hqr & _); [lia..|].
    eexists. split; [exact Hq|]. clear Hq. case_if; [lia|].
    destruct (count_period_ok p Hc Hp Hd) as (Hcp & Hcf & Hcp1).
    set (P := raw (count_period p) (count_frac p)) in *.
    assert (2 ^ 32 ≤ P) as HP by (unfold P, raw, in_range in *; lia).
    assert (q * P ≤ (next_event p - now) * 2 ^ 32) as HqP.
    { etrans; [apply Z.mul_le_mono_nonneg_r; [lia|apply Hqr]|]. rewrite Z.mul_comm. apply Z.mul_div_le. lia. }
    unfold rounded. destruct (count_covers d p Hc Hp Hd Hd24 Hdd) as [Hcov|Hcov]; fold P in Hcov.
    + destruct (Z.eqb_spec now (last_event p)); nia.
    + assert (q ≤ 40000) by nia. destruct (now =? last_event p); lia.
Qed.

(** ** Reloading *)

Lemma timer_del_unit p : core p → timer_del (timer p) () = [].
Proof. intros []. by destruct co_timer0 as [->|[e ->]]. Qed.

Lemma timer_mod_unit p e : core p → 0 ≤ e → timer_mod 1 (timer p) () e = [((), e)].
Proof.
  intros [] He. unfold timer_mod, timer_mod_ns. rewrite Z.mul_1_r.
  destruct co_timer0 as [->|[e' ->]]; simpl; by rewrite Z.max_l.
Qed.

(** The counts to the next event. *)
Definition counts (delta_adjust : Z) p : Z :=
  let d := if delta_adjust =? DELTA_NO_ADJUST then delta p else delta p + delta_adjust in
  if (d =? 0) && negb (limit p =? 0) then 1 else d.

Lemma reload_delta_spec adj p :
  core p → enabled p = 1 → -1 ≤ adj ≤ 1 → reload_delta adj p = counts adj p.
Proof.
  intros Hc He Ha. unfold reload_delta, counts. destruct (policies p Hc) as (-> & -> & -> & -> & _).
  rewrite He. pose proof (co_delta p Hc). unfold DELTA_NO_ADJUST. simpl.
  rewrite !andb_false_r. simpl.
  destruct (Z.eqb_spec adj (-1)); simpl; rewrite ?andb_true_r; [done|].
  by rewrite wrap_small by (unfold in_range; lia).
Qed.

Lemma event_time_code d p :
  core p → 1 ≤ period p → 1 ≤ d ≤ 2 ^ 24 → 0 ≤ next_event p < 2 ^ 62 →
  let fast := too_fast limited d (u64 (period p)) in
  let per := if fast then 10000 / d else u64 (period p) in
  let frac := if fast then 0 else period_frac p in
  let next := i64 (next_event p + u64 (d * per)) in
  (if truth frac then i64 (next + Z.shiftr (u64 (frac * d)) 32) else next) = next_event p + event_time d p.
Proof.
  intros Hc Hp Hd Hn. pose proof (event_time_bounds d p Hc Hp Hd) as Hb.
  destruct Hc as [_ _ _ _ Hper Hfrac _ _].
  assert (u64 (period p) = period p) as -> by (apply wrap_small, (range_weaken 32); [lia|done]).
  cbv zeta. unfold event_time in *. destruct (too_fast limited d (period p)).
  - rewrite truth_0. assert (u64 (d * (10000 / d)) = d * (10000 / d)) as -> by (apply wrap_small; unfold in_range; lia).
    rewrite i64_small by lia. done.
  - unfold raw, in_range in *. rewrite Z.mul_add_distr_l, Z.mul_assoc, Z.div_add_l in * by lia.
    rewrite (Z.mul_comm (period_frac p) d), Z.shiftr_div_pow2 by lia.
    assert (0 ≤ d * period_frac p / 2 ^ 32) by (apply Z.div_pos; nia).
    assert (u64 (d * period p) = d * period p) as -> by (apply wrap_small; unfold in_range; nia).
    assert (u64 (d * period_frac p) = d * period_frac p) as -> by (apply wrap_small; unfold in_range; nia).
    rewrite (i64_small (next_event p + d * period p)) by nia.
    unfold truth. destruct (Z.eqb_spec (period_frac p) 0) as [->|]; simpl.
    + rewrite Z.mul_0_r, Z.div_0_l by lia. lia.
    + rewrite i64_small by lia. lia.
Qed.

(** A reload: the timer is off when there is nothing to count, and otherwise
    armed for the end of the counts. *)
Lemma reload_timer_spec adj p :
  core p → enabled p = 1 → 1 ≤ period p → -1 ≤ adj ≤ 1 → 0 ≤ next_event p < 2 ^ 62 →
  0 ≤ counts adj p ≤ 2 ^ 24 →
  reload_timer limited adj p =
    if counts adj p =? 0 then p <| timer := [] |> <| enabled := 0 |>
    else p <| last_event := next_event p |> <| next_event := next_event p + event_time (counts adj p) p |>
           <| timer := [((), next_event p + event_time (counts adj p) p)] |>.
Proof.
  intros Hc He Hp Ha Hn Hcn. unfold reload_timer.
  destruct (policies p Hc) as (_ & _ & _ & -> & _). rewrite andb_false_r.
  destruct (Z.eqb_spec (period p) 0); [lia|]. simpl.
  rewrite reload_delta_spec, He by done. simpl. destruct (Z.eqb_spec (counts adj p) 0) as [E|E].
  - unfold ptimer_disable. by rewrite timer_del_unit.
  - pose proof (event_time_code (counts adj p) p Hc Hp ltac:(lia) Hn) as Ht. cbv zeta in Ht.
    rewrite Ht. pose proof (event_time_bounds (counts adj p) p Hc Hp ltac:(lia)).
    rewrite timer_mod_unit by (done || lia). done.
Qed.
End Schedule.

(** ** The invariant *)

Section Device.
Context {R : Type} (limited : bool).
Implicit Types (s : SysTickState (R := R)) (c : Clock R).

(** From one nanosecond to four seconds. *)
Definition clk_ok c : Prop := 2 ^ 32 ≤ cl_period c < 2 ^ 64.

Record clocks_ok s : Prop := {
  ck_cpu : clk_ok (cpuclk s);
  ck_ref : clock_has_source (refclk s) = true → clk_ok (refclk s);
  ck_forced : clock_has_source (refclk s) = false → Z.testbit (control s) 2 = true
}.

Record systick_wf (now : Z) s : Prop := {
  sw_ptimer : settled limited now (ptimer s);
  sw_control : is_u32 (control s);
  sw_clocks : clocks_ok s
}.

(** The same, in a transaction. *)
Record systick_mid (now : Z) s : Prop := {
  sm_ptimer : midway limited now (ptimer s);
  sm_control : is_u32 (control s);
  sm_clocks : clocks_ok s
}.

Lemma running_later now now' p : running limited now p → now ≤ now' → running limited now' p.
Proof. intros [] ?. split; [done|lia|done]. Qed.

Lemma systick_later now now' s : systick_wf now s → now ≤ now' → systick_wf now' s.
Proof.
  intros [[Hc Hi Ho Hn] ? ?] Hle. split; [|done..]. split; [done..|]. intros He.
  destruct (Hn He) as [? Hr]. split; [done|]. by eapply running_later.
Qed.

Lemma begin_mid now s : systick_wf now s →
  ∃ s1, on_ptimer ptimer_transaction_begin s = Ok s1 ∧ systick_mid now s1 ∧
    s1 = s <| ptimer := (ptimer s) <| in_transaction := true |> <| need_reload := false |> |> .
Proof.
  intros [[Hc Hi Ho Hn] Hu Hk]. eexists. unfold on_ptimer, ptimer_transaction_begin. rewrite Hi.
  split; [reflexivity|]. split; [|done]. destruct Hc, Hk. split; [|done|by split].
  split; [by split|done|done|]. intros He. destruct (Hn He) as [? []]. split; [done|]. right. by split.
Qed.

Definition commit (fuel : nat) (now : Z) s :=
  ptimer_transaction_commit limited ptimer set_ptimer (systick_timer_tick limited) fuel now s.

(** The reload of a commit calls nothing back. *)
Lemma reload_silent now p s :
  core p → ptimer_reload limited ptimer set_ptimer (systick_timer_tick limited) now 0 (set_ptimer p s) =
    Ok (set_ptimer (reload_timer limited 0 p) s).
Proof.
  intros Hc. unfold ptimer_reload. change (ptimer (set_ptimer p s)) with p.
  destruct (policies p Hc) as (_ & _ & _ & _ & _ & ->). change (negb ((0 =? 0) && true)) with false.
  rewrite andb_false_r. reflexivity.
Qed.

(** The reload leaves the timer off, or running. *)
Lemma reload_now now p :
  core p → enabled p = 1 → 1 ≤ period p → next_event p = now → 0 ≤ now < 2 ^ 62 →
  let p' := reload_timer limited 0 p in
  core p' ∧ need_reload p' = need_reload p ∧ in_transaction p' = in_transaction p ∧
  (enabled p' = 0 → timer p' = []) ∧ (enabled p' = 1 → 1 ≤ period p' ∧ running limited now p').
Proof.
  intros Hc He Hp Hnx Hnow p'.
  assert (counts 0 p = if (delta p =? 0) && negb (limit p =? 0) then 1 else delta p) as Hcn
    by (unfold counts; change (0 =? DELTA_NO_ADJUST) with false; cbv iota; by rewrite Z.add_0_r).
  pose proof (co_delta p Hc) as Hd.
  assert (0 ≤ counts 0 p ≤ 2 ^ 24) as Hr by (rewrite Hcn; case_if; lia).
  assert (counts 0 p = delta p ∨ counts 0 p = delta p + 1) as Hor.
  { rewrite Hcn. destruct (Z.eqb_spec (delta p) 0) as [->|]; simpl; [case_if; lia|lia]. }
  unfold p'. rewrite (reload_timer_spec limited 0 p Hc He Hp) by lia. destruct (Z.eqb_spec (counts 0 p) 0).
  - destruct Hc. split; [split; simpl; auto|]. by split_and!.
  - split; [destruct Hc; split; simpl; eauto|]. split_and!; [done|done|simpl; by rewrite He|].
    intros _. split; [done|]. split; [done|simpl; lia|]. exists (counts 0 p). split; [lia|]. done.
Qed.

(** A commit reloads at most once: it ends with the first round, and only the
    ptimer changes. *)
Lemma commit_ok fuel now s :
  systick_mid now s → 0 ≤ now < 2 ^ 62 →
  ∃ s', commit (S fuel) now s = Ok (Some s') ∧ systick_wf now s' ∧ s' = s <| ptimer := ptimer s' |>.
Proof.
  intros [[Hc Hin Ho Hon] Hu [Hk1 Hk2 Hk3]] Hnow. unfold commit, ptimer_transaction_commit. rewrite Hin.
  unfold assert_c. rewrite bind_Ok. cbn [commit_loop].
  destruct (need_reload (ptimer s) && truth (enabled (ptimer s))) eqn:E.
  - apply andb_prop in E as [Enr Een].
    assert (enabled (ptimer s) = 1) as He by (destruct (co_enabled _ Hc) as [H|H]; [by rewrite H in Een|done]).
    set (p1 := (ptimer s) <| need_reload := false |> <| next_event := now |>).
    assert (core p1) as Hc1 by (destruct Hc; by split).
    destruct (reload_now now p1 Hc1 He) as (Hc2 & Hnr & Hit & Hoff & Hru); [by apply Hon|done|done|].
    rewrite reload_silent by done. rewrite bind_Ok. set (p2 := reload_timer limited 0 p1) in *.
    assert (commit_loop limited ptimer set_ptimer (systick_timer_tick limited) fuel now (set_ptimer p2 s) =
      Ok (Some (set_ptimer p2 s))) as -> by (destruct fuel; cbn [commit_loop]; change (ptimer (set_ptimer p2 s)) with p2; by rewrite Hnr).
    rewrite bind_Ok. eexists. split; [reflexivity|]. split; [|done]. split; [|done|by split].
    split; [by destruct Hc2|done|done|]. intros He2. destruct (Hru He2) as [? []]. split; [done|]. by split.
  - rewrite bind_Ok. eexists. split; [reflexivity|]. split; [|done]. split; [|done|by split].
    split; [by destruct Hc|done|done|]. intros He. destruct (Hon He) as [Hp Hor]. split; [done|].
    destruct Hor as [Hnr|[]]; [|by split]. simpl in He. by rewrite Hnr, He in E.
Qed.

(** ** The operations in a transaction *)

(** The counter can be read. *)
Definition readable (now : Z) s : Prop := enabled (ptimer s) = 1 → running limited now (ptimer s).

Lemma on_ptimer_ok f s p : f (ptimer s) = Ok p → on_ptimer f s = Ok (set_ptimer p s).
Proof. unfold on_ptimer. by intros ->. Qed.

Lemma stop_ok now s :
  systick_mid now s → readable now s → now < 2 ^ 62 →
  ∃ p, on_ptimer (ptimer_stop limited now) s = Ok (set_ptimer p s) ∧
    systick_mid now (set_ptimer p s) ∧ enabled p = 0.
Proof.
  intros [[Hc Hin Ho Hon] Hu [Hk1 Hk2 Hk3]] Hr Hn. destruct (co_enabled _ Hc) as [He|He].
  - exists (ptimer s). split; [apply on_ptimer_ok; unfold ptimer_stop; by rewrite Hin, He|].
    split; [|done]. by split.
  - destruct (get_count_ok limited now (ptimer s) Hc Hn) as (cnt & Hcnt & Hb);
      [intros _; split; [by apply Hon|by apply Hr]|].
    eexists. split.
    + apply on_ptimer_ok. unfold ptimer_stop. rewrite Hin, He, Hcnt. reflexivity.
    + rewrite timer_del_unit by done. split; [|done]. split; [|done|by split]. destruct Hc. by split; [split; auto|..].
Qed.

Lemma set_period_ok now per s :
  systick_mid now s → readable now s → now < 2 ^ 62 → 2 ^ 32 ≤ per < 2 ^ 64 →
  ∃ p, on_ptimer (ptimer_set_period_from_clock limited now per 1) s = Ok (set_ptimer p s) ∧
    systick_mid now (set_ptimer p s) ∧ enabled p = enabled (ptimer s) ∧
    period p = per / 2 ^ 32 ∧ period_frac p = wrap 32 per.
Proof.
  intros [[Hc Hin Ho Hon] Hu [Hk1 Hk2 Hk3]] Hr Hn Hper.
  destruct (get_count_ok limited now (ptimer s) Hc Hn) as (cnt & Hcnt & Hb);
    [intros He; split; [by apply Hon|by apply Hr]|].
  assert (1 ≤ per / 2 ^ 32 < 2 ^ 32) as Hq
    by (split; [apply Z.div_le_lower_bound; lia|apply Z.div_lt_upper_bound; lia]).
  pose proof (wrap_range 32 per ltac:(lia)) as Hw.
  assert (u64 (wrap 32 per * 1) = wrap 32 per) as Hf
    by (rewrite Z.mul_1_r; apply wrap_small, (range_weaken 32); [lia|done]).
  assert (i64 (i64 (wrap 32 (Z.shiftr per 32) * 1) + Z.shiftr (wrap 32 per) 32) = per / 2 ^ 32) as Hp.
  { rewrite !Z.shiftr_div_pow2, Z.mul_1_r, (wrap_small 32 (per / 2 ^ 32)) by (done || unfold in_range; lia).
    unfold in_range in Hw. rewrite (Z.div_small (wrap 32 per)), Z.add_0_r by lia.
    rewrite !i64_small by (rewrite ?i64_small; lia). done. }
  eexists. split.
  - apply on_ptimer_ok. unfold ptimer_set_period_from_clock. rewrite Hin, Hcnt. unfold assert_c.
    rewrite !bind_Ok. cbv zeta. rewrite Hf, Hp. reflexivity.
  - unfold request_reload. rewrite (wrap_wrap 32 32) by lia. simpl.
    split; [|by destruct (truth (enabled (ptimer s)))]. split; [|done|by split].
    destruct (co_enabled _ Hc) as [He|He]; rewrite He; simpl; destruct Hc;
      (split; [split; simpl; first [done|by auto|unfold in_range; lia]|done|simpl; rewrite ?He; first [done|intros _; by apply Ho]|simpl; rewrite ?He; try done]).
    intros _. split; [lia|by left].
Qed.

Lemma set_count_ok now s :
  systick_mid now s → ∃ p, on_ptimer (ptimer_set_count 0) s = Ok (set_ptimer p s) ∧
    systick_mid now (set_ptimer p s) ∧ enabled p = enabled (ptimer s).
Proof.
  intros [[Hc Hin Ho Hon] Hu [Hk1 Hk2 Hk3]]. eexists. split.
  - apply on_ptimer_ok. unfold ptimer_set_count. rewrite Hin. reflexivity.
  - unfold request_reload. simpl. split; [|by destruct (truth (enabled (ptimer s)))].
    split; [|done|by split].
    destruct (co_enabled _ Hc) as [He|He]; rewrite He; simpl; destruct Hc;
      (split; [split; simpl; first [done|by auto|lia]|done|simpl; rewrite ?He; first [done|intros _; by apply Ho]|simpl; rewrite ?He; try done]).
    intros _. split; [by apply Hon|by left].
Qed.

Lemma set_limit_ok now lim s :
  systick_mid now s → 0 ≤ lim < 2 ^ 24 →
  ∃ p, on_ptimer (ptimer_set_limit lim false) s = Ok (set_ptimer p s) ∧
    systick_mid now (set_ptimer p s) ∧ enabled p = enabled (ptimer s) ∧ limit p = lim ∧
    (readable now s → readable now (set_ptimer p s)).
Proof.
  intros [[Hc Hin Ho Hon] Hu [Hk1 Hk2 Hk3]] Hl. eexists. split.
  - apply on_ptimer_ok. unfold ptimer_set_limit. rewrite Hin. reflexivity.
  - assert (∀ p, running limited now p → running limited now (p <| limit := lim |>)) as Hr by (intros p []; by split).
    split; [|split; [done|]; split; [done|]; intros H He; by apply Hr, H].
    split; [|done|by split]. destruct Hc. split; [by split|done|done|].
    intros He. destruct (Hon He) as [Hp [Hn|Hn]]; (split; [exact Hp|]); [by left|right; by apply Hr].
Qed.

Lemma run_ok now s :
  systick_mid now s → ∃ p, on_ptimer (ptimer_run false) s = Ok (set_ptimer p s) ∧
    systick_mid now (set_ptimer p s).
Proof.
  intros [[Hc Hin Ho Hon] Hu [Hk1 Hk2 Hk3]].
  pose proof (co_period _ Hc) as Hper. pose proof (co_zero _ Hc) as Hz.
  assert (∃ p, ptimer_run false (ptimer s) = Ok p ∧ midway limited now p) as (p & Hrun & Hmid).
  { unfold ptimer_run. rewrite Hin. unfold assert_c. rewrite bind_Ok.
    destruct (co_enabled _ Hc) as [He|He]; rewrite He; change (negb (truth 0)) with true;
      change (negb (truth 1)) with false; cbn [andb].
    - destruct (Z.eqb_spec (period (ptimer s)) 0) as [E|E]; [rewrite (Hz E)|]; cbn [andb].
      + eexists. split; [reflexivity|]. by split.
      + eexists. split; [reflexivity|]. destruct Hc.
        split; [split; simpl; auto|done|done|]. intros _. split; [unfold in_range in *; simpl; lia|by left].
    - eexists. split; [reflexivity|]. destruct Hc. split; [split; simpl; auto|done|done|]. intros _.
      destruct (Hon He) as [Hp [Hn|[]]]; (split; [done|]); [by left|right; by split]. }
  exists p. split; [by apply on_ptimer_ok|]. by split.
Qed.

(** A transaction whose body keeps the invariant. *)
Lemma transaction_ok fuel now body s :
  systick_wf now s → 0 ≤ now < 2 ^ 62 →
  (∀ s1, systick_mid now s1 → readable now s1 → s1 = s <| ptimer := ptimer s1 |> →
     ∃ s2, body s1 = Ok s2 ∧ systick_mid now s2) →
  ∃ s', transaction limited (S fuel) now body s = Ok (Some s') ∧ systick_wf now s'.
Proof.
  intros Hs Hn Hbody. destruct (begin_mid now s Hs) as (s1 & Hb & Hm & E1).
  destruct (Hbody s1 Hm) as (s2 & H2 & Hm2); [|by rewrite E1|].
  { intros He. subst s1. simpl in He. destruct Hs as [[_ _ _ Hon] _ _]. destruct (Hon He) as [_ []]. by split. }
  destruct (commit_ok fuel now s2 Hm2 Hn) as (s' & Hc & Hwf & _). exists s'. split; [|done].
  unfold transaction. rewrite Hb, bind_Ok, H2, bind_Ok. exact Hc.
Qed.

Lemma mid_control now s f :
  systick_mid now s → is_u32 (f (control s)) →
  (Z.testbit (control s) 2 = true → Z.testbit (f (control s)) 2 = true) → systick_mid now (s <| control ::= f |>).
Proof. intros [Hp Hu [Hk1 Hk2 Hk3]] Hf H2. split; [done|done|]. split; [done|done|]. intros Hn. by apply H2, Hk3. Qed.

Lemma set_period_from_clock_ok now s :
  systick_mid now s → readable now s → now < 2 ^ 62 →
  ∃ p, systick_set_period_from_clock limited now s = Ok (set_ptimer p s) ∧
    systick_mid now (set_ptimer p s) ∧ enabled p = enabled (ptimer s).
Proof.
  intros Hm Hr Hn. unfold systick_set_period_from_clock, SYSTICK_CLKSOURCE. rewrite has_bit by done.
  pose proof (sm_clocks _ _ Hm) as [Hcpu Href Hf].
  destruct (Z.testbit (control s) 2) eqn:E2.
  - destruct (set_period_ok now (clock_get (cpuclk s)) s Hm Hr Hn Hcpu) as (p & H & Hm' & He & _). by exists p.
  - destruct (clock_has_source (refclk s)) eqn:Es; [|by specialize (Hf eq_refl)].
    destruct (set_period_ok now (clock_get (refclk s)) s Hm Hr Hn (Href eq_refl)) as (p & H & Hm' & He & _). by exists p.
Qed.

(** Changing the clock and stopping the timer in one write of the control
    register. *)
Definition switch_and_stop (control value : Z) : bool :=
  has (Z.lxor control value) SYSTICK_CLKSOURCE && has control SYSTICK_ENABLE && negb (has value SYSTICK_ENABLE).

Definition control_after (c value : Z) : Z := Z.lor (Z.land c 0xfffffff8) (Z.land value 7).

Lemma control_after_range (c value : Z) : is_u32 c → is_u32 (control_after c value).
Proof.
  intros Hc. apply lor_range; [lia|by apply land_range|]. apply land_range_r; [lia|done].
Qed.

Lemma control_after_source (c value : Z) : Z.testbit (control_after c value) 2 = Z.testbit value 2.
Proof.
  unfold control_after. rewrite Z.lor_spec, !Z.land_spec. change (Z.testbit 0xfffffff8 2) with false.
  change (Z.testbit 7 2) with true. by rewrite andb_false_r, andb_true_r.
Qed.

Lemma write_control_ok now value s :
  systick_mid now s → readable now s → now < 2 ^ 62 →
  (clock_has_source (refclk s) = false → Z.testbit value 2 = true) →
  switch_and_stop (control s) value = false →
  ∃ s', write_control limited now value s = Ok s' ∧ systick_mid now s'.
Proof.
  intros Hm Hr Hn Hsrc Hss. unfold write_control. cbv zeta.
  match goal with |- context [systick_set_period_from_clock _ _ ?x] => set (s1 := x) end.
  assert (systick_mid now s1) as Hm1.
  { destruct Hm as [Hp Hu [Hk1 Hk2 Hk3]]. split; [done|by apply control_after_range|]. split; [done|done|].
    intros Hf. change (Z.testbit (control_after (control s) value) 2 = true). rewrite control_after_source. by apply Hsrc. }
  unfold switch_and_stop in Hss.
  assert (∃ s2, (if has (Z.lxor (control s) value) SYSTICK_CLKSOURCE
                 then systick_set_period_from_clock limited now s1 else mret s1) = Ok s2 ∧ systick_mid now s2 ∧
    (has (Z.lxor (control s) value) SYSTICK_CLKSOURCE = false → readable now s2)) as (s2 & H2 & Hm2 & Hr2).
  { destruct (has (Z.lxor (control s) value) SYSTICK_CLKSOURCE).
    - destruct (set_period_from_clock_ok now s1 Hm1 Hr Hn) as (p & H & Hmp & _). by exists (set_ptimer p s1).
    - exists s1. by split_and!. }
  rewrite H2, bind_Ok. unfold SYSTICK_ENABLE in *. rewrite !has_bit, Z.lxor_spec in * by done.
  destruct (Z.testbit value 0) eqn:Ev, (Z.testbit (control s) 0) eqn:Ec; simpl; [by eauto| | |by eauto].
  - destruct (run_ok now s2 Hm2) as (p & H & Hmp). by eauto.
  - rewrite !andb_true_r in Hss. destruct (stop_ok now s2 Hm2 (Hr2 Hss) Hn) as (p & H & Hmp & _). by eauto.
Qed.

Lemma clear_countflag_ok now s :
  systick_mid now s → systick_mid now (s <| control ::= fun c : Z => Z.land c (not32 SYSTICK_COUNTFLAG) |>).
Proof.
  intros Hm. apply mid_control; [done|apply land_range; [lia|apply Hm]|].
  intros H2. rewrite Z.land_spec, H2. done.
Qed.

Lemma write_current_ok now s :
  systick_mid now s → readable now s → now < 2 ^ 62 →
  ∃ s', write_current limited now s = Ok s' ∧ systick_mid now s'.
Proof.
  intros Hm Hr Hn. unfold write_current.
  assert (∃ s1, (if ptimer_get_limit (ptimer s) =? 0 then on_ptimer (ptimer_stop limited now) s else mret s)
    = Ok s1 ∧ systick_mid now s1) as (s1 & H1 & Hm1).
  { destruct (_ =? 0); [|by exists s]. destruct (stop_ok now s Hm Hr Hn) as (p & H & Hmp & _). by eauto. }
  rewrite H1, bind_Ok. destruct (set_count_ok now s1 Hm1) as (p & H2 & Hm2 & _).
  rewrite H2, bind_Ok. eexists. split; [reflexivity|]. by apply clear_countflag_ok.
Qed.

Lemma reset_body_ok now s :
  systick_mid now s → readable now s → now < 2 ^ 62 →
  ∃ s', reset_body limited now s = Ok s' ∧ systick_mid now s'.
Proof.
  intros Hm Hr Hn. unfold reset_body. set (s0 := s <| control := _ |>).
  assert (systick_mid now s0) as Hm0.
  { destruct Hm as [Hp Hu [Hk1 Hk2 Hk3]]. split; [done|simpl; by destruct (clock_has_source _)|].
    split; [done|done|]. simpl. by intros ->. }
  destruct (stop_ok now s0 Hm0 Hr Hn) as (p & H1 & Hm1 & He1). rewrite H1, bind_Ok.
  destruct (set_count_ok now _ Hm1) as (p2 & H2 & Hm2 & He2). rewrite H2, bind_Ok.
  destruct (set_limit_ok now 0 _ Hm2) as (p3 & H3 & Hm3 & He3 & _); [lia|]. rewrite H3, bind_Ok.
  destruct (set_period_from_clock_ok now _ Hm3) as (p4 & H4 & Hm4 & _); [|done|].
  - intros He. simpl in *. congruence.
  - rewrite H4. by eauto.
Qed.

(** ** Expiry *)

(** The count flag is set, and the exception pended if asked for. *)
Definition tick_effect s : SysTickState :=
  let s := s <| control ::= fun c : Z => Z.lor c SYSTICK_COUNTFLAG |> in
  if has (control s) SYSTICK_TICKINT then s <| irq ::= qemu_irq_pulse |> else s.

Lemma timer_tick_eq now s :
  systick_timer_tick limited now s =
    if limit (ptimer s) =? 0 then on_ptimer (ptimer_stop limited now) (tick_effect s) else Ok (tick_effect s).
Proof.
  unfold systick_timer_tick, tick_effect, ptimer_get_limit. cbv zeta.
  by destruct (has (control _) SYSTICK_TICKINT).
Qed.

Lemma ptimer_tick_effect s : ptimer (tick_effect s) = ptimer s.
Proof. unfold tick_effect. cbv zeta. by case_if. Qed.

Lemma tick_effect_set p s : tick_effect (set_ptimer p s) = set_ptimer p (tick_effect s).
Proof. unfold tick_effect. cbv zeta. simpl. by case_if. Qed.

Lemma set_set_ptimer p q s : set_ptimer p (set_ptimer q s) = set_ptimer p s.
Proof. done. Qed.

(** The ptimer after the timer has expired with a reload value. *)
Definition reloaded (d : Z) (p : ptimer_state) : ptimer_state :=
  p <| delta := limit p |> <| last_event := next_event p |>
    <| next_event := next_event p + event_time limited d p |>
    <| timer := [((), next_event p + event_time limited d p)] |> <| need_reload := false |>.

Definition stopped (p : ptimer_state) : ptimer_state :=
  p <| delta := 0 |> <| timer := [] |> <| enabled := 0 |> <| need_reload := false |>.

Definition expired_state s : SysTickState :=
  let p := ptimer s in
  if limit p =? 0 then set_ptimer (stopped p) (tick_effect s)
  else if delta p =? 0 then set_ptimer (reloaded (limit p) p) s
  else set_ptimer (reloaded (limit p + 1) p) (tick_effect s).

(** The commit at the end of a tick has nothing to reload. *)
Lemma commit_nothing fuel now p s :
  in_transaction p = true → need_reload p = false →
  commit fuel now (set_ptimer p s) = Ok (Some (set_ptimer (p <| in_transaction := false |>) s)).
Proof.
  intros Hin Hnr. unfold commit, ptimer_transaction_commit. change (ptimer (set_ptimer p s)) with p. rewrite Hin.
  unfold assert_c. rewrite bind_Ok.
  assert (commit_loop limited ptimer set_ptimer (systick_timer_tick limited) fuel now (set_ptimer p s) =
    Ok (Some (set_ptimer p s))) as -> by (destruct fuel; cbn [commit_loop]; change (ptimer (set_ptimer p s)) with p; by rewrite Hnr).
  done.
Qed.

(** The ptimer as the tick's reload sees it. *)
Definition in_tick (p : ptimer_state) : ptimer_state :=
  p <| timer := [] |> <| in_transaction := true |> <| need_reload := false |> <| delta := limit p |>.

Lemma expire_reload now s adj :
  core (ptimer s) → enabled (ptimer s) = 1 → 1 ≤ period (ptimer s) → 0 ≤ next_event (ptimer s) < 2 ^ 62 →
  limit (ptimer s) ≠ 0 → adj = DELTA_NO_ADJUST ∨ adj = DELTA_ADJUST →
  let p := ptimer s in let d := if adj =? DELTA_ADJUST then limit p + 1 else limit p in
  ptimer_reload limited ptimer set_ptimer (systick_timer_tick limited) now adj (set_ptimer (in_tick p) s) =
    Ok (set_ptimer ((reloaded d p) <| in_transaction := true |>) s).
Proof.
  intros Hc He Hp Hn Hl Hadj. cbv zeta. unfold ptimer_reload. change (ptimer (set_ptimer ?p ?s)) with p.
  change (delta (in_tick (ptimer s))) with (limit (ptimer s)). destruct (Z.eqb_spec (limit (ptimer s)) 0); [done|].
  cbn [andb]. unfold mret at 1, outcome_ret at 1. rewrite bind_Ok. change (ptimer (set_ptimer ?p ?s)) with p.
  pose proof (co_limit _ Hc) as Hlim.
  assert (core (in_tick (ptimer s))) as Hct by (destruct Hc; split; simpl; first [done|by auto|lia]).
  assert (counts adj (in_tick (ptimer s)) = if adj =? DELTA_ADJUST then limit (ptimer s) + 1 else limit (ptimer s)) as Hcn.
  { unfold counts. destruct Hadj as [->| ->]; simpl.
    - destruct (Z.eqb_spec (limit (ptimer s)) 0); [done|reflexivity].
    - unfold DELTA_ADJUST. destruct (Z.eqb_spec (limit (ptimer s) + 1) 0); [lia|reflexivity]. }
  rewrite (reload_timer_spec limited adj (in_tick (ptimer s)) Hct He Hp);
    [|destruct Hadj as [->| ->]; unfold DELTA_ADJUST, DELTA_NO_ADJUST; lia|done|rewrite Hcn; case_if; lia].
  rewrite Hcn. match goal with |- context [if ?d =? 0 then _ else _] => destruct (Z.eqb_spec d 0) end.
  { exfalso. revert e. case_if; lia. }
  done.
Qed.

Lemma reload_stopped p :
  policy_mask p = systick_policy → delta p = 0 → enabled p = 0 → 1 ≤ period p →
  reload_timer limited DELTA_NO_ADJUST p = p.
Proof.
  intros Hpol Hd He Hp.
  assert (reload_delta DELTA_NO_ADJUST p = 0) as Hr.
  { unfold reload_delta, policy. rewrite Hpol, Hd, He.
    change (negb (DELTA_NO_ADJUST =? DELTA_NO_ADJUST)) with false. rewrite !andb_false_r. reflexivity. }
  unfold reload_timer, policy. rewrite Hpol.
  change (has systick_policy PTIMER_POLICY_NO_IMMEDIATE_RELOAD) with true. cbn [negb]. rewrite andb_false_r.
  destruct (Z.eqb_spec (period p) 0); [lia|]. cbn [andb]. by rewrite Hr, He.
Qed.

(** With no reload value the callback stops the timer. *)
Lemma expire_disabled fuel now s :
  core (ptimer s) → enabled (ptimer s) = 1 → 1 ≤ period (ptimer s) → limit (ptimer s) = 0 →
  in_transaction (ptimer s) = false →
  (s ← ptimer_reload limited ptimer set_ptimer (systick_timer_tick limited) now DELTA_NO_ADJUST
         (set_ptimer (in_tick (ptimer s)) s);
   s ← (if DELTA_NO_ADJUST =? DELTA_ADJUST then systick_timer_tick limited now s else mret s);
   commit fuel now s) = Ok (Some (set_ptimer (stopped (ptimer s)) (tick_effect s))).
Proof.
  intros Hc He Hp Hl Hin. set (p := ptimer s) in *.
  assert (core (in_tick p)) as Hct by (destruct Hc; split; simpl; first [done|by auto|lia]).
  assert (ptimer_stop limited now (in_tick p) = Ok ((stopped p) <| in_transaction := true |>)) as Hstop.
  { unfold ptimer_stop, ptimer_get_count. simpl. rewrite He, Hl. reflexivity. }
  unfold ptimer_reload. change (ptimer (set_ptimer ?q ?s)) with q.
  change (delta (in_tick p)) with (limit p). rewrite Hl.
  destruct (policies (in_tick p) Hct) as (_ & _ & -> & _ & _ & _).
  change ((0 =? 0) && negb false && negb ((DELTA_NO_ADJUST =? 0) && _)) with true. cbv iota.
  unfold ptimer_trigger. rewrite timer_tick_eq. change (limit (ptimer (set_ptimer (in_tick p) s))) with (limit p).
  rewrite Hl. change (0 =? 0) with true. cbv iota. rewrite tick_effect_set.
  erewrite on_ptimer_ok by exact Hstop. rewrite set_set_ptimer, !bind_Ok.
  change (ptimer (set_ptimer ?q ?s)) with q. rewrite set_set_ptimer.
  change (DELTA_NO_ADJUST =? DELTA_ADJUST) with false. cbv iota. unfold mret, outcome_ret. rewrite !bind_Ok.
  assert (reload_timer limited DELTA_NO_ADJUST ((stopped p) <| in_transaction := true |>) =
    (stopped p) <| in_transaction := true |>) as ->.
  { apply reload_stopped; [apply Hc|reflexivity|reflexivity|exact Hp]. }
  rewrite commit_nothing by done. unfold stopped. by rewrite <- Hin.
Qed.

Lemma expire_spec fuel now s :
  systick_wf now s → enabled (ptimer s) = 1 → 0 ≤ now < 2 ^ 62 → next_event (ptimer s) ≤ now →
  systick_expire limited fuel now s = Ok (Some (expired_state s)).
Proof.
  intros [[Hc Hin Ho Hon] _ _] He Hnow Hnx. destruct (Hon He) as [Hp Hru].
  destruct (running_next limited now _ Hc Hp Hru ltac:(lia)) as [Hl _].
  set (p := ptimer s) in *.
  set (p0 := p <| timer := [] |> <| in_transaction := true |> <| need_reload := false |>).
  assert (systick_expire limited fuel now s =
    let adj := if (delta p =? 0) || (limit p =? 0) then DELTA_NO_ADJUST else DELTA_ADJUST in
    s ← ptimer_reload limited ptimer set_ptimer (systick_timer_tick limited) now adj (set_ptimer (in_tick p) s);
    s ← (if adj =? DELTA_ADJUST then systick_timer_tick limited now s else mret s);
    commit fuel now s) as ->.
  { unfold systick_expire, ptimer_tick, ptimer_transaction_begin.
    change (in_transaction (ptimer (s <| ptimer ::= fun p => p <| timer := [] |> |>))) with (in_transaction p).
    rewrite Hin. unfold assert_c. cbn [negb]. rewrite !bind_Ok. cbv zeta.
    change (enabled _) with (enabled p) at 1. rewrite He. change (1 =? 2) with false. cbv iota.
    change (policy _ PTIMER_POLICY_NO_IMMEDIATE_TRIGGER) with (policy p PTIMER_POLICY_NO_IMMEDIATE_TRIGGER).
    destruct (policies p Hc) as (_ & _ & -> & _). reflexivity. }
  cbv zeta. unfold expired_state. fold p.
  destruct (Z.eqb_spec (limit p) 0) as [El|El]; [rewrite orb_true_r|rewrite orb_false_r].
  - by apply expire_disabled.
  - assert (0 ≤ next_event p < 2 ^ 62) as Hn62 by lia.
    destruct (Z.eqb_spec (delta p) 0) as [Ed|Ed].
    + rewrite (expire_reload now s) by (done || by left). rewrite bind_Ok.
      change (DELTA_NO_ADJUST =? DELTA_ADJUST) with false. cbv iota. unfold mret at 1, outcome_ret at 1.
      rewrite bind_Ok, commit_nothing by done. unfold reloaded. by rewrite <- Hin.
    + rewrite (expire_reload now s) by (done || by right). rewrite bind_Ok.
      change (DELTA_ADJUST =? DELTA_ADJUST) with true. cbv iota. rewrite timer_tick_eq.
      change (limit (ptimer (set_ptimer _ s))) with (limit p). destruct (Z.eqb_spec (limit p) 0); [done|].
      rewrite bind_Ok, tick_effect_set, commit_nothing by done. unfold reloaded. by rewrite <- Hin.
Qed.

Lemma tick_effect_ok s :
  is_u32 (control s) → clocks_ok s → is_u32 (control (tick_effect s)) ∧ clocks_ok (tick_effect s).
Proof.
  intros Hu [Hk1 Hk2 Hk3].
  assert (is_u32 (Z.lor (control s) SYSTICK_COUNTFLAG)) by (apply lor_range; [lia|done|closed_range]).
  assert (Z.testbit (control s) 2 = true → Z.testbit (Z.lor (control s) SYSTICK_COUNTFLAG) 2 = true)
    by (intros H2; by rewrite Z.lor_spec, H2).
  unfold tick_effect. cbv zeta. case_if; (split; [done|]; split; simpl; auto).
Qed.

Lemma reloaded_settled now d p :
  core p → enabled p = 1 → 1 ≤ period p → in_transaction p = false → limit p ≠ 0 →
  d = limit p ∨ d = limit p + 1 → 0 ≤ next_event p ≤ now → settled limited now (reloaded d p).
Proof.
  intros Hc He Hp Hin Hl Hd Hn. pose proof (co_limit p Hc).
  split; [destruct Hc; split; simpl; first [done|by eauto|lia]|done|simpl; by rewrite He|].
  intros _. split; [done|]. split; [done|simpl; lia|]. exists d. split; [lia|]. done.
Qed.

Lemma expired_ok now s :
  systick_wf now s → enabled (ptimer s) = 1 → 0 ≤ now < 2 ^ 62 → next_event (ptimer s) ≤ now →
  systick_wf now (expired_state s).
Proof.
  intros [[Hc Hin Ho Hon] Hu Hk] He Hnow Hnx. destruct (Hon He) as [Hp Hru].
  destruct (running_next limited now _ Hc Hp Hru ltac:(lia)) as [Hl _].
  destruct (tick_effect_ok s Hu Hk) as [Hu' [Hk1' Hk2' Hk3']]. destruct Hk as [Hk1 Hk2 Hk3].
  unfold expired_state. cbv zeta. destruct (Z.eqb_spec (limit (ptimer s)) 0) as [El|El].
  - split; [|done|by split]. destruct Hc. by split; [split; simpl; first [done|by auto|lia]|..].
  - destruct (delta (ptimer s) =? 0); (split; [|done|by split]); apply reloaded_settled; auto; lia.
Qed.

(** ** Everything that can happen to the device *)

Inductive systick_op :=
| OpRead (addr : Z)
| OpWrite (addr value : Z)
| OpExpire              (* the ptimer's deadline is reached *)
| OpReset
| OpCpuClock (c : Clock R)  (* an input clock has changed *)
| OpRefClock (c : Clock R).

Definition privileged_access : MemTxAttrs := mk_attrs false false.

Definition run_op (now : Z) (op : systick_op) s : outcome (option SysTickState) :=
  match op with
  | OpRead addr =>
    r ← systick_read limited now addr privileged_access s; mret (option_map fst r)
  | OpWrite addr value =>
    r ← systick_write limited 1 now addr value privileged_access s;
    mret match r with Some (Some s) => Some s | _ => None end
  | OpExpire => systick_expire limited 1 now s
  | OpReset => systick_reset limited 1 now s
  | OpCpuClock c => systick_cpuclk_update limited 1 now (s <| cpuclk := c |>)
  | OpRefClock c => systick_refclk_update limited 1 now (s <| refclk := c |>)
  end.

(** A guest that does not change the clock and stop the timer in one write, a
    deadline that has been reached, clocks in their range. *)
Definition op_allowed (now : Z) (op : systick_op) s : Prop :=
  match op with
  | OpWrite addr value => addr = 0 → switch_and_stop (control s) value = false
  | OpExpire => enabled (ptimer s) = 1 ∧ next_event (ptimer s) ≤ now
  | OpCpuClock c => clk_ok c
  | OpRefClock c => clk_ok c ∧ clock_has_source c = true ∧ clock_has_source (refclk s) = true
  | _ => True
  end.

Lemma switch_forced (c value : Z) :
  Z.testbit c 2 = true → switch_and_stop c value = false → switch_and_stop c (Z.lor value SYSTICK_CLKSOURCE) = false.
Proof.
  intros H2 _. unfold switch_and_stop, SYSTICK_CLKSOURCE. rewrite !has_bit by done.
  by rewrite Z.lxor_spec, Z.lor_spec, H2, bit_spec, orb_true_r.
Qed.

Lemma read_ok now addr s :
  systick_wf now s → now < 2 ^ 62 →
  ∃ s' v, systick_read limited now addr privileged_access s = Ok (Some (s', v)) ∧ systick_wf now s'.
Proof.
  intros Hs Hn. unfold systick_read. change (user privileged_access) with false. cbv iota.
  destruct (addr =? 0x0).
  { eexists _, _. split; [reflexivity|]. destruct Hs as [Hp Hu [Hk1 Hk2 Hk3]].
    split; [done|simpl; apply land_range; [lia|done]|]. split; [done|done|]. simpl. intros Hf.
    by rewrite Z.land_spec, (Hk3 Hf). }
  destruct (addr =? 0x4); [by eauto|]. destruct (addr =? 0x8).
  { destruct (get_count_ok limited now (ptimer s)) as (c & Hc & _); [apply Hs|done|apply Hs|].
    rewrite Hc, bind_Ok. by eauto. }
  destruct (addr =? 0xc); by eauto.
Qed.

Lemma write_ok now addr value s :
  systick_wf now s → 0 ≤ now < 2 ^ 62 → (addr = 0 → switch_and_stop (control s) value = false) →
  ∃ s', systick_write limited 1 now addr value privileged_access s = Ok (Some (Some s')) ∧ systick_wf now s'.
Proof.
  intros Hs Hn Hsw. unfold systick_write. change (user privileged_access) with false. cbv iota.
  pose proof (sw_clocks _ _ Hs) as [_ _ Hforced].
  destruct (Z.eqb_spec addr 0x0) as [Ea|_].
  { set (v := if negb (clock_has_source (refclk s)) then _ else value). cbv zeta.
    destruct (transaction_ok 0 now (write_control limited now v) s Hs Hn) as (s' & H & Hw).
    - intros s1 Hm Hr E1. apply write_control_ok; [done|done|lia|..]; rewrite E1; simpl; unfold v.
      + intros ->. cbn [negb]. unfold SYSTICK_CLKSOURCE. by rewrite Z.lor_spec, bit_spec, orb_true_r.
      + destruct (clock_has_source (refclk s)); cbn [negb]; [by apply Hsw|].
        apply switch_forced; [by apply Hforced|by apply Hsw].
    - rewrite H, bind_Ok. by eauto. }
  destruct (addr =? 0x4).
  { destruct (transaction_ok 0 now (on_ptimer (ptimer_set_limit (Z.land value 0xffffff) false)) s Hs Hn) as (s' & H & Hw).
    - intros s1 Hm Hr _. destruct (set_limit_ok now (Z.land value 0xffffff) s1 Hm) as (p & Hp & Hm' & _);
        [by apply (land_range_r 24)|]. by eauto.
    - rewrite H, bind_Ok. by eauto. }
  destruct (addr =? 0x8); [|by eauto].
  destruct (transaction_ok 0 now (write_current limited now) s Hs Hn) as (s' & H & Hw).
  - intros s1 Hm Hr _. apply write_current_ok; [done|done|lia].
  - rewrite H, bind_Ok. by eauto.
Qed.

Lemma clock_change_ok now s per :
  systick_wf now s → 0 ≤ now < 2 ^ 62 → 2 ^ 32 ≤ per < 2 ^ 64 →
  ∃ s', transaction limited 1 now (on_ptimer (ptimer_set_period_from_clock limited now per 1)) s = Ok (Some s') ∧
    systick_wf now s'.
Proof.
  intros Hs Hn Hper. apply transaction_ok; [done|done|]. intros s1 Hm Hr _.
  destruct (set_period_ok now per s1 Hm Hr ltac:(lia) Hper) as (p & H & Hm' & _). by eauto.
Qed.

Lemma run_op_ok now op s :
  systick_wf now s → 0 ≤ now < 2 ^ 62 → op_allowed now op s →
  ∃ s', run_op now op s = Ok (Some s') ∧ systick_wf now s'.
Proof.
  intros Hs Hn Ha. destruct op as [addr|addr value| | |c|c]; simpl in Ha; unfold run_op.
  - destruct (read_ok now addr s Hs ltac:(lia)) as (s' & v & H & Hw). rewrite H. by eauto.
  - destruct (write_ok now addr value s Hs Hn Ha) as (s' & H & Hw). rewrite H. by eauto.
  - destruct Ha as [He Hd]. rewrite (expire_spec 1 now s Hs He Hn Hd). eexists. split; [done|]. by apply expired_ok.
  - apply transaction_ok; [done|done|]. intros s1 Hm Hr _. apply reset_body_ok; [done|done|lia].
  - apply clock_change_ok; [|done|done]. destruct Hs as [? ? []]. by split; [..|split].
  - destruct Ha as (Hc & H1 & H2). apply clock_change_ok; [|done|done].
    destruct Hs as [? ? []]. split; [done..|]. split; [done|done|]. simpl. by rewrite H1.
Qed.

(** Reset sets the control register before anything looks at it. *)
Lemma reset_any_control now (x y : Z) p irq (ref cpu : Clock R) :
  systick_reset limited 1 now (mk_systick x p irq ref cpu) = systick_reset limited 1 now (mk_systick y p irq ref cpu).
Proof.
  unfold systick_reset, transaction, on_ptimer, ptimer_transaction_begin, assert_c.
  change (ptimer (mk_systick _ p irq ref cpu)) with p. by destruct (in_transaction p).
Qed.

Lemma run_reset now s : run_op now OpReset s = systick_reset limited 1 now s.
Proof. reflexivity. Qed.

Inductive systick_reach : Z → SysTickState → Prop :=
| reach_reset now irq ref cpu s0 s :
    0 ≤ now < 2 ^ 62 → clk_ok cpu → (clock_has_source ref = true → clk_ok ref) →
    systick_realize irq ref cpu = Ok (Some s0) → run_op now OpReset s0 = Ok (Some s) → systick_reach now s
| reach_op now now' op s s' :
    systick_reach now s → now ≤ now' < 2 ^ 62 → op_allowed now' op s → run_op now' op s = Ok (Some s') →
    systick_reach now' s'.

(** The ptimer that realize creates. *)
Definition fresh_ptimer : ptimer_state := mk_ptimer 0 0 0 0 0 0 0 systick_policy [] false false.

Lemma realize_spec irq (ref cpu : Clock R) s0 :
  systick_realize irq ref cpu = Ok (Some s0) → s0 = mk_systick 0 fresh_ptimer irq ref cpu.
Proof.
  unfold systick_realize. assert (ptimer_init systick_policy = Ok fresh_ptimer) as -> by (vm_compute; reflexivity).
  rewrite bind_Ok. destruct (clock_has_source cpu); [|done]. by intros [= <-].
Qed.

Lemma fresh_settled now : settled limited now fresh_ptimer.
Proof. split; [split; simpl; first [done|by auto|lia]|done|done|done]. Qed.

Lemma reset_wf now irq ref cpu s :
  0 ≤ now < 2 ^ 62 → clk_ok cpu → (clock_has_source ref = true → clk_ok ref) →
  systick_reset limited 1 now (mk_systick 0 fresh_ptimer irq ref cpu) = Ok (Some s) → systick_wf now s.
Proof.
  intros Hn Hcpu Href Hrun. rewrite (reset_any_control now 0 SYSTICK_CLKSOURCE) in Hrun.
  destruct (run_op_ok now OpReset (mk_systick SYSTICK_CLKSOURCE fresh_ptimer irq ref cpu))
    as (s' & Hs' & Hw); [|done|done|].
  - split; [apply fresh_settled|done|by split].
  - rewrite run_reset, Hrun in Hs'. injection Hs' as <-. exact Hw.
Qed.

Lemma reach_time now s : systick_reach now s → 0 ≤ now < 2 ^ 62.
Proof. induction 1; lia. Qed.

Lemma reach_wf now s : systick_reach now s → systick_wf now s.
Proof.
  induction 1 as [now irq ref cpu s0 s Hn Hcpu Href Hre Hrun|now now' op s s' Hr IH Hn Ha Hrun].
  - apply realize_spec in Hre as ->. rewrite run_reset in Hrun.
    exact (reset_wf now irq ref cpu s Hn Hcpu Href Hrun).
  - pose proof (reach_time _ _ Hr) as Ht.
    destruct (run_op_ok now' op s) as (s1 & Hs1 & Hw); [apply (systick_later now); [done|lia]|lia|done|].
    assert (Some s1 = Some s') as [= ->] by congruence. done.
Qed.

(** C27.  The timer never fails.  In every state SysTick is brought to by
    privileged register accesses, its deadlines, resets and changes of its
    clocks (of one nanosecond to four seconds), as long as no write changes the
    clock and stops the timer at once: every such operation returns, with no
    assertion failing and no division by zero, and one round of the commit loop
    is enough; the counter can be read and is at most [2 ^ 24]; and the host
    timer is armed, for the next event, exactly when the ptimer is enabled. *)
Theorem systick_operations_total now s :
  systick_reach now s →
  (∀ now' op, now ≤ now' < 2 ^ 62 → op_allowed now' op s → ∃ s', run_op now' op s = Ok (Some s')) ∧
  (∃ c : Z, ptimer_get_count limited now (ptimer s) = Ok c ∧ 0 ≤ c ≤ 2 ^ 24) ∧
  0 ≤ limit (ptimer s) < 2 ^ 24 ∧
  timer (ptimer s) = (if enabled (ptimer s) =? 0 then [] else [((), next_event (ptimer s))]).
Proof.
  intros Hr. pose proof (reach_time _ _ Hr) as Ht. pose proof (reach_wf _ _ Hr) as Hs. split_and!.
  - intros now' op Hn Ha. destruct (run_op_ok now' op s) as (s' & H & _);
      [apply (systick_later now); [done|lia]|lia|done|]. by exists s'.
  - apply get_count_ok; [apply Hs|lia|apply Hs].
  - apply Hs.
  - apply Hs.
  - destruct Hs as [[Hc _ Hoff Hon] _ _]. destruct (co_enabled _ Hc) as [He|He]; rewrite He; [by apply Hoff|].
    destruct (Hon He) as [_ []]. done.
Qed.

(** C29.  The current value register is exact.  While the timer runs between two
    events, less than [2 ^ 32] nanoseconds before the next one and not rate
    limited, the counter computed by scaled 64-bit arithmetic is the number of
    clock periods begun and not yet ended before the event, computed exactly in
    fixed point; except that it reads zero in the extra period after a tick. *)
Theorem systick_count_exact now s :
  systick_reach now s → let p := ptimer s in let P := raw (period p) (period_frac p) in
  let left := (next_event p - now) * 2 ^ 32 in
  enabled p = 1 → delta p ≠ 0 → last_event p < now < next_event p → next_event p - now < 2 ^ 32 →
  too_fast limited (delta p) (period p) = false →
  ∃ c : Z, ptimer_get_count limited now p = Ok c ∧
    if (delta p =? limit p) && (left / P =? limit p) then c = 0 else (c - 1) * P ≤ left < c * P.
Proof.
  intros Hr p P left He Hd Hl Hb Hf. pose proof (reach_time _ _ Hr) as Ht.
  destruct (reach_wf _ _ Hr) as [[Hc _ _ Hon] _ _]. destruct (Hon He) as [Hp Hru].
  destruct (running_next limited now p Hc Hp Hru ltac:(lia)) as [Hln Hnx].
  destruct (get_count_unfold limited now p Hc He Hd Hp) as (q & Hq & _ & _ & Hex); [lia..|].
  unfold count_period, count_frac in Hex. rewrite Hf in Hex. fold P left in Hex. specialize (Hex Hb). subst q.
  eexists. split; [exact Hq|]. clear Hq. unfold wrapping, rounded.
  destruct (Z.eqb_spec now (last_event p)); [lia|].
  destruct (_ && _); [done|].
  pose proof (co_frac p Hc) as Hfr. change (1 ≤ period p) in Hp.
  assert (0 < P) as HP by (unfold P, raw, in_range in *; lia).
  pose proof (Z.mul_div_le left P HP). pose proof (Z.mul_succ_div_gt left P HP).
  split; [replace (left / P + 1 - 1) with (left / P) by lia|]; lia.
Qed.

(** ** Ticks *)

Fixpoint expire_all (ts : list Z) s : outcome (option SysTickState) :=
  match ts with
  | [] => mret (Some s)
  | t :: ts =>
    r ← systick_expire limited 1 t s;
    match r with Some s => expire_all ts s | None => mret None end
  end.

(** The times at which the main loop runs the timer: none before the deadline
    of its turn. *)
Fixpoint on_time (deadline step now : Z) (ts : list Z) : Prop :=
  match ts with
  | [] => True
  | t :: ts => deadline ≤ t ∧ now ≤ t < 2 ^ 62 ∧ on_time (deadline + step) step t ts
  end.

Lemma reload_keeps_time d d' p : event_time limited d' (reloaded d p) = event_time limited d' p.
Proof. done. Qed.

Lemma tick_effect_control s :
  control (tick_effect s) = Z.lor (control s) SYSTICK_COUNTFLAG ∧
  irq (tick_effect s) = if Z.testbit (control s) 1 then qemu_irq_pulse (irq s) else irq s.
Proof.
  unfold tick_effect, SYSTICK_TICKINT. cbv zeta. rewrite has_bit by done. simpl.
  rewrite Z.lor_spec. change (Z.testbit SYSTICK_COUNTFLAG 1) with false. rewrite orb_false_r. by case_if.
Qed.

Lemma ticks_run ts now s :
  systick_wf now s → enabled (ptimer s) = 1 → delta (ptimer s) ≠ 0 → limit (ptimer s) ≠ 0 → 0 ≤ now →
  let T := event_time limited (limit (ptimer s) + 1) (ptimer s) in
  on_time (next_event (ptimer s)) T now ts →
  ∃ s', expire_all ts s = Ok (Some s') ∧ enabled (ptimer s') = 1 ∧
    next_event (ptimer s') = next_event (ptimer s) + Z.of_nat (length ts) * T ∧
    timer (ptimer s') = [((), next_event (ptimer s'))] ∧
    irq s' = (if Z.testbit (control s) 1 then Nat.iter (length ts) qemu_irq_pulse (irq s) else irq s) ∧
    Z.testbit (control s') 16 = Z.testbit (control s) 16 || negb (Nat.eqb (length ts) 0).
Proof.
  revert now s. induction ts as [|t ts IH]; intros now s Hs He Hd Hl Hn0 T Hon.
  - exists s. split; [done|]. split; [done|]. split; [simpl; lia|]. split_and!.
    + destruct Hs as [[_ _ _ H] _ _]. destruct (H He) as [_ []]. done.
    + by case_if.
    + by rewrite orb_false_r.
  - destruct Hon as (Hdl & Ht & Hon). apply (systick_later now t) in Hs; [|lia].
    cbn [expire_all]. rewrite (expire_spec 1 t s Hs He ltac:(lia) Hdl), bind_Ok.
    pose proof (expired_ok t s Hs He ltac:(lia) Hdl) as Hs1.
    assert (expired_state s = set_ptimer (reloaded (limit (ptimer s) + 1) (ptimer s)) (tick_effect s)) as E1.
    { unfold expired_state. cbv zeta. by rewrite (proj2 (Z.eqb_neq _ _) Hl), (proj2 (Z.eqb_neq _ _) Hd). }
    rewrite E1 in Hs1 |- *. set (s1 := set_ptimer _ _) in *.
    destruct (tick_effect_control s) as [Hctl Hirq].
    destruct (IH t s1 Hs1 He Hl Hl ltac:(lia) Hon) as (s' & H & H1 & H2 & H3 & H4 & H5).
    exists s'. split; [exact H|]. split_and!; [done| |done| |].
    + rewrite H2. change (event_time limited (limit (ptimer s1) + 1) (ptimer s1)) with T.
      change (next_event (ptimer s1)) with (next_event (ptimer s) + T). cbn [length]. lia.
    + rewrite H4. change (control s1) with (control (tick_effect s)). change (irq s1) with (irq (tick_effect s)).
      rewrite Hctl, Hirq, Z.lor_spec. change (Z.testbit SYSTICK_COUNTFLAG 1) with false. rewrite orb_false_r.
      case_if; [|done]. cbn [length]. by rewrite Nat.iter_succ_r.
    + rewrite H5. change (control s1) with (control (tick_effect s)). rewrite Hctl, Z.lor_spec.
      change (Z.testbit SYSTICK_COUNTFLAG 16) with true. by rewrite !orb_true_r.
Qed.


End Device.
