(* ===== verification/SysTickBoard.v ===== *)
(** SysTick on this board: the clock tree that nxps32k3_board_init,
    nxps32k3_realize and armv7m_realize build, the timer of CPU 0 on it, and
    what a guest can do to it. *)

From S2P Require Import Prelude Irq Timer Clock Ptimer NvicRead SysTick SysTickSpec.

(** ** The clocks *)

Inductive cpu := Cpu0 | Cpu1 | Cpu2.
Inductive board_clock :=
| SYSCLK | McuSysclk | McuRefclk
| Armv7mCpuclk (i : cpu) | Armv7mRefclk (i : cpu)
| SystickCpuclk (i : cpu) | SystickRefclk (i : cpu).

#[export] Instance cpu_eq_dec : EqDecision cpu.
Proof. solve_decision. Defined.
#[export] Instance board_clock_eq_dec : EqDecision board_clock.
Proof. solve_decision. Defined.

Definition SYSCLK_FRQ : Z := 120000000.

(** The tree is at most four levels deep below a clock. *)
Definition clock_depth : nat := 5.

Abbreviation clock_world := (clocks (R := board_clock) * list (board_clock * ClockEvent))%type.

(** The clocks of the devices; only [systick_instance_init] registers callbacks,
    for the end of an update. *)
Definition new_clocks : clocks (R := board_clock) :=
  foldr (fun clk => clock_set_callback clk (clock_event_bit ClockUpdate)) (fun _ => clock_initfn)
    (i ← [Cpu0; Cpu1; Cpu2]; [SystickRefclk i; SystickCpuclk i]).

(** The clocks of one CPU: [nxps32k3_realize] connects the container's,
    [armv7m_realize] the timer's. *)
Definition connect_cpu (i : cpu) (w : clock_world) : outcome clock_world :=
  w ← clock_set_source clock_depth (Armv7mCpuclk i) McuSysclk w;
  w ← clock_set_source clock_depth (Armv7mRefclk i) McuRefclk w;
  w ← (if clock_has_source (w.1 (Armv7mRefclk i))
       then clock_set_source clock_depth (SystickRefclk i) (Armv7mRefclk i) w else mret w);
  clock_set_source clock_depth (SystickCpuclk i) (Armv7mCpuclk i) w.

(** The whole tree: the board sets and connects the system clock, the
    microcontroller divides it by eight for the reference clock. *)
Definition board_clock_tree : outcome clock_world :=
  let st := (clock_set_hz SYSCLK SYSCLK_FRQ new_clocks).1 in
  w ← clock_set_source clock_depth McuSysclk SYSCLK (st, []);
  r ← clock_set_mul_div McuRefclk 8 1 w.1;
  w ← clock_set_source clock_depth McuRefclk McuSysclk (r.1, w.2);
  w ← connect_cpu Cpu0 w;
  w ← connect_cpu Cpu1 w;
  connect_cpu Cpu2 w.

Definition board_clocks : clocks (R := board_clock) :=
  match board_clock_tree with Ok w => w.1 | Abort _ => new_clocks end.

Definition clock_height (c : board_clock) : nat :=
  match c with
  | SYSCLK => 4
  | McuSysclk => 3
  | McuRefclk => 2
  | Armv7mCpuclk _ | Armv7mRefclk _ => 1
  | SystickCpuclk _ | SystickRefclk _ => 0
  end.

Lemma board_clocks_wf : tree_wf clock_height board_clocks.
Proof.
  split.
  - assert (∀ p c, bool_decide (c ∈ children (board_clocks p)) =
      bool_decide (cl_source (board_clocks c) = Some p)) as H
      by (intros [| | |[]|[]|[]|[]] [| | |[]|[]|[]|[]]; vm_compute; reflexivity).
    intros p c. specialize (H p c). split; intros Hm.
    + apply (bool_decide_eq_true_1 (cl_source (board_clocks c) = Some p)). rewrite <- H. by apply bool_decide_eq_true_2.
    + apply (bool_decide_eq_true_1 (c ∈ children (board_clocks p))). rewrite H. by apply bool_decide_eq_true_2.
  - intros p c H. destruct c as [| | |[]|[]|[]|[]]; vm_compute in H; try discriminate H;
      injection H as <-; vm_compute; lia.
Qed.

Lemma board_clocks_consistent : consistent board_clocks.
Proof.
  intros c p H. destruct c as [| | |[]|[]|[]|[]]; vm_compute in H; try discriminate H;
    injection H as <-; vm_compute; reflexivity.
Qed.


(** ** The timer of CPU 0 *)

(** With the rate of timeouts limited, as in normal operation. *)
Abbreviation run := (run_op (R := board_clock) true).

Fixpoint run_ops (ops : list (Z * systick_op (R := board_clock))) (s : SysTickState)
  : outcome (option SysTickState) :=
  match ops with
  | [] => mret (Some s)
  | (t, op) :: ops =>
    r ← run t op s;
    match r with Some s => run_ops ops s | None => mret None end
  end.

Definition systick_new : SysTickState (R := board_clock) :=
  mk_systick 0 fresh_ptimer (Some []) (board_clocks (SystickRefclk Cpu0)) (board_clocks (SystickCpuclk Cpu0)).

Definition the_state (r : outcome (option (SysTickState (R := board_clock)))) : SysTickState :=
  match r with Ok (Some s) => s | _ => systick_new end.

(** After reset; and counting down from the largest reload value on the
    reference clock, the first reload done. *)
Definition systick0 : SysTickState := Eval vm_compute in the_state (run 0 OpReset systick_new).
Definition systick_set : SysTickState := Eval vm_compute in the_state (run 0 (OpWrite 0x4 0xffffff) systick0).
Definition systick_on : SysTickState := Eval vm_compute in the_state (run 0 (OpWrite 0x0 3) systick_set).
Definition systick_counting : SysTickState := Eval vm_compute in the_state (run 10000 OpExpire systick_on).

Lemma systick_new_realized :
  systick_realize (Some []) (board_clocks (SystickRefclk Cpu0)) (board_clocks (SystickCpuclk Cpu0)) =
    Ok (Some systick_new).
Proof. vm_compute. reflexivity. Qed.

Lemma systick0_reach : systick_reach true 0 systick0.
Proof.
  apply (reach_reset true 0 (Some []) (board_clocks (SystickRefclk Cpu0)) (board_clocks (SystickCpuclk Cpu0))
    systick_new systick0); [lia| | |exact systick_new_realized|].
  - split; vm_compute; congruence.
  - intros _. split; vm_compute; congruence.
  - vm_compute. reflexivity.
Qed.

Lemma systick_counting_reach : systick_reach true 10000 systick_counting.
Proof.
  apply (reach_op true 0 10000 OpExpire systick_on); [|lia|by split; vm_compute|vm_compute; reflexivity].
  apply (reach_op true 0 0 (OpWrite 0x0 3) systick_set); [|lia|by intros _; vm_compute|vm_compute; reflexivity].
  apply (reach_op true 0 0 (OpWrite 0x4 0xffffff) systick0); [|lia|done|vm_compute; reflexivity].
  exact systick0_reach.
Qed.

(** One microsecond into the countdown. *)
Lemma systick_counting_later : systick_reach true 11000 systick_counting.
Proof.
  apply (reach_op true 10000 11000 (OpRead 0x4) systick_counting); [exact systick_counting_reach|lia|done|].
  vm_compute. reflexivity.
Qed.

Lemma systick_operations_total_witness :
  ∃ s', run 20000 (OpWrite 0x8 0) systick_counting = Ok (Some s').
Proof.
  destruct (systick_operations_total true 10000 systick_counting systick_counting_reach) as (H & _).
  apply H; [lia|]. done.
Defined.

Lemma systick_count_exact_witness :
  ∃ c : Z, ptimer_get_count true 11000 (ptimer systick_counting) = Ok c ∧
    (c - 1) * (8 * CLOCK_PERIOD_FROM_HZ SYSCLK_FRQ) ≤ (next_event (ptimer systick_counting) - 11000) * 2 ^ 32.
Proof.
  destruct (systick_count_exact true 11000 systick_counting systick_counting_later) as (c & H & Hc).
  - reflexivity.
  - vm_compute. congruence.
  - split; vm_compute; reflexivity.
  - vm_compute. reflexivity.
  - vm_compute. reflexivity.
  - exists c. split; [exact H|]. exact (proj1 Hc).
Defined.


(** ** Changing the clock and stopping at once *)

(** Stopping in the write that changes the clock reads the counter of the old
    schedule with the new period, so that from the reference to the CPU clock
    it is multiplied by eight: a guest that does so again and again (control
    register values 4, then 1 to run on the reference clock) gets a counter
    beyond [2 ^ 58].  At the times given, what the last such write divides by
    is zero. *)
Definition switching : list (Z * systick_op (R := board_clock)) :=
  (fun '(t, v) => (t, OpWrite 0x0 v)) <$>
  [ (149821949, 4); (149821950, 1); (149821999, 4); (149822000, 1); (149822063, 4); (149822064, 1);
    (149822093, 4); (149822094, 1); (149822133, 4); (149822134, 1); (149822200, 4); (149822201, 1);
    (149822218, 4); (149822219, 1); (149822268, 4); (149822269, 1); (149822276, 4); (149822277, 1);
    (149822335, 4); (149822336, 1); (149822354, 4); (149822355, 1); (149822420, 4); (149822421, 5) ].

(** Times do not go back, the timer expires only at its deadline, and nothing
    else happens past a deadline. *)
Fixpoint timely (now : Z) (ops : list (Z * systick_op (R := board_clock))) (s : SysTickState) : bool :=
  match ops with
  | [] => true
  | (t, op) :: ops =>
    (now <=? t) &&
    (match op with
     | OpExpire => (enabled (ptimer s) =? 1) && (next_event (ptimer s) =? t)
     | _ => (enabled (ptimer s) =? 0) || (t <? next_event (ptimer s))
     end) &&
    timely t ops (the_state (run t op s))
  end.

(** C39.  A guest can make the emulator divide by zero.  On this board, after
    the reload register is set and the timer started, the control register
    writes of [switching], within a sixth of a second after reset and with
    every deadline of the timer run on time, all return; and the write that
    follows, changing the clock and stopping the timer at once, divides by zero
    on the host. *)
Theorem systick_guest_division_by_zero :
  let before := [(0, OpWrite 0x4 0xffffff); (0, OpWrite 0x0 1); (10000, OpExpire)] ++ switching in
  let last := (149822423, OpWrite 0x0 0) in
  timely 0 (before ++ [last]) systick0 = true ∧
  (∃ s, run_ops before systick0 = Ok (Some s)) ∧
  run_ops (before ++ [last]) systick0 = Abort DivideByZero.
Proof.
  intros before last. split; [vm_compute; reflexivity|]. split; [|vm_compute; reflexivity].
  assert (match run_ops before systick0 with Ok (Some _) => true | _ => false end = true) as H
    by (vm_compute; reflexivity).
  destruct (run_ops before systick0) as [[s|]|]; [|done..]. by exists s.
Qed.
