(* ===== verification/NvicPrio.v ===== *)
(** The prioritization rule of the architecture (R_CQRV), as a specification of
    the cached state, and the proof that both versions of
    [nvic_recompute_state] implement it. *)

From S2P Require Import Prelude Irq NvicState NvicCore.

(** ** Well-formed controllers *)

(** Raw priorities: -4 to -1 are the fixed ones, 0 to 255 configurable. *)
Definition prio_ok (v : VecInfo) : Prop := -4 ≤ prio v < 256.

Record nvic_wf (s : NVICState) : Prop := {
  nwf_vectors : alen (vectors s) = NVIC_MAX_VECTORS;
  nwf_sec_vectors : alen (sec_vectors s) = NVIC_INTERNAL_VECTORS;
  nwf_itns : alen (itns s) = NVIC_MAX_VECTORS;
  nwf_num_irq : NVIC_FIRST_IRQ ≤ num_irq s ≤ NVIC_MAX_VECTORS;
  nwf_prio : ∀ i, prio_ok (vec s i);
  nwf_sec_prio : ∀ i, prio_ok (sec_vec s i);
  nwf_prigroup_ns : 0 ≤ ns (prigroup s) ≤ 7;
  nwf_prigroup_s : 0 ≤ sec (prigroup s) ≤ 7;
  nwf_prio_bits : 2 ≤ num_prio_bits s ≤ 8;
  nwf_reset : enabled (vec s ARMV7M_EXCP_RESET) = false;
  nwf_no_security : FEATURE_M_SECURITY (model_of s) = false →
    aircr_has s AIRCR_PRIS = false ∧ vectpending_is_s_banked s = false
}.

Lemma get_vec_prio s b i : nvic_wf s → prio_ok (get_vec s b i).
Proof. intros []. destruct b; simpl; auto. Qed.

Lemma prigroup_ok s b : nvic_wf s → 0 ≤ bget (prigroup s) b ≤ 7.
Proof. intros []. by destruct b. Qed.

(** ** Group priority and subpriority *)

(** Clearing and keeping the low bits of a small value. *)
Lemma land_high n x : 0 ≤ n ≤ 32 → 0 ≤ x < 2 ^ 32 →
  Z.land x (u32 (Z.shiftl (2 ^ 32 - 1) n)) = x - x mod 2 ^ n.
Proof.
  intros Hn Hx. assert (Z.land x (u32 (Z.shiftl (2 ^ 32 - 1) n)) = Z.ldiff x (Z.ones n)) as ->.
  { zbitwise. change (2 ^ 32 - 1) with (Z.ones 32).
    destruct (Z.ltb_spec i 32).
    - simpl. rewrite !Z.testbit_ones by lia.
      destruct (Z.leb_spec 0 (i - n)), (Z.ltb_spec (i - n) 32), (Z.leb_spec 0 i),
        (Z.ltb_spec i n); simpl; try lia; rewrite ?andb_true_r, ?andb_false_r; done.
    - simpl. rewrite andb_false_r, (testbit_above 32 x) by (done || lia). done. }
  rewrite Z.ldiff_ones_r by lia. rewrite Z.shiftl_mul_pow2, Z.shiftr_div_pow2 by lia.
  pose proof (Z.div_mod x (2 ^ n)). lia.
Qed.

Lemma land_low n x : 0 ≤ n ≤ 32 → 0 ≤ x < 2 ^ 32 →
  Z.land x (not32 (u32 (Z.shiftl (2 ^ 32 - 1) n))) = x mod 2 ^ n.
Proof.
  intros Hn Hx. rewrite <- Z.land_ones by lia. zbitwise. change (2 ^ 32 - 1) with (Z.ones 32).
  destruct (Z.ltb_spec i 32).
  - simpl. rewrite !Z.testbit_ones by lia.
    destruct (Z.leb_spec 0 (i - n)), (Z.ltb_spec (i - n) 32), (Z.leb_spec 0 i),
      (Z.ltb_spec i n); simpl; try lia; done.
  - simpl. rewrite andb_false_r, (testbit_above 32 x) by (done || lia). done.
Qed.

(** Bits of subpriority, and the two parts of a raw priority. *)
Definition subprio_bits (s : NVICState) (ts : bool) : Z := bget (prigroup s) ts + 1.

Lemma group_mask s ts p : nvic_wf s → 0 ≤ p < 512 →
  Z.land p (nvic_gprio_mask s ts) = p - p mod 2 ^ subprio_bits s ts ∧
  Z.land p (not32 (nvic_gprio_mask s ts)) = p mod 2 ^ subprio_bits s ts.
Proof.
  intros Hs Hp. apply (prigroup_ok s ts) in Hs. unfold nvic_gprio_mask, subprio_bits.
  split; [apply land_high|apply land_low]; lia.
Qed.

(** The powers of two a group boundary can be. *)
Lemma subprio_pow s ts : nvic_wf s →
  let w := 2 ^ subprio_bits s ts in
  (w = 2 ∨ w = 4 ∨ w = 8 ∨ w = 16 ∨ w = 32 ∨ w = 64 ∨ w = 128 ∨ w = 256).
Proof.
  intros Hs. apply (prigroup_ok s ts) in Hs. unfold subprio_bits.
  assert (∃ k, bget (prigroup s) ts = k ∧ 0 ≤ k ≤ 7) as (k & -> & Hk) by eauto.
  assert (k = 0 ∨ k = 1 ∨ k = 2 ∨ k = 3 ∨ k = 4 ∨ k = 5 ∨ k = 6 ∨ k = 7) as H by lia.
  destruct H as [->|[->|[->|[->|[->|[->|[->| ->]]]]]]]; simpl; auto 10.
Qed.

(** Case split on the width of the subpriority, leaving linear arithmetic. *)
Ltac group_cases s ts Hs :=
  destruct (subprio_pow s ts Hs) as [->|[->|[->|[->|[->|[->|[->| ->]]]]]]].


Lemma exc_group_prio_spec s p ts : nvic_wf s → 0 ≤ p < 256 →
  exc_group_prio s p ts =
    if negb ts && aircr_has s AIRCR_PRIS
    then (p - p mod 2 ^ subprio_bits s ts) / 2 + NVIC_NS_PRIO_LIMIT
    else p - p mod 2 ^ subprio_bits s ts.
Proof.
  intros Hs Hp. unfold exc_group_prio. destruct (Z.ltb_spec p 0); [lia|].
  rewrite (proj1 (group_mask s ts p Hs ltac:(lia))), Z.shiftr_div_pow2 by done. done.
Qed.

Lemma exc_group_prio_neg s p ts : p < 0 → exc_group_prio s p ts = p.
Proof. intros Hp. unfold exc_group_prio. by destruct (Z.ltb_spec p 0); [|lia]. Qed.

Lemma exc_group_prio_range s p ts : nvic_wf s → -4 ≤ p < 256 →
  (p < 0 ∧ exc_group_prio s p ts = p) ∨ (0 ≤ p ∧ 0 ≤ exc_group_prio s p ts < 256).
Proof.
  intros Hs Hp. destruct (Z.lt_ge_cases p 0).
  { left. by rewrite exc_group_prio_neg. }
  right. split; [done|]. rewrite exc_group_prio_spec by (done || lia).
  unfold NVIC_NS_PRIO_LIMIT. case_if; group_cases s ts Hs; euclid.
Qed.

Lemma exc_group_prio_mono s p q ts : nvic_wf s → -4 ≤ p ≤ q → q < 256 →
  exc_group_prio s p ts ≤ exc_group_prio s q ts.
Proof.
  intros Hs Hpq Hq. destruct (Z.lt_ge_cases p 0).
  - rewrite exc_group_prio_neg by done.
    destruct (exc_group_prio_range s q ts Hs); lia.
  - rewrite !exc_group_prio_spec by (done || lia). unfold NVIC_NS_PRIO_LIMIT.
    case_if; group_cases s ts Hs; euclid.
Qed.

(** ** Exceptions and their precedence *)

(** An exception with its bank: [true] for the Secure version of a banked
    exception. *)
Definition entry := (Z * bool)%type.

Definition exists_entry (s : NVICState) (e : entry) : Prop :=
  1 ≤ e.1 < num_irq s ∧
  (e.2 = true → exc_is_banked e.1 = true ∧ FEATURE_M_SECURITY (model_of s) = true).

Definition entry_vec (s : NVICState) (e : entry) : VecInfo := get_vec s e.2 e.1.
Definition ready (s : NVICState) (e : entry) : bool :=
  enabled (entry_vec s e) && pending (entry_vec s e).

Definition targets_secure (s : NVICState) (e : entry) : bool :=
  if e.2 then true else negb (exc_is_banked e.1) && targets_secure_of s e.1.

Definition group_prio (s : NVICState) (e : entry) : Z :=
  exc_group_prio s (prio (entry_vec s e)) (targets_secure s e).

(** Fixed (negative) priorities have no subpriority. *)
Definition sub_prio (s : NVICState) (e : entry) : Z :=
  if group_prio s e <? 0 then 0
  else prio (entry_vec s e) mod 2 ^ subprio_bits s (targets_secure s e).

(** Lowest group priority, then lowest subpriority, then lowest exception
    number, then the Secure version. *)
Definition precedes (s : NVICState) (e e' : entry) : Prop :=
  group_prio s e < group_prio s e' ∨
  group_prio s e = group_prio s e' ∧
  (sub_prio s e < sub_prio s e' ∨
   sub_prio s e = sub_prio s e' ∧
   (e.1 < e'.1 ∨ e.1 = e'.1 ∧ (e.2 = true ∨ e'.2 = false))).

(** The highest-precedence ready exception among those satisfying [C], with
    its group priority; none gives exception 0 at [NVIC_NOEXC_PRIO]. *)
Definition best_pending (s : NVICState) (C : entry → Prop) (e : entry) (p : Z) : Prop :=
  (e = (0, false) ∧ p = NVIC_NOEXC_PRIO ∧
     ∀ e', C e' → exists_entry s e' → ready s e' = false) ∨
  (C e ∧ exists_entry s e ∧ ready s e = true ∧ p = group_prio s e ∧
     ∀ e', C e' → exists_entry s e' → ready s e' = true → precedes s e e').

(** The lowest group priority of the active exceptions satisfying [C]. *)
Definition lowest_active (s : NVICState) (C : entry → Prop) (p : Z) : Prop :=
  (∀ e, C e → exists_entry s e → active (entry_vec s e) = true → p ≤ group_prio s e) ∧
  (p = NVIC_NOEXC_PRIO ∨
   ∃ e, C e ∧ exists_entry s e ∧ active (entry_vec s e) = true ∧ p = group_prio s e).

Definition everything (_ : entry) : Prop := True.

(** The cached fields of [s'] are right for the vectors of [s]. *)
Definition cache_spec (s s' : NVICState) : Prop :=
  best_pending s everything (vectpending s', vectpending_is_s_banked s') (vectpending_prio s') ∧
  lowest_active s everything (exception_prio s').

Lemma group_prio_range s e : nvic_wf s → -4 ≤ group_prio s e < 256.
Proof.
  intros Hs. unfold group_prio. pose proof (get_vec_prio s e.2 e.1 Hs) as Hp. red in Hp.
  destruct (exc_group_prio_range s _ (targets_secure s e) Hs Hp); unfold entry_vec in *; lia.
Qed.

Lemma precedes_refl s e : precedes s e e.
Proof. right. split; [done|]. right. split; [done|]. right. split; [done|]. destruct e.2; auto. Qed.

Lemma precedes_trans s e1 e2 e3 : precedes s e1 e2 → precedes s e2 e3 → precedes s e1 e3.
Proof.
  unfold precedes. destruct e1 as [i1 b1], e2 as [i2 b2], e3 as [i3 b3]. simpl.
  intros H12 H23. destruct b1, b2, b3; intuition lia || intuition congruence.
Qed.

(** ** The scan of a controller with the Security extension *)

Definition scan_inv (s : NVICState) (C : entry → Prop) (r : scan) : Prop :=
  best_pending s C (pend_irq r, pending_is_s_banked r) (pend_prio r) ∧
  (0 ≤ pend_prio r < 256 → pend_subprio r = sub_prio s (pend_irq r, pending_is_s_banked r)) ∧
  lowest_active s C (active_prio r).

Definition with_entry (C : entry → Prop) (e : entry) : entry → Prop :=
  fun e' => C e' ∨ e' = e.

(** Everything in [C] is scanned before [e]. *)
Definition scanned_before (C : entry → Prop) (e : entry) : Prop :=
  ∀ e', C e' → e'.1 < e.1 ∨ e'.1 = e.1 ∧ e'.2 = true ∧ e.2 = false.

Lemma best_pending_skip s C e e0 p :
  (exists_entry s e → ready s e = true → p ≠ NVIC_NOEXC_PRIO ∧ precedes s e0 e) →
  best_pending s C e0 p → best_pending s (with_entry C e) e0 p.
Proof.
  intros Hskip [(-> & -> & Hnone)|(HC & Hex & Hr & -> & Hall)].
  - left. split_and!; [done..|]. intros e' [HC| ->] Hex; [by apply Hnone|].
    destruct (ready s e) eqn:Hr; [|done]. by destruct (Hskip Hex eq_refl).
  - right. split_and!; try done; [by left|]. intros e' [HC'| ->] Hex' Hr'; [by apply Hall|].
    by apply Hskip.
Qed.

Lemma best_pending_take s C e e0 p :
  nvic_wf s → exists_entry s e → ready s e = true →
  (p ≠ NVIC_NOEXC_PRIO → precedes s e e0) →
  best_pending s C e0 p → best_pending s (with_entry C e) e (group_prio s e).
Proof.
  intros Hs Hex Hr Hbetter Hbest. right. split_and!; try done; [by right|].
  intros e' [HC| ->] Hex' Hr'; [|apply precedes_refl].
  destruct Hbest as [(_ & _ & Hnone)|(_ & _ & _ & -> & Hall)].
  - by rewrite Hnone in Hr'.
  - eapply precedes_trans; [|by apply Hall]. apply Hbetter.
    pose proof (group_prio_range s e0 Hs). unfold NVIC_NOEXC_PRIO. lia.
Qed.

Lemma lowest_active_add s C e p :
  nvic_wf s → lowest_active s C p → exists_entry s e →
  lowest_active s (with_entry C e)
    (if active (entry_vec s e) && (group_prio s e <? p) then group_prio s e else p).
Proof.
  intros Hs [Hlow Hin] Hex. destruct (active (entry_vec s e)) eqn:Ha; simpl.
  - destruct (Z.ltb_spec (group_prio s e) p).
    + split; [|right; exists e; unfold with_entry; auto].
      intros e' [HC| ->] Hex' Ha'; [|lia]. specialize (Hlow _ HC Hex' Ha'). lia.
    + split; [intros e' [HC| ->] Hex' Ha'; [by apply Hlow|done]|].
      destruct Hin as [|(e' & ? & ?)]; [by left|right; exists e'; unfold with_entry; auto].
  - split; [intros e' [HC| ->] Hex' Ha'; [by apply Hlow|congruence]|].
    destruct Hin as [|(e' & ? & ?)]; [by left|right; exists e'; unfold with_entry; auto].
Qed.

(** The priorities the scan compares are those of the specification. *)
Lemma scan_prio s i b : nvic_wf s →
  exc_group_prio s (prio (get_vec s b i))
    (if b then true else negb (exc_is_banked i) && targets_secure_of s i) = group_prio s (i, b).
Proof. done. Qed.

Lemma scan_subprio s i b : nvic_wf s → 0 ≤ group_prio s (i, b) →
  Z.land (prio (get_vec s b i)) (not32 (nvic_gprio_mask s
    (if b then true else negb (exc_is_banked i) && targets_secure_of s i))) = sub_prio s (i, b).
Proof.
  intros Hs Hg. unfold sub_prio. destruct (Z.ltb_spec (group_prio s (i, b)) 0); [lia|].
  pose proof (get_vec_prio s b i Hs) as Hp. red in Hp.
  unfold group_prio, entry_vec, targets_secure in *. simpl in *. apply group_mask; [done|].
  destruct (exc_group_prio_range s (prio (get_vec s b i))
    (if b then true else negb (exc_is_banked i) && targets_secure_of s i) Hs Hp); lia.
Qed.

(** What the comparison of the scan decides. *)
Definition scan_better (r : scan) (p subprio : Z) : bool :=
  (p <? pend_prio r) || ((p =? pend_prio r) && (0 <=? p) && (subprio <? pend_subprio r)).

Lemma scan_better_precedes s C r e sub :
  nvic_wf s → scan_inv s C r → scanned_before C e →
  (0 ≤ group_prio s e → sub = sub_prio s e) →
  let e0 := (pend_irq r, pending_is_s_banked r) in
  if scan_better r (group_prio s e) sub
  then pend_prio r ≠ NVIC_NOEXC_PRIO → precedes s e e0
  else pend_prio r ≠ NVIC_NOEXC_PRIO ∧ precedes s e0 e.
Proof.
  intros Hs (Hbest & Hsub & _) Hbef He e0. pose proof (group_prio_range s e Hs) as Hr.
  unfold scan_better. destruct Hbest as [(_ & Hp & _)|(HC & _ & _ & Hp & _)].
  { rewrite Hp. unfold NVIC_NOEXC_PRIO.
    destruct (Z.ltb_spec (group_prio s e) 0x100); simpl; [done|lia]. }
  fold e0 in HC, Hp, Hsub. pose proof (group_prio_range s e0 Hs) as Hr0. rewrite Hp in *.
  unfold precedes, NVIC_NOEXC_PRIO.
  destruct (Z.ltb_spec (group_prio s e) (group_prio s e0)); simpl; [auto|].
  destruct (Z.eqb_spec (group_prio s e) (group_prio s e0)) as [Heq|]; simpl; [|lia].
  destruct (Z.leb_spec 0 (group_prio s e)); simpl.
  - rewrite He, Hsub by lia. destruct (Z.ltb_spec (sub_prio s e) (sub_prio s e0)); [lia|].
    split; [lia|]. right. split; [done|].
    destruct (Z.eq_dec (sub_prio s e0) (sub_prio s e)) as [->|]; [right|left; lia].
    split; [done|]. destruct (Hbef e0 HC) as [?|(? & ? & ?)]; auto.
  - assert (sub_prio s e = 0 ∧ sub_prio s e0 = 0) as [-> ->].
    { unfold sub_prio. destruct (Z.ltb_spec (group_prio s e) 0); [|lia].
      destruct (Z.ltb_spec (group_prio s e0) 0); [done|lia]. }
    split; [lia|]. right. split; [done|]. right. split; [done|].
    destruct (Hbef e0 HC) as [?|(? & ? & ?)]; auto.
Qed.

Lemma scan_secure_step s C i b r :
  nvic_wf s → FEATURE_M_SECURITY (model_of s) = true → 1 ≤ i < num_irq s →
  scanned_before C (i, b) → scan_inv s C r →
  scan_inv s (with_entry C (i, b)) (scan_secure s i b r).
Proof.
  intros Hs Hsec Hi Hbef Hinv. pose proof Hinv as (Hbest & Hsub & Hact). unfold scan_secure.
  destruct (b && negb (exc_is_banked i)) eqn:Hskip.
  { assert (¬ exists_entry s (i, b)) as Hno.
    { intros [_ H]. simpl in H. destruct b, (exc_is_banked i); naive_solver. }
    split_and!; [by apply best_pending_skip|done|]. destruct Hact as [Hlow Hin].
    split; [intros e' [HC| ->] ?; [by apply Hlow|done]|].
    destruct Hin as [|(e' & ? & ?)]; [by left|right; exists e'; unfold with_entry; auto]. }
  assert (exists_entry s (i, b)) as Hex.
  { split; [done|]. simpl. intros ->. destruct (exc_is_banked i); done. }
  rewrite scan_prio by done. cbv zeta.
  pose proof (scan_subprio s i b Hs) as Hse. set (sub := Z.land _ _) in *.
  pose proof (scan_better_precedes s C r (i, b) sub Hs Hinv Hbef Hse) as Hcmp.
  pose proof (lowest_active_add s C (i, b) (active_prio r) Hs Hact Hex) as Hact'.
  fold (scan_better r (group_prio s (i, b)) sub).
  change (enabled (get_vec s b i) && pending (get_vec s b i)) with (ready s (i, b)).
  change (active (get_vec s b i)) with (active (entry_vec s (i, b))).
  destruct (ready s (i, b) && scan_better r (group_prio s (i, b)) sub) eqn:Ht; simpl.
  - apply andb_true_iff in Ht as [Hr Ht]. rewrite Ht in Hcmp.
    assert (best_pending s (with_entry C (i, b)) (i, b) (group_prio s (i, b))) as Hb'
      by (eapply best_pending_take; done).
    revert Hact'. case_if; intros Hact'; split_and!; simpl; try done; intros [??]; by apply Hse.
  - assert (best_pending s (with_entry C (i, b)) (pend_irq r, pending_is_s_banked r) (pend_prio r))
      as Hb'.
    { apply best_pending_skip; [|done]. intros _ Hr. rewrite Hr in Ht. simpl in Ht.
      by rewrite Ht in Hcmp. }
    revert Hact'. case_if; intros Hact'; split_and!; done.
Qed.

Lemma scan_inv_ext s C C' r : (∀ e, C e ↔ C' e) → scan_inv s C r → scan_inv s C' r.
Proof.
  intros H (Hb & Hs & Hlow & Hin). split; [|split; [done|split]].
  - destruct Hb as [(? & ? & Hb)|(? & ? & ? & ? & Hb)]; [left|right]; split_and!; try done;
      try (by apply H); intros e' HC; by apply Hb, H.
  - intros e HC. by apply Hlow, H.
  - destruct Hin as [|(e & HC & ?)]; [by left|right]. exists e. split; [by apply H|done].
Qed.

Lemma scan_inv_start s : scan_inv s (fun e => e.1 < 1) scan_start.
Proof.
  split_and!.
  - left. split_and!; [done..|]. intros e' Hlt [Hge _]. lia.
  - unfold scan_start, NVIC_NOEXC_PRIO. simpl. lia.
  - split; [|by left]. intros e' Hlt [Hge _]. lia.
Qed.

Lemma recompute_secure_scan s :
  nvic_wf s → FEATURE_M_SECURITY (model_of s) = true →
  scan_inv s (fun e => e.1 < num_irq s)
    (for_range 1 (num_irq s) (fun i r => scan_secure s i false (scan_secure s i true r)) scan_start).
Proof.
  intros Hs Hsec. pose proof (nwf_num_irq s Hs) as Hn. unfold NVIC_FIRST_IRQ, NVIC_INTERNAL_VECTORS in Hn.
  apply (for_range_ind (fun i r => scan_inv s (fun e => e.1 < i) r)); [lia|apply scan_inv_start|].
  intros i r Hi Hinv.
  eapply (scan_inv_ext s (with_entry (with_entry (fun e => e.1 < i) (i, true)) (i, false))).
  { intros [j b]. unfold with_entry. simpl. split; [|destruct b, (Z.eq_dec j i); subst; intuition lia].
    intros [[?|[= -> ->]]|[= -> ->]]; lia. }
  apply scan_secure_step; try done.
  - intros e' [H| ->]; simpl in *; auto.
  - apply scan_secure_step; try done. intros e' H. simpl in *. auto.
Qed.

Lemma scan_everything s r : scan_inv s (fun e => e.1 < num_irq s) r →
  best_pending s everything (pend_irq r, pending_is_s_banked r) (pend_prio r) ∧
  lowest_active s everything (active_prio r).
Proof.
  intros (Hb & _ & Hl). unfold best_pending, lowest_active, everything in *.
  split; [clear Hl|clear Hb].
  - destruct Hb as [(? & ? & H)|(? & ? & ? & ? & H)]; [left|right]; split_and!; try done;
      intros e' _ Hex; apply H; try done; apply Hex.
  - destruct Hl as [H1 H2]. split.
    + intros e _ Hex. apply H1; [apply Hex|done].
    + destruct H2 as [|(e & _ & ?)]; [by left|right; by exists e].
Qed.

(** ** The scan without the Security extension *)

Section Plain.
Context (s : NVICState) (Hs : nvic_wf s).
Hypothesis Hns : FEATURE_M_SECURITY (model_of s) = false.

Lemma plain_entry e : exists_entry s e → e = (e.1, false).
Proof. intros [_ H]. destruct e as [i []]; [|done]. simpl in H. destruct (H eq_refl). congruence. Qed.

Lemma plain_targets e : exists_entry s e → targets_secure s e = false.
Proof.
  intros Hex. rewrite (plain_entry e Hex). unfold targets_secure, targets_secure_of. simpl.
  rewrite Hns. by destruct (exc_is_banked e.1).
Qed.

(** Group priority of a raw priority. *)
Definition raw_group (p : Z) : Z := if p >? 0 then Z.land p (nvic_gprio_mask s false) else p.

Lemma raw_group_eq p : 0 ≤ p ≤ 256 → raw_group p = p - p mod 2 ^ subprio_bits s false.
Proof.
  intros Hp. unfold raw_group. rewrite Z.gtb_ltb. destruct (Z.ltb_spec 0 p).
  - apply group_mask; [done|lia].
  - replace p with 0 by lia. by rewrite Zmod_0_l.
Qed.

Lemma raw_group_noexc : raw_group NVIC_NOEXC_PRIO = NVIC_NOEXC_PRIO.
Proof.
  unfold NVIC_NOEXC_PRIO. rewrite raw_group_eq by lia. group_cases s false Hs; done.
Qed.

Lemma raw_group_neg p : p < 0 → raw_group p = p.
Proof. intros. unfold raw_group. rewrite Z.gtb_ltb. by destruct (Z.ltb_spec 0 p); [lia|]. Qed.

Lemma plain_group e : exists_entry s e → group_prio s e = raw_group (prio (entry_vec s e)).
Proof.
  intros Hex. unfold group_prio. rewrite plain_targets by done.
  pose proof (get_vec_prio s e.2 e.1 Hs) as Hp. red in Hp. unfold entry_vec.
  destruct (Z.lt_ge_cases (prio (get_vec s e.2 e.1)) 0).
  - by rewrite exc_group_prio_neg, raw_group_neg.
  - rewrite exc_group_prio_spec, raw_group_eq by (done || lia).
    by rewrite (proj1 (nwf_no_security s Hs Hns)).
Qed.

Lemma plain_sub e : exists_entry s e → 0 ≤ prio (entry_vec s e) →
  sub_prio s e = prio (entry_vec s e) mod 2 ^ subprio_bits s false.
Proof.
  intros Hex Hge. unfold sub_prio. rewrite plain_group, plain_targets by done.
  pose proof (get_vec_prio s e.2 e.1 Hs) as Hp. red in Hp. unfold entry_vec in *.
  rewrite raw_group_eq by lia. case_if; [|done]. exfalso. revert Heqb.
  rewrite Z.ltb_lt. group_cases s false Hs; euclid.
Qed.

(** A lower raw priority value takes precedence. *)
Lemma raw_precedes e e' :
  exists_entry s e → exists_entry s e' → prio (entry_vec s e) < prio (entry_vec s e') →
  precedes s e e'.
Proof.
  intros Hex Hex' Hlt. unfold precedes.
  pose proof (get_vec_prio s e.2 e.1 Hs) as Hp. pose proof (get_vec_prio s e'.2 e'.1 Hs) as Hp'.
  red in Hp, Hp'. fold (entry_vec s e) in Hp. fold (entry_vec s e') in Hp'.
  destruct (Z.lt_ge_cases (prio (entry_vec s e)) 0).
  - left. rewrite !plain_group, raw_group_neg by done.
    destruct (Z.lt_ge_cases (prio (entry_vec s e')) 0).
    + by rewrite raw_group_neg.
    + rewrite raw_group_eq by lia. group_cases s false Hs; euclid.
  - rewrite !plain_sub, !plain_group, !raw_group_eq by (done || lia).
    group_cases s false Hs; euclid.
Qed.

Lemma raw_group_mono p q : -4 ≤ p ≤ q → q ≤ 256 → raw_group p ≤ raw_group q.
Proof.
  intros Hpq Hq. destruct (Z.lt_ge_cases p 0).
  - rewrite raw_group_neg by done. destruct (Z.lt_ge_cases q 0); [by rewrite raw_group_neg; lia|].
    rewrite raw_group_eq by lia. group_cases s false Hs; euclid.
  - rewrite !raw_group_eq by lia. group_cases s false Hs; euclid.
Qed.

(** The invariant of the loop, on raw priorities. *)
Definition plain_pend_inv (i : Z) (r : scan) : Prop :=
  (pend_irq r = 0 ∧ pend_prio r = NVIC_NOEXC_PRIO ∧
     ∀ e, e.1 < i → exists_entry s e → ready s e = false) ∨
  (pend_irq r < i ∧ exists_entry s (pend_irq r, false) ∧ ready s (pend_irq r, false) = true ∧
   pend_prio r = prio (vec s (pend_irq r)) ∧
   ∀ e, e.1 < i → exists_entry s e → ready s e = true →
     pend_prio r < prio (entry_vec s e) ∨
     pend_prio r = prio (entry_vec s e) ∧ pend_irq r ≤ e.1).

Definition plain_active_inv (i : Z) (r : scan) : Prop :=
  (∀ e, e.1 < i → exists_entry s e → active (entry_vec s e) = true →
     active_prio r ≤ prio (entry_vec s e)) ∧
  (active_prio r = NVIC_NOEXC_PRIO ∨
   ∃ e, exists_entry s e ∧ active (entry_vec s e) = true ∧ active_prio r = prio (entry_vec s e)).

Lemma below_next e i : exists_entry s e → e.1 < i + 1 → e.1 < i ∨ e = (i, false).
Proof.
  intros Hex Hlt. pose proof (plain_entry e Hex) as He. destruct e as [j b]. simpl in *.
  destruct (Z.lt_ge_cases j i); [by left|right]. injection He as ->. f_equal. lia.
Qed.

Lemma scan_plain_step i r : 1 ≤ i < num_irq s →
  plain_pend_inv i r → plain_active_inv i r →
  plain_pend_inv (i + 1) (scan_plain s i r) ∧ plain_active_inv (i + 1) (scan_plain s i r).
Proof.
  intros Hi Hp Ha. unfold scan_plain.
  assert (exists_entry s (i, false)) as Hex by (split; done).
  pose proof (nwf_prio s Hs i) as Hr. red in Hr.
  change (enabled (vec s i) && pending (vec s i)) with (ready s (i, false)).
  set (r1 := if ready s (i, false) && _ then _ else r).
  assert (plain_pend_inv (i + 1) r1 ∧ active_prio r1 = active_prio r) as [Hp1 Hr1].
  { subst r1. destruct (ready s (i, false)) eqn:Hrd; simpl.
    - destruct (Z.ltb_spec (prio (vec s i)) (pend_prio r)) as [Hlt|Hge]; (split; [|done]).
      + right. simpl. split_and!; try done; [lia|]. intros e Hlt' Hex' Hr'.
        destruct (below_next e i Hex' Hlt') as [Hb| ->]; [|right; split; [done|simpl; lia]].
        left. destruct Hp as [(_ & _ & Hn)|(_ & _ & _ & _ & Hb')].
        * by rewrite Hn in Hr'.
        * destruct (Hb' e Hb Hex' Hr'); lia.
      + destruct Hp as [(_ & Hn & _)|(H1 & H2 & H3 & H4 & H5)].
        { rewrite Hn in Hge. unfold NVIC_NOEXC_PRIO in Hge. lia. }
        right. split_and!; try done; [lia|]. intros e Hlt' Hex' Hr'.
        destruct (below_next e i Hex' Hlt') as [Hb| ->]; [by apply H5|].
        unfold entry_vec. simpl. destruct (Z.eq_dec (pend_prio r) (prio (vec s i))); [right|left]; lia.
    - split; [|done]. destruct Hp as [(H1 & H2 & H3)|(H1 & H2 & H3 & H4 & H5)]; [left|right];
        split_and!; try done; try lia; intros e Hlt' Hex';
        destruct (below_next e i Hex' Hlt') as [Hb| ->]; auto; congruence. }
  clearbody r1. split.
  { revert Hp1. unfold plain_pend_inv. by case_if. }
  destruct Ha as [Hlow Hin]. rewrite Hr1.
  destruct (active (vec s i)) eqn:Hav; simpl.
  - destruct (Z.ltb_spec (prio (vec s i)) (active_prio r)); split; simpl; rewrite ?Hr1.
    + intros e Hlt' Hex' Ha'. destruct (below_next e i Hex' Hlt') as [Hb| ->].
      * specialize (Hlow e Hb Hex' Ha'). lia.
      * unfold entry_vec. simpl. lia.
    + right. by exists (i, false).
    + intros e Hlt' Hex' Ha'. destruct (below_next e i Hex' Hlt') as [Hb| ->]; [auto|done].
    + done.
  - split; rewrite Hr1; [|done]. intros e Hlt' Hex' Ha'.
    destruct (below_next e i Hex' Hlt') as [Hb| ->]; [auto|].
    unfold entry_vec in Ha'. simpl in Ha'. congruence.
Qed.

Lemma recompute_plain_scan :
  let r := for_range 1 (num_irq s) (scan_plain s) scan_start in
  plain_pend_inv (num_irq s) r ∧ plain_active_inv (num_irq s) r.
Proof.
  pose proof (nwf_num_irq s Hs) as Hn. unfold NVIC_FIRST_IRQ, NVIC_INTERNAL_VECTORS in Hn.
  apply (for_range_ind (fun i r => plain_pend_inv i r ∧ plain_active_inv i r)); [lia| |].
  - split; [left; split_and!; [done..|]|split; [|by left]]; intros e Hlt [Hge _]; lia.
  - intros i r Hi [Hp Ha]. by apply scan_plain_step.
Qed.

Lemma recompute_plain_spec : cache_spec s (nvic_recompute_state s).
Proof.
  unfold nvic_recompute_state, cache_spec. rewrite Hns. simpl.
  pose proof recompute_plain_scan as Hscan. simpl in Hscan.
  set (r := for_range 1 (num_irq s) (scan_plain s) scan_start) in *.
  destruct Hscan as [Hp [Hlow Hin]]. fold (raw_group (pend_prio r)). fold (raw_group (active_prio r)).
  rewrite (proj2 (nwf_no_security s Hs Hns)). split; [|split].
  - destruct Hp as [(-> & -> & Hn)|(H1 & H2 & H3 & H4 & H5)].
    + left. split_and!; [done|apply raw_group_noexc|]. intros e _ Hex. apply Hn, Hex. apply Hex.
    + right. split_and!; try done; [by rewrite plain_group, H4|].
      intros e _ Hex Hr. destruct (H5 e (proj2 (proj1 Hex)) Hex Hr) as [Hlt|[Heq Hle]].
      * apply raw_precedes; [done..|]. unfold entry_vec at 1. simpl. by rewrite <- H4.
      * unfold precedes, sub_prio.
        assert (group_prio s (pend_irq r, false) = group_prio s e) as Hg.
        { rewrite !plain_group by done. unfold entry_vec at 1. simpl. by rewrite <- H4, Heq. }
        right. split; [done|]. right. rewrite Hg, !plain_targets by done.
        unfold entry_vec at 1. simpl. rewrite <- H4, Heq. split; [done|].
        assert (e.2 = false) by (by rewrite (plain_entry e Hex)). simpl. destruct (Z.lt_ge_cases (pend_irq r) e.1); [by left|].
        right. split; [lia|by right].
  - intros e _ Hex Ha. rewrite plain_group by done. specialize (Hlow e (proj2 (proj1 Hex)) Hex Ha).
    apply raw_group_mono.
    + pose proof (get_vec_prio s e.2 e.1 Hs) as Hpr. red in Hpr. fold (entry_vec s e) in Hpr.
      destruct Hin as [Hn|(e' & _ & _ & Heq)]; [rewrite Hn in *; unfold NVIC_NOEXC_PRIO in *; lia|].
      pose proof (get_vec_prio s e'.2 e'.1 Hs) as Hpr'. red in Hpr'. fold (entry_vec s e') in Hpr'. lia.
    + pose proof (get_vec_prio s e.2 e.1 Hs) as Hpr. red in Hpr. fold (entry_vec s e) in Hpr. lia.
  - destruct Hin as [->|(e & Hex & Ha & ->)]; [left; apply raw_group_noexc|right].
    exists e. split_and!; try done. by rewrite plain_group.
Qed.
End Plain.

(** Both versions compute the specified cache. *)
Lemma recompute_spec s : nvic_wf s → cache_spec s (nvic_recompute_state s).
Proof.
  intros Hs. destruct (FEATURE_M_SECURITY (model_of s)) eqn:Hsec.
  - unfold nvic_recompute_state. rewrite Hsec.
    apply (scan_everything s _ (recompute_secure_scan s Hs Hsec)).
  - by apply recompute_plain_spec.
Qed.
