(* ===== verification/NvicInv.v ===== *)
(** Invariants of the interrupt controller: every operation keeps the state
    well formed and the cached fields equal to what the vectors determine. *)

From S2P Require Import Prelude Irq NvicState NvicCore NvicRead NvicWrite NvicPrio.

(** ** What the cache depends on *)

Record same_vec (v v' : VecInfo) : Prop := {
  sv_prio : prio v' = prio v; sv_enabled : enabled v' = enabled v;
  sv_pending : pending v' = pending v; sv_active : active v' = active v
}.

Record same_inputs (s s' : NVICState) : Prop := {
  si_vec : ∀ b i, same_vec (get_vec s b i) (get_vec s' b i);
  si_prigroup : prigroup s' = prigroup s;
  si_itns : itns s' = itns s;
  si_num_irq : num_irq s' = num_irq s;
  si_model : model_of s' = model_of s;
  si_aircr : aircr (v7m_of s') = aircr (v7m_of s)
}.

Lemma same_vec_refl v : same_vec v v.
Proof. done. Qed.

Lemma same_inputs_refl s : same_inputs s s.
Proof. done. Qed.

Lemma same_targets s s' i : same_inputs s s' → targets_secure_of s' i = targets_secure_of s i.
Proof. intros []. unfold targets_secure_of, aircr_has. by rewrite si_model0, si_itns0, si_aircr0. Qed.

Lemma same_mask s s' ts : same_inputs s s' → nvic_gprio_mask s' ts = nvic_gprio_mask s ts.
Proof. intros []. unfold nvic_gprio_mask. by rewrite si_prigroup0. Qed.

Lemma same_group s s' p ts : same_inputs s s' → exc_group_prio s' p ts = exc_group_prio s p ts.
Proof.
  intros H. unfold exc_group_prio, aircr_has. by rewrite (same_mask s s'), (si_aircr s s') by done.
Qed.

Lemma same_scan_secure s s' i b r :
  same_inputs s s' → scan_secure s' i b r = scan_secure s i b r.
Proof.
  intros H. unfold scan_secure. case_if; [done|].
  destruct (si_vec s s' H b i) as [-> -> -> ->].
  by rewrite (same_targets s s'), !(same_group s s'), !(same_mask s s') by done.
Qed.

Lemma same_scan_plain s s' i r : same_inputs s s' → scan_plain s' i r = scan_plain s i r.
Proof.
  intros H. unfold scan_plain. change (vec s' i) with (get_vec s' false i).
  by destruct (si_vec s s' H false i) as [-> -> -> ->].
Qed.

(** The cached fields, as the four numbers and flags. *)
Definition cache (s : NVICState) : Z * Z * Z :=
  (vectpending s, vectpending_prio s, exception_prio s).

Lemma same_recompute s s' : same_inputs s s' →
  cache (nvic_recompute_state s') = cache (nvic_recompute_state s) ∧
  (FEATURE_M_SECURITY (model_of s) = true ∨
     vectpending_is_s_banked s' = vectpending_is_s_banked s →
   vectpending_is_s_banked (nvic_recompute_state s') =
   vectpending_is_s_banked (nvic_recompute_state s)).
Proof.
  intros H. unfold nvic_recompute_state, nvic_recompute_state_secure.
  rewrite (si_model s s' H), (si_num_irq s s' H).
  destruct (FEATURE_M_SECURITY (model_of s)).
  - rewrite (for_range_ext _ _ _ (fun i r => scan_secure s i false (scan_secure s i true r))); [done|].
    intros i r _. by rewrite !(same_scan_secure s s').
  - rewrite (for_range_ext _ _ _ (scan_plain s)) by (intros; by apply same_scan_plain).
    rewrite (same_mask s s') by done. split; [done|]. by intros [?|?].
Qed.

(** ** Coherent caches *)

Definition coherent (s : NVICState) : Prop :=
  cache (nvic_recompute_state s) = cache s ∧
  vectpending_is_s_banked (nvic_recompute_state s) = vectpending_is_s_banked s.

Lemma recompute_inputs s : same_inputs s (nvic_recompute_state s).
Proof.
  unfold nvic_recompute_state, nvic_recompute_state_secure.
  case_if; (split; [intros b i; destruct b|..]); done.
Qed.

Lemma coherent_recompute s : coherent (nvic_recompute_state s).
Proof.
  destruct (same_recompute _ _ (recompute_inputs s)) as [H1 H2]. split; [done|]. apply H2.
  unfold nvic_recompute_state. destruct (FEATURE_M_SECURITY (model_of s)); auto.
Qed.

Lemma coherent_same s s' :
  same_inputs s s' → cache s' = cache s → vectpending_is_s_banked s' = vectpending_is_s_banked s →
  coherent s → coherent s'.
Proof.
  intros Hin Hc Hb [H1 H2]. destruct (same_recompute _ _ Hin) as [H3 H4]. split.
  - by rewrite H3, H1, Hc.
  - rewrite H4, H2 by auto. done.
Qed.

Lemma coherent_update s : coherent (nvic_irq_update s).
Proof.
  apply (coherent_same (nvic_recompute_state s)); [|done..|apply coherent_recompute].
  unfold nvic_irq_update. split; [intros []; done|done..].
Qed.

(** The line after an update, when it is connected. *)
Definition line_ok (s : NVICState) : Prop :=
  irq_level (excpout s) = of_bool (vectpending_prio s <? exception_prio s).

Lemma line_update s : connected (excpout s) → line_ok (nvic_irq_update s).
Proof.
  intros Hc. unfold line_ok, nvic_irq_update. simpl. rewrite irq_level_set.
  - done.
  - unfold nvic_recompute_state, nvic_recompute_state_secure. by case_if.
Qed.

(** ** Updates of single vectors *)

Lemma get_upd_vec (b : bool) i f s b' j :
  0 ≤ i < alen (if b then sec_vectors s else vectors s) →
  get_vec (upd_vec b i f s) b' j =
    if eqb b b' && (i =? j) then f (get_vec s b i) else get_vec s b' j.
Proof.
  intros Hi. destruct b, b'; simpl; unfold sec_vec, vec; simpl; rewrite ?aget_aset by done; done.
Qed.

Lemma aset_out {A} (l : list A) i x : ¬ 0 ≤ i < alen l → aset l i x = l.
Proof.
  unfold aset, alen. intros Hi. destruct (Z.ltb_spec i 0); [done|].
  apply list_insert_ge. lia.
Qed.

Lemma upd_vec_out (b : bool) i f s :
  ¬ 0 ≤ i < alen (if b then sec_vectors s else vectors s) →
  ∀ b' j, get_vec (upd_vec b i f s) b' j = get_vec s b' j.
Proof.
  intros Hi b' j. destruct b, b'; simpl; unfold sec_vec, vec; simpl; by rewrite ?aset_out.
Qed.

(** A property of all vectors that the update establishes for its own. *)
Lemma upd_vec_all (P : bool → Z → VecInfo → Prop) b i f s :
  (∀ b j, P b j (get_vec s b j)) → P b i (f (get_vec s b i)) →
  ∀ b' j, P b' j (get_vec (upd_vec b i f s) b' j).
Proof.
  intros Hall Hf b' j.
  destruct (decide (0 ≤ i < alen (if b then sec_vectors s else vectors s))) as [Hi|Hi].
  - rewrite get_upd_vec by done. destruct (eqb b b') eqn:Hb; simpl; [|done].
    apply eqb_prop in Hb as <-. destruct (Z.eqb_spec i j) as [<-|]; done.
  - by rewrite upd_vec_out.
Qed.

(** ** The invariant *)

(** Well formed with the output line connected, while the cache may be stale. *)
Definition nvic_pre (s : NVICState) : Prop := nvic_wf s ∧ connected (excpout s).

(** The invariant between operations; [L] says whether the level of the output
    line is up to date (a reset and lazy stacking do not drive it). *)
Definition nvic_inv (L : bool) (s : NVICState) : Prop :=
  nvic_pre s ∧ coherent s ∧ (L = true → line_ok s).

(** Changes that neither the prioritization nor the cache can see. *)
Record frame (s s' : NVICState) : Prop := {
  fr_inputs : same_inputs s s';
  fr_cache : cache s' = cache s;
  fr_banked : vectpending_is_s_banked s' = vectpending_is_s_banked s;
  fr_vectors : alen (vectors s') = alen (vectors s);
  fr_sec_vectors : alen (sec_vectors s') = alen (sec_vectors s);
  fr_prio_bits : num_prio_bits s' = num_prio_bits s;
  fr_excpout : excpout s' = excpout s
}.

Lemma frame_wf s s' : frame s s' → nvic_wf s → nvic_wf s'.
Proof.
  intros [Hi Hc Hb Hv Hsv Hp _] Hs.
  assert (∀ b i, prio_ok (get_vec s' b i)) as Hpr.
  { intros b i. unfold prio_ok. rewrite (sv_prio _ _ (si_vec s s' Hi b i)).
    by apply get_vec_prio. }
  destruct Hi, Hs. constructor; rewrite ?Hv, ?Hsv, ?Hp, ?Hb,
    ?si_itns0, ?si_num_irq0, ?si_prigroup0, ?si_model0, ?si_aircr0; auto.
  - apply (Hpr false).
  - apply (Hpr true).
  - transitivity (enabled (vec s ARMV7M_EXCP_RESET)); [apply (si_vec0 false)|done].
  - unfold aircr_has. by rewrite si_aircr0.
Qed.

Lemma frame_pre s s' : frame s s' → nvic_pre s → nvic_pre s'.
Proof.
  intros Hf [Hw Hc]. split; [by eapply frame_wf|]. by rewrite (fr_excpout s s' Hf).
Qed.

Lemma frame_inv L s s' : frame s s' → nvic_inv L s → nvic_inv L s'.
Proof.
  intros Hf (Hp & Hc & Hl). split_and!; [by eapply frame_pre|..]; destruct Hf.
  - by apply (coherent_same s).
  - intros HL. specialize (Hl HL). unfold line_ok, cache in *. rewrite fr_excpout0.
    by injection fr_cache0 as _ -> ->.
Qed.

Lemma set_v7m_frame f s : (∀ m, aircr (f m) = aircr m) → frame s (set_v7m f s).
Proof. intros H. split; try done. split; try done. apply H. Qed.

Lemma set_mpu_frame f s : frame s (set_mpu f s).
Proof. split; done. Qed.

Lemma effect_frame e s : frame s (effect e s).
Proof. split; done. Qed.

Lemma upd_vec_alen b i f s :
  alen (vectors (upd_vec b i f s)) = alen (vectors s) ∧
  alen (sec_vectors (upd_vec b i f s)) = alen (sec_vectors s).
Proof. destruct b; simpl; by rewrite ?alen_aset. Qed.

(** A change of [level] only. *)
Lemma level_frame b i l s : frame s (upd_vec b i (fun v => v <| level := l |>) s).
Proof.
  destruct (upd_vec_alen b i (fun v => v <| level := l |>) s).
  split; try done; try (by destruct b). split; try (by destruct b).
  apply (upd_vec_all (fun b' j v => same_vec (get_vec s b' j) v)); done.
Qed.

(** The reset exception is never enabled. *)
Definition vec_ok (b : bool) (i : Z) (v : VecInfo) : Prop :=
  prio_ok v ∧ (b = false → i = ARMV7M_EXCP_RESET → enabled v = false).

Lemma wf_vec_ok s b i : nvic_wf s → vec_ok b i (get_vec s b i).
Proof. intros Hs. split; [by apply get_vec_prio|]. intros -> ->. apply Hs. Qed.

Lemma upd_vec_wf b i f s :
  nvic_wf s → vec_ok b i (f (get_vec s b i)) → nvic_wf (upd_vec b i f s).
Proof.
  intros Hs Hf. destruct (upd_vec_alen b i f s) as [H1 H2].
  pose proof (upd_vec_all vec_ok b i f s (fun b j => wf_vec_ok s b j Hs) Hf) as H3.
  destruct Hs. constructor; rewrite ?H1, ?H2; try (by destruct b).
  - intros j. apply (H3 false).
  - intros j. apply (H3 true).
  - by apply (H3 false ARMV7M_EXCP_RESET).
Qed.

Lemma upd_vec_pre b i f s :
  nvic_pre s → vec_ok b i (f (get_vec s b i)) → nvic_pre (upd_vec b i f s).
Proof. intros [Hs Hc] Hf. split; [by apply upd_vec_wf|]. by destruct b. Qed.

(** Assignments to the other flags of a vector. *)
Lemma flag_pre b i f s :
  (∀ v, prio (f v) = prio v ∧ enabled (f v) = enabled v) → nvic_pre s → nvic_pre (upd_vec b i f s).
Proof.
  intros Hf Hs. apply upd_vec_pre; [done|]. destruct (Hf (get_vec s b i)) as [H1 H2].
  unfold vec_ok, prio_ok. rewrite H1, H2. apply wf_vec_ok, Hs.
Qed.

Lemma enable_pre b i e s :
  b = true ∨ i ≠ ARMV7M_EXCP_RESET → nvic_pre s → nvic_pre (enable_vec b i e s).
Proof.
  intros Hi Hs. apply upd_vec_pre; [done|]. split; [apply get_vec_prio, Hs|]. naive_solver.
Qed.

Lemma recompute_excpout s : excpout (nvic_recompute_state s) = excpout s.
Proof. unfold nvic_recompute_state, nvic_recompute_state_secure. by case_if. Qed.

Lemma recompute_wf s : nvic_wf s → nvic_wf (nvic_recompute_state s).
Proof.
  intros Hs. unfold nvic_recompute_state, nvic_recompute_state_secure. case_if.
  - destruct Hs. constructor; try done. simpl. unfold model_of in *. simpl. congruence.
  - by destruct Hs.
Qed.

Lemma recompute_inv s : nvic_pre s → nvic_inv false (nvic_recompute_state s).
Proof.
  intros [Hw Hc]. split_and!; [split|apply coherent_recompute|done].
  - by apply recompute_wf.
  - by rewrite recompute_excpout.
Qed.

Lemma update_inv L s : nvic_pre s → nvic_inv L (nvic_irq_update s).
Proof.
  intros [Hw Hc]. split_and!; [split|apply coherent_update|intros _; by apply line_update].
  - unfold nvic_irq_update. apply recompute_wf in Hw. revert Hw.
    generalize (nvic_recompute_state s). intros s' []. by constructor.
  - unfold nvic_irq_update. simpl. apply connected_set. by rewrite recompute_excpout.
Qed.

Lemma inv_pre L s : nvic_inv L s → nvic_pre s.
Proof. by intros [? _]. Qed.

Create HintDb nvic.
#[export] Hint Resolve inv_pre set_mpu_frame effect_frame level_frame recompute_inv update_inv : nvic.
#[export] Hint Extern 2 (nvic_pre (upd_vec _ _ _ _)) => apply flag_pre; [done|] : nvic.
#[export] Hint Extern 2 (nvic_pre (pending_vec _ _ _ _)) => apply flag_pre; [done|] : nvic.
#[export] Hint Extern 2 (nvic_pre (active_vec _ _ _ _)) => apply flag_pre; [done|] : nvic.

(** ** Operations keep the invariant *)

(** An outcome that is an abort or satisfies the predicate. *)
Definition ok_then {A} (P : A → Prop) (m : outcome A) : Prop :=
  match m with Ok a => P a | Abort _ => True end.

Lemma ok_then_bind {A B} (P : B → Prop) (Q : A → Prop) (m : outcome A) (k : A → outcome B) :
  ok_then Q m → (∀ a, Q a → ok_then P (k a)) → ok_then P (m ≫= k).
Proof. destruct m; simpl; auto. Qed.

Lemma ok_then_any {A B} (P : B → Prop) (m : outcome A) (k : A → outcome B) :
  (∀ a, ok_then P (k a)) → ok_then P (m ≫= k).
Proof. destruct m; simpl; auto. Qed.

Lemma forced_fault_frame s : frame s (forced_fault s).
Proof. by apply set_v7m_frame. Qed.

Lemma pend_vec_inv L b i s : nvic_inv L s → nvic_inv L (pend_vec b i s).
Proof. intros Hs. unfold pend_vec. case_if; eauto with nvic. Qed.

Lemma clear_pending_inv L irq secure s :
  nvic_inv L s → ok_then (nvic_inv L) (armv7m_nvic_clear_pending irq secure s).
Proof.
  intros Hs. unfold armv7m_nvic_clear_pending. do 2 (apply ok_then_any; intros _).
  case_if; simpl; eauto with nvic.
Qed.

Lemma set_pending_escalate_inv L irq secure bank ts s :
  nvic_inv L s → ok_then (nvic_inv L) (set_pending_escalate irq secure bank ts s).
Proof.
  intros Hs. unfold set_pending_escalate. repeat case_if; simpl; try done; apply pend_vec_inv; [|done..].
  eapply frame_inv; [apply forced_fault_frame|done].
Qed.

Lemma do_set_pending_inv L irq secure derived s :
  nvic_inv L s → ok_then (nvic_inv L) (do_armv7m_nvic_set_pending irq secure derived s).
Proof.
  intros Hs. unfold do_armv7m_nvic_set_pending. do 2 (apply ok_then_any; intros _).
  apply ok_then_any. intros ts. destruct derived; [|by apply set_pending_escalate_inv].
  apply ok_then_any. intros _. repeat case_if; simpl; try done. by apply set_pending_escalate_inv.
Qed.

Lemma set_pending_lazyfp_inv L irq secure s :
  nvic_inv L s → ok_then (nvic_inv false) (armv7m_nvic_set_pending_lazyfp irq secure s).
Proof.
  intros Hs. assert (nvic_inv false s) as Hf by (destruct Hs as (? & ? & _); by split_and!).
  unfold armv7m_nvic_set_pending_lazyfp. do 2 (apply ok_then_any; intros _).
  apply ok_then_any. intros ts. destruct (lazyfp_choice _ _ _) as [|esc|]; simpl; [done| |done].
  match goal with |- context [if ?c then Abort _ else _] => destruct c end; [done|].
  assert (nvic_inv false (if esc then forced_fault s else s)) as Hs1.
  { destruct esc; [|done]. eapply frame_inv; [apply forced_fault_frame|done]. }
  case_if; simpl; eauto with nvic.
Qed.

Lemma write_exception_frame e s : frame s (set_v7m (write_v7m_exception e) s).
Proof. apply set_v7m_frame. intros m. unfold write_v7m_exception. by case_if. Qed.

Lemma acknowledge_inv L s :
  nvic_inv L s → ok_then (nvic_inv L) (armv7m_nvic_acknowledge_irq s).
Proof.
  intros Hs. unfold armv7m_nvic_acknowledge_irq. do 4 (apply ok_then_any; intros _). simpl.
  apply update_inv. eapply frame_pre; [apply write_exception_frame|]. eauto with nvic.
Qed.

Lemma complete_inv L irq secure s :
  nvic_inv L s → ok_then (fun r => nvic_inv L r.1) (armv7m_nvic_complete_irq irq secure s).
Proof.
  intros Hs. unfold armv7m_nvic_complete_irq. apply ok_then_any. intros _.
  apply ok_then_any. intros ws. destruct (complete_vec s _) as [[b i]|]; [|done].
  apply (ok_then_bind _ nvic_pre); [|simpl; eauto with nvic].
  case_if; [apply ok_then_any; intros _|]; simpl; eauto 6 with nvic.
Qed.

Lemma set_irq_level_inv L n level' s :
  nvic_inv L s → ok_then (nvic_inv L) (set_irq_level n level' s).
Proof.
  intros Hs. unfold set_irq_level. apply ok_then_any. intros _.
  case_if; [|done].
  assert (nvic_inv L (upd_vec false (n + NVIC_FIRST_IRQ) (fun v => v <| level := u8 level' |>) s))
    by (eapply frame_inv; [apply level_frame|done]).
  case_if; simpl; [by apply do_set_pending_inv|done].
Qed.

(** *** Register writes *)

Lemma for_range_pre lo hi body s :
  (∀ i s, lo ≤ i → nvic_pre s → nvic_pre (body i s)) → nvic_pre s →
  nvic_pre (for_range lo hi body s).
Proof.
  intros Hb Hs. destruct (Z.le_gt_cases hi lo); [by rewrite for_range_nil|].
  apply (for_range_ind (fun _ => nvic_pre)); [lia|done|]. intros i s' Hi. apply Hb. lia.
Qed.

Lemma itns_pre f s : (∀ l, alen (f l) = alen l) → nvic_pre s → nvic_pre (s <| itns ::= f |>).
Proof. intros Hf [[] Hc]. split; [|done]. constructor; try done. simpl. by rewrite Hf. Qed.

Lemma write_itns_inv L s offset value : nvic_pre s → nvic_inv L (write_itns s offset value).
Proof.
  intros Hs. apply update_inv, for_range_pre; [|done]. intros i s' _ Hs'.
  apply itns_pre; [|done]. intros l. apply alen_aset.
Qed.

Lemma prio_vec_pre b i p s : -4 ≤ p < 256 → nvic_pre s → nvic_pre (prio_vec b i p s).
Proof.
  intros Hp Hs. apply upd_vec_pre; [done|]. split; [done|]. intros -> ->. apply Hs.
Qed.

Lemma aircr_pre v s :
  FEATURE_M_SECURITY (model_of s) = true → nvic_pre s →
  nvic_pre (set_v7m (fun m => m <| aircr := v |>) s).
Proof.
  intros Hf [[] Hc]. split; [|done]. constructor; try done.
  unfold set_v7m, model_of in *. simpl. congruence.
Qed.

Lemma prigroup_field value : is_u32 value → 0 ≤ FIELD_EX32 value AIRCR_PRIGROUP ≤ 7.
Proof.
  intros Hv. unfold FIELD_EX32, extract32. simpl.
  change (Z.shiftr (2 ^ 32 - 1) (32 - 3)) with (2 ^ 3 - 1). rewrite land_mask by done.
  pose proof (wrap_range 3 (Z.shiftr value 8) ltac:(lia)) as H. unfold in_range in H. lia.
Qed.

Lemma sysresetreq_frame s : frame s (signal_sysresetreq s).
Proof. unfold signal_sysresetreq. case_match; split; done. Qed.

Lemma write_aircr_inv L s value secure :
  is_u32 value → (secure = true → FEATURE_M_SECURITY (model_of s) = true) →
  nvic_inv L s → nvic_inv L (write_aircr s value secure).
Proof.
  intros Hv Hsec Hs. unfold write_aircr. case_if; [|done]. cbv zeta. apply update_inv.
  set (s1 := if has value _ && _ then signal_sysresetreq s else s).
  assert (nvic_pre s1 ∧ model_of s1 = model_of s) as [H1 Hm1].
  { subst s1. case_if; [|split; [eauto with nvic|done]].
    split; [eapply frame_pre; [apply sysresetreq_frame|eauto with nvic]|].
    apply (si_model s), sysresetreq_frame. }
  clearbody s1.
  set (s2 := if FEATURE_M_MAIN (model_of s1) then _ else s1).
  assert (nvic_pre s2 ∧ model_of s2 = model_of s) as [H2 Hm2].
  { subst s2. case_if; [|done]. split; [|done].
    pose proof (prigroup_field value Hv) as Hf.
    destruct H1 as [[] Hc]. split; [|done]. constructor; try done; simpl; destruct secure; done. }
  clearbody s2. destruct secure; [|done].
  pose proof (aircr_pre (Z.land value (masks [AIRCR_SYSRESETREQS; AIRCR_BFHFNMINS; AIRCR_PRIS])) s2
    ltac:(rewrite Hm2; auto) H2) as H3.
  case_if; (apply enable_pre; [by right|]); by apply prio_vec_pre.
Qed.

Lemma write_ccr_frame s value secure : frame s (write_ccr s value secure).
Proof. unfold write_ccr. destruct secure; [split; done|]. by apply set_v7m_frame. Qed.

Lemma write_shcsr_inv L s value secure : nvic_pre s → nvic_inv L (write_shcsr s value secure).
Proof.
  intros Hs. unfold write_shcsr. apply update_inv.
  repeat match goal with
  | |- nvic_pre (active_vec _ _ _ _) => apply flag_pre; [done|]
  | |- nvic_pre (pending_vec _ _ _ _) => apply flag_pre; [done|]
  | |- nvic_pre (enable_vec _ _ _ _) => apply enable_pre; [by right|]
  | |- nvic_pre (if ?b then _ else _) => destruct b
  end; done.
Qed.

Lemma write_mpu_rbar_frame s offset value secure : frame s (write_mpu_rbar s offset value secure).
Proof. unfold write_mpu_rbar. repeat case_if; split; done. Qed.

Lemma write_mpu_rasr_frame s offset value secure : frame s (write_mpu_rasr s offset value secure).
Proof. unfold write_mpu_rasr. repeat case_if; split; done. Qed.

Lemma write_sau_frame s offset value secure : frame s (write_sau s offset value secure).
Proof. unfold write_sau. repeat case_if; split; done. Qed.

Lemma write_fpccr_frame s value secure : frame s (write_fpccr s value secure).
Proof. unfold write_fpccr. case_if; [done|]. destruct secure; by apply set_v7m_frame. Qed.

Lemma write_fpdscr_frame s value secure : frame s (write_fpdscr s value secure).
Proof. unfold write_fpdscr. case_if; [|done]. by apply set_v7m_frame. Qed.

Lemma write_cfsr_frame offset value attrs s : frame s (write_cfsr offset value attrs s).
Proof. unfold write_cfsr. case_if; split; done. Qed.

Lemma write_icsr_inv L s value secure :
  nvic_inv L s → ok_then (nvic_inv L) (write_icsr s value secure).
Proof.
  intros Hs. unfold write_icsr. apply (ok_then_bind _ (nvic_inv L)).
  { repeat case_if; try done; [by apply do_set_pending_inv|by apply clear_pending_inv]. }
  clear s Hs. intros s Hs. apply (ok_then_bind _ (nvic_inv L)).
  { repeat case_if; try done; [by apply do_set_pending_inv|by apply clear_pending_inv]. }
  clear s Hs. intros s Hs.
  repeat case_if; try done; [by apply do_set_pending_inv|by apply clear_pending_inv].
Qed.

#[export] Hint Resolve write_mpu_rbar_frame write_mpu_rasr_frame write_sau_frame write_fpccr_frame
  write_fpdscr_frame write_ccr_frame : nvic.
#[export] Hint Extern 3 (frame _ (set_v7m _ _)) => apply set_v7m_frame; done : nvic.

Lemma effect_mpu_frame e f s : (∀ m, aircr (f m) = aircr m) → frame s (effect e (set_v7m f s)).
Proof. intros H. split; try done. split; try done. apply H. Qed.

Lemma nvic_writel_inv L offset value secure s :
  is_u32 value → (secure = true → FEATURE_M_SECURITY (model_of s) = true) →
  nvic_inv L s → ok_then (nvic_inv L) (nvic_writel offset value secure s).
Proof.
  intros Hv Hsec Hs. unfold nvic_writel.
  repeat match goal with
  | |- ok_then _ (if ?c then _ else _) => destruct c
  | |- ok_then _ (write_icsr _ _ _) => by apply write_icsr_inv
  | |- ok_then _ (armv7m_nvic_set_pending _ _ _) => by apply do_set_pending_inv
  | |- ok_then _ (mret (write_aircr _ _ _)) => simpl; by apply write_aircr_inv
  | |- ok_then _ (mret (effect _ _)) =>
      simpl; eapply frame_inv; [apply effect_mpu_frame|exact Hs]; done
  | |- ok_then _ (mret (if ?c then _ else _)) => destruct c
  | |- ok_then _ (mret (write_itns _ _ _)) => simpl; apply write_itns_inv; eauto with nvic
  | |- ok_then _ (mret (write_shcsr _ _ _)) => simpl; apply write_shcsr_inv; eauto with nvic
  | |- ok_then _ (mret _) => simpl; first [exact Hs | eapply frame_inv; [|exact Hs]; auto with nvic]
  end.
Qed.

Lemma set_prio_pre irq secure p s :
  nvic_pre s → ok_then (fun s' => nvic_pre s' ∧ model_of s' = model_of s) (set_prio irq secure p s).
Proof.
  intros Hs. unfold set_prio. do 2 (apply ok_then_any; intros _).
  assert (-4 ≤ Z.land (u8 p) (MAKE_64BIT_MASK (8 - num_prio_bits s) (num_prio_bits s)) < 256) as Hr.
  { pose proof (land_range 8 (u8 p) (MAKE_64BIT_MASK (8 - num_prio_bits s) (num_prio_bits s))
      ltac:(lia) ltac:(apply wrap_range; lia)) as H. unfold in_range in H. lia. }
  destruct secure; [apply ok_then_any; intros _|]; (split; [|done]).
  - exact (prio_vec_pre true irq _ s Hr Hs).
  - exact (prio_vec_pre false irq _ s Hr Hs).
Qed.

Lemma write_irq_prios_pre startvec value attrs idxs s :
  nvic_pre s → ok_then nvic_pre (write_irq_prios startvec value attrs idxs s).
Proof.
  revert s. induction idxs as [|i idxs IH]; intros s Hs; [done|]. simpl.
  apply (ok_then_bind _ nvic_pre); [|apply IH].
  case_if; [|done]. pose proof (set_prio_pre (startvec + i) false
    (Z.land (Z.shiftr value (i * 8)) 0xff) s Hs) as H. destruct (set_prio _ _ _ _); [apply H|done].
Qed.

Lemma write_shpr_pre offset value attrs idxs s :
  nvic_pre s → ok_then nvic_pre (write_shpr offset value attrs idxs s).
Proof.
  revert s. induction idxs as [|i idxs IH]; intros s Hs; [done|]. simpl.
  apply ok_then_any. intros sbank. apply (ok_then_bind _ nvic_pre); [|apply IH].
  destruct sbank as [b|]; [|done]. pose proof (set_prio_pre (offset - 0xd14 + i) b
    (extract32 (u32 value) (i * 8) 8) s Hs) as H. destruct (set_prio _ _ _ _); [apply H|done].
Qed.

Lemma write_irq_enable_inv L startvec size value setval attrs s :
  NVIC_FIRST_IRQ ≤ startvec →
  nvic_pre s → nvic_inv L (write_irq_enable startvec size value setval attrs s).
Proof.
  intros Hst Hs. apply update_inv, for_range_pre; [|done]. intros i s' Hi Hs'. case_if; [|done].
  apply enable_pre; [|done]. right. unfold NVIC_FIRST_IRQ, NVIC_INTERNAL_VECTORS, ARMV7M_EXCP_RESET in *.
  lia.
Qed.

Lemma write_irq_pending_inv L startvec size value setval attrs s :
  nvic_pre s → nvic_inv L (write_irq_pending startvec size value setval attrs s).
Proof.
  intros Hs. apply update_inv, for_range_pre; [|done]. intros i s' _ Hs'. case_if; [|done].
  by apply flag_pre.
Qed.

Lemma sysreg_write_body_inv L offset value size attrs s :
  (secure attrs = true → FEATURE_M_SECURITY (model_of s) = true) →
  nvic_inv L s → ok_then (nvic_inv L) (sysreg_write_body offset value size attrs s).
Proof.
  intros Hsec Hs. pose proof (inv_pre L s Hs) as Hp. unfold sysreg_write_body.
  repeat match goal with
  | |- ok_then _ (if ?c then _ else _) => destruct c eqn:?
  end; simpl; auto using write_irq_pending_inv.
  1,2: apply write_irq_enable_inv; [|done]; unfold between in *; lia.
  - eapply ok_then_bind; [by apply write_irq_prios_pre|]. intros s' Hs'. simpl. by apply update_inv.
  - eapply ok_then_bind; [by apply write_shpr_pre|]. intros s' Hs'. simpl. by apply update_inv.
  - case_if; [|done]. eapply frame_inv; [apply write_cfsr_frame|done].
  - apply nvic_writel_inv; [|done..]. auto with word.
Qed.

Lemma sysreg_write_inv L addr value size attrs s :
  (secure attrs = true → FEATURE_M_SECURITY (model_of s) = true) →
  nvic_inv L s →
  ok_then (fun r => ∀ s', r = Some s' → nvic_inv L s') (nvic_sysreg_write addr value size attrs s).
Proof.
  intros Hsec Hs. unfold nvic_sysreg_write. case_if; [done|].
  eapply ok_then_bind; [by apply sysreg_write_body_inv|]. intros s' Hs' s'' [= <-].
  eapply frame_inv; [apply effect_frame|done].
Qed.

(** *** Reset and realize *)

Definition quiet (v : VecInfo) : Prop := prio_ok v ∧ pending v = false ∧ active v = false.

Definition all_quiet (s : NVICState) : Prop := ∀ b i, quiet (get_vec s b i).

Lemma quiet_upd b i f s :
  (∀ v, quiet v → quiet (f v)) → all_quiet s → all_quiet (upd_vec b i f s).
Proof.
  intros Hf Hq b' j. apply (upd_vec_all (fun _ _ v => quiet v)); [done|]. by apply Hf.
Qed.

Lemma quiet_recompute s : nvic_wf s → all_quiet s →
  cache (nvic_recompute_state s) = (0, NVIC_NOEXC_PRIO, NVIC_NOEXC_PRIO) ∧
  vectpending_is_s_banked (nvic_recompute_state s) = false.
Proof.
  intros Hs Hq. destruct (recompute_spec s Hs) as [Hb [_ Hl]]. unfold cache.
  destruct Hb as [([= -> ->] & -> & _)|(_ & _ & Hr & _)].
  - split; [|done]. f_equal. destruct Hl as [|(e & _ & _ & Ha & _)]; [done|].
    destruct (Hq e.2 e.1) as (_ & _ & Ha'). unfold entry_vec in Ha. congruence.
  - unfold ready, entry_vec in Hr. simpl in Hr. apply andb_true_iff in Hr as [_ Hr].
    destruct (Hq (vectpending_is_s_banked (nvic_recompute_state s))
                 (vectpending (nvic_recompute_state s))) as (_ & Hp & _). congruence.
Qed.

Lemma aget_replicate_any {A} (d : A) n i : aget d (replicate n d) i = d.
Proof.
  unfold aget. case_if; [done|]. destruct (replicate n d !! Z.to_nat i) eqn:H; [|done].
  by apply lookup_replicate in H as [-> _].
Qed.

Lemma reset_loop_alen (l : list bool) :
  alen (for_range NVIC_FIRST_IRQ NVIC_MAX_VECTORS (fun i l => aset l i true) l) = alen l.
Proof.
  apply (for_range_ind (fun _ l' => alen l' = alen l)); [done|done|].
  intros i l' _ <-. apply alen_aset.
Qed.

(** The fields of a reset controller that do not come from the vectors. *)
Record reset_fields (s s' : NVICState) : Prop := {
  rf_cpu : model_of s' = model_of s; rf_aircr : aircr (v7m_of s') = aircr (v7m_of s);
  rf_prigroup : prigroup s' = mk_banked 0 0; rf_bits : num_prio_bits s' = num_prio_bits s;
  rf_itns : alen (itns s) = NVIC_MAX_VECTORS → alen (itns s') = NVIC_MAX_VECTORS;
  rf_num : num_irq s' = num_irq s; rf_line : excpout s' = excpout s;
  rf_cache : cache s' = (0, NVIC_NOEXC_PRIO, NVIC_NOEXC_PRIO);
  rf_banked : vectpending_is_s_banked s' = false;
  rf_vectors : alen (vectors s') = NVIC_MAX_VECTORS;
  rf_sec_vectors : alen (sec_vectors s') = NVIC_INTERNAL_VECTORS;
  rf_quiet : all_quiet s';
  rf_reset : enabled (vec s' ARMV7M_EXCP_RESET) = false
}.

(** Assignments of the reset code keep the vectors quiet and their number. *)
Definition reset_vecs (s : NVICState) : Prop :=
  all_quiet s ∧ enabled (vec s ARMV7M_EXCP_RESET) = false ∧ alen (vectors s) = NVIC_MAX_VECTORS ∧ alen (sec_vectors s) = NVIC_INTERNAL_VECTORS.

Lemma reset_vecs_upd b i f s :
  (∀ v, quiet v → quiet (f v)) →
  (∀ v, b = false → i = ARMV7M_EXCP_RESET → enabled (f v) = enabled v) →
  reset_vecs s → reset_vecs (upd_vec b i f s).
Proof.
  intros Hf He (Hq & Hr & Hv & Hsv). destruct (upd_vec_alen b i f s) as [H1 H2].
  split_and!; [by apply quiet_upd| |by rewrite H1|by rewrite H2].
  apply (upd_vec_all (fun b j v => b = false → j = ARMV7M_EXCP_RESET → enabled v = false)
    b i f s) with (b' := false); [by intros ? ? -> ->| |done..].
  intros -> ->. by rewrite He.
Qed.

Lemma reset_assignments_vecs s : reset_vecs s → reset_vecs (reset_assignments s).
Proof.
  intros Hs. unfold reset_assignments, enable_vec, prio_vec, reset_prio.
  repeat match goal with
  | |- reset_vecs (upd_vec _ _ _ _) =>
      apply reset_vecs_upd;
      [intros v (Hp & ? & ?); split_and!; try done; try exact Hp;
       unfold prio_ok; simpl; try case_if; done|try done; by intros ? ? ?|]
  | |- reset_vecs (if ?b then _ else _) => destruct b
  end; done.
Qed.

Lemma reset_clear_vecs s : reset_vecs (reset_clear s).
Proof.
  split_and!.
  - intros b i. assert (get_vec (reset_clear s) b i = vec_zero) as ->; [|done].
    destruct b; apply aget_replicate_any.
  - change (enabled (aget vec_zero (replicate (Z.to_nat NVIC_MAX_VECTORS) vec_zero)
      ARMV7M_EXCP_RESET) = false). by rewrite aget_replicate_any.
  - apply alen_replicate.
  - apply alen_replicate.
Qed.

(** The parts each phase of the reset leaves alone. *)
Record reset_rest (s s' : NVICState) : Prop := {
  rr_cpu : cpu s' = cpu s; rr_prigroup : prigroup s' = prigroup s;
  rr_bits : num_prio_bits s' = num_prio_bits s; rr_num : num_irq s' = num_irq s;
  rr_line : excpout s' = excpout s;
  rr_itns : alen (itns s) = NVIC_MAX_VECTORS → alen (itns s') = NVIC_MAX_VECTORS
}.

Lemma reset_assignments_rest s : reset_rest s (reset_assignments s).
Proof. unfold reset_assignments. simpl. case_if; done. Qed.

Lemma reset_clear_rest s : reset_rest (s <| prigroup := mk_banked 0 0 |>) (reset_clear s).
Proof. done. Qed.

Lemma reset_cache_fields s :
  let s' := reset_cache s in
  reset_rest s s' ∧ (reset_vecs s → reset_vecs s') ∧
  cache s' = (0, NVIC_NOEXC_PRIO, NVIC_NOEXC_PRIO) ∧ vectpending_is_s_banked s' = false.
Proof.
  unfold reset_cache. cbv zeta. case_if; (split; [split; [reflexivity..|]|split_and!; [done|reflexivity..]]).
  - intros _. apply alen_replicate.
  - intros H. simpl. by rewrite reset_loop_alen.
Qed.

Lemma reset_fields_intro s s0 s1 s2 :
  reset_rest (s <| prigroup := mk_banked 0 0 |>) s0 → reset_rest s0 s1 → reset_rest s1 s2 →
  reset_vecs s2 → cache s2 = (0, NVIC_NOEXC_PRIO, NVIC_NOEXC_PRIO) →
  vectpending_is_s_banked s2 = false → reset_fields s (effect RebuildHflags s2).
Proof.
  intros [] [] [] (Hq & Hr & Hv & Hsv) Hc Hb. simpl in *.
  assert (cpu s2 = cpu s) as Hcpu by congruence.
  split; unfold effect, model_of, v7m_of, cache in *; simpl; rewrite ?Hcpu; try congruence; auto.
Qed.

Lemma reset_fields_ok s : reset_fields s (armv7m_nvic_reset s).
Proof.
  unfold armv7m_nvic_reset.
  destruct (reset_cache_fields (reset_assignments (reset_clear s))) as (H1 & H2 & H3 & H4).
  apply (reset_fields_intro s (reset_clear s) (reset_assignments (reset_clear s))); try assumption.
  - apply reset_clear_rest.
  - apply reset_assignments_rest.
  - apply H2, reset_assignments_vecs, reset_clear_vecs.
Qed.

Lemma reset_inv s : nvic_pre s → nvic_inv (irq_level (excpout s) =? 0) (armv7m_nvic_reset s).
Proof.
  intros [Hs Hc]. destruct (reset_fields_ok s). set (s' := armv7m_nvic_reset s) in *. clearbody s'.
  assert (nvic_wf s') as Hw.
  { destruct Hs. constructor; rewrite ?rf_num0, ?rf_prigroup0, ?rf_bits0; simpl; try done; auto.
    - intros i. apply (rf_quiet0 false i).
    - intros i. apply (rf_quiet0 true i).
    - unfold aircr_has. rewrite rf_cpu0, rf_aircr0. intros H. split; [|done].
      by apply nwf_no_security. }
  destruct (quiet_recompute s' Hw rf_quiet0) as [H1 H2].
  split_and!; [split; [done|by rewrite rf_line0]|split; congruence|].
  intros HL%Z.eqb_eq. unfold line_ok, cache in *. injection rf_cache0 as _ -> ->.
  by rewrite rf_line0, HL.
Qed.
