(* ===== verification/CortexM.v ===== *)
(** The CPU of the board: the Cortex-M7 model of
    qemu/target/arm/tcg/cpu-v7m.c, the feature tests of
    qemu/target/arm/cpu-features.h and the M-profile part of the reset in
    qemu/target/arm/cpu.c. *)

From S2P Require Import Prelude Irq NvicState.

(** ** Feature tests on the identification registers *)

Definition isar_feature_aa32_vfp_simd (mvfr0 : Z) : bool :=
  FIELD_EX32 mvfr0 (mk_field 0 4) >? 0.
Definition isar_feature_aa32_ras (id_pfr0 : Z) : bool :=
  truth (FIELD_EX32 id_pfr0 (mk_field 28 4)).
Definition isar_feature_aa32_mprofile (id_pfr1 : Z) : bool :=
  truth (FIELD_EX32 id_pfr1 (mk_field 8 4)).
Definition isar_feature_aa32_fp16_arith (id_pfr1 mvfr1 : Z) : bool :=
  if isar_feature_aa32_mprofile id_pfr1 then FIELD_EX32 mvfr1 (mk_field 20 4) >? 0
  else 3 <=? FIELD_EX32 mvfr1 (mk_field 24 4).
Definition isar_feature_aa32_mve (id_pfr1 mvfr1 : Z) : bool :=
  isar_feature_aa32_mprofile id_pfr1 && (FIELD_EX32 mvfr1 (mk_field 8 4) >? 0).
Definition isar_feature_aa32_m_sec_state (id_pfr1 : Z) : bool :=
  3 <=? FIELD_EX32 id_pfr1 (mk_field 4 4).
Definition isar_feature_aa32_lob (id_isar0 : Z) : bool :=
  3 <=? FIELD_EX32 id_isar0 (mk_field 12 4).

(** ** The Cortex-M7 *)

Definition cortex_m7_idregs (r : idreg) : Z :=
  match r with
  | ID_PFR0 => 0x00000030
  | ID_PFR1 => 0x00000200
  | ID_DFR0 => 0x00100000
  | ID_AFR0 => 0x00000000
  | ID_MMFR0 => 0x00100030
  | ID_MMFR1 => 0x00000000
  | ID_MMFR2 => 0x01000000
  | ID_MMFR3 => 0x00000000
  | ID_ISAR0 => 0x01101110
  | ID_ISAR1 => 0x02112000
  | ID_ISAR2 => 0x20232231
  | ID_ISAR3 => 0x01111131
  | ID_ISAR4 => 0x01310132
  | ID_ISAR5 => 0x00000000
  | CLIDR => 0
  end.

(** No [ID_AA64PFR0] is set, so FP16 is decided by the AArch32 test alone. *)
Definition cortex_m7_initfn : CpuModel :=
  let mvfr0' := 0x10110221 in
  let mvfr1' := 0x12000011 in
  mk_CpuModel true false false true true false true true false
    (isar_feature_aa32_mve (cortex_m7_idregs ID_PFR1) mvfr1')
    (isar_feature_aa32_m_sec_state (cortex_m7_idregs ID_PFR1)) None
    (isar_feature_aa32_vfp_simd mvfr0')
    (isar_feature_aa32_ras (cortex_m7_idregs ID_PFR0))
    (isar_feature_aa32_fp16_arith (cortex_m7_idregs ID_PFR1) mvfr1')
    (isar_feature_aa32_lob (cortex_m7_idregs ID_ISAR0))
    0x411fc272 0 0 (replicate 16 0) cortex_m7_idregs
    mvfr0' mvfr1' 0x00000040 8 0.

(** ** Reset of the M-profile state

    The initial stack pointer is read from the vector table; [init_svtor] and
    [init_nsvtor] are properties of the CPU. *)

Definition arm_cpu_reset_v7m (m : CpuModel) (init_svtor init_nsvtor initial_msp : Z) : V7M :=
  let zero := mk_banked 0 0 in
  let lob := if aa32_lob m then Z.shiftl 4 FPCR_LTPSIZE_SHIFT else 0 in
  let stkalign := field_mask CCR_STKALIGN in
  let ccr' := if FEATURE_V8 m then Z.lor stkalign (field_mask CCR_NONBASETHRDENA) else stkalign in
  let ccr' := if negb (FEATURE_M_MAIN m) then Z.lor ccr' (field_mask CCR_UNALIGN_TRP) else ccr' in
  let fpccr' :=
    if aa32_vfp_simd m
    then mk_banked (field_mask FPCCR_ASPEN)
           (Z.lor (masks [FPCCR_ASPEN; FPCCR_LSPEN]) (field_mask (mk_field 2 1)))
    else zero in
  mk_V7M (Z.land initial_msp 0xFFFFFFFC) 0 0 0 zero zero 0 (if aa32_lob m then 4 else 0)
    (mk_banked (Z.land init_nsvtor 0xffffff80) (Z.land init_svtor 0xffffff80))
    zero zero (mk_banked ccr' ccr') zero 0 0 0 zero 0 0 zero 0 zero zero
    (if FEATURE_M_SECURITY m then 0 else field_mask AIRCR_BFHFNMINS)
    (FEATURE_M_SECURITY m)
    zero zero zero fpccr' (mk_banked lob lob) zero
    (if FEATURE_M_SECURITY m then 0 else 0xcff).

(** The MPU with its regions cleared. *)
Definition mpu_reset (m : CpuModel) : MpuState :=
  let regions := replicate (Z.to_nat (pmsav7_dregion m)) 0 in
  let sau := replicate (Z.to_nat (sau_sregion m)) 0 in
  mk_MpuState (mk_banked 0 0) regions regions regions (mk_banked regions regions)
    (mk_banked regions regions) (mk_banked 0 0) (mk_banked 0 0) 0 0 sau sau.
