(* ===== verification/NvicSpec.v ===== *)
(** Theorems about the interrupt controller as a whole: the states the CPU,
    the guest and the devices can bring it to, the exception it offers, and
    what taking and completing exceptions does. *)

From S2P Require Import Prelude Irq NvicState NvicCore NvicRead NvicWrite NvicPrio NvicInv CortexM.

(** ** A controller as it is created *)

(** [armv7m_nvic_instance_init] with the two properties and a connected output
    line; [armv7m_nvic_realize] follows. *)
Definition nvic_instance (c : ArmCpu) (num_irq num_prio_bits : Z) (line : qemu_irq) : NVICState :=
  mk_NVICState c (replicate (Z.to_nat NVIC_MAX_VECTORS) vec_zero)
    (replicate (Z.to_nat NVIC_INTERNAL_VECTORS) vec_zero) (mk_banked 0 0) num_prio_bits
    (replicate (Z.to_nat NVIC_MAX_VECTORS) false) 0 false 0 0 num_irq line None.

Definition cpu_reset (m : CpuModel) (svtor nsvtor msp : Z) : ArmCpu :=
  mk_ArmCpu m (arm_cpu_reset_v7m m svtor nsvtor msp) (mpu_reset m) [].

(** What the CPU reset guarantees without the Security extension. *)
Definition cpu_ok (c : ArmCpu) : Prop :=
  FEATURE_M_SECURITY (model c) = false → has (aircr (v7m c)) (field_mask AIRCR_PRIS) = false.

Lemma realize_pre c n b line s :
  0 ≤ n → 0 ≤ b → connected line → cpu_ok c →
  armv7m_nvic_realize (nvic_instance c n b line) = Some s → nvic_pre s ∧ excpout s = line.
Proof.
  intros Hn Hb Hl Hpris. unfold armv7m_nvic_realize. case_if; [done|].
  destruct (num_irq (nvic_instance c n b line) >? NVIC_MAX_IRQ) eqn:Hmax; [done|].
  cbv zeta. set (s0 := (nvic_instance c n b line) <| num_irq ::= fun n => n + NVIC_FIRST_IRQ |>).
  rewrite Z.gtb_ltb, Z.ltb_ge in Hmax. simpl in Hmax.
  assert (∀ k, 2 ≤ k ≤ 8 → nvic_pre (s0 <| num_prio_bits := k |>)) as Hpre.
  { intros k Hk. split; [|done].
    assert (∀ b i, get_vec (s0 <| num_prio_bits := k |>) b i = vec_zero) as Hz
      by (intros b' i; destruct b'; apply aget_replicate_any).
    constructor; try done.
    - unfold s0, NVIC_MAX_IRQ, NVIC_MAX_VECTORS, NVIC_FIRST_IRQ, NVIC_INTERNAL_VECTORS in *.
      simpl. lia.
    - intros i. by rewrite (Hz false i : vec _ i = _).
    - intros i. by rewrite (Hz true i : sec_vec _ i = _).
    - intros Hf. split; [by apply Hpris|done]. }
  case_if.
  - intros [= <-]. split; [|done]. apply Hpre. case_if; lia.
  - destruct (_ || _) eqn:Hr; [done|]. intros [= <-]. apply orb_false_iff in Hr as [H1 H2].
    rewrite Z.gtb_ltb, !Z.ltb_ge in *. split; [|done].
    change s0 with (s0 <| num_prio_bits := num_prio_bits s0 |>) at 1. apply Hpre.
    revert H1. case_if; lia.
Qed.

(** ** Reachable states *)

(** One operation on the controller; the flag says whether the operation keeps
    the output line up to date. *)
Inductive nvic_op : bool → NVICState → NVICState → Prop :=
| op_write addr value size attrs s s' :
    (secure attrs = true → FEATURE_M_SECURITY (model_of s) = true) →
    nvic_sysreg_write addr value size attrs s = Ok (Some s') → nvic_op true s s'
| op_irq n l s s' : set_irq_level n l s = Ok s' → nvic_op true s s'
| op_nmi n l s s' : nvic_nmi_trigger n l s = Ok s' → nvic_op true s s'
| op_systick n l s s' : nvic_systick_trigger n l s = Ok s' → nvic_op true s s'
| op_pend irq sec derived s s' :
    do_armv7m_nvic_set_pending irq sec derived s = Ok s' → nvic_op true s s'
| op_ack s s' : armv7m_nvic_acknowledge_irq s = Ok s' → nvic_op true s s'
| op_complete irq sec s s' ret :
    armv7m_nvic_complete_irq irq sec s = Ok (s', ret) → nvic_op true s s'
| op_cpu f s : (∀ m, aircr (f m) = aircr m) → nvic_op true s (set_v7m f s)
| op_lazyfp irq sec s s' : armv7m_nvic_set_pending_lazyfp irq sec s = Ok s' → nvic_op false s s'
| op_reset s : nvic_op false s (armv7m_nvic_reset s).

(** States reached from a fresh, reset controller; the flag says that every
    operation since kept the line up to date. *)
Inductive nvic_reach : bool → NVICState → Prop :=
| reach_reset c n b calls s :
    0 ≤ n → 0 ≤ b → cpu_ok c → irq_level (Some calls) = 0 →
    armv7m_nvic_realize (nvic_instance c n b (Some calls)) = Some s →
    nvic_reach true (armv7m_nvic_reset s)
| reach_op L L' s s' : nvic_reach L s → nvic_op L' s s' → nvic_reach (L && L') s'.

Lemma inv_weaken L s : nvic_inv L s → nvic_inv false s.
Proof. intros (? & ? & _). by split_and!. Qed.

Lemma op_inv L s s' : nvic_op L s s' → ∀ L0, nvic_inv L0 s → nvic_inv (L0 && L) s'.
Proof.
  intros Hop L0 Hs. destruct Hop as
    [addr value size attrs s s' Hsec H|n l s s' H|n l s s' H|n l s s' H|irq b d s s' H
    |s s' H|irq b s s' ret H|f s Hf|irq b s s' H|s]; rewrite ?andb_true_r, ?andb_false_r.
  - pose proof (sysreg_write_inv L0 addr value size attrs s Hsec Hs) as Hw. rewrite H in Hw.
    by apply Hw.
  - pose proof (set_irq_level_inv L0 n l s Hs) as Hw. by rewrite H in Hw.
  - unfold nvic_nmi_trigger in H. case_match; [|by injection H as <-].
    pose proof (do_set_pending_inv L0 ARMV7M_EXCP_NMI false false s Hs) as Hw.
    unfold armv7m_nvic_set_pending in H. by rewrite H in Hw.
  - unfold nvic_systick_trigger in H. case_match; [|by injection H as <-].
    pose proof (do_set_pending_inv L0 ARMV7M_EXCP_SYSTICK (truth n) false s Hs) as Hw.
    unfold armv7m_nvic_set_pending in H. by rewrite H in Hw.
  - pose proof (do_set_pending_inv L0 irq b d s Hs) as Hw. by rewrite H in Hw.
  - pose proof (acknowledge_inv L0 s Hs) as Hw. by rewrite H in Hw.
  - pose proof (complete_inv L0 irq b s Hs) as Hw. by rewrite H in Hw.
  - eapply frame_inv; [by apply set_v7m_frame|done].
  - pose proof (set_pending_lazyfp_inv L0 irq b s Hs) as Hw. by rewrite H in Hw.
  - eapply inv_weaken, reset_inv, Hs.
Qed.

Lemma reach_inv L s : nvic_reach L s → nvic_inv L s.
Proof.
  induction 1 as [c n b calls s Hn Hb Hc Hl Hr|L L' s s' _ IH Hop].
  - destruct (realize_pre c n b (Some calls) s Hn Hb ltac:(by eexists) Hc Hr) as [Hp He].
    pose proof (reset_inv s Hp) as Hi. by rewrite He, Hl in Hi.
  - by apply (op_inv L' s).
Qed.

Lemma inv_cache L s : nvic_inv L s → cache_spec s s.
Proof.
  intros ([Hw _] & [Hc Hb] & _). pose proof (recompute_spec s Hw) as Hr.
  unfold cache_spec, cache in *. injection Hc as H1 H2 H3. by rewrite Hb, H1, H2, H3 in Hr.
Qed.

(** C1.  The cached state is right.  In every state reached from reset by
    guest register writes, input-line changes, exceptions raised, taken and
    completed by the CPU, and changes of the CPU's own registers, VECTPENDING
    is the pending enabled exception that the architecture's precedence rule
    selects, its cached group priority and the cached execution priority are
    those of the vectors, and the output line is high exactly when that
    exception has a lower (more urgent) group priority than every active one. *)
Theorem nvic_cache_correct L s :
  nvic_reach L s → nvic_wf s ∧ cache_spec s s ∧ (L = true → line_ok s).
Proof.
  intros Hr. pose proof (reach_inv L s Hr) as Hi. split_and!.
  - apply Hi.
  - by apply (inv_cache L).
  - apply Hi.
Qed.

(** ** Taking the pending exception *)

Lemma group_prio_ext s s' e :
  prigroup s' = prigroup s → itns s' = itns s → model_of s' = model_of s →
  aircr (v7m_of s') = aircr (v7m_of s) →
  prio (entry_vec s' e) = prio (entry_vec s e) → group_prio s' e = group_prio s e.
Proof.
  intros H1 H2 H3 H4 H5.
  unfold group_prio, targets_secure, targets_secure_of, exc_group_prio, nvic_gprio_mask, aircr_has.
  by rewrite H1, H2, H3, H4, H5.
Qed.

Lemma exception_prio_le L s : nvic_inv L s → exception_prio s ≤ NVIC_NOEXC_PRIO.
Proof.
  intros Hi. destruct (inv_cache L s Hi) as [_ [_ [->|(e & _ & _ & _ & ->)]]]; [lia|].
  pose proof (group_prio_range s e ltac:(apply Hi)). unfold NVIC_NOEXC_PRIO. lia.
Qed.

Lemma exec_prio_le s : nvic_exec_prio s ≤ exception_prio s.
Proof. unfold nvic_exec_prio. apply Z.le_min_r. Qed.

(** The exception the controller offers. *)
Definition offered (s : NVICState) : entry := (vectpending s, vectpending_is_s_banked s).

Lemma can_take_offered L s :
  nvic_inv L s → armv7m_nvic_can_take_pending_exception s = true →
  vectpending_prio s < exception_prio s ∧
  exists_entry s (offered s) ∧ ready s (offered s) = true ∧
  vectpending_prio s = group_prio s (offered s) ∧ ARMV7M_EXCP_RESET < vectpending s ∧
  ∀ e, exists_entry s e → ready s e = true → precedes s (offered s) e.
Proof.
  intros Hi Hc. unfold armv7m_nvic_can_take_pending_exception, nvic_pending_prio in Hc.
  rewrite Z.gtb_ltb, Z.ltb_lt in Hc. pose proof (exec_prio_le s). pose proof (exception_prio_le L s Hi).
  destruct (inv_cache L s Hi) as [[(_ & Hp & _)|(_ & Hex & Hr & Hp & Hall)] _]; [lia|].
  split_and!; try done; [lia| |intros e; by apply Hall].
  destruct Hex as [[Hge _] Hb]. simpl in Hge, Hb. unfold ARMV7M_EXCP_RESET.
  destruct (Z.eq_dec (vectpending s) 1) as [Heq|]; [|lia]. exfalso.
  unfold offered, ready, entry_vec in Hr. simpl in Hr. rewrite Heq in Hr, Hb.
  destruct (vectpending_is_s_banked s); [by destruct (Hb eq_refl)|]. simpl in Hr.
  destruct Hi as [[Hw _] _]. pose proof (nwf_reset s Hw) as Hd. unfold ARMV7M_EXCP_RESET in Hd.
  by rewrite Hd in Hr.
Qed.

(** The vectors, and the inputs of prioritization, after [nvic_irq_update]. *)
Lemma update_vec s b i : get_vec (nvic_irq_update s) b i = get_vec s b i.
Proof.
  unfold nvic_irq_update, nvic_recompute_state, nvic_recompute_state_secure.
  case_if; by destruct b.
Qed.

Lemma update_rest s :
  let s' := nvic_irq_update s in
  cpu s' = cpu s ∧ prigroup s' = prigroup s ∧ itns s' = itns s ∧ num_irq s' = num_irq s ∧
  num_prio_bits s' = num_prio_bits s ∧ alen (vectors s') = alen (vectors s).
Proof.
  unfold nvic_irq_update, nvic_recompute_state, nvic_recompute_state_secure. case_if; done.
Qed.

Lemma exists_in_bounds s e : nvic_wf s → exists_entry s e →
  0 ≤ e.1 < alen (if e.2 then sec_vectors s else vectors s).
Proof.
  intros Hs [Hi Hb]. destruct e as [i b]. simpl in *. pose proof (nwf_num_irq s Hs) as Hn.
  destruct b; rewrite ?(nwf_vectors s Hs), ?(nwf_sec_vectors s Hs); [|lia].
  destruct (Hb eq_refl) as [Hbk _]. revert Hbk. unfold exc_is_banked, NVIC_INTERNAL_VECTORS.
  rewrite !orb_true_iff, !Z.eqb_eq.
  unfold ARMV7M_EXCP_HARD, ARMV7M_EXCP_MEM, ARMV7M_EXCP_USAGE, ARMV7M_EXCP_SVC,
    ARMV7M_EXCP_PENDSV, ARMV7M_EXCP_SYSTICK. lia.
Qed.

(** The state after the offered exception has been made active. *)
Definition taken (s : NVICState) : NVICState :=
  nvic_irq_update (set_v7m (write_v7m_exception (vectpending s))
    (upd_vec (offered s).2 (offered s).1 (fun v => v <| active := true |> <| pending := false |>) s)).

Lemma taken_vec s e : nvic_wf s → exists_entry s (offered s) →
  entry_vec (taken s) e =
    if decide (e = offered s)
    then (entry_vec s e) <| active := true |> <| pending := false |> else entry_vec s e.
Proof.
  intros Hs Hex. unfold entry_vec, taken. rewrite update_vec.
  change (get_vec (set_v7m ?f ?s) ?b ?i) with (get_vec s b i).
  rewrite get_upd_vec by by apply exists_in_bounds.
  destruct (decide (e = offered s)) as [->|Hne].
  - rewrite eqb_reflx, Z.eqb_refl. done.
  - destruct (eqb (offered s).2 e.2) eqn:Hb; [rewrite andb_true_l|done].
    destruct (Z.eqb_spec (offered s).1 e.1) as [Heq|]; [|done].
    apply eqb_prop in Hb. exfalso. apply Hne. rewrite (surjective_pairing e),
      (surjective_pairing (offered s)). by rewrite Heq, Hb.
Qed.

Lemma write_exception_aircr e m : aircr (write_v7m_exception e m) = aircr m.
Proof. unfold write_v7m_exception. by case_if. Qed.

Lemma write_exception_exception e m : exception (write_v7m_exception e m) = e.
Proof. unfold write_v7m_exception. by case_if. Qed.

Lemma taken_rest s :
  let s' := taken s in
  prigroup s' = prigroup s ∧ itns s' = itns s ∧ model_of s' = model_of s ∧
  aircr (v7m_of s') = aircr (v7m_of s) ∧ num_irq s' = num_irq s ∧
  exception (v7m_of s') = vectpending s.
Proof.
  unfold taken. match goal with |- context [nvic_irq_update ?x] => set (s1 := x) end.
  destruct (update_rest s1) as (H1 & H2 & H3 & H4 & _). cbv zeta.
  unfold model_of, v7m_of. rewrite H1, H2, H3, H4. unfold s1, offered. simpl.
  destruct (vectpending_is_s_banked s); simpl;
    rewrite write_exception_aircr, write_exception_exception; done.
Qed.

Lemma taken_group s e : nvic_wf s → exists_entry s (offered s) →
  group_prio (taken s) e = group_prio s e.
Proof.
  intros Hs Hex. destruct (taken_rest s) as (H1 & H2 & H3 & H4 & _).
  apply group_prio_ext; try done. rewrite taken_vec by done. by case_decide.
Qed.

Lemma acknowledge_taken L s :
  nvic_inv L s → armv7m_nvic_can_take_pending_exception s = true →
  armv7m_nvic_acknowledge_irq s = Ok (taken s).
Proof.
  intros Hi Hc. destruct (can_take_offered L s Hi Hc) as (_ & Hex & Hr & _ & Hgt & _).
  unfold ready, entry_vec in Hr. apply andb_true_iff in Hr as [He Hp].
  unfold armv7m_nvic_can_take_pending_exception, nvic_pending_prio in Hc.
  rewrite Z.gtb_ltb in Hc. unfold armv7m_nvic_acknowledge_irq. simpl in He, Hp.
  rewrite He, Hp, Hc. destruct Hex as [[_ Hlt] _]. simpl in Hlt.
  destruct (Z.ltb_spec ARMV7M_EXCP_RESET (vectpending s)); [|lia].
  destruct (Z.ltb_spec (vectpending s) (num_irq s)); [|lia]. simpl. unfold taken. simpl.
  by destruct (vectpending_is_s_banked s).
Qed.

Lemma taken_inv L s :
  nvic_inv L s → armv7m_nvic_can_take_pending_exception s = true → nvic_inv L (taken s).
Proof.
  intros Hi Hc. pose proof (acknowledge_inv L s Hi) as H. by rewrite (acknowledge_taken L) in H.
Qed.

Lemma taken_exists s e : exists_entry (taken s) e ↔ exists_entry s e.
Proof.
  destruct (taken_rest s) as (_ & _ & H3 & _ & H5 & _). unfold exists_entry. by rewrite H3, H5.
Qed.

Lemma taken_exception_prio L s :
  nvic_inv L s → armv7m_nvic_can_take_pending_exception s = true →
  exception_prio (taken s) = vectpending_prio s.
Proof.
  intros Hi Hc. destruct (can_take_offered L s Hi Hc) as (Hlt & Hex & _ & Hp & _ & _).
  pose proof (proj1 (proj1 Hi)) as Hw.
  destruct (inv_cache L _ (taken_inv L s Hi Hc)) as [_ [Hlow Hin]].
  assert (exception_prio (taken s) ≤ vectpending_prio s) as Hle.
  { rewrite Hp, <- (taken_group s) by done. apply Hlow; [done|by apply taken_exists|].
    rewrite taken_vec by done. by rewrite decide_True. }
  destruct Hin as [Hn|(e & _ & Hex' & Ha & Hg)].
  { pose proof (exception_prio_le L s Hi). lia. }
  rewrite taken_group in Hg by done. destruct (decide (e = offered s)) as [->|Hne]; [lia|].
  rewrite taken_vec, decide_False in Ha by done. apply (proj1 (taken_exists s _)) in Hex'.
  destruct (inv_cache L s Hi) as [_ [Hlow' _]]. specialize (Hlow' e I Hex' Ha). lia.
Qed.

Lemma taken_no_preempt L s :
  nvic_inv L s → armv7m_nvic_can_take_pending_exception s = true →
  armv7m_nvic_can_take_pending_exception (taken s) = false.
Proof.
  intros Hi Hc. destruct (can_take_offered L s Hi Hc) as (Hlt & Hex & _ & Hp & _ & Hall).
  pose proof (proj1 (proj1 Hi)) as Hw. pose proof (exec_prio_le (taken s)) as Hle.
  rewrite (taken_exception_prio L) in Hle by done. pose proof (exception_prio_le L s Hi).
  unfold armv7m_nvic_can_take_pending_exception, nvic_pending_prio.
  rewrite Z.gtb_ltb, Z.ltb_ge.
  destruct (inv_cache L _ (taken_inv L s Hi Hc)) as [[(_ & -> & _)|(_ & Hex' & Hr' & -> & _)] _]; [lia|].
  rewrite taken_group by done. rewrite Hp in Hle.
  set (e := (vectpending (taken s), vectpending_is_s_banked (taken s))) in *.
  apply (proj1 (taken_exists s _)) in Hex'. unfold ready in Hr'. rewrite taken_vec in Hr' by done.
  destruct (decide (e = offered s)) as [Heq|Hne].
  { rewrite decide_True in Hr' by done. simpl in Hr'. by rewrite andb_false_r in Hr'. }
  rewrite decide_False in Hr' by done. specialize (Hall e Hex' Hr'). unfold precedes in Hall. lia.
Qed.

(** C2.  Taking an exception.  Whenever the CPU may take the pending exception,
    acknowledging it succeeds (no assertion fails), exactly that vector
    becomes active and stops being pending, IPSR holds its number, the
    execution priority becomes its group priority, and no exception that is
    still pending can preempt it. *)
Theorem nvic_acknowledge L s :
  nvic_reach L s → armv7m_nvic_can_take_pending_exception s = true →
  ∃ s', armv7m_nvic_acknowledge_irq s = Ok s' ∧
    (∀ e, entry_vec s' e =
       if decide (e = offered s)
       then (entry_vec s e) <| active := true |> <| pending := false |> else entry_vec s e) ∧
    ready s (offered s) = true ∧ exception (v7m_of s') = vectpending s ∧
    exception_prio s' = group_prio s (offered s) ∧
    armv7m_nvic_can_take_pending_exception s' = false.
Proof.
  intros Hr Hc. apply reach_inv in Hr as Hi. exists (taken s).
  destruct (can_take_offered L s Hi Hc) as (_ & Hex & Hrd & Hp & _).
  split_and!; [by apply (acknowledge_taken L)| |done|by apply taken_rest| |by apply (taken_no_preempt L)].
  - intros e. apply taken_vec; [apply Hi|done].
  - by rewrite (taken_exception_prio L), Hp.
Qed.
