(* ===== verification/NvicIrq.v ===== *)
(** Interrupt lines and completion: what a change of an input line does, and
    what the return from a handler does on a v7M CPU. *)

From S2P Require Import Prelude Irq NvicState NvicCore NvicRead NvicWrite NvicPrio NvicInv NvicSpec.

(** ** Asynchronous exceptions are pended without escalation *)

Lemma exc_targets_secure_ok s exc : exc_is_banked exc = false →
  exc_targets_secure s exc = Ok (targets_secure_of s exc).
Proof. intros Hb. unfold exc_targets_secure. rewrite Hb. by case_if. Qed.

Lemma set_pending_async irq secure s :
  irq = ARMV7M_EXCP_NMI ∨ ARMV7M_EXCP_PENDSV ≤ irq → irq < num_irq s →
  (secure = true → exc_is_banked irq = true) →
  armv7m_nvic_set_pending irq secure s = Ok (pend_vec secure irq s).
Proof.
  intros Hirq Hn Hb. unfold armv7m_nvic_set_pending, do_armv7m_nvic_set_pending.
  assert (((ARMV7M_EXCP_RESET <? irq) && (irq <? num_irq s)) = true) as ->.
  { unfold ARMV7M_EXCP_RESET, ARMV7M_EXCP_NMI, ARMV7M_EXCP_PENDSV in *. lia. }
  assert ((negb secure || exc_is_banked irq) = true) as ->.
  { destruct secure; [by rewrite Hb|done]. }
  assert ((exc_is_banked irq && secure) = secure) as Hbank.
  { destruct secure; [by rewrite Hb|apply andb_false_r]. }
  simpl. rewrite Hbank.
  assert (∀ ts, set_pending_escalate irq secure secure ts s = Ok (pend_vec secure irq s)) as Hesc.
  { intros ts. unfold set_pending_escalate.
    assert (((ARMV7M_EXCP_HARD <=? irq) && (irq <? ARMV7M_EXCP_PENDSV)) = false) as ->; [|done].
    unfold ARMV7M_EXCP_HARD, ARMV7M_EXCP_NMI, ARMV7M_EXCP_PENDSV in *. lia. }
  destruct (exc_is_banked irq) eqn:Hbk; simpl; [apply Hesc|].
  rewrite exc_targets_secure_ok by done. apply Hesc.
Qed.

Lemma clear_pending_ok irq secure s :
  ARMV7M_EXCP_RESET < irq < num_irq s → (secure = true → exc_is_banked irq = true) →
  ∃ s', armv7m_nvic_clear_pending irq secure s = Ok s'.
Proof.
  intros Hirq Hb. unfold armv7m_nvic_clear_pending.
  assert (((ARMV7M_EXCP_RESET <? irq) && (irq <? num_irq s)) = true) as -> by lia.
  assert ((negb secure || exc_is_banked irq) = true) as ->.
  { destruct secure; [by rewrite Hb|done]. }
  simpl. case_if; by eexists.
Qed.

Lemma pend_vec_get b i s b' j :
  0 ≤ i < alen (if b : bool then sec_vectors s else vectors s) →
  get_vec (pend_vec b i s) b' j =
    if eqb b b' && (i =? j) then (get_vec s b i) <| pending := true |> else get_vec s b' j.
Proof.
  intros Hi. unfold pend_vec. destruct (pending (get_vec s b i)) eqn:Hp; simpl.
  - destruct (eqb b b') eqn:Hb; [|done]. apply eqb_prop in Hb as <-.
    destruct (Z.eqb_spec i j) as [<-|]; [|done]. simpl.
    destruct (get_vec s b i). simpl in *. by subst.
  - rewrite update_vec. by apply get_upd_vec.
Qed.

Lemma vec_ext v w :
  prio v = prio w → enabled v = enabled w → pending v = pending w → active v = active w →
  level v = level w → v = w.
Proof. destruct v, w. simpl. by intros -> -> -> -> ->. Qed.

(** ** Input lines *)

Lemma irq_bounds s n : nvic_wf s → 0 ≤ n < num_irq s - NVIC_FIRST_IRQ →
  0 ≤ n + NVIC_FIRST_IRQ < alen (vectors s).
Proof.
  intros Hs Hn. rewrite (nwf_vectors s Hs). pose proof (nwf_num_irq s Hs).
  unfold NVIC_FIRST_IRQ, NVIC_INTERNAL_VECTORS in *. lia.
Qed.

Lemma set_irq_level_spec s n l :
  nvic_wf s → 0 ≤ n < num_irq s - NVIC_FIRST_IRQ → l = 0 ∨ l = 1 →
  ∃ s', set_irq_level n l s = Ok s' ∧
    vec s' (n + NVIC_FIRST_IRQ) =
      (vec s (n + NVIC_FIRST_IRQ)) <| level := l |>
        <| pending ::= fun p => p || truth l && negb (l =? level (vec s (n + NVIC_FIRST_IRQ))) |> ∧
    ∀ b i, (b, i) ≠ (false, n + NVIC_FIRST_IRQ) → get_vec s' b i = get_vec s b i.
Proof.
  intros Hw Hn Hl.
  pose proof (irq_bounds s n Hw Hn) as Hb. set (k := n + NVIC_FIRST_IRQ) in *.
  unfold set_irq_level. fold k.
  assert (((NVIC_FIRST_IRQ <=? k) && (k <? num_irq s)) = true) as -> by lia.
  simpl. destruct (Z.eqb_spec l (level (vec s k))) as [Heq|Hne]; simpl.
  { exists s. split_and!; try done. apply vec_ext; simpl; try done.
    by rewrite andb_false_r, orb_false_r. }
  set (s1 := upd_vec false k (fun v => v <| level := u8 l |>) s).
  assert (alen (vectors s1) = alen (vectors s)) as Ha by apply (upd_vec_alen false).
  assert (∀ b i, get_vec s1 b i =
    if eqb false b && (k =? i) then (vec s k) <| level := u8 l |> else get_vec s b i) as Hg
    by (intros; by apply (get_upd_vec false)).
  assert (vec s1 k = (vec s k) <| level := u8 l |>) as Hk
    by (specialize (Hg false k); rewrite Z.eqb_refl in Hg; exact Hg).
  assert (u8 l = l) as Hu by (by destruct Hl as [->| ->]).
  assert (∀ b i, (b, i) ≠ (false, k) → (eqb false b && (k =? i)) = false) as Hoth.
  { intros b i Hbi. destruct b; [done|]. simpl. destruct (Z.eqb_spec k i); [congruence|done]. }
  destruct Hl as [->| ->]; [change (truth 0) with false|change (truth 1) with true]; cbv iota.
  - exists s1. split_and!; [done| |].
    + rewrite Hk, Hu. apply vec_ext; simpl; try done. by rewrite orb_false_r.
    + intros b i Hbi. by rewrite Hg, Hoth.
  - change (armv7m_nvic_set_pending k false _) with (armv7m_nvic_set_pending k false s1).
    rewrite (set_pending_async k false s1); [| |by simpl; lia|done].
    2: { right. unfold k, ARMV7M_EXCP_PENDSV, NVIC_FIRST_IRQ, NVIC_INTERNAL_VECTORS. lia. }
    exists (pend_vec false k s1). split_and!; [done| |].
    + change (vec (pend_vec false k s1) k) with (get_vec (pend_vec false k s1) false k).
      rewrite pend_vec_get by (cbv iota; rewrite Ha; exact Hb). rewrite Z.eqb_refl. simpl. rewrite Hk, Hu.
      apply vec_ext; simpl; try done. by rewrite orb_true_r.
    + intros b i Hbi. rewrite pend_vec_get by (cbv iota; rewrite Ha; exact Hb). by rewrite Hoth, Hg, Hoth.
Qed.

(** A change of an input line.  The handler of an interrupt line never
    fails for a line the controller has; it records the level, makes the
    interrupt pending exactly on a rising edge (a falling edge leaves it
    pending), and touches no other vector. *)
Lemma nvic_line_change L s n l :
  nvic_reach L s → 0 ≤ n < num_irq s - NVIC_FIRST_IRQ → l = 0 ∨ l = 1 →
  ∃ s', set_irq_level n l s = Ok s' ∧
    vec s' (n + NVIC_FIRST_IRQ) =
      (vec s (n + NVIC_FIRST_IRQ)) <| level := l |>
        <| pending ::= fun p => p || truth l && negb (l =? level (vec s (n + NVIC_FIRST_IRQ))) |> ∧
    ∀ b i, (b, i) ≠ (false, n + NVIC_FIRST_IRQ) → get_vec s' b i = get_vec s b i.
Proof.
  intros Hr. apply set_irq_level_spec. by destruct (reach_inv L s Hr) as [[Hw _] _].
Qed.

(** ** Completion *)

(** Whether [nvic_rettobase] counts the exception. *)
Definition counted (s : NVICState) (i : Z) : bool :=
  active (vec s i) ||
  FEATURE_M_SECURITY (model_of s) && (i <? NVIC_INTERNAL_VECTORS) && active (sec_vec s i).

Lemma rettobase_loop_one s l :
  rettobase_loop s l 1 = true ↔ ∀ i, i ∈ l → counted s i = false.
Proof.
  induction l as [|i l IH]; simpl.
  - split; [by intros _ i ?%elem_of_nil|done].
  - fold (counted s i). destruct (counted s i) eqn:Hc; simpl.
    + split; [done|]. intros H. rewrite (H i) in Hc by left. done.
    + rewrite IH. split; intros H j Hj; [|apply H; by right].
      apply elem_of_cons in Hj as [->|Hj]; auto.
Qed.

Lemma rettobase_loop_zero s l x :
  NoDup l → x ∈ l → counted s x = true →
  rettobase_loop s l 0 = true ↔ ∀ i, i ∈ l → i ≠ x → counted s i = false.
Proof.
  induction l as [|i l IH]; intros Hnd Hin Hx; [by apply elem_of_nil in Hin|].
  apply NoDup_cons in Hnd as [Hni Hnd]. simpl. fold (counted s i).
  apply elem_of_cons in Hin as [->|Hin].
  - rewrite Hx. simpl. rewrite rettobase_loop_one. split; intros H j Hj.
    + intros Hne. apply elem_of_cons in Hj as [->|Hj]; [done|auto].
    + apply H; [by right|]. by intros ->.
  - assert (x ≠ i) as Hne by (by intros ->). destruct (counted s i) eqn:Hc; simpl.
    + rewrite rettobase_loop_one. split; intros H; exfalso.
      * by rewrite (H x Hin) in Hx.
      * rewrite (H i) in Hc; [done|by left|done].
    + rewrite IH by done. split; intros H j Hj; [|apply H; by right].
      apply elem_of_cons in Hj as [->|Hj]; auto.
Qed.

Lemma rettobase_spec s x :
  FEATURE_M_SECURITY (model_of s) = false → 1 ≤ x < num_irq s → active (vec s x) = true →
  nvic_rettobase s = true ↔ ∀ i, 1 ≤ i < num_irq s → i ≠ x → active (vec s i) = false.
Proof.
  intros Hf Hx Ha.
  assert (∀ i, counted s i = active (vec s i)) as Hc
    by (intros i; unfold counted; rewrite Hf; by rewrite orb_false_r).
  unfold nvic_rettobase, ARMV7M_EXCP_RESET. rewrite (rettobase_loop_zero s _ x).
  - setoid_rewrite elem_of_seqZ. setoid_rewrite Hc. split; intros H i Hi; apply H; lia.
  - apply NoDup_seqZ.
  - apply elem_of_seqZ. lia.
  - by rewrite Hc.
Qed.

(** The vectors after a completion. *)
Definition completed (s : NVICState) (irq : Z) : NVICState :=
  let s1 := upd_vec false irq (fun v => v <| active := false |>) s in
  if truth (level (get_vec s1 false irq))
  then upd_vec false irq (fun v => v <| pending := true |>) s1 else s1.

Lemma complete_core s irq :
  FEATURE_V8 (model_of s) = false → FEATURE_M_SECURITY (model_of s) = false →
  ARMV7M_EXCP_RESET < irq < num_irq s → (irq < NVIC_FIRST_IRQ → level (vec s irq) = 0) →
  0 ≤ irq < alen (vectors s) →
  armv7m_nvic_complete_irq irq false s =
    Ok (nvic_irq_update (completed s irq),
        if negb (active (vec s irq)) then -1 else of_bool (nvic_rettobase s)).
Proof.
  intros H8 Hf Hirq Hlow Hlen. unfold armv7m_nvic_complete_irq.
  destruct (Z.ltb_spec ARMV7M_EXCP_RESET irq); [|lia]. destruct (Z.ltb_spec irq (num_irq s)); [|lia].
  assert ((if exc_is_banked irq then mret false
           else ts ← exc_targets_secure s irq; mret (negb (eqb ts false))) = Ok false) as ->.
  { unfold exc_targets_secure, targets_secure_of. rewrite Hf. by destruct (exc_is_banked irq). }
  unfold complete_vec, completed. rewrite H8. cbn [andb]. cbv zeta.
  set (s1 := upd_vec false irq (fun v => v <| active := false |>) s).
  transitivity (
    (if truth (level (get_vec s1 false irq))
     then assert_c (NVIC_FIRST_IRQ <=? irq);;
          mret (upd_vec false irq (fun v => v <| pending := true |>) s1)
     else mret s1) ≫=
    fun s0 => mret (nvic_irq_update s0,
      if negb (active (vec s irq)) then -1 else of_bool (nvic_rettobase s)) : outcome _);
    [reflexivity|].
  destruct (truth (level (get_vec s1 false irq))) eqn:Hl; [|done].
  destruct (Z.leb_spec NVIC_FIRST_IRQ irq); [done|]. exfalso. revert Hl.
  unfold s1. rewrite (get_upd_vec false) by done. rewrite Z.eqb_refl. cbn. by rewrite Hlow.
Qed.

Lemma complete_external s irq :
  nvic_wf s → FEATURE_V8 (model_of s) = false → FEATURE_M_SECURITY (model_of s) = false →
  NVIC_FIRST_IRQ ≤ irq < num_irq s →
  armv7m_nvic_complete_irq irq false s =
    Ok (nvic_irq_update (completed s irq),
        if negb (active (vec s irq)) then -1 else of_bool (nvic_rettobase s)).
Proof.
  intros Hw H8 Hf Hirq. pose proof (nwf_num_irq s Hw). pose proof (nwf_vectors s Hw) as Hv.
  unfold NVIC_FIRST_IRQ, NVIC_INTERNAL_VECTORS in *.
  apply complete_core; rewrite ?Hv; unfold ARMV7M_EXCP_RESET, NVIC_FIRST_IRQ, NVIC_INTERNAL_VECTORS;
    done || lia.
Qed.

Lemma completed_vec s irq b i : 0 ≤ irq < alen (vectors s) →
  get_vec (completed s irq) b i =
    if eqb false b && (irq =? i)
    then (vec s irq) <| active := false |> <| pending ::= fun p => p || truth (level (vec s irq)) |>
    else get_vec s b i.
Proof.
  intros Hb. unfold completed. set (s1 := upd_vec false irq (fun v => v <| active := false |>) s).
  assert (∀ b i, get_vec s1 b i = if eqb false b && (irq =? i)
    then (vec s irq) <| active := false |> else get_vec s b i) as Hg
    by (intros; by apply (get_upd_vec false)).
  assert (alen (vectors s1) = alen (vectors s)) as Ha by apply (upd_vec_alen false).
  assert (get_vec s1 false irq = (vec s irq) <| active := false |>) as Hk
    by (rewrite Hg, Z.eqb_refl; done).
  clearbody s1. rewrite Hk. simpl level.
  destruct (truth (level (vec s irq))) eqn:Hl.
  - rewrite (get_upd_vec false) by (rewrite Ha; exact Hb). rewrite Hk, Hg.
    destruct (eqb false b && (irq =? i)); [|done]. apply vec_ext; simpl; try done. by rewrite orb_true_r.
  - rewrite Hg. destruct (eqb false b && (irq =? i)); [|done].
    apply vec_ext; simpl; try done. by rewrite orb_false_r.
Qed.

(** Return from an interrupt handler (v7M, no Security extension).
    Completing an external interrupt never fails an assertion.  The interrupt
    becomes inactive; it is pending afterwards if it was pending or its line
    is still high, so a level that is held is serviced again; no other vector
    changes.  The value returned is -1 if the interrupt was not active, 1 if
    it was the only active exception and 0 otherwise. *)
Lemma nvic_complete_v7m L s irq :
  nvic_reach L s → FEATURE_V8 (model_of s) = false → FEATURE_M_SECURITY (model_of s) = false →
  NVIC_FIRST_IRQ ≤ irq < num_irq s →
  ∃ s' ret, armv7m_nvic_complete_irq irq false s = Ok (s', ret) ∧
    vec s' irq = (vec s irq) <| active := false |>
                   <| pending ::= fun p => p || truth (level (vec s irq)) |> ∧
    (∀ b i, (b, i) ≠ (false, irq) → get_vec s' b i = get_vec s b i) ∧
    (active (vec s irq) = false → ret = -1) ∧
    (active (vec s irq) = true →
       (ret = 1 ↔ ∀ i, 1 ≤ i < num_irq s → i ≠ irq → active (vec s i) = false) ∧ (ret = 0 ∨ ret = 1)).
Proof.
  intros Hr H8 Hf Hirq. destruct (reach_inv L s Hr) as [[Hw _] _].
  assert (0 ≤ irq < alen (vectors s)) as Hb.
  { rewrite (nwf_vectors s Hw). pose proof (nwf_num_irq s Hw).
    unfold NVIC_FIRST_IRQ, NVIC_INTERNAL_VECTORS in *. lia. }
  do 2 eexists. split; [by apply complete_external|]. split_and!.
  - change (vec ?s irq) with (get_vec s false irq) at 1.
    rewrite update_vec, completed_vec, Z.eqb_refl by done. done.
  - intros b i Hbi. rewrite update_vec, completed_vec by done. destruct b; [done|]. simpl.
    destruct (Z.eqb_spec irq i); [congruence|done].
  - by intros ->.
  - intros Ha. rewrite Ha. simpl. split; [|destruct (nvic_rettobase s); auto].
    rewrite <- (rettobase_spec s irq) by
      (done || unfold NVIC_FIRST_IRQ, NVIC_INTERNAL_VECTORS in *; lia).
    by destruct (nvic_rettobase s).
Qed.
