(* ===== verification/NvicRegs.v ===== *)
(** The register interface seen by the guest: no access stops the emulator,
    and what the enable, pending and priority registers do. *)

From S2P Require Import Prelude Irq NvicState NvicCore NvicRead NvicWrite.
From S2P Require Import NvicPrio NvicInv NvicSpec NvicIrq.

(** ** Guest accesses never fail an assertion *)

(** The accesses the bus passes to the region: naturally aligned, up to four
    bytes, inside it. *)
Definition access_ok (addr size : Z) : Prop :=
  0 ≤ addr < 0x1000 ∧
  (size = 1 ∨ size = 2 ∧ addr mod 2 = 0 ∨ size = 4 ∧ addr mod 4 = 0).

Definition succeeds {A} (m : outcome A) : Prop := ∃ a, m = Ok a.

Lemma succeeds_ret {A} (a : A) : succeeds (mret a).
Proof. by exists a. Qed.

Lemma succeeds_bind {A B} (m : outcome A) (k : A → outcome B) :
  succeeds m → (∀ a, m = Ok a → succeeds (k a)) → succeeds (m ≫= k).
Proof. intros [a ->] Hk. by apply Hk. Qed.

Lemma vectpending_targets_secure_ok s : succeeds (vectpending_targets_secure s).
Proof.
  unfold vectpending_targets_secure. case_if; [apply succeeds_ret|].
  case_if; [apply succeeds_ret|]. rewrite exc_targets_secure_ok by done. apply succeeds_ret.
Qed.

Lemma read_icsr_ok s secure : succeeds (read_icsr s secure).
Proof.
  unfold read_icsr. apply succeeds_bind; [|intros; apply succeeds_ret].
  case_if; [|apply succeeds_ret]. apply succeeds_bind; [|intros; apply succeeds_ret].
  case_if; [apply vectpending_targets_secure_ok|apply succeeds_ret].
Qed.

Lemma nvic_readl_ok s offset secure : succeeds (nvic_readl s offset secure).
Proof.
  unfold nvic_readl. repeat (case_if; [first [apply read_icsr_ok | apply succeeds_ret]|]).
  apply succeeds_ret.
Qed.

(** The system handler fields: exceptions 4 to 15. *)
Lemma shpr_bank_ok s exc attrs : 4 ≤ exc ≤ 15 →
  ∃ o, shpr_bank s exc attrs = Ok o ∧ (o = Some true → exc_is_banked exc = true).
Proof.
  intros Hexc.
  assert (exc = 4 ∨ exc = 5 ∨ exc = 6 ∨ exc = 7 ∨ exc = 8 ∨ exc = 9 ∨ exc = 10 ∨ exc = 11 ∨
          exc = 12 ∨ exc = 13 ∨ exc = 14 ∨ exc = 15) as H by lia.
  destruct H as [->|[->|[->|[->|[->|[->|[->|[->|[->|[->|[->| ->]]]]]]]]]]];
    unfold shpr_bank; simpl; repeat case_if; eexists; done.
Qed.

Lemma get_prio_ok s irq b :
  ARMV7M_EXCP_NMI < irq < num_irq s → (b = true → exc_is_banked irq = true) →
  succeeds (get_prio s irq b).
Proof.
  intros Hirq Hb. unfold get_prio.
  destruct (Z.ltb_spec ARMV7M_EXCP_NMI irq); [|lia].
  destruct (Z.ltb_spec irq (num_irq s)); [|lia]. simpl.
  destruct b; [rewrite Hb by done|]; apply succeeds_ret.
Qed.

Lemma set_prio_ok irq b p s :
  ARMV7M_EXCP_NMI < irq < num_irq s → (b = true → exc_is_banked irq = true) →
  set_prio irq b p s =
    Ok (prio_vec b irq (Z.land (u8 p) (MAKE_64BIT_MASK (8 - num_prio_bits s) (num_prio_bits s))) s).
Proof.
  intros Hirq Hb. unfold set_prio.
  destruct (Z.ltb_spec ARMV7M_EXCP_NMI irq); [|lia].
  destruct (Z.ltb_spec irq (num_irq s)); [|lia]. cbn [assert_c mbind outcome_bind].
  destruct b; [rewrite Hb by done|]; done.
Qed.

Lemma read_shpr_ok s offset attrs idxs val :
  16 ≤ num_irq s → (∀ i, i ∈ idxs → 4 ≤ offset - 0xd14 + i ≤ 15) →
  succeeds (read_shpr s offset attrs idxs val).
Proof.
  intros Hn. revert val. induction idxs as [|i idxs IH]; intros val Hi; [apply succeeds_ret|]. simpl.
  destruct (shpr_bank_ok s (offset - 0xd14 + i) attrs ltac:(apply Hi; left)) as (o & -> & Hb).
  simpl. assert (∀ v, succeeds (read_shpr s offset attrs idxs v)) as IH'
    by (intros v; apply IH; intros j Hj; apply Hi; by right).
  destruct o as [b|]; [|apply IH']. apply succeeds_bind; [|intros; apply IH'].
  apply get_prio_ok; [|intros ->; by apply Hb].
  specialize (Hi i ltac:(left)). unfold ARMV7M_EXCP_NMI. lia.
Qed.

Lemma write_shpr_ok offset value attrs idxs s :
  16 ≤ num_irq s → (∀ i, i ∈ idxs → 4 ≤ offset - 0xd14 + i ≤ 15) →
  succeeds (write_shpr offset value attrs idxs s).
Proof.
  revert s. induction idxs as [|i idxs IH]; intros s Hn Hi; [apply succeeds_ret|]. simpl.
  destruct (shpr_bank_ok s (offset - 0xd14 + i) attrs ltac:(apply Hi; left)) as (o & -> & Hb).
  simpl. pose proof (Hi i ltac:(left)) as Hi0.
  destruct o as [b|]; simpl; [|apply IH; [done|intros j Hj; apply Hi; by right]].
  rewrite set_prio_ok; [|unfold ARMV7M_EXCP_NMI; lia|intros ->; by apply Hb]. simpl.
  apply IH; [|intros j Hj; apply Hi; by right]. by destruct b.
Qed.

Lemma write_irq_prios_ok startvec value attrs idxs s :
  NVIC_FIRST_IRQ ≤ startvec → (∀ i, i ∈ idxs → 0 ≤ i < num_irq s - startvec) →
  succeeds (write_irq_prios startvec value attrs idxs s).
Proof.
  revert s. induction idxs as [|i idxs IH]; intros s Hst Hi; [apply succeeds_ret|]. simpl.
  pose proof (Hi i ltac:(left)) as Hi0. case_if; simpl.
  - rewrite set_prio_ok; [|unfold ARMV7M_EXCP_NMI, NVIC_FIRST_IRQ, NVIC_INTERNAL_VECTORS in *; lia|done].
    simpl. apply IH; [done|]. intros j Hj. apply Hi. by right.
  - apply IH; [done|]. intros j Hj. apply Hi. by right.
Qed.

(** The offsets of the system handler priority registers. *)
Lemma shpr_offsets offset size i :
  access_ok offset size → between 0xd18 0xd23 offset = true → i ∈ seqZ 0 size →
  4 ≤ offset - 0xd14 + i ≤ 15.
Proof.
  unfold access_ok, between. rewrite andb_true_iff, !Z.leb_le, elem_of_seqZ.
  intros [_ Hsz] Hb Hi. euclid.
Qed.

Lemma set_pending_succeeds L irq secure s :
  nvic_inv L s → (irq = ARMV7M_EXCP_NMI ∧ secure = false) ∨
    irq = ARMV7M_EXCP_PENDSV ∨ irq = ARMV7M_EXCP_SYSTICK →
  succeeds (armv7m_nvic_set_pending irq secure s) ∧ succeeds (armv7m_nvic_clear_pending irq secure s).
Proof.
  intros Hi Hirq. pose proof (nwf_num_irq s (proj1 (proj1 Hi))) as Hn.
  unfold NVIC_FIRST_IRQ, NVIC_INTERNAL_VECTORS, ARMV7M_EXCP_NMI, ARMV7M_EXCP_PENDSV,
    ARMV7M_EXCP_SYSTICK in *.
  assert (secure = true → exc_is_banked irq = true) as Hb.
  { destruct Hirq as [[-> ->]|[->| ->]]; done. }
  split.
  - rewrite set_pending_async; [apply succeeds_ret| | |done];
      unfold ARMV7M_EXCP_NMI, ARMV7M_EXCP_PENDSV; lia.
  - apply clear_pending_ok; [|done]. unfold ARMV7M_EXCP_RESET. lia.
Qed.

Lemma write_icsr_ok L s value secure : nvic_inv L s → succeeds (write_icsr s value secure).
Proof.
  intros Hi. unfold write_icsr.
  assert (∀ irq sec s, nvic_inv L s → ok_then (nvic_inv L) (armv7m_nvic_set_pending irq sec s)) as Hset
    by (intros; by apply do_set_pending_inv).
  assert (∀ irq sec s, nvic_inv L s → ok_then (nvic_inv L) (armv7m_nvic_clear_pending irq sec s)) as Hclr
    by (intros; by apply clear_pending_inv).
  apply succeeds_bind.
  { repeat case_if; try apply succeeds_ret; eapply set_pending_succeeds; eauto. }
  intros s1 H1. assert (nvic_inv L s1) as Hi1.
  { revert H1. repeat case_if; intros H1; try (injection H1 as <-; done).
    - specialize (Hset ARMV7M_EXCP_NMI false s Hi). by rewrite H1 in Hset.
    - specialize (Hclr ARMV7M_EXCP_NMI false s Hi). by rewrite H1 in Hclr. }
  apply succeeds_bind.
  { repeat case_if; try apply succeeds_ret; eapply set_pending_succeeds; eauto. }
  intros s2 H2. assert (nvic_inv L s2) as Hi2.
  { revert H2. repeat case_if; intros H2; try (injection H2 as <-; done).
    - specialize (Hset ARMV7M_EXCP_PENDSV secure s1 Hi1). by rewrite H2 in Hset.
    - specialize (Hclr ARMV7M_EXCP_PENDSV secure s1 Hi1). by rewrite H2 in Hclr. }
  repeat case_if; try apply succeeds_ret; eapply set_pending_succeeds; eauto.
Qed.

Lemma nvic_writel_ok L offset value secure s :
  nvic_inv L s → succeeds (nvic_writel offset value secure s).
Proof.
  intros Hi. unfold nvic_writel.
  repeat match goal with
  | |- succeeds (if ?c then _ else _) => destruct c eqn:?
  | |- succeeds (mret _) => apply succeeds_ret
  | |- succeeds (write_icsr _ _ _) => by apply (write_icsr_ok L)
  end.
  rewrite set_pending_async; [apply succeeds_ret| | |done].
  - right. unfold ARMV7M_EXCP_PENDSV, NVIC_FIRST_IRQ, NVIC_INTERNAL_VECTORS.
    assert (0 ≤ Z.land value 0x1ff) by (apply Z.land_nonneg; right; lia). lia.
  - lia.
Qed.

Lemma sysreg_read_ok L s addr size attrs :
  nvic_inv L s → access_ok addr size → succeeds (nvic_sysreg_read s addr size attrs).
Proof.
  intros Hi Hacc.
  pose proof (nwf_num_irq s (proj1 (proj1 Hi))) as Hn. unfold NVIC_FIRST_IRQ, NVIC_INTERNAL_VECTORS in Hn.
  assert (u32 addr = addr) as Hu by (apply wrap_small; unfold in_range, access_ok in *; lia).
  unfold nvic_sysreg_read. rewrite Hu. case_if; [apply succeeds_ret|].
  apply succeeds_bind; [|intros; apply succeeds_ret].
  repeat match goal with
  | |- succeeds (if ?c then _ else _) => destruct c eqn:?
  | |- succeeds (mret _) => apply succeeds_ret
  | |- succeeds (nvic_readl _ _ _) => apply nvic_readl_ok
  end.
  apply read_shpr_ok; [lia|]. intros i. by apply shpr_offsets.
Qed.

Lemma sysreg_write_ok L s addr value size attrs :
  nvic_inv L s → access_ok addr size → succeeds (nvic_sysreg_write addr value size attrs s).
Proof.
  intros Hi Hacc.
  pose proof (nwf_num_irq s (proj1 (proj1 Hi))) as Hn. unfold NVIC_FIRST_IRQ, NVIC_INTERNAL_VECTORS in Hn.
  assert (u32 addr = addr) as Hu by (apply wrap_small; unfold in_range, access_ok in *; lia).
  unfold nvic_sysreg_write. rewrite Hu. case_if; [apply succeeds_ret|].
  apply succeeds_bind; [|intros; apply succeeds_ret]. unfold sysreg_write_body.
  repeat match goal with
  | |- succeeds (if ?c then _ else _) => destruct c eqn:?
  | |- succeeds (mret _) => apply succeeds_ret
  | |- succeeds (nvic_writel _ _ _ _) => by apply (nvic_writel_ok L)
  end; (apply succeeds_bind; [|intros; apply succeeds_ret]).
  + apply write_irq_prios_ok; [unfold between in *; lia|]. intros i. rewrite elem_of_seqZ. lia.
  + apply write_shpr_ok; [lia|]. intros i. by apply shpr_offsets.
Qed.

(** C24.  No guest access stops the emulator.  In every reachable state, every
    aligned read or write of the system control space, privileged or not,
    secure or not, returns (a bus fault at worst): none of the assertions,
    unreachable cases and lockup aborts of the register code can be hit. *)
Theorem nvic_guest_access_total L s addr value size attrs :
  nvic_reach L s → access_ok addr size →
  (∃ r, nvic_sysreg_read s addr size attrs = Ok r) ∧
  (∃ r, nvic_sysreg_write addr value size attrs s = Ok r).
Proof.
  intros Hr Hacc. pose proof (reach_inv L s Hr) as Hi.
  split; [by apply (sysreg_read_ok L)|by apply (sysreg_write_ok L)].
Qed.

(** ** The registers with one bit per interrupt *)

(** A loop that updates the vector of each of the interrupts it ranges over,
    as a function of that vector alone. *)
Lemma vec_loop (g : Z → VecInfo → VecInfo) body start n s :
  (∀ i s', 0 ≤ i < n → itns s' = itns s → alen (vectors s') = alen (vectors s) →
     itns (body i s') = itns s' ∧ alen (vectors (body i s')) = alen (vectors s') ∧
     num_irq (body i s') = num_irq s' ∧
     ∀ b j, get_vec (body i s') b j =
       if negb b && (start + i =? j) then g i (vec s' j) else get_vec s' b j) →
  let s' := for_range 0 n body s in
  itns s' = itns s ∧ num_irq s' = num_irq s ∧
  ∀ b j, get_vec s' b j =
    if negb b && ((start <=? j) && (j <? start + n)) then g (j - start) (vec s j) else get_vec s b j.
Proof.
  intros Hbody. cbv zeta. destruct (Z.leb_spec n 0) as [Hn|Hn].
  { rewrite for_range_nil by done. split_and!; try done. intros b j.
    destruct (Z.leb_spec start j), (Z.ltb_spec j (start + n)); try lia;
      by rewrite !andb_false_r. }
  apply (for_range_ind (fun k s' =>
    (itns s' = itns s ∧ num_irq s' = num_irq s ∧ ∀ b j, get_vec s' b j =
       if negb b && ((start <=? j) && (j <? start + k)) then g (j - start) (vec s j)
       else get_vec s b j) ∧ alen (vectors s') = alen (vectors s))); [lia| |].
  - split_and!; try done. intros b j.
    destruct (Z.leb_spec start j), (Z.ltb_spec j (start + 0)); try lia; by rewrite !andb_false_r.
  - intros i s' Hi [(H1 & H2 & H3) H4]. destruct (Hbody i s' Hi H1 H4) as (H5 & H6 & H7 & H8).
    rewrite H5, H6, H7. split_and!; try done. intros b j. rewrite H8.
    destruct b; simpl; [apply (H3 true)|].
    destruct (Z.eqb_spec (start + i) j) as [<-|Hne].
    + change (vec s' (start + i)) with (get_vec s' false (start + i)). rewrite H3. simpl.
      destruct (Z.ltb_spec (start + i) (start + i)); [lia|]. rewrite andb_false_r.
      destruct (Z.leb_spec start (start + i)); [|lia].
      destruct (Z.ltb_spec (start + i) (start + (i + 1))); [|lia]. simpl.
      by replace (start + i - start) with i by lia.
    + change (vec s' j) with (get_vec s' false j). rewrite H3. simpl.
      replace (j <? start + (i + 1)) with (j <? start + i) by lia. done.
Qed.

(** Which interrupts a word of a register with one bit per interrupt selects. *)
Definition selected (s : NVICState) (k value : Z) (attrs : MemTxAttrs) (n : Z) : bool :=
  (n / 32 =? k) && Z.testbit value (n mod 32) && irq_visible s attrs (n + NVIC_FIRST_IRQ).

(** The loops of the set and clear registers on a word access: [c] is the
    condition on the vector and [u] the update. *)
Lemma irq_word_loop (c : VecInfo → bool) (u : VecInfo → VecInfo) s k value attrs b j :
  nvic_wf s → 0 ≤ k →
  let start := 32 * k + NVIC_FIRST_IRQ in
  let s' := nvic_irq_update (for_range 0 (Z.min (4 * 8) (num_irq s - start)) (fun i s =>
    if vbit value i && irq_visible s attrs (start + i) && c (vec s (start + i))
    then upd_vec false (start + i) u s else s) s) in
  itns s' = itns s ∧ num_irq s' = num_irq s ∧
  get_vec s' b j =
    if negb b && ((NVIC_FIRST_IRQ <=? j) && (j <? num_irq s)) &&
       selected s k value attrs (j - NVIC_FIRST_IRQ) && c (vec s j)
    then u (vec s j) else get_vec s b j.
Proof.
  intros Hw Hk. cbv zeta. set (start := 32 * k + NVIC_FIRST_IRQ).
  set (body := fun (i : Z) (s : NVICState) => _).
  pose proof (vec_loop (fun i v => if vbit value i && irq_visible s attrs (start + i) && c v
    then u v else v) body start (Z.min (4 * 8) (num_irq s - start)) s) as H.
  assert (alen (vectors s) = NVIC_MAX_VECTORS) as Hal by apply Hw.
  pose proof (nwf_num_irq s Hw) as Hn.
  destruct (update_rest (for_range 0 (Z.min (4 * 8) (num_irq s - start)) body s))
    as (_ & _ & U1 & U2 & _). rewrite U1, U2, update_vec.
  destruct H as (-> & -> & ->).
  { intros i s' Hi Hitns Hlen. unfold body, irq_visible. rewrite Hitns.
    destruct (_ && c (vec s' (start + i))) eqn:Hc.
    - split_and!; try done; [apply (upd_vec_alen false)|]. intros b' j'.
      rewrite get_upd_vec by (rewrite Hlen, Hal;
        unfold start, NVIC_FIRST_IRQ, NVIC_INTERNAL_VECTORS in *; lia).
      destruct b'; [done|]. simpl. destruct (Z.eqb_spec (start + i) j') as [<-|]; [|done].
      by rewrite Hc.
    - split_and!; try done. intros [] j'; simpl; [done|].
      destruct (Z.eqb_spec (start + i) j') as [<-|]; [|done]. by rewrite Hc. }
  split_and!; try done. destruct b; [done|]. simpl. unfold selected, vbit.
  destruct ((start <=? j) && (j <? start + Z.min (4 * 8) (num_irq s - start))) eqn:Hj.
  - assert (((NVIC_FIRST_IRQ <=? j) && (j <? num_irq s)) = true) as ->
      by (unfold start, NVIC_FIRST_IRQ, NVIC_INTERNAL_VECTORS in *; lia).
    assert ((j - NVIC_FIRST_IRQ) / 32 = k) as ->
      by (unfold start in *; Z.to_euclidean_division_equations; lia).
    assert ((j - NVIC_FIRST_IRQ) mod 32 = j - start) as ->
      by (unfold start in *; Z.to_euclidean_division_equations; lia).
    rewrite Z.eqb_refl, has_bit by lia.
    replace (start + (j - start)) with (j - NVIC_FIRST_IRQ + NVIC_FIRST_IRQ) by lia. done.
  - assert (((NVIC_FIRST_IRQ <=? j) && (j <? num_irq s) &&
             ((j - NVIC_FIRST_IRQ) / 32 =? k)) = false) as Hz
      by (unfold start in *; Z.to_euclidean_division_equations; lia).
    rewrite !andb_assoc, Hz. done.
Qed.

Lemma read_bits_spec f s k attrs i : 0 ≤ i < 32 →
  Z.testbit (read_irq_bits f s (32 * k + NVIC_FIRST_IRQ) 4 attrs) i =
    (32 * k + i + NVIC_FIRST_IRQ <? num_irq s) && f (vec s (32 * k + i + NVIC_FIRST_IRQ)) &&
    irq_visible s attrs (32 * k + i + NVIC_FIRST_IRQ).
Proof.
  intros Hi. unfold read_irq_bits. set (start := 32 * k + NVIC_FIRST_IRQ).
  set (n := Z.min (4 * 8) (num_irq s - start)).
  replace (32 * k + i + NVIC_FIRST_IRQ) with (start + i) by lia.
  replace (start + i <? num_irq s) with (i <? n) by lia.
  destruct (Z.leb_spec n 0) as [Hn|Hn].
  { rewrite for_range_nil by done. rewrite Z.bits_0. by destruct (Z.ltb_spec i n); [lia|]. }
  apply (for_range_ind (fun m v => Z.testbit v i =
    (i <? m) && f (vec s (start + i)) && irq_visible s attrs (start + i))); [lia| |].
  - rewrite Z.bits_0. by destruct (Z.ltb_spec i 0); [lia|].
  - intros m v Hm IH. unfold or_bit.
    destruct (Z.eqb_spec m i) as [->|Hne].
    + destruct (Z.ltb_spec i i); [lia|]. destruct (Z.ltb_spec i (i + 1)); [|lia]. simpl in *.
      case_if; [|done]. by rewrite Z.lor_spec, IH, bit_spec, Z.eqb_refl by lia.
    + replace (i <? m + 1) with (i <? m) by lia. case_if; [|done].
      rewrite Z.lor_spec, IH, bit_spec by lia.
      destruct (Z.eqb_spec m i); [done|by rewrite orb_false_r].
Qed.

(** Word accesses to the four groups of registers: [clear] selects the second
    register of a pair. *)
Definition bank_addr (base : Z) (clear : bool) (k : Z) : Z :=
  base + (if clear then 0x80 else 0) + 4 * k.

Ltac word_access :=
  unfold nvic_sysreg_write, nvic_sysreg_read, sysreg_write_body, bank_addr, between;
  rewrite wrap_small by (unfold in_range; repeat case_if; lia).

Lemma write_enable_word clear k value attrs s :
  user attrs = false → 0 ≤ k < 16 →
  nvic_sysreg_write (bank_addr 0x100 clear k) value 4 attrs s =
    Ok (Some (effect RebuildHflags
      (write_irq_enable (32 * k + NVIC_FIRST_IRQ) 4 value (negb clear) attrs s))).
Proof.
  intros Hu Hk. word_access. rewrite Hu. destruct clear.
  - destruct (Z.leb_spec (0x100 + 0x80 + 4 * k) 0x13f); [lia|]. rewrite andb_false_r.
    destruct (Z.leb_spec 0x180 (0x100 + 0x80 + 4 * k)); [|lia].
    destruct (Z.leb_spec (0x100 + 0x80 + 4 * k) 0x1bf); [|lia].
    by replace (8 * (0x100 + 0x80 + 4 * k - 0x180) + NVIC_FIRST_IRQ) with (32 * k + NVIC_FIRST_IRQ) by lia.
  - destruct (Z.leb_spec 0x100 (0x100 + 0 + 4 * k)); [|lia].
    destruct (Z.leb_spec (0x100 + 0 + 4 * k) 0x13f); [|lia].
    by replace (8 * (0x100 + 0 + 4 * k + 0x80 - 0x180) + NVIC_FIRST_IRQ) with (32 * k + NVIC_FIRST_IRQ) by lia.
Qed.

Lemma write_pending_word clear k value attrs s :
  user attrs = false → 0 ≤ k < 16 →
  nvic_sysreg_write (bank_addr 0x200 clear k) value 4 attrs s =
    Ok (Some (effect RebuildHflags
      (write_irq_pending (32 * k + NVIC_FIRST_IRQ) 4 value (negb clear) attrs s))).
Proof.
  intros Hu Hk. word_access. rewrite Hu.
  destruct (Z.leb_spec (0x200 + (if clear then 0x80 else 0) + 4 * k) 0x13f);
    [destruct clear; lia|]. rewrite andb_false_r.
  destruct (Z.leb_spec (0x200 + (if clear then 0x80 else 0) + 4 * k) 0x1bf);
    [destruct clear; lia|]. rewrite andb_false_r.
  destruct clear.
  - destruct (Z.leb_spec (0x200 + 0x80 + 4 * k) 0x23f); [lia|]. rewrite andb_false_r.
    destruct (Z.leb_spec 0x280 (0x200 + 0x80 + 4 * k)); [|lia].
    destruct (Z.leb_spec (0x200 + 0x80 + 4 * k) 0x2bf); [|lia].
    by replace (8 * (0x200 + 0x80 + 4 * k - 0x280) + NVIC_FIRST_IRQ) with (32 * k + NVIC_FIRST_IRQ) by lia.
  - destruct (Z.leb_spec 0x200 (0x200 + 0 + 4 * k)); [|lia].
    destruct (Z.leb_spec (0x200 + 0 + 4 * k) 0x23f); [|lia].
    by replace (8 * (0x200 + 0 + 4 * k + 0x80 - 0x280) + NVIC_FIRST_IRQ) with (32 * k + NVIC_FIRST_IRQ) by lia.
Qed.

(** Both registers of a pair read the state of the interrupts. *)
Lemma read_bits_word (pend clear : bool) k attrs s :
  user attrs = false → 0 ≤ k < 16 →
  nvic_sysreg_read s (bank_addr (if pend then 0x200 else 0x100) clear k) 4 attrs =
    Ok (Some (read_irq_bits (if pend then pending else enabled) s (32 * k + NVIC_FIRST_IRQ) 4 attrs)).
Proof.
  intros Hu Hk. word_access. rewrite Hu.
  destruct pend, clear; simpl;
  repeat match goal with
  | |- context [?a <=? ?b] => destruct (Z.leb_spec a b); try lia
  end; simpl;
  match goal with |- context [read_irq_bits _ _ ?x] =>
    replace x with (32 * k + NVIC_FIRST_IRQ) by lia end; done.
Qed.

(** The enable registers.  A privileged word write to a set-enable
    (clear-enable) register enables (disables) exactly the interrupts whose bit
    is set in the value and that the access may see, and changes nothing else
    of any vector; reading either register of the pair then shows, bit for
    bit, which interrupts are enabled, zero beyond the last interrupt. *)
Lemma nvic_enable_registers L s clear k value attrs :
  nvic_reach L s → user attrs = false → 0 ≤ k < 16 →
  ∃ s', nvic_sysreg_write (bank_addr 0x100 clear k) value 4 attrs s = Ok (Some s') ∧
    (∀ b i, get_vec s' b i =
       if negb b && ((NVIC_FIRST_IRQ <=? i) && (i <? num_irq s)) &&
          selected s k value attrs (i - NVIC_FIRST_IRQ)
       then (get_vec s b i) <| enabled := negb clear |> else get_vec s b i) ∧
    ∀ c, ∃ v, nvic_sysreg_read s' (bank_addr 0x100 c k) 4 attrs = Ok (Some v) ∧
      ∀ i, 0 ≤ i < 32 → Z.testbit v i =
        (32 * k + i + NVIC_FIRST_IRQ <? num_irq s) && enabled (vec s' (32 * k + i + NVIC_FIRST_IRQ)) &&
        irq_visible s attrs (32 * k + i + NVIC_FIRST_IRQ).
Proof.
  intros Hr Hu Hk. destruct (reach_inv L s Hr) as [[Hw _] _].
  rewrite write_enable_word by done. eexists. split; [done|].
  set (s' := write_irq_enable _ _ _ _ _ _).
  assert (∀ b j, itns s' = itns s ∧ num_irq s' = num_irq s ∧
    get_vec s' b j = if negb b && ((NVIC_FIRST_IRQ <=? j) && (j <? num_irq s)) &&
       selected s k value attrs (j - NVIC_FIRST_IRQ)
       then (vec s j) <| enabled := negb clear |> else get_vec s b j) as Hs.
  { intros b j.
    pose proof (irq_word_loop (fun _ => true) (fun v => v <| enabled := negb clear |>)
      s k value attrs b j Hw ltac:(lia)) as H. cbv zeta in H. rewrite andb_true_r in H.
    unfold s', write_irq_enable, enable_vec. erewrite for_range_ext; [exact H|].
    intros i s0 _. cbv beta. by rewrite andb_true_r. }
  change (get_vec (effect RebuildHflags s') ) with (get_vec s').
  split; [intros b i; destruct (Hs b i) as (_ & _ & ->); by destruct b|].
  intros c. rewrite (read_bits_word false) by done. eexists. split; [done|].
  intros i Hi. change (read_irq_bits ?f (effect _ s')) with (read_irq_bits f s').
  change (vec (effect _ s')) with (vec s').
  rewrite read_bits_spec by done. unfold irq_visible. destruct (Hs false 0) as (-> & -> & _). done.
Qed.

(** The pending registers.  A privileged word write to a set-pending
    register makes pending exactly the visible interrupts selected by the value;
    a write to a clear-pending register makes them not pending, except those
    whose line is high while they are not active.  Nothing else of any vector
    changes, and reading either register shows which interrupts are pending. *)
Lemma nvic_pending_registers L s clear k value attrs :
  nvic_reach L s → user attrs = false → 0 ≤ k < 16 →
  ∃ s', nvic_sysreg_write (bank_addr 0x200 clear k) value 4 attrs s = Ok (Some s') ∧
    (∀ b i, get_vec s' b i =
       if negb b && ((NVIC_FIRST_IRQ <=? i) && (i <? num_irq s)) &&
          selected s k value attrs (i - NVIC_FIRST_IRQ) &&
          negb (clear && truth (level (vec s i)) && negb (active (vec s i)))
       then (get_vec s b i) <| pending := negb clear |> else get_vec s b i) ∧
    ∀ c, ∃ v, nvic_sysreg_read s' (bank_addr 0x200 c k) 4 attrs = Ok (Some v) ∧
      ∀ i, 0 ≤ i < 32 → Z.testbit v i =
        (32 * k + i + NVIC_FIRST_IRQ <? num_irq s) && pending (vec s' (32 * k + i + NVIC_FIRST_IRQ)) &&
        irq_visible s attrs (32 * k + i + NVIC_FIRST_IRQ).
Proof.
  intros Hr Hu Hk. destruct (reach_inv L s Hr) as [[Hw _] _].
  rewrite write_pending_word by done. eexists. split; [done|].
  set (s' := write_irq_pending _ _ _ _ _ _).
  assert (∀ b j, itns s' = itns s ∧ num_irq s' = num_irq s ∧
    get_vec s' b j = if negb b && ((NVIC_FIRST_IRQ <=? j) && (j <? num_irq s)) &&
       selected s k value attrs (j - NVIC_FIRST_IRQ) &&
       negb (clear && truth (level (vec s j)) && negb (active (vec s j)))
       then (vec s j) <| pending := negb clear |> else get_vec s b j) as Hs.
  { intros b j.
    pose proof (irq_word_loop (fun v => negb (clear && truth (level v) && negb (active v)))
      (fun v => v <| pending := negb clear |>) s k value attrs b j Hw ltac:(lia)) as H. cbv zeta in H.
    unfold s', write_irq_pending, pending_vec. rewrite negb_involutive. exact H. }
  change (get_vec (effect RebuildHflags s') ) with (get_vec s').
  split; [intros b i; destruct (Hs b i) as (_ & _ & ->); by destruct b|].
  intros c. rewrite (read_bits_word true) by done. eexists. split; [done|].
  intros i Hi. change (read_irq_bits ?f (effect _ s')) with (read_irq_bits f s').
  change (vec (effect _ s')) with (vec s').
  rewrite read_bits_spec by done. unfold irq_visible. destruct (Hs false 0) as (-> & -> & _). done.
Qed.

(** ** The priority registers *)

Lemma prio_mask bits v : 2 ≤ bits ≤ 8 → is_u8 v →
  Z.land (u8 v) (MAKE_64BIT_MASK (8 - bits) bits) = v - v mod 2 ^ (8 - bits).
Proof.
  intros Hb Hv.
  assert (forallb (fun b => forallb (fun v =>
    Z.land (u8 v) (MAKE_64BIT_MASK (8 - b) b) =? v - v mod 2 ^ (8 - b)) (seqZ 0 (256 - 0)))
    (seqZ 2 (9 - 2)) = true) as H by (vm_compute; reflexivity).
  pose proof (range_check _ 2 9 H bits ltac:(lia)) as H1. cbv beta in H1.
  pose proof (range_check _ 0 256 H1 v Hv) as H2. cbv beta in H2. lia.
Qed.

(** The address decodes to the priority registers. *)
Lemma prio_addr n : 0 ≤ n < 496 →
  u32 (0x400 + n) = 0x400 + n ∧ between 0x400 0x5ef (0x400 + n) = true ∧
  ∀ lo hi, hi < 0x400 → between lo hi (0x400 + n) = false.
Proof.
  intros Hn. split_and!; [apply wrap_small; unfold in_range; lia|unfold between; lia|].
  unfold between. intros. lia.
Qed.

Lemma masked_range s v : nvic_wf s → is_u8 v → is_u8 (v - v mod 2 ^ (8 - num_prio_bits s)).
Proof.
  intros Hw Hv. rewrite <- prio_mask by (done || apply Hw). apply (land_range 8); [lia|].
  by rewrite wrap_small.
Qed.

Lemma write_prio_byte n v attrs s :
  nvic_wf s → user attrs = false → 0 ≤ n < num_irq s - NVIC_FIRST_IRQ → is_u8 v →
  irq_visible s attrs (n + NVIC_FIRST_IRQ) = true →
  nvic_sysreg_write (0x400 + n) v 1 attrs s = Ok (Some (effect RebuildHflags (nvic_irq_update
    (prio_vec false (n + NVIC_FIRST_IRQ) (v - v mod 2 ^ (8 - num_prio_bits s)) s)))).
Proof.
  intros Hw Hu Hn Hv Hvis. pose proof (nwf_num_irq s Hw) as Hni.
  unfold NVIC_MAX_VECTORS, NVIC_FIRST_IRQ, NVIC_INTERNAL_VECTORS in *.
  destruct (prio_addr n) as (Hu32 & Hin & Hout); [lia|].
  unfold nvic_sysreg_write, sysreg_write_body. rewrite Hu, Hu32, !Hout, Hin by lia. cbv zeta.
  change NVIC_FIRST_IRQ with 16.
  replace (0x400 + n - 0x400 + 16) with (n + 16) by lia. cbv [andb].
  rewrite Z.min_l by lia. change (seqZ 0 1) with [0]. cbn [write_irq_prios].
  rewrite Z.add_0_r, Hvis, set_prio_ok; [|unfold ARMV7M_EXCP_NMI; lia|done].
  replace (Z.land (Z.shiftr v (0 * 8)) 0xff) with v; [by rewrite prio_mask by (done || apply Hw)|].
  simpl. rewrite Z.shiftr_0_r. symmetry. change 0xff with (2 ^ 8 - 1).
  rewrite land_mask by lia. by apply wrap_small.
Qed.

Lemma read_prio_byte n attrs s :
  0 ≤ n < 496 → n < num_irq s - NVIC_FIRST_IRQ → user attrs = false →
  irq_visible s attrs (n + NVIC_FIRST_IRQ) = true → is_u8 (prio (vec s (n + NVIC_FIRST_IRQ))) →
  nvic_sysreg_read s (0x400 + n) 1 attrs = Ok (Some (prio (vec s (n + NVIC_FIRST_IRQ)))).
Proof.
  intros Hn Hn' Hu Hvis Hp. destruct (prio_addr n) as (Hu32 & Hin & Hout); [lia|].
  unfold nvic_sysreg_read. rewrite Hu, Hu32, !Hout, Hin by lia. cbv [andb].
  replace (0x400 + n - 0x400 + NVIC_FIRST_IRQ) with (n + NVIC_FIRST_IRQ) by lia.
  unfold read_irq_prios. rewrite Z.min_l by lia.
  rewrite for_range_cons, for_range_nil by lia. rewrite Z.add_0_r, Hvis.
  simpl. unfold in_range in Hp. rewrite Z.shiftl_0_r, wrap_small by (unfold in_range; lia). done.
Qed.

(** The priority registers.  A privileged byte write to the priority
    register of an interrupt the access may see keeps the implemented (high)
    bits of the value, changes nothing else of any vector, and a read returns
    the value with its unimplemented bits cleared. *)
Lemma nvic_priority_register L s n v attrs :
  nvic_reach L s → user attrs = false → 0 ≤ n < num_irq s - NVIC_FIRST_IRQ → is_u8 v →
  irq_visible s attrs (n + NVIC_FIRST_IRQ) = true →
  ∃ s', nvic_sysreg_write (0x400 + n) v 1 attrs s = Ok (Some s') ∧
    let v' := v - v mod 2 ^ (8 - num_prio_bits s) in
    (∀ b i, get_vec s' b i =
       if negb b && (i =? n + NVIC_FIRST_IRQ) then (vec s i) <| prio := v' |> else get_vec s b i) ∧
    nvic_sysreg_read s' (0x400 + n) 1 attrs = Ok (Some v').
Proof.
  intros Hr Hu Hn Hv Hvis. destruct (reach_inv L s Hr) as [[Hw _] _].
  pose proof (irq_bounds s n Hw Hn) as Hb. pose proof (nwf_num_irq s Hw) as Hni.
  pose proof (masked_range s v Hw Hv) as Hv'.
  eexists. split; [by apply write_prio_byte|]. cbv zeta.
  set (v' := v - v mod 2 ^ (8 - num_prio_bits s)) in *.
  set (s1 := prio_vec false (n + NVIC_FIRST_IRQ) v' s).
  assert (∀ b i, get_vec (nvic_irq_update s1) b i = if negb b && (i =? n + NVIC_FIRST_IRQ)
    then (vec s i) <| prio := v' |> else get_vec s b i) as Hg.
  { intros b i. rewrite update_vec. unfold s1, prio_vec. rewrite get_upd_vec by exact Hb.
    rewrite Z.eqb_sym. destruct b; [done|]. simpl.
    by destruct (Z.eqb_spec i (n + NVIC_FIRST_IRQ)) as [->|]. }
  split; [exact Hg|]. destruct (update_rest s1) as (_ & _ & U1 & U2 & _).
  assert (vec (effect RebuildHflags (nvic_irq_update s1)) (n + NVIC_FIRST_IRQ) =
    (vec s (n + NVIC_FIRST_IRQ)) <| prio := v' |>) as Hvec.
  { specialize (Hg false (n + NVIC_FIRST_IRQ)). by rewrite Z.eqb_refl in Hg. }
  assert (0 ≤ n < 496)
    by (unfold NVIC_MAX_VECTORS, NVIC_FIRST_IRQ, NVIC_INTERNAL_VECTORS in *; lia).
  rewrite read_prio_byte; [by rewrite Hvec|done| |done| |by rewrite Hvec].
  - change (num_irq (effect _ ?s)) with (num_irq s). rewrite U2.
    change (num_irq s1) with (num_irq s). lia.
  - unfold irq_visible in *. change (itns (effect _ ?s)) with (itns s). by rewrite U1.
Qed.

(** ** Masking *)

(** A priority that the mask registers let through. *)
Definition unmasked (s : NVICState) (p : Z) : Prop :=
  let m := v7m_of s in
  let ns_limit := if aircr_has s AIRCR_PRIS then NVIC_NS_PRIO_LIMIT else 0 in
  (ns (basepri m) ≠ 0 → p < exc_group_prio s (ns (basepri m)) false) ∧
  (sec (basepri m) ≠ 0 → p < exc_group_prio s (sec (basepri m)) true) ∧
  (ns (primask m) ≠ 0 → p < ns_limit) ∧
  (sec (primask m) ≠ 0 → p < 0) ∧
  (ns (faultmask m) ≠ 0 → p < if aircr_has s AIRCR_BFHFNMINS then -1 else ns_limit) ∧
  (sec (faultmask m) ≠ 0 → p < if aircr_has s AIRCR_BFHFNMINS then -3 else -1).

Lemma truth_spec x : truth x = true ↔ x ≠ 0.
Proof. unfold truth. destruct (Z.eqb_spec x 0); simpl; split; congruence. Qed.

(** One assignment to the running priority: its range, and what it lets
    through. *)
Ltac mask_cases :=
  repeat match goal with
  | |- context [truth ?x] => unfold truth; destruct (Z.eqb_spec x 0); simpl
  | |- context [?a >? ?b] => rewrite (Z.gtb_ltb a b); destruct (Z.ltb_spec b a)
  | |- context [if aircr_has ?s ?f then _ else _] => destruct (aircr_has s f)
  end; lia.

Ltac stage e p P hi r :=
  set (r := e); assert (0 ≤ r ≤ hi ∧ (p < r ↔ P)) as [? ?] by (unfold r; mask_cases);
  clearbody r.

Lemma exec_prio_spec s p :
  nvic_wf s → is_u8 (ns (basepri (v7m_of s))) → is_u8 (sec (basepri (v7m_of s))) →
  p < NVIC_NOEXC_PRIO →
  p < nvic_exec_prio s ↔ unmasked s p ∧ p < exception_prio s.
Proof.
  unfold in_range, NVIC_NOEXC_PRIO. intros Hw Hb1 Hb2 Hp.
  pose proof (exc_group_prio_range s (ns (basepri (v7m_of s))) false Hw ltac:(lia)) as R1.
  pose proof (exc_group_prio_range s (sec (basepri (v7m_of s))) true Hw ltac:(lia)) as R2.
  unfold nvic_exec_prio, unmasked, NVIC_NOEXC_PRIO, NVIC_NS_PRIO_LIMIT. cbv zeta.
  set (m := v7m_of s) in *. set (lim := if aircr_has s AIRCR_PRIS then 128 else 0).
  stage (if ns (basepri m) >? 0 then exc_group_prio s (ns (basepri m)) false else 256)
    p (ns (basepri m) ≠ 0 → p < exc_group_prio s (ns (basepri m)) false) 256 r1.
  stage (if sec (basepri m) >? 0 then
           if r1 >? exc_group_prio s (sec (basepri m)) true
           then exc_group_prio s (sec (basepri m)) true else r1 else r1)
    p (p < r1 ∧ (sec (basepri m) ≠ 0 → p < exc_group_prio s (sec (basepri m)) true)) 256 r2.
  stage (if truth (ns (primask m)) then
           if aircr_has s AIRCR_PRIS then if r2 >? 128 then 128 else r2 else 0 else r2)
    p (p < r2 ∧ (ns (primask m) ≠ 0 → p < lim)) 256 r3.
  stage (if truth (sec (primask m)) then 0 else r3)
    p (p < r3 ∧ (sec (primask m) ≠ 0 → p < 0)) 256 r4.
  set (r5 := if truth (ns (faultmask m)) then _ else r4).
  assert ((r5 = -1 ∧ aircr_has s AIRCR_BFHFNMINS = true ∨ 0 ≤ r5) ∧
    (p < r5 ↔ p < r4 ∧ (ns (faultmask m) ≠ 0 → p < if aircr_has s AIRCR_BFHFNMINS then -1 else lim)))
    as [R5 E5] by (unfold r5, lim; mask_cases).
  clearbody r5. rewrite Z.min_glb_lt_iff.
  assert (p < (if truth (sec (faultmask m)) then if aircr_has s AIRCR_BFHFNMINS then -3 else -1 else r5)
    ↔ p < r5 ∧ (sec (faultmask m) ≠ 0 → p < if aircr_has s AIRCR_BFHFNMINS then -3 else -1)) as ->
    by (mask_cases).
  tauto.
Qed.

(** C23.  When the CPU may take an exception.  In every reachable state the
    controller offers an exception exactly when some enabled pending exception
    has a group priority below that of every active exception and that
    BASEPRI, PRIMASK and FAULTMASK (in both security states) let through. *)
Theorem nvic_can_take_iff L s :
  nvic_reach L s → is_u8 (ns (basepri (v7m_of s))) → is_u8 (sec (basepri (v7m_of s))) →
  armv7m_nvic_can_take_pending_exception s = true ↔
  ∃ e, exists_entry s e ∧ ready s e = true ∧ unmasked s (group_prio s e) ∧
    ∀ e', exists_entry s e' → active (entry_vec s e') = true → group_prio s e < group_prio s e'.
Proof.
  intros Hr Hb1 Hb2. pose proof (reach_inv L s Hr) as Hi. pose proof (proj1 (proj1 Hi)) as Hw.
  pose proof (inv_cache L s Hi) as [Hbest [Hlow Hin]].
  assert (∀ e, (group_prio s e < exception_prio s) ↔
    ∀ e', exists_entry s e' → active (entry_vec s e') = true → group_prio s e < group_prio s e') as Hact.
  { intros e. pose proof (group_prio_range s e Hw). split.
    - intros Hlt e' Hex Ha. specialize (Hlow e' I Hex Ha). lia.
    - intros Hall. destruct Hin as [->|(e' & _ & Hex & Ha & ->)]; [unfold NVIC_NOEXC_PRIO; lia|auto]. }
  split.
  - intros Hc. destruct (can_take_offered L s Hi Hc) as (Hlt & Hex & Hrd & Hp & _).
    exists (offered s). split_and!; try done; [|apply Hact; lia].
    pose proof (group_prio_range s (offered s) Hw).
    apply exec_prio_spec; [done..|unfold NVIC_NOEXC_PRIO; lia|]. rewrite <- Hp.
    unfold armv7m_nvic_can_take_pending_exception, nvic_pending_prio in Hc. lia.
  - intros (e & Hex & Hrd & Hm & Hall). apply Hact in Hall. pose proof (group_prio_range s e Hw) as Hg.
    unfold armv7m_nvic_can_take_pending_exception, nvic_pending_prio. rewrite Z.gtb_ltb, Z.ltb_lt.
    assert (group_prio s e < nvic_exec_prio s) as Hlt
      by (apply exec_prio_spec; try done; unfold NVIC_NOEXC_PRIO; lia).
    destruct Hbest as [(_ & _ & Hnone)|(_ & _ & _ & -> & Hall')];
      [by rewrite (Hnone e I Hex) in Hrd|].
    specialize (Hall' e I Hex Hrd). unfold precedes in Hall'. lia.
Qed.
