(* ===== verification/NvicLevel.v ===== *)
(** Level-triggered interrupts: only a change of an input line changes the
    recorded level of a line, and an interrupt whose line is high is always
    pending or active, whatever the guest and the CPU do. *)

From S2P Require Import Prelude Irq NvicState NvicCore NvicRead NvicWrite NvicPrio NvicInv NvicSpec NvicIrq.

(** An interrupt whose line is high is pending or active. *)
Definition held (v : VecInfo) : Prop := truth (level v) = true → pending v || active v = true.

Definition all_held (s : NVICState) : Prop := ∀ i, NVIC_FIRST_IRQ ≤ i → held (vec s i).

(** What every operation except a line change and a reset does. *)
Definition keeps (s s' : NVICState) : Prop :=
  (∀ i, level (vec s' i) = level (vec s i)) ∧ num_irq s' = num_irq s ∧
  model_of s' = model_of s ∧ (all_held s → all_held s').

(** Lemmas in the direction that follows an operation's composition. *)

Lemma keeps_refl s : keeps s s.
Proof. done. Qed.

Lemma keeps_trans s s' s'' : keeps s s' → keeps s' s'' → keeps s s''.
Proof.
  intros (H1 & H2 & H3 & H4) (H5 & H6 & H7 & H8). split_and!; [|congruence..|auto].
  intros i. by rewrite H5, H1.
Qed.

Lemma vec_upd b i f x j :
  vec (upd_vec b i f x) j = vec x j ∨ (b = false ∧ i = j ∧ vec (upd_vec b i f x) j = f (vec x j)).
Proof.
  destruct b; [by left|]. unfold vec, upd_vec. simpl.
  destruct (decide (0 ≤ i < alen (vectors x))) as [Hi|Hi].
  - rewrite aget_aset by done. destruct (Z.eqb_spec i j) as [<-|]; auto.
  - left. by rewrite aset_out.
Qed.

(** An update of a vector, with the condition for those of external
    interrupts in the Non-secure bank, the only ones with an input line. *)
Lemma keeps_upd s x b i f :
  keeps s x → (∀ v, level (f v) = level v) →
  (b = false → NVIC_FIRST_IRQ ≤ i → held (vec x i) → held (f (vec x i))) →
  keeps s (upd_vec b i f x).
Proof.
  intros Hx Hl Hh. eapply keeps_trans; [exact Hx|]. split_and!; [|by destruct b..|].
  - intros j. destruct (vec_upd b i f x j) as [->|(_ & _ & ->)]; auto.
  - intros H j Hj. destruct (vec_upd b i f x j) as [->|(-> & -> & ->)]; [by apply H|].
    apply Hh; auto.
Qed.

Lemma keeps_v7m s x f : keeps s x → keeps s (set_v7m f x).
Proof. intros Hx. eapply keeps_trans; [exact Hx|]. done. Qed.

Lemma keeps_mpu s x f : keeps s x → keeps s (set_mpu f x).
Proof. intros Hx. eapply keeps_trans; [exact Hx|]. done. Qed.

Lemma keeps_effect s x e : keeps s x → keeps s (effect e x).
Proof. intros Hx. eapply keeps_trans; [exact Hx|]. done. Qed.

Lemma keeps_itns s x f : keeps s x → keeps s (x <| itns ::= f |>).
Proof. intros Hx. eapply keeps_trans; [exact Hx|]. done. Qed.

Lemma keeps_prigroup s x f : keeps s x → keeps s (x <| prigroup ::= f |>).
Proof. intros Hx. eapply keeps_trans; [exact Hx|]. done. Qed.

Lemma keeps_sysresetreq s x f : keeps s x → keeps s (x <| sysresetreq ::= f |>).
Proof. intros Hx. eapply keeps_trans; [exact Hx|]. done. Qed.

Lemma keeps_update s x : keeps s x → keeps s (nvic_irq_update x).
Proof.
  intros Hx. eapply keeps_trans; [exact Hx|].
  destruct (update_rest x) as (H1 & _ & _ & H2 & _).
  assert (∀ i, vec (nvic_irq_update x) i = vec x i) as Hv by (intros i; apply (update_vec x false i)).
  split_and!; [|done|unfold model_of; by rewrite H1|].
  - intros i. by rewrite Hv.
  - intros H i Hi. rewrite Hv. by apply H.
Qed.

Lemma keeps_recompute s x : keeps s x → keeps s (nvic_recompute_state x).
Proof.
  intros Hx. eapply keeps_trans; [exact Hx|].
  unfold nvic_recompute_state, nvic_recompute_state_secure. by case_if.
Qed.

Lemma keeps_if s (b : bool) x y : keeps s x → keeps s y → keeps s (if b then x else y).
Proof. by destruct b. Qed.

Lemma keeps_loop s lo hi body x :
  keeps s x → (∀ i y, keeps s y → keeps s (body i y)) → keeps s (for_range lo hi body x).
Proof.
  intros Hx Hb. destruct (Z.le_gt_cases lo hi) as [Hle|]; [|by rewrite for_range_nil by lia].
  by apply (for_range_ind (fun _ y => keeps s y)); auto.
Qed.

Create HintDb keeps.
#[export] Hint Resolve keeps_refl keeps_v7m keeps_mpu keeps_effect keeps_itns keeps_prigroup
  keeps_sysresetreq keeps_update keeps_recompute keeps_if : keeps.

(** Side conditions of [keeps_upd] for the updates that set a flag, and for
    those of the internal exceptions. *)
Lemma held_pending v : held (v <| pending := true |>).
Proof. by intros _. Qed.

Lemma held_active v p : held (v <| active := true |> <| pending := p |>).
Proof. intros _. apply orb_true_r. Qed.
#[export] Hint Resolve held_pending held_active : keeps.

Ltac held_side := intros; solve [done | auto with keeps | exfalso; unfold NVIC_FIRST_IRQ in *; lia].

Ltac keeps :=
  repeat match goal with
  | |- keeps _ (if _ then _ else _) => case_if
  | |- keeps _ (for_range _ _ _ _) => apply keeps_loop; [|intros ? ? ?]
  | |- keeps _ (nvic_irq_update _) => apply keeps_update
  | |- keeps _ (nvic_recompute_state _) => apply keeps_recompute
  | |- keeps _ (upd_vec _ _ _ _) => apply keeps_upd; [|done|held_side]
  | |- keeps _ (active_vec _ _ _ _) => apply keeps_upd; [|done|held_side]
  | |- keeps _ (pending_vec _ _ _ _) => apply keeps_upd; [|done|held_side]
  | |- keeps _ (enable_vec _ _ _ _) => apply keeps_upd; [|done|held_side]
  | |- keeps _ (prio_vec _ _ _ _) => apply keeps_upd; [|done|held_side]
  | |- keeps _ (set_v7m _ _) => apply keeps_v7m
  | |- keeps _ (set_mpu _ _) => apply keeps_mpu
  | |- keeps _ (effect _ _) => apply keeps_effect
  end; auto with keeps.

(** ** The operations *)

Lemma keeps_ret s x : keeps s x → ok_then (keeps s) (mret x).
Proof. done. Qed.

Lemma pend_vec_keeps s x b i : keeps s x → keeps s (pend_vec b i x).
Proof. intros. unfold pend_vec. keeps. Qed.

Lemma forced_fault_keeps s x : keeps s x → keeps s (forced_fault x).
Proof. intros. by apply keeps_v7m. Qed.
#[export] Hint Resolve pend_vec_keeps forced_fault_keeps : keeps.

Lemma clear_pending_keeps s x irq secure :
  irq < NVIC_FIRST_IRQ → keeps s x → ok_then (keeps s) (armv7m_nvic_clear_pending irq secure x).
Proof.
  intros Hirq Hx. unfold armv7m_nvic_clear_pending. do 2 (apply ok_then_any; intros _).
  case_if; simpl; keeps.
Qed.

Lemma set_pending_keeps s x irq secure derived :
  keeps s x → ok_then (keeps s) (do_armv7m_nvic_set_pending irq secure derived x).
Proof.
  intros Hx. unfold do_armv7m_nvic_set_pending. do 2 (apply ok_then_any; intros _).
  apply ok_then_any. intros ts.
  assert (∀ b, ok_then (keeps s) (set_pending_escalate irq secure b ts x)) as He.
  { intros b. unfold set_pending_escalate. repeat case_if; simpl; auto with keeps. }
  destruct derived; [|apply He]. apply ok_then_any. intros _. repeat case_if; simpl; auto.
Qed.

Lemma acknowledge_keeps s : ok_then (keeps s) (armv7m_nvic_acknowledge_irq s).
Proof.
  unfold armv7m_nvic_acknowledge_irq. do 4 (apply ok_then_any; intros _). simpl. keeps.
Qed.

Lemma upd_vec_fuse b i f g s : upd_vec b i f (upd_vec b i g s) = upd_vec b i (fun v => f (g v)) s.
Proof.
  assert (∀ l, aset (aset l i (g (aget vec_zero l i))) i
            (f (aget vec_zero (aset l i (g (aget vec_zero l i))) i)) =
          aset l i (f (g (aget vec_zero l i)))) as H.
  { intros l. rewrite aset_aset.
    destruct (decide (0 ≤ i < alen l)) as [Hi|Hi]; [by rewrite aget_aset_eq|by rewrite !aset_out]. }
  destruct b; unfold upd_vec, update; simpl; f_equal; apply H.
Qed.

(** The end of a handler: the interrupt is pended again while its line is
    high. *)
Lemma complete_vec_keeps s b i :
  let s1 := upd_vec b i (fun v => v <| active := false |>) s in
  keeps s s1 ∧ truth (level (get_vec s1 b i)) = false ∨
  truth (level (get_vec s1 b i)) = true ∧ keeps s (upd_vec b i (fun v => v <| pending := true |>) s1).
Proof.
  intros s1. destruct (truth (level (get_vec s1 b i))) eqn:Hl; [right|left]; split; try done.
  - unfold s1. rewrite upd_vec_fuse. keeps.
  - apply keeps_upd; [apply keeps_refl|done|]. intros -> _ _ H.
    enough (truth (level (vec s i)) = false) as E by (simpl in H; by rewrite E in H).
    rewrite <- Hl. change (get_vec s1 false i) with (vec s1 i). unfold s1.
    by destruct (vec_upd false i (fun v => v <| active := false |>) s i) as [->|(_ & _ & ->)].
Qed.

Lemma complete_keeps s irq secure :
  ok_then (fun r => keeps s r.1) (armv7m_nvic_complete_irq irq secure s).
Proof.
  unfold armv7m_nvic_complete_irq. apply ok_then_any. intros _. apply ok_then_any. intros ws.
  destruct (complete_vec s _) as [[b i]|]; [|apply keeps_refl].
  apply (ok_then_bind _ (keeps s)); [|intros x Hx; by apply keeps_update].
  destruct (complete_vec_keeps s b i) as [[H ->]|[-> H]]; [done|]. by apply ok_then_any.
Qed.

Lemma write_icsr_keeps s value secure : ok_then (keeps s) (write_icsr s value secure).
Proof.
  unfold write_icsr, armv7m_nvic_set_pending. pose proof (keeps_refl s) as H0.
  apply (ok_then_bind _ (keeps s)).
  { repeat case_if; auto using keeps_ret, set_pending_keeps. by apply clear_pending_keeps. }
  intros s1 H1. apply (ok_then_bind _ (keeps s)).
  { repeat case_if; auto using keeps_ret, set_pending_keeps. by apply clear_pending_keeps. }
  intros s2 H2. repeat case_if; auto using keeps_ret, set_pending_keeps. by apply clear_pending_keeps.
Qed.

Lemma write_shcsr_keeps s value secure : keeps s (write_shcsr s value secure).
Proof. unfold write_shcsr. destruct secure; keeps. Qed.

Lemma write_aircr_keeps s value secure : keeps s (write_aircr s value secure).
Proof.
  assert (∀ x, keeps s x → keeps s (signal_sysresetreq x)) as Hr.
  { intros x Hx. unfold signal_sysresetreq. destruct (sysresetreq x); auto with keeps. }
  unfold write_aircr. cbv zeta. keeps; apply keeps_prigroup; keeps; auto with keeps.
Qed.

Lemma nvic_writel_keeps offset value secure s : ok_then (keeps s) (nvic_writel offset value secure s).
Proof.
  unfold nvic_writel, armv7m_nvic_set_pending.
  repeat match goal with |- ok_then _ (if ?c then _ else _) => destruct c end;
    auto using write_icsr_keeps, set_pending_keeps, keeps_refl; simpl; keeps;
    unfold write_itns, write_ccr, write_mpu_rbar, write_mpu_rasr,
      write_sau, write_fpccr, write_fpdscr; cbv zeta; keeps; auto using write_shcsr_keeps, write_aircr_keeps.
Qed.

Lemma set_prio_keeps s x irq b p : keeps s x → ok_then (keeps s) (set_prio irq b p x).
Proof.
  intros Hx. unfold set_prio. do 2 (apply ok_then_any; intros _).
  destruct b; [apply ok_then_any; intros _|]; by apply keeps_ret, keeps_upd.
Qed.

Lemma write_irq_prios_keeps s x startvec value attrs idxs :
  keeps s x → ok_then (keeps s) (write_irq_prios startvec value attrs idxs x).
Proof.
  revert x. induction idxs as [|i idxs IH]; intros x Hx; [done|]. simpl.
  apply (ok_then_bind _ (keeps s)); [|auto]. case_if; [|done].
  by apply set_prio_keeps.
Qed.

Lemma write_shpr_keeps s x offset value attrs idxs :
  keeps s x → ok_then (keeps s) (write_shpr offset value attrs idxs x).
Proof.
  revert x. induction idxs as [|i idxs IH]; intros x Hx; [done|]. simpl.
  apply ok_then_any. intros [b|]; [|apply (ok_then_bind _ (keeps s)); auto].
  apply (ok_then_bind _ (keeps s)); auto using set_prio_keeps.
Qed.

(** Clearing the pending bit is refused while the line is high and the
    interrupt is not active. *)
Lemma write_irq_pending_keeps s startvec size value setval attrs :
  keeps s (write_irq_pending startvec size value setval attrs s).
Proof.
  unfold write_irq_pending. apply keeps_update, keeps_loop; [apply keeps_refl|].
  intros i y Hy. cbv zeta. match goal with |- context [if ?b then _ else _] => destruct b eqn:H end; [|done].
  apply keeps_upd; [done|done|]. intros _ _ _ Hl. destruct setval; [done|].
  apply andb_prop in H as [_ H]. simpl in Hl, H. simpl. rewrite Hl in H. simpl in H.
  by rewrite negb_involutive in H.
Qed.

Lemma sysreg_write_keeps addr value size attrs s :
  ok_then (fun r => ∀ s', r = Some s' → keeps s s') (nvic_sysreg_write addr value size attrs s).
Proof.
  unfold nvic_sysreg_write. case_if; [done|].
  apply (ok_then_bind _ (keeps s)); [|intros x Hx s' [= <-]; keeps].
  unfold sysreg_write_body.
  repeat match goal with |- ok_then _ (if ?c then _ else _) => destruct c end;
    auto using nvic_writel_keeps, keeps_ret, keeps_refl;
    try (apply (ok_then_bind _ (keeps s));
         [auto using write_irq_prios_keeps, write_shpr_keeps, keeps_refl|intros; simpl; keeps]);
    simpl; auto using write_irq_pending_keeps; unfold write_irq_enable, write_cfsr; cbv zeta; keeps.
Qed.

Lemma set_irq_level_num n l s s' : set_irq_level n l s = Ok s' → num_irq s' = num_irq s.
Proof.
  intros H. unfold set_irq_level in H. destruct (_ && _); [|done]. simpl in H.
  case_match; [|by injection H as <-]. case_match; [|by injection H as <-].
  set (s1 := s <| vectors ::= _ |>) in H. change (num_irq s) with (num_irq s1).
  revert H. generalize s1. clear. intros s1 H.
  pose proof (set_pending_keeps s1 s1 (n + NVIC_FIRST_IRQ) false false (keeps_refl s1)) as K.
  unfold armv7m_nvic_set_pending in H. rewrite H in K. apply K.
Qed.

(** A line change itself: a rising line pends its interrupt. *)
Lemma set_irq_level_held n l s s' :
  set_irq_level n l s = Ok s' → nvic_wf s → all_held s → all_held s'.
Proof.
  intros H Hw Hh. unfold set_irq_level in H. set (k := n + NVIC_FIRST_IRQ) in *.
  destruct ((NVIC_FIRST_IRQ <=? k) && (k <? num_irq s)) eqn:Hk; [|done]. simpl in H.
  assert (0 ≤ k < alen (vectors s)) as Hb.
  { apply irq_bounds; [done|]. unfold k in Hk. lia. }
  destruct (l =? level (vec s k)); simpl in H; [by injection H as <-|].
  destruct (truth l) eqn:Hl.
  - set (s1 := upd_vec false k (fun v => v <| level := u8 l |>) s).
    assert (alen (vectors s1) = alen (vectors s)) as Ha by apply (upd_vec_alen false).
    change (armv7m_nvic_set_pending k false s1 = Ok s') in H.
    rewrite (set_pending_async k false s1) in H; [|right; unfold ARMV7M_EXCP_PENDSV, NVIC_FIRST_IRQ, NVIC_INTERNAL_VECTORS in *; lia|simpl; lia|done].
    injection H as <-. intros i Hi. change (vec ?x i) with (get_vec x false i).
    rewrite pend_vec_get by (cbv iota; rewrite Ha; exact Hb). simpl.
    destruct (Z.eqb_spec k i) as [<-|Hne]; [apply held_pending|].
    change (held (vec s1 i)). unfold s1.
    destruct (vec_upd false k (fun v => v <| level := u8 l |>) s i) as [->|(_ & ? & _)]; [by apply Hh|done].
  - injection H as <-. intros i Hi. change (held (vec (upd_vec false k (fun v => v <| level := u8 l |>) s) i)).
    destruct (vec_upd false k (fun v => v <| level := u8 l |>) s i) as [->|(_ & _ & ->)]; [by apply Hh|].
    intros Ht. simpl in Ht. unfold truth in *. apply negb_false_iff, Z.eqb_eq in Hl as ->. done.
Qed.

(** ** Every operation *)

Lemma lazyfp_keeps s irq secure : ok_then (keeps s) (armv7m_nvic_set_pending_lazyfp irq secure s).
Proof.
  unfold armv7m_nvic_set_pending_lazyfp. do 2 (apply ok_then_any; intros _). apply ok_then_any. intros ts.
  destruct (lazyfp_choice _ _ _) as [|esc|]; [apply keeps_refl| |done].
  case_if; [done|]. case_if; simpl; keeps.
Qed.

Lemma reset_levels s i : level (vec (armv7m_nvic_reset s) i) = 0.
Proof.
  assert (∀ b k f x, (∀ v, level (f v) = level v) → level (vec x i) = 0 →
    level (vec (upd_vec b k f x) i) = 0) as Hu.
  { intros b k f x Hf Hx. destruct (vec_upd b k f x i) as [->|(_ & _ & ->)]; [done|by rewrite Hf]. }
  assert (∀ x, vec (effect RebuildHflags x) i = vec x i) as He by done.
  assert (∀ x, vec (reset_cache x) i = vec x i) as Hc
    by (intros x; unfold reset_cache; cbv zeta; by case_if).
  assert (vec (reset_clear s) i = vec_zero) as H0 by apply aget_replicate_any.
  unfold armv7m_nvic_reset. rewrite He, Hc. clear He Hc.
  unfold reset_assignments, enable_vec, prio_vec.
  repeat match goal with
  | |- context [if ?b then _ else _] => destruct b
  | |- level (vec (upd_vec _ _ _ _) _) = 0 => apply Hu; [done|]
  end; by rewrite H0.
Qed.

(** An operation that is neither a line change nor a reset keeps the levels. *)
Inductive internal_op : NVICState → NVICState → Prop :=
| int_write addr value size attrs s s' :
    (secure attrs = true → FEATURE_M_SECURITY (model_of s) = true) →
    nvic_sysreg_write addr value size attrs s = Ok (Some s') → internal_op s s'
| int_pend irq sec derived s s' :
    do_armv7m_nvic_set_pending irq sec derived s = Ok s' → internal_op s s'
| int_ack s s' : armv7m_nvic_acknowledge_irq s = Ok s' → internal_op s s'
| int_complete irq sec s s' ret :
    armv7m_nvic_complete_irq irq sec s = Ok (s', ret) → internal_op s s'
| int_cpu f s : (∀ m, aircr (f m) = aircr m) → internal_op s (set_v7m f s).

Lemma internal_op_op s s' : internal_op s s' → nvic_op true s s'.
Proof. destruct 1; eauto using nvic_op. Qed.

Lemma internal_op_keeps s s' : internal_op s s' → keeps s s'.
Proof.
  destruct 1 as [addr value size attrs s s' _ H|irq b d s s' H|s s' H|irq b s s' ret H|f s].
  - pose proof (sysreg_write_keeps addr value size attrs s) as K. rewrite H in K. by apply K.
  - pose proof (set_pending_keeps s s irq b d (keeps_refl s)) as K. by rewrite H in K.
  - pose proof (acknowledge_keeps s) as K. by rewrite H in K.
  - pose proof (complete_keeps s irq b) as K. by rewrite H in K.
  - keeps.
Qed.

Lemma op_held L s s' : nvic_op L s s' → nvic_wf s → all_held s → all_held s'.
Proof.
  intros Hop Hw Hh.
  assert (internal_op s s' → all_held s') as Hint by (intros H; by apply (internal_op_keeps s s')).
  assert (∀ i b s0, armv7m_nvic_set_pending i b s = Ok s0 → all_held s0) as Hp.
  { intros i b s0 H. by apply (internal_op_keeps s s0 (int_pend i b false s s0 H)). }
  destruct Hop as [addr value size attrs s s' Hsec H|n l s s' H|n l s s' H|n l s s' H|irq b d s s' H
    |s s' H|irq b s s' ret H|f s Hf|irq b s s' H|s]; try (by apply Hint; econstructor; eauto).
  - by eapply set_irq_level_held.
  - unfold nvic_nmi_trigger in H. case_match; [eauto|by injection H as <-].
  - unfold nvic_systick_trigger in H. case_match; [eauto|by injection H as <-].
  - pose proof (lazyfp_keeps s irq b) as K. rewrite H in K. by apply K.
  - intros i _. unfold held. by rewrite reset_levels.
Qed.

Lemma reach_held L s : nvic_reach L s → all_held s.
Proof.
  induction 1 as [c n b calls s|L L' s s' Hr IH Hop].
  - intros i _. unfold held. by rewrite reset_levels.
  - eapply op_held; [exact Hop| |done]. by destruct (reach_inv L s Hr) as [[Hw _] _].
Qed.

(** C11.  No interrupt is lost.  In every reachable state, an external interrupt
    whose input line is high is pending or active: neither clearing its pending
    bit, nor taking it, nor returning from its handler, nor any other access or
    exception can leave an asserted line unserved. *)
Theorem nvic_no_lost_interrupt L s i :
  nvic_reach L s → NVIC_FIRST_IRQ ≤ i → level (vec s i) ≠ 0 →
  pending (vec s i) = true ∨ active (vec s i) = true.
Proof.
  intros Hr Hi Hl. apply orb_prop, (reach_held L s Hr i Hi).
  unfold truth. by apply negb_true_iff, Z.eqb_neq.
Qed.
