(* ===== verification/NvicBoard.v ===== *)
(** The controller of the board on concrete inputs: 241 lines and four
    priority bits on a Cortex-M7, driven through one interrupt of the UART. *)

From S2P Require Import Prelude Irq NvicState NvicCore NvicRead NvicWrite NvicPrio.
From S2P Require Import NvicInv CortexM NvicSpec NvicIrq NvicRegs NvicLevel.

Definition board_instance : NVICState :=
  nvic_instance (cpu_reset cortex_m7_initfn 0 0 0x20410000) 241 4 (Some []).

(** The state of a successful operation. *)
Definition after {A} (m : outcome A) (d : A) : A := match m with Ok a => a | _ => d end.

Definition privileged : MemTxAttrs := mk_attrs false false.

Definition board_write (addr value size : Z) (s : NVICState) : NVICState :=
  match nvic_sysreg_write addr value size privileged s with Ok (Some s') => s' | _ => s end.

Definition uart_irqn : Z := 141.

Definition nvic_realized : NVICState :=
  Eval vm_compute in default board_instance (armv7m_nvic_realize board_instance).
Definition nvic0 : NVICState := Eval vm_compute in armv7m_nvic_reset nvic_realized.
(** The UART's interrupt enabled in ISER4, then its line raised, the
    exception taken, and the line lowered. *)
Definition nvic_enabled : NVICState :=
  Eval vm_compute in board_write 0x110 (bit 13) 4 nvic0.
Definition nvic_raised : NVICState :=
  Eval vm_compute in after (set_irq_level uart_irqn 1 nvic_enabled) nvic0.
Definition nvic_active : NVICState :=
  Eval vm_compute in after (armv7m_nvic_acknowledge_irq nvic_raised) nvic0.

Lemma reach_nvic0 : nvic_reach true nvic0.
Proof.
  change nvic0 with (armv7m_nvic_reset nvic_realized).
  apply (reach_reset (cpu_reset cortex_m7_initfn 0 0 0x20410000) 241 4 []);
    [lia|lia|by intros _|done|].
  vm_compute. reflexivity.
Qed.

Lemma reach_enabled : nvic_reach true nvic_enabled.
Proof.
  apply (reach_op true true nvic0); [apply reach_nvic0|].
  apply (op_write 0x110 (bit 13) 4 privileged); [done|].
  vm_compute. reflexivity.
Qed.

Lemma reach_raised : nvic_reach true nvic_raised.
Proof.
  apply (reach_op true true nvic_enabled); [apply reach_enabled|].
  apply (op_irq uart_irqn 1). vm_compute. reflexivity.
Qed.

Lemma reach_active : nvic_reach true nvic_active.
Proof.
  apply (reach_op true true nvic_raised); [apply reach_raised|].
  apply op_ack. vm_compute. reflexivity.
Qed.

(** ** The theorems at these states *)

Lemma nvic_cache_correct_witness :
  nvic_reach true nvic_raised ∧ vectpending nvic_raised = 157 ∧
  nvic_wf nvic_raised ∧ cache_spec nvic_raised nvic_raised ∧ (true = true → line_ok nvic_raised).
Proof.
  split; [apply reach_raised|]. split; [reflexivity|].
  apply (nvic_cache_correct true nvic_raised reach_raised).
Defined.

Lemma nvic_acknowledge_witness :
  ∃ s', armv7m_nvic_acknowledge_irq nvic_raised = Ok s' ∧ exception (v7m_of s') = 157.
Proof.
  destruct (nvic_acknowledge true nvic_raised reach_raised ltac:(vm_compute; reflexivity))
    as (s' & H & _ & _ & He & _).
  exists s'. split; [exact H|]. rewrite He. reflexivity.
Defined.

Lemma nvic_line_change_witness :
  ∃ s', set_irq_level 141 1 nvic_enabled = Ok s' ∧ pending (vec s' 157) = true.
Proof.
  destruct (nvic_line_change true nvic_enabled 141 1 reach_enabled
    ltac:(split; vm_compute; congruence) (or_intror eq_refl)) as (s' & H & Hv & _).
  exists s'. split; [exact H|]. change 157 with (141 + NVIC_FIRST_IRQ). rewrite Hv. vm_compute. reflexivity.
Defined.

(** The line is still high when the handler returns: the interrupt is pending
    again. *)
Lemma nvic_complete_v7m_witness :
  ∃ s' ret, armv7m_nvic_complete_irq 157 false nvic_active = Ok (s', ret) ∧
    pending (vec s' 157) = true ∧ active (vec s' 157) = false.
Proof.
  destruct (nvic_complete_v7m true nvic_active 157 reach_active eq_refl eq_refl
    ltac:(split; vm_compute; congruence)) as (s' & ret & H & Hv & _).
  exists s', ret. rewrite Hv. split; [exact H|]. vm_compute. split; reflexivity.
Defined.

Lemma nvic_guest_access_total_witness :
  (∃ r, nvic_sysreg_read nvic_active 0xd04 4 privileged = Ok r) ∧
  (∃ r, nvic_sysreg_write 0xd04 0x10000000 4 privileged nvic_active = Ok r).
Proof.
  apply (nvic_guest_access_total true nvic_active 0xd04 0x10000000 4 privileged reach_active).
  split; [lia|]. right. right. split; reflexivity.
Defined.

Lemma nvic_enable_registers_witness :
  ∃ s', nvic_sysreg_write (bank_addr 0x100 false 4) (bit 13) 4 privileged nvic0 = Ok (Some s') ∧
    enabled (vec s' 157) = true ∧ enabled (vec s' 158) = false.
Proof.
  destruct (nvic_enable_registers true nvic0 false 4 (bit 13) privileged reach_nvic0 eq_refl
    ltac:(lia)) as (s' & H & Hv & _).
  exists s'. split; [exact H|].
  change (vec s' 157) with (get_vec s' false 157). change (vec s' 158) with (get_vec s' false 158).
  rewrite !Hv. vm_compute. split; reflexivity.
Defined.

(** The line is high and the interrupt not active: it stays pending. *)
Lemma nvic_pending_registers_witness :
  ∃ s', nvic_sysreg_write (bank_addr 0x200 true 4) (bit 13) 4 privileged nvic_raised = Ok (Some s') ∧
    pending (vec s' 157) = true.
Proof.
  destruct (nvic_pending_registers true nvic_raised true 4 (bit 13) privileged reach_raised eq_refl
    ltac:(lia)) as (s' & H & Hv & _).
  exists s'. split; [exact H|].
  change (vec s' 157) with (get_vec s' false 157). rewrite !Hv. vm_compute. reflexivity.
Defined.

(** Four implemented bits. *)
Lemma nvic_priority_register_witness :
  ∃ s', nvic_sysreg_write 0x48d 0x5f 1 privileged nvic0 = Ok (Some s') ∧
    nvic_sysreg_read s' 0x48d 1 privileged = Ok (Some 0x50).
Proof.
  destruct (nvic_priority_register true nvic0 141 0x5f privileged reach_nvic0 eq_refl
    ltac:(split; vm_compute; congruence) ltac:(split; vm_compute; congruence)
    ltac:(vm_compute; reflexivity)) as (s' & H & _ & Hr).
  exists s'. split; [exact H|]. exact Hr.
Defined.

Lemma nvic_can_take_iff_witness :
  armv7m_nvic_can_take_pending_exception nvic_raised = true ↔
  ∃ e, exists_entry nvic_raised e ∧ ready nvic_raised e = true ∧
    unmasked nvic_raised (group_prio nvic_raised e) ∧
    ∀ e', exists_entry nvic_raised e' → active (entry_vec nvic_raised e') = true →
      group_prio nvic_raised e < group_prio nvic_raised e'.
Proof.
  apply (nvic_can_take_iff true nvic_raised reach_raised); split; vm_compute; congruence.
Defined.

(** While the handler of the UART's interrupt runs, its line still high. *)
Lemma nvic_no_lost_interrupt_witness :
  level (vec nvic_active 157) = 1 ∧
  (pending (vec nvic_active 157) = true ∨ active (vec nvic_active 157) = true).
Proof.
  split; [vm_compute; reflexivity|].
  apply (nvic_no_lost_interrupt true nvic_active 157 reach_active); vm_compute; congruence.
Defined.
