(* ===== verification/Mpu.v ===== *)
(** The memory protection unit: the M-profile part of qemu/target/arm/ptw.c.
    An address is looked up in the MPU regions (PMSAv7, or PMSAv8 with the
    security attribution of v8M), which gives the permissions, the size of the
    block they hold for, and the fault.  Protection registers are those of
    [NvicState]; fields that only page-table walks and A/R-profile cores use
    are left out. *)

From S2P Require Import Prelude NvicState NvicRead.

(** ** Translation regimes and results *)

(** [arm_cpu_realizefn] asks for 1 KiB pages on M-profile cores. *)
Definition TARGET_PAGE_BITS : Z := 10.
Definition TARGET_PAGE_SIZE : Z := 2 ^ TARGET_PAGE_BITS.
Definition TARGET_PAGE_MASK : Z := not32 (TARGET_PAGE_SIZE - 1).

Inductive MMUAccessType := MMU_DATA_LOAD | MMU_DATA_STORE | MMU_INST_FETCH.

#[export] Instance MMUAccessType_eq_dec : EqDecision MMUAccessType.
Proof. solve_decision. Defined.

Definition PAGE_READ : Z := 1.
Definition PAGE_WRITE : Z := 2.
Definition PAGE_EXEC : Z := 4.

(** [1 << access_type]. *)
Definition access_bit (t : MMUAccessType) : Z :=
  match t with MMU_DATA_LOAD => bit 0 | MMU_DATA_STORE => bit 1 | MMU_INST_FETCH => bit 2 end.

Definition ARM_MMU_IDX_M : Z := 0x40.
Definition ARM_MMU_IDX_M_PRIV : Z := 0x1.
Definition ARM_MMU_IDX_M_NEGPRI : Z := 0x2.
Definition ARM_MMU_IDX_M_S : Z := 0x4.
Definition ARMMMUIdx_MUser : Z := ARM_MMU_IDX_M.
Definition ARMMMUIdx_MUserNegPri : Z := Z.lor ARMMMUIdx_MUser ARM_MMU_IDX_M_NEGPRI.
Definition ARMMMUIdx_MSUser : Z := Z.lor ARMMMUIdx_MUser ARM_MMU_IDX_M_S.
Definition ARMMMUIdx_MSUserNegPri : Z := Z.lor ARMMMUIdx_MUserNegPri ARM_MMU_IDX_M_S.

Definition regime_is_user (mmu_idx : Z) : bool :=
  (mmu_idx =? ARMMMUIdx_MUser) || (mmu_idx =? ARMMMUIdx_MSUser) ||
  (mmu_idx =? ARMMMUIdx_MUserNegPri) || (mmu_idx =? ARMMMUIdx_MSUserNegPri).

(** The faults M-profile lookups report. *)
Inductive ARMFaultType :=
| ARMFault_None | ARMFault_Background | ARMFault_Permission
| ARMFault_QEMU_NSCExec | ARMFault_QEMU_SFault.

#[export] Instance ARMFaultType_eq_dec : EqDecision ARMFaultType.
Proof. solve_decision. Defined.

(** The fields of [CPUTLBEntryFull] these lookups set. *)
Record GetPhysAddrResult := mk_result {
  phys_addr : Z; lg_page_size : Z; prot : Z; res_attrs : MemTxAttrs
}.

#[export] Instance eta_GetPhysAddrResult : RecordEta GetPhysAddrResult := fun r =>
  mk_result (phys_addr r) (lg_page_size r) (prot r) (res_attrs r).

(** What a lookup returns: [true] for a fault, with the result and [fi->type]. *)
Definition lookup_result : Type := bool * GetPhysAddrResult * ARMFaultType.

Definition range_get_last (offset len : Z) : Z := u64 (offset + len - 1).

Definition ranges_overlap (first1 len1 first2 len2 : Z) : bool :=
  let last1 := range_get_last first1 len1 in
  let last2 := range_get_last first2 len2 in
  negb ((last2 <? first1) || (last1 <? first2)).

(** ** The default memory map *)

Definition between (lo hi x : Z) : bool := (lo <=? x) && (x <=? hi).

Definition get_phys_addr_pmsav7_default (address : Z) : outcome Z :=
  if between 0x00000000 0x1fffffff address || between 0x20000000 0x3fffffff address ||
     between 0x60000000 0x7fffffff address || between 0x80000000 0x9fffffff address
  then mret (Z.lor (Z.lor PAGE_READ PAGE_WRITE) PAGE_EXEC)
  else if between 0x40000000 0x5fffffff address || between 0xa0000000 0xbfffffff address ||
          between 0xc0000000 0xdfffffff address || between 0xe0000000 0xffffffff address
  then mret (Z.lor PAGE_READ PAGE_WRITE)
  else Abort NotReached.

Definition m_is_ppb_region (s : NVICState) (address : Z) : bool :=
  FEATURE_M (model_of s) && (extract32 address 20 12 =? 0xe00).

Definition m_is_system_region (s : NVICState) (address : Z) : bool :=
  FEATURE_M (model_of s) && (extract32 address 29 3 =? 0x7).

Definition pmsav7_use_background_region (s : NVICState) (is_secure is_user : bool) : bool :=
  if is_user then false
  else has (bget (mpu_ctrl (v7m_of s)) is_secure) (field_mask MPU_CTRL_PRIVDEFENA).

Definition regime_translation_disabled (s : NVICState) (mmu_idx : Z) (is_secure : bool) : bool :=
  let enable := field_mask MPU_CTRL_ENABLE in
  let hfnmiena := field_mask MPU_CTRL_HFNMIENA in
  let ctrl := Z.land (bget (mpu_ctrl (v7m_of s)) is_secure) (Z.lor enable hfnmiena) in
  if ctrl =? enable then has mmu_idx ARM_MMU_IDX_M_NEGPRI
  else if ctrl =? Z.lor enable hfnmiena then false
  else true.

(** ** PMSAv7 *)

(** The loop over groups of 2, 4 and 8 subregions: the size (as a power of two)
    of the block around the address whose subregions agree. *)
Fixpoint subregion_size (drsr snd : Z) (groups : list Z) (srdis_mask rsize : Z) : Z :=
  match groups with
  | [] => rsize
  | i :: groups =>
    if rsize <? TARGET_PAGE_BITS then
      let snd_rounded := Z.land snd (Z.lnot (i - 1)) in
      let srdis_multi := extract32 drsr (snd_rounded + 8) i in
      if truth (Z.lxor srdis_mask srdis_multi) then rsize
      else subregion_size drsr snd groups (Z.lor (Z.shiftl srdis_mask i) srdis_mask) (rsize + 1)
    else rsize
  end.

(** Whether the subregion of the address is disabled, and the size of the
    block. *)
Definition subregion_lookup (drsr base address rsize : Z) : bool * Z :=
  if 8 <=? rsize then
    let rsize := rsize - 3 in
    let snd := Z.land (Z.shiftr (address - base) rsize) 0x7 in
    let srdis := truth (extract32 drsr (snd + 8) 1) in
    (srdis, subregion_size drsr snd [2; 4; 8] (if srdis then 0x3 else 0x0) rsize)
  else (false, rsize).

(** The region search: the matching region of the list, and the page size so
    far. *)
Fixpoint pmsav7_search (m : MpuState) (address : Z) (regions : list Z) (lg : Z) : option Z * Z :=
  match regions with
  | [] => (None, lg)
  | n :: regions =>
    let base := aget 0 (drbar m) n in
    let drsr' := aget 0 (drsr m) n in
    let rsize := extract32 drsr' 1 5 in
    if negb (has drsr' 0x1) then pmsav7_search m address regions lg
    else if negb (truth rsize) then pmsav7_search m address regions lg
    else
      let rsize := rsize + 1 in
      let rmask := u32 (Z.shiftl 1 rsize - 1) in
      if has base rmask then pmsav7_search m address regions lg
      else if (address <? base) || (u32 (base + rmask) <? address) then
        let lg :=
          if ranges_overlap base rmask (Z.land address TARGET_PAGE_MASK) TARGET_PAGE_SIZE
          then 0 else lg in
        pmsav7_search m address regions lg
      else
        let '(srdis, rsize) := subregion_lookup drsr' base address rsize in
        if (srdis : bool) then pmsav7_search m address regions lg
        else (Some n, if rsize <? TARGET_PAGE_BITS then rsize else lg)
  end.

(** The AP field; value 4 is reserved, and on M-profile 7 is 6. *)
Definition pmsav7_ap_prot (is_user : bool) (ap : Z) : Z :=
  let rx := Z.lor PAGE_READ PAGE_EXEC in
  if is_user then
    if (ap =? 0) || (ap =? 1) || (ap =? 5) then 0
    else if ap =? 3 then Z.lor PAGE_WRITE rx
    else if (ap =? 2) || (ap =? 6) then rx
    else if ap =? 7 then rx
    else 0
  else
    if ap =? 0 then 0
    else if (ap =? 1) || (ap =? 2) || (ap =? 3) then Z.lor PAGE_WRITE rx
    else if (ap =? 5) || (ap =? 6) then rx
    else if ap =? 7 then rx
    else 0.

(** The permissions of a region at an address. *)
Definition pmsav7_region_prot (s : NVICState) (is_user : bool) (n address : Z) : Z :=
  let dracr' := aget 0 (dracr (mpu (cpu s))) n in
  let ap := extract32 dracr' 8 3 in
  let xn := if m_is_system_region s address then 1 else extract32 dracr' 12 1 in
  let p := pmsav7_ap_prot is_user ap in
  if truth xn then Z.land p (Z.lnot PAGE_EXEC) else p.

(** [n = dregion - 1, ..., 0]. *)
Definition regions_down (s : NVICState) : list Z := rev (seqZ 0 (pmsav7_dregion (model_of s))).

Definition get_phys_addr_pmsav7 (s : NVICState) (mmu_idx : Z) (secure : bool) (address : Z)
  (access_type : MMUAccessType) (result : GetPhysAddrResult) : outcome lookup_result :=
  let is_user := regime_is_user mmu_idx in
  let result := result <| phys_addr := address |> <| lg_page_size := TARGET_PAGE_BITS |>
                       <| prot := 0 |> in
  let finish r : lookup_result := (negb (has (prot r) (access_bit access_type)), r, ARMFault_Permission) in
  if regime_translation_disabled s mmu_idx secure || m_is_ppb_region s address then
    p ← get_phys_addr_pmsav7_default address;
    mret (finish (result <| prot := p |>))
  else
    let '(hit, lg) := pmsav7_search (mpu (cpu s)) address (regions_down s) TARGET_PAGE_BITS in
    let result := result <| lg_page_size := lg |> in
    match hit with
    | None =>
      if negb (pmsav7_use_background_region s secure is_user)
      then mret (true, result, ARMFault_Background)
      else
        p ← get_phys_addr_pmsav7_default address;
        mret (finish (result <| prot := p |>))
    | Some n => mret (finish (result <| prot := pmsav7_region_prot s is_user n address |>))
    end.

(** ** PMSAv8 *)

Definition simple_ap_to_rw_prot_is_user (ap : Z) (is_user : bool) : outcome Z :=
  if ap =? 0 then mret (if is_user then 0 else Z.lor PAGE_READ PAGE_WRITE)
  else if ap =? 1 then mret (Z.lor PAGE_READ PAGE_WRITE)
  else if ap =? 2 then mret (if is_user then 0 else PAGE_READ)
  else if ap =? 3 then mret PAGE_READ
  else Abort NotReached.

(** The local variables of the search. *)
Record v8_scan := mk_v8_scan { matchregion : option Z; hit : bool; v8_lg : Z }.

(** The region search; [None] when a second region matches, with the page size
    at that point. *)
Fixpoint pmsav8_search (m : MpuState) (secure : bool) (address : Z) (regions : list Z)
  (r : v8_scan) : v8_scan + Z :=
  match regions with
  | [] => inl r
  | n :: regions =>
    let base := Z.land (aget 0 (bget (rbar m) secure) n) (not32 0x1f) in
    let rlar' := aget 0 (bget (rlar m) secure) n in
    let limit := Z.lor rlar' 0x1f in
    let addr_page_base := Z.land address TARGET_PAGE_MASK in
    let addr_page_limit := u32 (addr_page_base + (TARGET_PAGE_SIZE - 1)) in
    if negb (has rlar' 0x1) then pmsav8_search m secure address regions r
    else if (address <? base) || (limit <? address) then
      let lg :=
        if (base <=? limit) &&
           ranges_overlap base (u32 (limit - base + 1)) addr_page_base TARGET_PAGE_SIZE
        then 0 else v8_lg r in
      pmsav8_search m secure address regions (mk_v8_scan (matchregion r) (hit r) lg)
    else
      let lg := if (addr_page_base <? base) || (limit <? addr_page_limit) then 0 else v8_lg r in
      match matchregion r with
      | Some _ => inr lg
      | None => pmsav8_search m secure address regions (mk_v8_scan (Some n) true lg)
      end
  end.

(** Also the region number that is returned through [mregion]; [None] is -1. *)
Definition pmsav8_mpu_lookup (s : NVICState) (address : Z) (access_type : MMUAccessType)
  (mmu_idx : Z) (secure : bool) (result : GetPhysAddrResult)
  : outcome (lookup_result * option Z) :=
  let is_user := regime_is_user mmu_idx in
  let result := result <| lg_page_size := TARGET_PAGE_BITS |> <| phys_addr := address |>
                       <| prot := 0 |> in
  let scan :=
    if regime_translation_disabled s mmu_idx secure then inl (mk_v8_scan None true TARGET_PAGE_BITS)
    else if m_is_ppb_region s address then inl (mk_v8_scan None true TARGET_PAGE_BITS)
    else pmsav8_search (mpu (cpu s)) secure address (regions_down s)
           (mk_v8_scan None (pmsav7_use_background_region s secure is_user) TARGET_PAGE_BITS) in
  match scan with
  | inr lg => mret (true, result <| lg_page_size := lg |>, ARMFault_Permission, None)
  | inl r =>
    let result := result <| lg_page_size := v8_lg r |> in
    if negb (hit r) then mret (true, result, ARMFault_Background, None)
    else
      p ← match matchregion r with
          | None => get_phys_addr_pmsav7_default address
          | Some n =>
            let matched_rbar := aget 0 (bget (rbar (mpu (cpu s))) secure) n in
            let matched_rlar := aget 0 (bget (rlar (mpu (cpu s))) secure) n in
            let ap := extract32 matched_rbar 1 2 in
            let pxn := FEATURE_V8_1M (model_of s) && truth (extract32 matched_rlar 4 1) in
            let xn := m_is_system_region s address || truth (extract32 matched_rbar 0 1) in
            p ← simple_ap_to_rw_prot_is_user ap is_user;
            mret (if truth p && negb xn && negb (pxn && negb is_user) then Z.lor p PAGE_EXEC else p)
          end;
      mret (negb (has p (access_bit access_type)), result <| prot := p |>, ARMFault_Permission,
            matchregion r)
  end.

(** ** Security attribution (v8M) *)

Record V8M_SAttributes := mk_sattrs {
  sa_subpage : bool; sa_ns : bool; sa_nsc : bool; sa_sregion : Z; sa_srvalid : bool;
  sa_iregion : Z; sa_irvalid : bool
}.

#[export] Instance eta_V8M_SAttributes : RecordEta V8M_SAttributes := fun a =>
  mk_sattrs (sa_subpage a) (sa_ns a) (sa_nsc a) (sa_sregion a) (sa_srvalid a) (sa_iregion a)
    (sa_irvalid a).

Definition sattrs_zero : V8M_SAttributes := mk_sattrs false false false 0 false 0 false.

Definition v8m_is_sau_exempt (s : NVICState) (address : Z) (access_type : MMUAccessType) : bool :=
  (bool_decide (access_type = MMU_INST_FETCH) && m_is_system_region s address) ||
  between 0xe0000000 0xe0002fff address || between 0xe000e000 0xe000efff address ||
  between 0xe002e000 0xe002efff address || between 0xe0040000 0xe0041fff address ||
  between 0xe00ff000 0xe00fffff address.

(** The loop over the SAU regions. *)
Fixpoint sau_search (m : MpuState) (address : Z) (regions : list Z) (a : V8M_SAttributes)
  : V8M_SAttributes :=
  match regions with
  | [] => a
  | r :: regions =>
    let rlar' := aget 0 (sau_rlar m) r in
    if negb (has rlar' 1) then sau_search m address regions a
    else
      let base := Z.land (aget 0 (sau_rbar m) r) (not32 0x1f) in
      let limit := Z.lor rlar' 0x1f in
      let addr_page_base := Z.land address TARGET_PAGE_MASK in
      let addr_page_limit := u32 (addr_page_base + (TARGET_PAGE_SIZE - 1)) in
      if (base <=? address) && (address <=? limit) then
        let a := if (addr_page_base <? base) || (limit <? addr_page_limit)
                 then a <| sa_subpage := true |> else a in
        if sa_srvalid a then
          a <| sa_ns := false |> <| sa_nsc := false |> <| sa_sregion := 0 |> <| sa_srvalid := false |>
        else
          let a := if has rlar' 2 then a <| sa_nsc := true |> else a <| sa_ns := true |> in
          sau_search m address regions (a <| sa_srvalid := true |> <| sa_sregion := u8 r |>)
      else
        sau_search m address regions
          (if (base <=? limit) &&
              ranges_overlap base (u32 (limit - base + 1)) addr_page_base TARGET_PAGE_SIZE
           then a <| sa_subpage := true |> else a)
  end.

Definition IREGION_NOTVALID : Z := -1.

Definition v8m_security_lookup (s : NVICState) (address : Z) (access_type : MMUAccessType)
  (is_secure : bool) : V8M_SAttributes :=
  let ida := match idau (model_of s) with
             | Some check => check address
             | None => mk_idau IREGION_NOTVALID false true true
             end in
  let a := sattrs_zero in
  if bool_decide (access_type = MMU_INST_FETCH) && (extract32 address 28 4 =? 0xf) then a
  else if idau_exempt ida || v8m_is_sau_exempt s address access_type
  then a <| sa_ns := negb is_secure |>
  else
    let a := if negb (idau_region ida =? IREGION_NOTVALID)
             then a <| sa_irvalid := true |> <| sa_iregion := u8 (idau_region ida) |> else a in
    let m := mpu (cpu s) in
    let ctrl := Z.land (sau_ctrl m) 3 in
    let a :=
      if ctrl =? 0 then a
      else if ctrl =? 2 then a <| sa_ns := true |>
      else sau_search m address (seqZ 0 (sau_sregion (model_of s))) a in
    if negb (idau_ns ida) && (sa_ns a || (negb (idau_nsc ida) && sa_nsc a))
    then a <| sa_ns := false |> <| sa_nsc := idau_nsc ida |>
    else a.

(** [attrs.secure] of a result. *)
Definition set_attrs_secure (b : bool) (r : GetPhysAddrResult) : GetPhysAddrResult :=
  r <| res_attrs := mk_attrs b (user (res_attrs r)) |>.

Definition get_phys_addr_pmsav8 (s : NVICState) (mmu_idx : Z) (secure : bool) (address : Z)
  (access_type : MMUAccessType) (result : GetPhysAddrResult) : outcome lookup_result :=
  let sattrs :=
    if FEATURE_M_SECURITY (model_of s) then v8m_security_lookup s address access_type secure
    else sattrs_zero in
  let fault type : lookup_result :=
    (true, result <| lg_page_size := if sa_subpage sattrs then 0 else TARGET_PAGE_BITS |>
                  <| phys_addr := address |> <| prot := 0 |>, type) in
  let lookup (result : GetPhysAddrResult) : outcome lookup_result :=
    r ← pmsav8_mpu_lookup s address access_type mmu_idx secure result;
    let '(ret, result, fi, _) := r in
    mret (ret, if sa_subpage sattrs then result <| lg_page_size := 0 |> else result, fi) in
  if FEATURE_M_SECURITY (model_of s) then
    if bool_decide (access_type = MMU_INST_FETCH) then
      if negb (eqb (sa_ns sattrs) (negb secure)) then
        mret (fault (if sa_nsc sattrs then ARMFault_QEMU_NSCExec else ARMFault_QEMU_SFault))
      else lookup result
    else if sa_ns sattrs then lookup (set_attrs_secure false result)
    else if negb secure then mret (fault ARMFault_QEMU_SFault)
    else lookup result
  else lookup result.

(** ** The lookup *)

(** The security state of an M-profile index. *)
Definition arm_mmu_idx_to_security_space (mmu_idx : Z) : bool := has mmu_idx ARM_MMU_IDX_M_S.

(** [get_phys_addr] on an M-profile core of v7 or later (the fast context switch
    and granule protection registers of A-profile cores are zero there). *)
Definition get_phys_addr (s : NVICState) (address : Z) (access_type : MMUAccessType) (mmu_idx : Z)
  : outcome lookup_result :=
  let secure := arm_mmu_idx_to_security_space mmu_idx in
  let result := mk_result 0 TARGET_PAGE_BITS 0 (mk_attrs secure (regime_is_user mmu_idx)) in
  if FEATURE_V8 (model_of s)
  then get_phys_addr_pmsav8 s mmu_idx secure (u32 address) access_type result
  else get_phys_addr_pmsav7 s mmu_idx secure (u32 address) access_type result.
