(* ===== verification/MpuSpec.v ===== *)
(** Theorems about the PMSAv7 lookup: which region decides an access, what it
    permits, and for which addresses of a page the answer may be kept. *)

From S2P Require Import Prelude Irq NvicState NvicCore NvicRead NvicWrite NvicSpec NvicBoard Mpu.

(** ** Fields of the region registers *)

Lemma extract32_spec x st len i : 0 ≤ st → 0 ≤ len ≤ 32 → 0 ≤ i →
  Z.testbit (extract32 x st len) i = (i <? len) && Z.testbit x (i + st).
Proof.
  intros Hs Hl Hi. unfold extract32.
  replace (Z.shiftr (2 ^ 32 - 1) (32 - len)) with (Z.ones len).
  - rewrite Z.land_spec, Z.shiftr_spec by done. destruct (Z.ltb_spec i len).
    + rewrite Z.ones_spec_low by lia. by rewrite andb_true_r.
    + rewrite Z.ones_spec_high by lia. by rewrite andb_false_r.
  - change (2 ^ 32 - 1) with (Z.ones 32).
    rewrite Z.shiftr_div_pow2, Z.ones_div_pow2 by lia. f_equal. lia.
Qed.

Lemma extract32_range x st len : 0 ≤ st → 0 ≤ len ≤ 32 → 0 ≤ extract32 x st len < 2 ^ len.
Proof.
  intros Hs Hl. unfold extract32.
  replace (Z.shiftr (2 ^ 32 - 1) (32 - len)) with (Z.ones len).
  - rewrite Z.land_ones by lia. apply Z.mod_pos_bound. lia.
  - change (2 ^ 32 - 1) with (Z.ones 32).
    rewrite Z.shiftr_div_pow2, Z.ones_div_pow2 by lia. f_equal. lia.
Qed.

Lemma extract32_div x st len : 0 ≤ st → 0 ≤ len ≤ 32 →
  extract32 x st len = (x / 2 ^ st) mod 2 ^ len.
Proof.
  intros Hs Hl. unfold extract32.
  replace (Z.shiftr (2 ^ 32 - 1) (32 - len)) with (Z.ones len).
  - by rewrite Z.land_ones, Z.shiftr_div_pow2 by lia.
  - change (2 ^ 32 - 1) with (Z.ones 32).
    rewrite Z.shiftr_div_pow2, Z.ones_div_pow2 by lia. f_equal. lia.
Qed.

Lemma extract32_bit x st : 0 ≤ st → truth (extract32 x st 1) = Z.testbit x st.
Proof.
  intros Hs. rewrite extract32_div by lia. rewrite Z.testbit_eqb by done.
  change (2 ^ 1) with 2. unfold truth.
  pose proof (Z.mod_pos_bound (x / 2 ^ st) 2 ltac:(lia)).
  destruct (Z.eqb_spec ((x / 2 ^ st) mod 2) 0), (Z.eqb_spec ((x / 2 ^ st) mod 2) 1); lia || done.
Qed.

(** ** The regions as intervals *)

(** The size field, and the base and size (as a power of two) of a region. *)
Definition size_field (m : MpuState) (n : Z) : Z := extract32 (aget 0 (drsr m) n) 1 5.
Definition region_base (m : MpuState) (n : Z) : Z := aget 0 (drbar m) n.
Definition region_bits (m : MpuState) (n : Z) : Z := size_field m n + 1.

(** The region is enabled, has a size, and is aligned to it. *)
Definition region_valid (m : MpuState) (n : Z) : bool :=
  Z.testbit (aget 0 (drsr m) n) 0 && (0 <? size_field m n) &&
  (region_base m n mod 2 ^ region_bits m n =? 0).

Definition in_region (m : MpuState) (n a : Z) : bool :=
  (region_base m n <=? a) && (a <? region_base m n + 2 ^ region_bits m n).

(** The eighth of the region the address is in is disabled; regions below
    256 bytes have no subregions. *)
Definition subregion_off (m : MpuState) (n a : Z) : bool :=
  (8 <=? region_bits m n) &&
  Z.testbit (aget 0 (drsr m) n) (8 + (a - region_base m n) / 2 ^ (region_bits m n - 3)).

Definition covers (m : MpuState) (a n : Z) : bool :=
  region_valid m n && in_region m n a && negb (subregion_off m n a).

(** The region registers hold 32-bit values. *)
Definition mpu_wf (m : MpuState) : Prop :=
  Forall is_u32 (drbar m) ∧ Forall is_u32 (drsr m) ∧ Forall is_u32 (dracr m).

Lemma aget_u32 l n : Forall is_u32 l → is_u32 (aget 0 l n).
Proof.
  intros Hl. unfold aget. case_match; [closed_range|].
  destruct (l !! Z.to_nat n) eqn:E; simpl; [|closed_range]. by eapply Forall_lookup_1.
Qed.

Section lookup.
Context (m : MpuState) (Hwf : mpu_wf m).

Lemma base_u32 n : is_u32 (region_base m n).
Proof. apply aget_u32, Hwf. Qed.

Lemma size_field_range n : 0 ≤ size_field m n < 32.
Proof. apply (extract32_range _ 1 5); lia. Qed.

Lemma region_mask n :
  0 < size_field m n → u32 (Z.shiftl 1 (size_field m n + 1) - 1) = 2 ^ region_bits m n - 1.
Proof.
  intros Hp. pose proof (size_field_range n). rewrite Z.shiftl_1_l. unfold region_bits.
  apply wrap_small. assert (2 ^ (size_field m n + 1) ≤ 2 ^ 32) by (apply Z.pow_le_mono_r; lia).
  split; [|lia]. assert (0 < 2 ^ (size_field m n + 1)) by lia. lia.
Qed.

Lemma misaligned n :
  has (region_base m n) (2 ^ region_bits m n - 1) = negb (region_base m n mod 2 ^ region_bits m n =? 0).
Proof.
  pose proof (size_field_range n). unfold has. rewrite land_mask by (unfold region_bits; lia). done.
Qed.

(** An aligned region ends within the address space. *)
Lemma region_end n : region_valid m n = true →
  region_base m n + 2 ^ region_bits m n ≤ 2 ^ 32.
Proof.
  unfold region_valid. rewrite !andb_true_iff, Z.ltb_lt, Z.eqb_eq. intros [[_ Hs] Ha].
  pose proof (size_field_range n). pose proof (base_u32 n) as [Hb Hb']. unfold region_bits in *.
  apply Z.mod_divide in Ha as [k Hk]; [|lia]. rewrite Hk in *.
  assert (2 ^ 32 = 2 ^ (31 - size_field m n) * 2 ^ (size_field m n + 1)) as E
    by (rewrite <- Z.pow_add_r by lia; f_equal; lia).
  assert (k < 2 ^ (31 - size_field m n)) by nia. nia.
Qed.

Lemma outside n a : region_valid m n = true → is_u32 a →
  (a <? region_base m n) || (u32 (region_base m n + (2 ^ region_bits m n - 1)) <? a) =
  negb (in_region m n a).
Proof.
  intros Hv Ha. pose proof (region_end n Hv). pose proof (base_u32 n) as [? ?].
  pose proof (size_field_range n).
  assert (0 < 2 ^ region_bits m n) by (unfold region_bits; lia).
  rewrite wrap_small by (split; lia). unfold in_region.
  destruct (Z.ltb_spec a (region_base m n)), (Z.leb_spec (region_base m n) a),
    (Z.ltb_spec (region_base m n + (2 ^ region_bits m n - 1)) a),
    (Z.ltb_spec a (region_base m n + 2 ^ region_bits m n)); done || lia.
Qed.

(** The subregion the code looks at is the eighth of the address. *)
Lemma subregion_off_spec n a : in_region m n a = true →
  (subregion_lookup (aget 0 (drsr m) n) (region_base m n) a (region_bits m n)).1 = subregion_off m n a.
Proof.
  unfold in_region. rewrite andb_true_iff, Z.leb_le, Z.ltb_lt. intros [H1 H2].
  unfold subregion_lookup, subregion_off. destruct (Z.leb_spec 8 (region_bits m n)) as [Hb|]; [|done].
  cbv zeta. cbn [fst andb]. rewrite Z.shiftr_div_pow2 by lia.
  change 7 with (2 ^ 3 - 1). rewrite land_mask by done.
  assert (0 ≤ (a - region_base m n) / 2 ^ (region_bits m n - 3) < 8) as Hr.
  { split; [apply Z.div_pos; lia|]. apply Z.div_lt_upper_bound; [lia|].
    change 8 with (2 ^ 3). rewrite <- Z.pow_add_r by lia.
    replace (region_bits m n - 3 + 3) with (region_bits m n) by lia. lia. }
  rewrite wrap_small by (split; lia). rewrite extract32_bit by lia. f_equal. lia.
Qed.

(** One round of the search. *)
Lemma search_step a n regions lg : is_u32 a →
  pmsav7_search m a (n :: regions) lg =
  if negb (region_valid m n) then pmsav7_search m a regions lg
  else if negb (in_region m n a) then
    pmsav7_search m a regions
      (if ranges_overlap (region_base m n) (2 ^ region_bits m n - 1)
            (Z.land a TARGET_PAGE_MASK) TARGET_PAGE_SIZE then 0 else lg)
  else if subregion_off m n a then pmsav7_search m a regions lg
  else
    let rsize := (subregion_lookup (aget 0 (drsr m) n) (region_base m n) a (region_bits m n)).2 in
    (Some n, if rsize <? TARGET_PAGE_BITS then rsize else lg).
Proof.
  intros Ha. cbn [pmsav7_search]. cbv zeta.
  change (extract32 (aget 0 (drsr m) n) 1 5) with (size_field m n).
  change (aget 0 (drbar m) n) with (region_base m n).
  change 1 with (bit 0) at 1. rewrite has_bit by done. unfold truth. rewrite negb_involutive.
  pose proof (size_field_range n).
  destruct (region_valid m n) eqn:Hv.
  - pose proof Hv as Hv'. unfold region_valid in Hv'. rewrite !andb_true_iff, Z.ltb_lt in Hv'.
    destruct Hv' as [[-> Hs] Hal]. cbn [negb].
    destruct (Z.eqb_spec (size_field m n) 0); [lia|].
    rewrite region_mask, misaligned, Hal, outside by done. cbn [negb].
    destruct (in_region m n a) eqn:Hin; [|done]. cbn [negb].
    rewrite <- (subregion_off_spec n a Hin). fold (region_bits m n).
    by destruct (subregion_lookup _ _ _ _) as [[] r].
  - cbn [negb]. unfold region_valid in Hv. destruct (Z.testbit (aget 0 (drsr m) n) 0); [|done].
    cbn [negb]. destruct (Z.eqb_spec (size_field m n) 0) as [E|]; [done|].
    destruct (Z.ltb_spec 0 (size_field m n)); [|lia]. cbn [andb] in Hv.
    by rewrite region_mask, misaligned, Hv by done.
Qed.

(** The search finds the first region of the list that covers the address. *)
Lemma search_find a regions lg : is_u32 a →
  (pmsav7_search m a regions lg).1 = List.find (covers m a) regions.
Proof.
  intros Ha. revert lg. induction regions as [|n regions IH]; intros lg; [done|].
  rewrite search_step by done. cbn [List.find]. unfold covers at 1.
  destruct (region_valid m n); [|apply IH]. destruct (in_region m n a); [|apply IH].
  by destruct (subregion_off m n a); [apply IH|].
Qed.

End lookup.

(** ** What the lookup permits *)

(** The region that decides: the highest-numbered one that covers the
    address. *)
Definition deciding_region (s : NVICState) (a : Z) : option Z :=
  List.find (covers (mpu (cpu s)) a) (regions_down s).

Lemma find_down (f : Z → bool) k n :
  List.find f (rev (seqZ 0 k)) = Some n ↔
  f n = true ∧ 0 ≤ n < k ∧ ∀ n', f n' = true → 0 ≤ n' < k → n' ≤ n.
Proof.
  destruct (Z.le_gt_cases k 0) as [Hk|Hk].
  { rewrite seqZ_nil by lia. simpl. split; [done|lia]. }
  assert (∃ j, k = Z.of_nat j) as [j ->] by (exists (Z.to_nat k); lia). clear Hk.
  induction j as [|j IH]; [simpl; split; [done|lia]|].
  rewrite Nat2Z.inj_succ, <- Z.add_1_r, seqZ_app, rev_app_distr by lia.
  change (seqZ (0 + Z.of_nat j) 1) with [Z.of_nat j]. simpl.
  destruct (f (Z.of_nat j)) eqn:E.
  - split.
    + intros [= <-]. split_and!; [done|lia..].
    + intros (Hf & Hn & Hmax). f_equal. specialize (Hmax _ E). lia.
  - rewrite IH. split; intros (Hf & Hn & Hmax).
    + split_and!; [done|lia..|]. intros n' Hf' Hn'. apply Hmax; [done|].
      destruct (decide (n' = Z.of_nat j)) as [->|]; [congruence|lia].
    + assert (n ≠ Z.of_nat j) by congruence. split_and!; [done|lia..|].
      intros n' Hf' Hn'. apply Hmax; [done|lia].
Qed.

(** The permission table of the AP field. *)
Definition ap_allows (is_user : bool) (ap : Z) (t : MMUAccessType) : bool :=
  match t with
  | MMU_DATA_STORE => if is_user then ap =? 3 else between 1 3 ap
  | _ => if is_user then between 2 3 ap || between 6 7 ap else between 1 3 ap || between 5 7 ap
  end.

(** The default map forbids fetching from peripherals, devices and the system
    region, and nothing else. *)
Definition default_allows (a : Z) (t : MMUAccessType) : bool :=
  match t with
  | MMU_INST_FETCH => (a <? 0x40000000) || between 0x60000000 0x9fffffff a
  | _ => true
  end.

(** What a region allows at an address of it; XN and the system region forbid
    fetching. *)
Definition region_allows (s : NVICState) (is_user : bool) (n a : Z) (t : MMUAccessType) : bool :=
  let dracr' := aget 0 (dracr (mpu (cpu s))) n in
  ap_allows is_user ((dracr' / 2 ^ 8) mod 8) t &&
  match t with
  | MMU_INST_FETCH => (a <? 0xe0000000) && negb (Z.testbit dracr' 12)
  | _ => true
  end.

(** The MPU is off: not enabled, or at negative priority without HFNMIENA. *)
Definition mpu_off (s : NVICState) (mmu_idx : Z) : bool :=
  let ctrl := bget (mpu_ctrl (v7m_of s)) (Z.testbit mmu_idx 2) in
  negb (Z.testbit ctrl 0) || (negb (Z.testbit ctrl 1) && Z.testbit mmu_idx 1).

Definition is_ppb (a : Z) : bool := between 0xe0000000 0xe00fffff a.

Definition mpu_allows (s : NVICState) (mmu_idx a : Z) (t : MMUAccessType) : bool :=
  let is_user := regime_is_user mmu_idx in
  if mpu_off s mmu_idx || is_ppb a then default_allows a t
  else match deciding_region s a with
       | Some n => region_allows s is_user n a t
       | None => negb is_user &&
                 Z.testbit (bget (mpu_ctrl (v7m_of s)) (Z.testbit mmu_idx 2)) 2 && default_allows a t
       end.

(** Every permission value is a conjunction of the three rights. *)
Lemma default_prot a : is_u32 a → ∃ p, get_phys_addr_pmsav7_default a = Ok p ∧
  ∀ t, has p (access_bit t) = default_allows a t.
Proof.
  intros [H0 H1]. change (2 ^ 32) with 4294967296 in H1.
  unfold get_phys_addr_pmsav7_default, default_allows, between.
  repeat match goal with
  | |- context [?x <=? ?y] => destruct (Z.leb_spec x y); try (exfalso; lia)
  | |- context [?x <? ?y] => destruct (Z.ltb_spec x y); try (exfalso; lia)
  end; cbn [andb orb]; (eexists; split; [reflexivity|]); intros []; reflexivity.
Qed.

Lemma ap_prot u ap t : 0 ≤ ap < 8 → has (pmsav7_ap_prot u ap) (access_bit t) = ap_allows u ap t.
Proof.
  intros Hap.
  enough (forallb (fun ap => forallb (fun u => forallb (fun t =>
    eqb (has (pmsav7_ap_prot u ap) (access_bit t)) (ap_allows u ap t))
      [MMU_DATA_LOAD; MMU_DATA_STORE; MMU_INST_FETCH]) [true; false]) (seqZ 0 (8 - 0)) = true) as H.
  { pose proof (range_check _ _ _ H ap Hap) as Hx. simpl in Hx.
    rewrite !andb_true_iff, !eqb_true_iff in Hx. destruct u, t; tauto. }
  reflexivity.
Qed.

Lemma clear_exec p t : has (Z.land p (Z.lnot PAGE_EXEC)) (access_bit t) =
  has p (access_bit t) && negb (bool_decide (t = MMU_INST_FETCH)).
Proof.
  destruct t; unfold access_bit; rewrite !has_bit, Z.land_spec by done; change (Z.lnot PAGE_EXEC) with (-5);
    reflexivity || (rewrite ?andb_true_r, ?andb_false_r; reflexivity).
Qed.

Lemma system_region s a : FEATURE_M (model_of s) = true → is_u32 a →
  m_is_system_region s a = negb (a <? 0xe0000000).
Proof.
  intros Hm [H0 H1]. unfold m_is_system_region. rewrite Hm, extract32_div by lia. cbn [andb].
  change (2 ^ 3) with 8. change (2 ^ 29) with 536870912. change (2 ^ 32) with 4294967296 in H1.
  rewrite Z.mod_small by euclid.
  destruct (Z.ltb_spec a 0xe0000000), (Z.eqb_spec (a / 536870912) 7); cbn [negb]; done || (exfalso; euclid).
Qed.

Lemma ppb_region s a : FEATURE_M (model_of s) = true → is_u32 a → m_is_ppb_region s a = is_ppb a.
Proof.
  intros Hm [H0 H1]. unfold m_is_ppb_region, is_ppb, between. rewrite Hm, extract32_div by lia. cbn [andb].
  change (2 ^ 12) with 4096. change (2 ^ 20) with 1048576. change (2 ^ 32) with 4294967296 in H1.
  rewrite Z.mod_small by euclid.
  destruct (Z.eqb_spec (a / 1048576) 3584), (Z.leb_spec 3758096384 a), (Z.leb_spec a 3759144959);
    done || (exfalso; euclid).
Qed.

Lemma region_prot s u n a t : FEATURE_M (model_of s) = true → is_u32 a →
  has (pmsav7_region_prot s u n a) (access_bit t) = region_allows s u n a t.
Proof.
  intros Hm Ha. unfold pmsav7_region_prot, region_allows. cbv zeta.
  rewrite system_region, (extract32_div _ 8 3) by done || lia. change (2 ^ 3) with 8.
  pose proof (Z.mod_pos_bound (aget 0 (dracr (mpu (cpu s))) n / 2 ^ 8) 8 ltac:(lia)) as Hap.
  rewrite <- (extract32_bit (aget 0 (dracr (mpu (cpu s))) n) 12) by done.
  destruct (a <? 0xe0000000); cbn [negb andb].
  - destruct (truth (extract32 _ 12 1)); rewrite ?clear_exec, ap_prot by done;
      by destruct t; rewrite ?andb_true_r.
  - change (truth 1) with true. cbv iota. rewrite clear_exec, ap_prot by done. by destruct t; rewrite ?andb_true_r.
Qed.

Lemma translation_disabled s idx : regime_translation_disabled s idx (has idx ARM_MMU_IDX_M_S) = mpu_off s idx.
Proof.
  unfold regime_translation_disabled, mpu_off. cbv zeta.
  change ARM_MMU_IDX_M_S with (bit 2). change ARM_MMU_IDX_M_NEGPRI with (bit 1).
  rewrite !has_bit by done. set (c := bget _ _).
  change (field_mask MPU_CTRL_ENABLE) with 1. change (field_mask MPU_CTRL_HFNMIENA) with 2.
  change (Z.lor 1 2) with (2 ^ 2 - 1). rewrite land_mask by done. unfold wrap.
  assert (c mod 2 ^ 2 = Z.b2z (Z.testbit c 0) + 2 * Z.b2z (Z.testbit c 1)) as ->.
  { rewrite !Z.testbit_spec' by done. change (2 ^ 0) with 1. change (2 ^ 1) with 2. change (2 ^ 2) with 4.
    rewrite Z.div_1_r. euclid. }
  by destruct (Z.testbit c 0), (Z.testbit c 1).
Qed.

(** The attributes of the CPU the lookup is for: a v7M core. *)
Definition is_v7m (s : NVICState) : Prop :=
  FEATURE_M (model_of s) = true ∧ FEATURE_V8 (model_of s) = false.

(** The lookup, with its decision in terms of [mpu_allows]. *)
Lemma lookup_decision s a t idx : is_v7m s → mpu_wf (mpu (cpu s)) → is_u32 a →
  ∃ lg p fi, get_phys_addr s a t idx =
    Ok (negb (mpu_allows s idx a t),
        mk_result a lg p (mk_attrs (has idx ARM_MMU_IDX_M_S) (regime_is_user idx)), fi) ∧
    lg = (if mpu_off s idx || is_ppb a then TARGET_PAGE_BITS
          else (pmsav7_search (mpu (cpu s)) a (regions_down s) TARGET_PAGE_BITS).2) ∧
    (fi = ARMFault_Background → p = 0) ∧ (fi = ARMFault_Background ∨ fi = ARMFault_Permission).
Proof.
  intros [Hm H8] Hwf Ha. unfold get_phys_addr, get_phys_addr_pmsav7, arm_mmu_idx_to_security_space.
  rewrite H8, wrap_small by done. cbv zeta. rewrite translation_disabled, ppb_region by done.
  unfold mpu_allows. destruct (default_prot a Ha) as (p & Hp & Hpa).
  destruct (mpu_off s idx || is_ppb a).
  - rewrite Hp, bind_Ok. do 3 eexists. split; [by rewrite <- Hpa|]. split; [done|]. split; [|by right]; done.
  - unfold deciding_region. rewrite <- (search_find _ Hwf a (regions_down s) TARGET_PAGE_BITS Ha).
    destruct (pmsav7_search _ _ _ _) as [[n|] lg]; cbn [fst snd].
    + do 3 eexists. split; [by rewrite <- region_prot|]. split; [done|]. split; [|by right]; done.
    + unfold pmsav7_use_background_region. change (field_mask MPU_CTRL_PRIVDEFENA) with (bit 2).
      change (has idx ARM_MMU_IDX_M_S) with (has idx (bit 2)). rewrite !has_bit by done.
      destruct (regime_is_user idx); cbn [negb andb]; [do 3 eexists; split_and!; try done; by left|].
      destruct (Z.testbit (bget _ _) 2); cbn [negb andb]; [|do 3 eexists; split_and!; try done; by left].
      rewrite Hp, bind_Ok. do 3 eexists. split; [by rewrite <- Hpa|]. split; [done|]. split; [|by right]; done.
Qed.

(** C13.  The MPU decides as the architecture says.  On a v7M core the lookup of
    any address never fails an assertion, returns the address unchanged, and
    faults exactly when the access is not allowed: by the default memory map
    where the MPU is off or the address is in the private peripheral bus, else
    by the AP and XN fields of the highest-numbered enabled, aligned region
    that contains the address in an enabled subregion, else (for privileged
    accesses with PRIVDEFENA only) by the default map. *)
Theorem mpu_permissions s a t idx : is_v7m s → mpu_wf (mpu (cpu s)) → is_u32 a →
  (∃ r fi, get_phys_addr s a t idx = Ok (negb (mpu_allows s idx a t), r, fi) ∧ phys_addr r = a) ∧
  (∀ n, deciding_region s a = Some n ↔
     covers (mpu (cpu s)) a n = true ∧ 0 ≤ n < pmsav7_dregion (model_of s) ∧
     ∀ n', covers (mpu (cpu s)) a n' = true → 0 ≤ n' < pmsav7_dregion (model_of s) → n' ≤ n).
Proof.
  intros Hs Hwf Ha. split; [|intros n; apply find_down].
  destruct (lookup_decision s a t idx Hs Hwf Ha) as (lg & p & fi & -> & _). by do 2 eexists.
Qed.

(** ** Keeping the answer for a page *)

Definition same_page (a a' : Z) : Prop := a / TARGET_PAGE_SIZE = a' / TARGET_PAGE_SIZE.

(** Regions whose eighths are smaller than a page have no eighth disabled. *)
Definition small_regions_whole (m : MpuState) : Prop :=
  ∀ n a, region_valid m n = true → region_bits m n < 13 → in_region m n a = true →
    subregion_off m n a = false.

Lemma search_zero m a regions : mpu_wf m → is_u32 a →
  (pmsav7_search m a regions 0).2 ≠ TARGET_PAGE_BITS.
Proof.
  intros Hwf Ha. induction regions as [|n regions IH]; [done|]. rewrite search_step by done.
  destruct (region_valid m n); [|done]. destruct (in_region m n a); cbn [negb]; [|by case_if].
  destruct (subregion_off m n a); [done|]. cbv zeta. cbn [snd]. case_if; [|done].
  unfold TARGET_PAGE_BITS in *. lia.
Qed.

Lemma page_base a : is_u32 a → Z.land a TARGET_PAGE_MASK = TARGET_PAGE_SIZE * (a / TARGET_PAGE_SIZE).
Proof.
  intros Ha. unfold TARGET_PAGE_SIZE. rewrite Z.mul_comm, <- Z.shiftl_mul_pow2, <- Z.shiftr_div_pow2 by done.
  zbitwise. unfold TARGET_PAGE_MASK, TARGET_PAGE_SIZE. change (2 ^ TARGET_PAGE_BITS - 1) with (Z.ones 10).
  rewrite not32_spec by done. unfold TARGET_PAGE_BITS. destruct (Z.ltb_spec i 10).
  - rewrite Z.ones_spec_low by lia. rewrite (Z.testbit_neg_r _ (i - 10)) by lia. by rewrite !andb_false_r.
  - rewrite Z.ones_spec_high, Z.shiftr_spec by lia. replace (i - 10 + 10) with i by lia.
    destruct (Z.ltb_spec i 32); [by rewrite andb_true_r|].
    by rewrite (testbit_above 32) by done.
Qed.

(** The bits of a group of subregions that the loop found clear. *)
Lemma group_clear drsr' g i j : 0 ≤ g → 0 ≤ i ≤ 32 → extract32 drsr' (g + 8) i = 0 → g ≤ j < g + i →
  Z.testbit drsr' (8 + j) = false.
Proof.
  intros Hg Hi E Hj. apply (f_equal (fun x => Z.testbit x (j - g))) in E.
  rewrite extract32_spec, Z.bits_0 in E by lia. destruct (Z.ltb_spec (j - g) i); [|lia].
  cbn [andb] in E. rewrite <- E. f_equal. lia.
Qed.

(** A block of enabled subregions that reaches the page size, starting from
    eighths of size [2 ^ r], contains every eighth of the page. *)
Lemma block_clear drsr' q q' r : 0 ≤ q < 8 → 0 ≤ q' < 8 → r < 10 →
  10 ≤ subregion_size drsr' q [2; 4; 8] 0 r →
  7 ≤ r ∧ (q / 2 ^ (10 - r) = q' / 2 ^ (10 - r) → Z.testbit drsr' (8 + q') = false).
Proof.
  intros Hq Hq' Hr. cbn [subregion_size]. unfold TARGET_PAGE_BITS.
  change (Z.lor (Z.shiftl 0 2) 0) with 0. change (Z.lor (Z.shiftl 0 4) 0) with 0. rewrite !Z.lxor_0_l.
  assert (∀ i, i = 2 ∨ i = 4 ∨ i = 8 → Z.land q (Z.lnot (i - 1)) = i * (q / i)) as Hg.
  { intros i Hi. assert (q = 0 ∨ q = 1 ∨ q = 2 ∨ q = 3 ∨ q = 4 ∨ q = 5 ∨ q = 6 ∨ q = 7) as Hc by lia.
    destruct Hi as [->|[->| ->]]; destruct Hc as [->|[->|[->|[->|[->|[->|[->| ->]]]]]]]; reflexivity. }
  rewrite !Hg by lia.
  assert (∀ i, i = 2 ∨ i = 4 ∨ i = 8 → truth (extract32 drsr' (i * (q / i) + 8) i) = false →
    q / i = q' / i → Z.testbit drsr' (8 + q') = false) as Hclear.
  { intros i Hi E Hqq. unfold truth in E. apply negb_false_iff, Z.eqb_eq in E.
    apply (group_clear drsr' (i * (q / i)) i); [|lia|done|].
    - destruct Hi as [->|[->| ->]]; euclid.
    - rewrite Hqq. destruct Hi as [->|[->| ->]]; euclid. }
  destruct (Z.ltb_spec r 10); [|lia]. destruct (truth (extract32 drsr' (2 * _ + _) 2)) eqn:E2; [lia|].
  destruct (Z.ltb_spec (r + 1) 10).
  - destruct (truth (extract32 drsr' (4 * _ + _) 4)) eqn:E4; [lia|].
    destruct (Z.ltb_spec (r + 1 + 1) 10).
    + destruct (truth (extract32 drsr' (8 * _ + _) 8)) eqn:E8; [lia|]. intros Hle.
      split; [lia|]. replace (10 - r) with 3 by lia. apply (Hclear 8); auto.
    + intros _. split; [lia|]. replace (10 - r) with 2 by lia. apply (Hclear 4); auto.
  - intros _. split; [lia|]. replace (10 - r) with 1 by lia. apply (Hclear 2); auto.
Qed.

Section page.
Context (m : MpuState) (Hwf : mpu_wf m) (Hsmall : small_regions_whole m).
Context (a a' : Z) (Ha : is_u32 a) (Ha' : is_u32 a') (Hpage : same_page a a').

(** A region of at least a page has the whole page or nothing of it. *)
Lemma big_region n : region_valid m n = true → 10 ≤ region_bits m n →
  in_region m n a' = in_region m n a.
Proof.
  unfold region_valid. rewrite !andb_true_iff, Z.eqb_eq. intros [_ Hal] Hb.
  apply Z.mod_divide in Hal as [k Hk]; [|lia].
  unfold in_region. rewrite Hk. unfold same_page, TARGET_PAGE_SIZE, TARGET_PAGE_BITS in Hpage.
  replace (region_bits m n) with (region_bits m n - 10 + 10) by lia.
  rewrite Z.pow_add_r by lia. set (e := 2 ^ (region_bits m n - 10)).
  change (2 ^ 10) with 1024 in *.
  assert (0 < e) by (unfold e; lia). clearbody e.
  replace (k * (e * 1024)) with (k * e * 1024) by lia.
  replace (k * e * 1024 + e * 1024) with ((k * e + e) * 1024) by lia.
  set (x := k * e). set (y := x + e).
  repeat match goal with
  | |- context [?u <=? ?v] => destruct (Z.leb_spec u v)
  | |- context [?u <? ?v] => destruct (Z.ltb_spec u v)
  end; try done; exfalso; euclid.
Qed.

(** The subregion numbers of two addresses of a page of the region. *)
Lemma subregion_numbers n : region_valid m n = true → 10 ≤ region_bits m n →
  (a - region_base m n) / 1024 = (a' - region_base m n) / 1024.
Proof.
  unfold region_valid. rewrite !andb_true_iff, Z.eqb_eq. intros [_ Hal] Hb.
  apply Z.mod_divide in Hal as [k Hk]; [|lia]. rewrite Hk.
  replace (region_bits m n) with (region_bits m n - 10 + 10) by lia. rewrite Z.pow_add_r by lia.
  unfold same_page, TARGET_PAGE_SIZE, TARGET_PAGE_BITS in Hpage. change (2 ^ 10) with 1024 in *.
  rewrite Z.mul_assoc. set (x := k * 2 ^ (region_bits m n - 10)). euclid.
Qed.

(** Missing a region of which the page has a byte is noticed. *)
Lemma overlap n : region_valid m n = true → in_region m n a' = true →
  ranges_overlap (region_base m n) (2 ^ region_bits m n - 1) (Z.land a TARGET_PAGE_MASK)
    TARGET_PAGE_SIZE = true.
Proof.
  intros Hv Hin. pose proof (region_end m Hwf n Hv) as He. pose proof (base_u32 m Hwf n) as [Hb _].
  unfold region_valid in Hv. rewrite !andb_true_iff, Z.ltb_lt, Z.eqb_eq in Hv. destruct Hv as [[_ Hs] Hal].
  unfold in_region in Hin. rewrite andb_true_iff, Z.leb_le, Z.ltb_lt in Hin.
  rewrite page_base by done. unfold same_page in Hpage. rewrite Hpage.
  unfold ranges_overlap, range_get_last. cbv zeta.
  assert (4 ≤ 2 ^ region_bits m n) as H4
    by (change 4 with (2 ^ 2); apply Z.pow_le_mono_r; unfold region_bits; lia).
  destruct Ha' as [Ha0 Ha1]. unfold TARGET_PAGE_SIZE, TARGET_PAGE_BITS in *. change (2 ^ 10) with 1024 in *.
  change (2 ^ 32) with 4294967296 in *.
  rewrite (wrap_small 64 (region_base m n + _ - 1)) by (split; [|change (2 ^ 64) with 18446744073709551616]; lia).
  rewrite (wrap_small 64 (1024 * _ + _ - 1)) by (split; [|change (2 ^ 64) with 18446744073709551616]; euclid).
  rewrite negb_true_iff, orb_false_iff, !Z.ltb_ge. split; [euclid|].
  (* both ends are multiples of four *)
  apply Z.mod_divide in Hal as [k Hk]; [|lia].
  assert (2 ^ region_bits m n = 4 * 2 ^ (region_bits m n - 2)) as E.
  { change 4 with (2 ^ 2). rewrite <- Z.pow_add_r by (unfold region_bits; lia). f_equal. lia. }
  assert (∃ j, region_base m n + 2 ^ region_bits m n = 4 * j) as [j Hj].
  { exists (k * 2 ^ (region_bits m n - 2) + 2 ^ (region_bits m n - 2)). rewrite Hk, E. lia. }
  euclid.
Qed.

(** The eighth of an address of the region. *)
Lemma eighth n x : in_region m n x = true → 8 ≤ region_bits m n →
  0 ≤ (x - region_base m n) / 2 ^ (region_bits m n - 3) < 8.
Proof.
  unfold in_region. rewrite andb_true_iff, Z.leb_le, Z.ltb_lt. intros [H1 H2] Hb.
  split; [apply Z.div_pos; lia|]. apply Z.div_lt_upper_bound; [lia|].
  change 8 with (2 ^ 3). rewrite <- Z.pow_add_r by lia.
  replace (region_bits m n - 3 + 3) with (region_bits m n) by lia. lia.
Qed.

(** Eighths of at least a page: the whole page is in one. *)
Lemma same_eighth n : region_valid m n = true → 13 ≤ region_bits m n →
  subregion_off m n a' = subregion_off m n a.
Proof.
  intros Hv Hb. unfold subregion_off. do 3 f_equal.
  pose proof (subregion_numbers n Hv ltac:(lia)) as Hd.
  replace (region_bits m n - 3) with (10 + (region_bits m n - 13)) by lia.
  rewrite Z.pow_add_r by lia. change (2 ^ 10) with 1024.
  by rewrite <- !Z.div_div, Hd by lia.
Qed.

(** A hit that is reported for the whole page is one for all of it. *)
Lemma hit_page n : region_valid m n = true → in_region m n a = true →
  subregion_off m n a = false →
  10 ≤ (subregion_lookup (aget 0 (drsr m) n) (region_base m n) a (region_bits m n)).2 →
  in_region m n a' = true ∧ subregion_off m n a' = false.
Proof.
  intros Hv Hin Hoff Hsz.
  destruct (Z.le_gt_cases 13 (region_bits m n)) as [Hb|Hb].
  { rewrite (big_region n), (same_eighth n) by done || lia. done. }
  pose proof (subregion_off_spec m n a Hin) as Hsub. rewrite Hoff in Hsub.
  unfold subregion_lookup in Hsub, Hsz. destruct (Z.leb_spec 8 (region_bits m n)) as [H8|];
    [|cbn [snd] in Hsz; lia].
  cbv zeta in Hsub, Hsz. cbn [fst snd] in Hsub, Hsz. rewrite Hsub in Hsz.
  rewrite Z.shiftr_div_pow2 in Hsz by lia. change 7 with (2 ^ 3 - 1) in Hsz.
  pose proof (eighth n a Hin H8) as Hq. rewrite land_mask, wrap_small in Hsz by (lia || split; lia).
  destruct (block_clear _ _ 0 (region_bits m n - 3) Hq ltac:(lia) ltac:(lia) Hsz) as [H7 _].
  assert (in_region m n a' = true) as Hin' by (rewrite big_region by (done || lia); done).
  split; [done|]. pose proof (eighth n a' Hin' H8) as Hq'.
  destruct (block_clear _ _ _ (region_bits m n - 3) Hq Hq' ltac:(lia) Hsz) as [_ Hclear].
  unfold subregion_off. rewrite Hclear; [by rewrite andb_false_r|].
  rewrite !Z.div_div by lia. rewrite <- Z.pow_add_r by lia.
  replace (region_bits m n - 3 + (10 - (region_bits m n - 3))) with 10 by lia.
  apply (subregion_numbers n Hv). lia.
Qed.

(** A search reported for the whole page finds the same region for all of it. *)
Lemma search_page regions lg' :
  (pmsav7_search m a regions TARGET_PAGE_BITS).2 = TARGET_PAGE_BITS →
  (pmsav7_search m a' regions lg').1 = (pmsav7_search m a regions TARGET_PAGE_BITS).1.
Proof.
  revert lg'. induction regions as [|n regions IH]; intros lg'; [done|].
  rewrite !search_step by done. destruct (region_valid m n) eqn:Hv; cbn [negb]; [|apply IH].
  destruct (in_region m n a) eqn:Hin; cbn [negb].
  - destruct (subregion_off m n a) eqn:Hoff.
    + destruct (Z.le_gt_cases 13 (region_bits m n)) as [Hb|Hb].
      * rewrite big_region, Hin, same_eighth, Hoff by (done || lia). apply IH.
      * rewrite (Hsmall n a) in Hoff by done. done.
    + cbv zeta. cbn [fst snd]. case_if.
      { unfold TARGET_PAGE_BITS in *. lia. }
      intros _. destruct (hit_page n Hv Hin Hoff) as [-> ->]; [|done].
      unfold TARGET_PAGE_BITS in *. lia.
  - case_if; [intros H; by destruct (search_zero m a regions Hwf Ha)|]. intros H.
    destruct (in_region m n a') eqn:Hin'; [|apply IH, H]. by rewrite (overlap n Hv Hin') in *.
Qed.
End page.

Lemma between_page lo hi a a' : same_page a a' → lo mod 1024 = 0 → (hi + 1) mod 1024 = 0 →
  between lo hi a' = between lo hi a.
Proof.
  unfold same_page, TARGET_PAGE_SIZE, TARGET_PAGE_BITS, between. change (2 ^ 10) with 1024.
  intros Hp Hl Hh. destruct (Z.leb_spec lo a'), (Z.leb_spec lo a), (Z.leb_spec a' hi), (Z.leb_spec a hi);
    done || (exfalso; euclid).
Qed.

Lemma default_page a a' : same_page a a' →
  get_phys_addr_pmsav7_default a' = get_phys_addr_pmsav7_default a.
Proof.
  intros Hp. unfold get_phys_addr_pmsav7_default. by rewrite !(between_page _ _ a a' Hp).
Qed.

Lemma region_prot_page s u n a a' : FEATURE_M (model_of s) = true → is_u32 a → is_u32 a' → same_page a a' →
  pmsav7_region_prot s u n a' = pmsav7_region_prot s u n a.
Proof.
  intros Hm Ha Ha' Hp. unfold pmsav7_region_prot. rewrite !system_region by done.
  replace (a' <? 0xe0000000) with (a <? 0xe0000000); [done|].
  unfold same_page, TARGET_PAGE_SIZE, TARGET_PAGE_BITS in Hp. change (2 ^ 10) with 1024 in Hp.
  destruct (Z.ltb_spec a 0xe0000000), (Z.ltb_spec a' 0xe0000000); done || (exfalso; euclid).
Qed.

(** C25.  A lookup that reports a whole page is right for the whole page: the
    softmmu keeps the result of such a lookup (and only of such a one) for
    every address of the page, and the lookup of any other address of the page
    would have given the same permissions, the same fault and the same
    attributes.  This needs that no region below 8 KiB has a disabled
    subregion. *)
Theorem mpu_page_sound s a a' t idx b r fi :
  is_v7m s → mpu_wf (mpu (cpu s)) → small_regions_whole (mpu (cpu s)) →
  is_u32 a → is_u32 a' → same_page a a' →
  get_phys_addr s a t idx = Ok (b, r, fi) → lg_page_size r = TARGET_PAGE_BITS →
  ∃ r', get_phys_addr s a' t idx = Ok (b, r', fi) ∧ prot r' = prot r ∧ res_attrs r' = res_attrs r.
Proof.
  intros [Hm H8] Hwf Hsmall Ha Ha' Hp. unfold get_phys_addr, get_phys_addr_pmsav7.
  rewrite H8, !wrap_small by done. cbv zeta. rewrite !ppb_region, (default_page a a' Hp) by done.
  unfold is_ppb. rewrite (between_page _ _ a a' Hp) by done.
  destruct (default_prot a Ha) as (p & -> & _). rewrite !bind_Ok.
  destruct (_ || _); [intros [= <- <- <-] _; by eexists|].
  pose proof (search_page (mpu (cpu s)) Hwf Hsmall a a' Ha Ha' Hp (regions_down s) TARGET_PAGE_BITS) as Hs.
  destruct (pmsav7_search _ a _ _) as [h lg], (pmsav7_search _ a' _ _) as [h' lg'].
  cbn [fst snd] in Hs. destruct h as [n|].
  - intros [= <- <- <-] Hlg. rewrite Hs by done. rewrite (region_prot_page s _ n a a') by done.
    by eexists.
  - destruct (pmsav7_use_background_region _ _ _); cbn [negb]; intros [= <- <- <-] Hlg;
      rewrite Hs by done; by eexists.
Qed.

(** ** The board's MPU on concrete inputs *)

Lemma reach_board_write addr value size s :
  nvic_reach true s → nvic_reach true (board_write addr value size s).
Proof.
  intros Hs. unfold board_write. destruct (nvic_sysreg_write _ _ _ _ _) as [[s'|]|] eqn:E; [|done..].
  apply (reach_op true true s); [done|]. by apply (op_write addr value size privileged).
Qed.

(** Register writes of the guest, in order. *)
Definition board_writes (l : list (Z * Z)) (s : NVICState) : NVICState :=
  foldl (fun s w => board_write w.1 w.2 4 s) s l.

Lemma reach_board_writes l s : nvic_reach true s → nvic_reach true (board_writes l s).
Proof. revert s. induction l as [|w l IH]; intros s Hs; [done|]. by apply IH, reach_board_write. Qed.

(** MPU_RNR, MPU_RBAR and MPU_RASR for one region, and MPU_CTRL. *)
Definition mpu_region (n base rasr : Z) : list (Z * Z) := [(0xd98, n); (0xd9c, base); (0xda0, rasr)].
Definition mpu_enable : list (Z * Z) := [(0xd94, 1)].

(** Full access everywhere, and no access to 32 KiB of SRAM. *)
Definition mpu_whole : NVICState :=
  Eval vm_compute in
    board_writes (mpu_region 0 0 0x0300003f ++ mpu_region 7 0x20400000 0x0000001d ++ mpu_enable) nvic0.

(** Full access everywhere, and no access to the first 32 bytes of a region of
    256 whose other seven eighths are disabled. *)
Definition mpu_holes : NVICState :=
  Eval vm_compute in
    board_writes (mpu_region 0 0 0x0300003f ++ mpu_region 7 0x20400000 0x0000fe0f ++ mpu_enable) nvic0.

Definition ARMMMUIdx_MPriv : Z := Z.lor ARM_MMU_IDX_M ARM_MMU_IDX_M_PRIV.

Lemma srd_clear m : Forall (in_range 8) (drsr m) → small_regions_whole m.
Proof.
  intros Hf n a Hv Hb Hin. unfold in_region in Hin. rewrite andb_true_iff, Z.leb_le in Hin.
  unfold subregion_off. assert (in_range 8 (aget 0 (drsr m) n)) as Hr.
  { unfold aget. case_match; [closed_range|]. destruct (drsr m !! Z.to_nat n) eqn:E; [|closed_range].
    by eapply Forall_lookup_1. }
  destruct (Z.leb_spec 8 (region_bits m n)); [|done]. cbn [andb].
  apply (testbit_above 8); [done|].
  assert (0 ≤ (a - region_base m n) / 2 ^ (region_bits m n - 3)) by (apply Z.div_pos; lia). lia.
Qed.

Lemma mpu_wf_dec m :
  Is_true (bool_decide (Forall is_u32 (drbar m)) && bool_decide (Forall is_u32 (drsr m)) &&
           bool_decide (Forall is_u32 (dracr m))) → mpu_wf m.
Proof. rewrite !andb_True. intros [[H1 H2] H3]. split_and!; by eapply bool_decide_unpack. Qed.

Lemma mpu_permissions_witness :
  ∃ r fi, get_phys_addr mpu_whole 0x20400100 MMU_DATA_STORE ARMMMUIdx_MPriv = Ok (true, r, fi) ∧
    phys_addr r = 0x20400100.
Proof.
  destruct (mpu_permissions mpu_whole 0x20400100 MMU_DATA_STORE ARMMMUIdx_MPriv) as [(r & fi & H & Hr) _].
  - done.
  - apply mpu_wf_dec. vm_compute. exact I.
  - closed_range.
  - exists r, fi. split; [|exact Hr]. rewrite H.
    assert (mpu_allows mpu_whole ARMMMUIdx_MPriv 0x20400100 MMU_DATA_STORE = false) as ->
      by (vm_compute; reflexivity).
    reflexivity.
Defined.

Lemma mpu_page_sound_witness :
  ∃ r', get_phys_addr mpu_whole 0x20400004 MMU_DATA_STORE ARMMMUIdx_MPriv =
    Ok (true, r', ARMFault_Permission) ∧ prot r' = 0.
Proof.
  destruct (mpu_page_sound mpu_whole 0x20400100 0x20400004 MMU_DATA_STORE ARMMMUIdx_MPriv true
    (mk_result 0x20400100 10 0 (mk_attrs false false)) ARMFault_Permission) as (r' & H & Hp & _).
  - done.
  - apply mpu_wf_dec. vm_compute. exact I.
  - apply srd_clear. eapply bool_decide_unpack. vm_compute. exact I.
  - closed_range.
  - closed_range.
  - done.
  - vm_compute. reflexivity.
  - done.
  - by exists r'.
Defined.

(** C38.  Disabled subregions smaller than a page are forgotten.  The guest
    programs a region of 256 bytes without access rights, with its first
    subregion enabled and the others disabled, over a region that allows
    everything.  The lookup of an address in a disabled subregion falls through
    to the lower region and is reported for the whole page, although the first
    32 bytes of that page must not be accessed: the kept result lets them be
    read and written. *)
Theorem mpu_subregion_page_unsound :
  nvic_reach true mpu_holes ∧ same_page 0x20400020 0x20400000 ∧
  (∃ r, get_phys_addr mpu_holes 0x20400020 MMU_DATA_STORE ARMMMUIdx_MPriv = Ok (false, r, ARMFault_Permission) ∧
        lg_page_size r = TARGET_PAGE_BITS) ∧
  (∃ r, get_phys_addr mpu_holes 0x20400000 MMU_DATA_STORE ARMMMUIdx_MPriv = Ok (true, r, ARMFault_Permission)).
Proof.
  split_and!.
  - change mpu_holes with (board_writes
      (mpu_region 0 0 0x0300003f ++ mpu_region 7 0x20400000 0x0000fe0f ++ mpu_enable) nvic0).
    apply reach_board_writes, reach_nvic0.
  - done.
  - eexists. split; vm_compute; reflexivity.
  - eexists. vm_compute. reflexivity.
Qed.
