(* ===== verification/CpuRegs.v ===== *)
(** The registers of an M-profile CPU: the program status register of
    qemu/target/arm/cpu.h, the floating-point status of
    qemu/target/arm/vfp_fpscr.c and qemu/target/arm/tcg/vfp_helper.c, the
    banked stack pointers and the special registers (MRS and MSR) of
    qemu/target/arm/tcg/m_helper.c. *)

From S2P Require Import Prelude Irq NvicState NvicCore NvicRead.

(** ** Fields and constants *)

Definition CONTROL_NPRIV := mk_field 0 1.
Definition CONTROL_FPCA := mk_field 2 1.
Definition CONTROL_SFPA := mk_field 3 1.

Definition XPSR_EXCP : Z := 0x1ff.
Definition XPSR_SPREALIGN : Z := bit 9.
Definition XPSR_IT_2_7 : Z := 0xfc00.
Definition XPSR_GE : Z := 0xf0000.
Definition XPSR_SFPA : Z := bit 20.
Definition XPSR_T : Z := bit 24.
Definition XPSR_IT_0_1 : Z := Z.shiftl 3 25.
Definition XPSR_Q : Z := bit 27.
Definition XPSR_V : Z := bit 28.
Definition XPSR_C : Z := bit 29.
Definition XPSR_Z : Z := bit 30.
Definition XPSR_N : Z := bit 31.
Definition XPSR_NZCV : Z := Z.lor (Z.lor XPSR_N XPSR_Z) (Z.lor XPSR_C XPSR_V).
Definition XPSR_IT : Z := Z.lor XPSR_IT_0_1 XPSR_IT_2_7.

Definition FPCR_FIZ : Z := bit 0.
Definition FPCR_AH : Z := bit 1.
Definition FPCR_NEP : Z := bit 2.
Definition FPCR_EBF : Z := bit 13.
Definition FPCR_LEN_MASK : Z := Z.shiftl 7 16.
Definition FPCR_STRIDE_MASK : Z := Z.shiftl 3 20.
Definition FPCR_LTPSIZE_LENGTH : Z := 3.
Definition FPCR_EEXC_MASK : Z := 0x9f00.
Definition FPSR_CEXC_MASK : Z := 0x9f.
Definition FPSR_QC : Z := bit 27.
Definition FPSR_NZCV_MASK : Z := 0xf0000000.
Definition FPSCR_FPSR_MASK : Z := Z.lor (Z.lor FPSR_NZCV_MASK FPSR_QC) FPSR_CEXC_MASK.
Definition FPSCR_FPCR_MASK : Z :=
  foldr Z.lor 0 [FPCR_EEXC_MASK; FPCR_LEN_MASK; FPCR_FZ16; FPCR_STRIDE_MASK; FPCR_RMODE_MASK;
                 FPCR_FZ; FPCR_DN; FPCR_AHP].

(** ** State *)

(** The floating-point registers.  [host_exc] is what the exception flags kept
    in the softfloat status words contribute to FPSR. *)
Record Vfp := mk_Vfp { dregs : list Z; fpcr : Z; fpsr : Z; qc : list Z; host_exc : Z }.

#[export] Instance eta_Vfp : RecordEta Vfp := fun v =>
  mk_Vfp (dregs v) (fpcr v) (fpsr v) (qc v) (host_exc v).

(** [CPUARMState]: [regs] has r0 to r15, with r13 kept in the [V7M] record; the
    state behind the interrupt controller and the memory is [mem]. *)
Record CPUARMState (M : Type) := mk_env {
  env_nvic : NVICState; regs : list Z;
  NF : Z; ZF : Z; CF : Z; VF : Z; QF : Z; GE : Z; thumb : bool; condexec_bits : Z;
  vfp : Vfp; exclusive_addr : Z; mem : M
}.
Arguments mk_env {M}.
Arguments env_nvic {M}.
Arguments regs {M}.
Arguments NF {M}.
Arguments ZF {M}.
Arguments CF {M}.
Arguments VF {M}.
Arguments QF {M}.
Arguments GE {M}.
Arguments thumb {M}.
Arguments condexec_bits {M}.
Arguments vfp {M}.
Arguments exclusive_addr {M}.
Arguments mem {M}.

#[export] Instance eta_CPUARMState {M} : RecordEta (CPUARMState M) := fun e =>
  mk_env (env_nvic e) (regs e) (NF e) (ZF e) (CF e) (VF e) (QF e) (GE e) (thumb e)
    (condexec_bits e) (vfp e) (exclusive_addr e) (mem e).

Definition env_v7m {M} (e : CPUARMState M) : V7M := v7m_of (env_nvic e).
Definition env_model {M} (e : CPUARMState M) : CpuModel := model_of (env_nvic e).
Definition upd_v7m {M} (f : V7M → V7M) (e : CPUARMState M) : CPUARMState M :=
  e <| env_nvic ::= set_v7m f |>.

(** [env->regs[r]]. *)
Definition get_reg {M} (e : CPUARMState M) (r : Z) : Z :=
  if r =? 13 then sp (env_v7m e) else aget 0 (regs e) r.
Definition set_reg {M} (r v : Z) (e : CPUARMState M) : CPUARMState M :=
  if r =? 13 then upd_v7m (fun m => m <| sp := v |>) e else e <| regs ::= fun l => aset l r v |>.

(** ** The program status register *)

Section xpsr.
Context {M : Type}.
Implicit Types e : CPUARMState M.

Definition xpsr_read (e : CPUARMState M) : Z :=
  foldr Z.lor 0
    [Z.land (NF e) 0x80000000; Z.shiftl (of_bool (ZF e =? 0)) 30; u32 (Z.shiftl (CF e) 29);
     Z.shiftr (Z.land (VF e) 0x80000000) 3; u32 (Z.shiftl (QF e) 27);
     Z.shiftl (of_bool (thumb e)) 24; Z.shiftl (Z.land (condexec_bits e) 3) 25;
     Z.shiftl (Z.land (condexec_bits e) 0xfc) 8; u32 (Z.shiftl (GE e) 16);
     exception (env_v7m e)].

Definition xpsr_write (val mask : Z) (e : CPUARMState M) : CPUARMState M :=
  let e := if has mask XPSR_NZCV
           then e <| ZF := Z.land (not32 val) XPSR_Z |> <| NF := val |>
                  <| CF := Z.land (Z.shiftr val 29) 1 |>
                  <| VF := Z.land (u32 (Z.shiftl val 3)) 0x80000000 |> else e in
  let e := if has mask XPSR_Q then e <| QF := of_bool (has val XPSR_Q) |> else e in
  let e := if has mask XPSR_GE then e <| GE := Z.shiftr (Z.land val XPSR_GE) 16 |> else e in
  let e := if has mask XPSR_T then e <| thumb := has val XPSR_T |> else e in
  let e := if has mask XPSR_IT_0_1
           then e <| condexec_bits ::= fun c => Z.lor (Z.land c (not32 3)) (Z.land (Z.shiftr val 25) 3) |>
           else e in
  let e := if has mask XPSR_IT_2_7
           then e <| condexec_bits ::= fun c => Z.lor (Z.land c 3) (Z.land (Z.shiftr val 8) 0xfc) |>
           else e in
  if has mask XPSR_EXCP then upd_v7m (write_v7m_exception (Z.land val XPSR_EXCP)) e else e.

Definition arm_clear_exclusive (e : CPUARMState M) : CPUARMState M :=
  e <| exclusive_addr := 2 ^ 64 - 1 |>.
Definition arm_rebuild_hflags (e : CPUARMState M) : CPUARMState M :=
  e <| env_nvic ::= effect RebuildHflags |>.
End xpsr.

(** ** Floating-point status *)

Section fpscr.
Context {M : Type}.
Implicit Types e : CPUARMState M.

Definition vfp_get_fpsr_from_host (v : Vfp) : Z := host_exc v.
Definition vfp_clear_float_status_exc_flags (v : Vfp) : Vfp := v <| host_exc := 0 |>.
Definition vfp_sync_and_clear_float_status_exc_flags (v : Vfp) : Vfp :=
  vfp_clear_float_status_exc_flags (v <| fpsr ::= fun x => Z.lor x (vfp_get_fpsr_from_host v) |>).

(** Short-vector length and stride are zero on M-profile cores. *)
Definition vfp_get_fpcr (e : CPUARMState M) : Z :=
  Z.lor (fpcr (vfp e)) (u32 (Z.shiftl (ltpsize (env_v7m e)) 16)).

Definition vfp_get_fpsr (e : CPUARMState M) : Z :=
  let x := Z.lor (fpsr (vfp e)) (vfp_get_fpsr_from_host (vfp e)) in
  let i := foldr Z.lor 0 (qc (vfp e)) in
  Z.lor x (if truth i then FPSR_QC else 0).

Definition vfp_get_fpscr (e : CPUARMState M) : Z :=
  Z.lor (Z.land (vfp_get_fpcr e) FPSCR_FPCR_MASK) (Z.land (vfp_get_fpsr e) FPSCR_FPSR_MASK).

Definition vfp_set_fpsr (val : Z) (e : CPUARMState M) : CPUARMState M :=
  let e := if FEATURE_NEON (env_model e) || aa32_mve (env_model e)
           then e <| vfp ::= fun v => v <| qc := [Z.land val FPSR_QC; 0; 0; 0] |> |> else e in
  e <| vfp ::= fun v => vfp_clear_float_status_exc_flags
                 (v <| fpsr := Z.land val (Z.lor FPSR_NZCV_MASK FPSR_CEXC_MASK) |>) |>.

(** The part of [vfp_set_fpcr_to_host] that the FPSCR can show: the rounding
    and flushing modes it sets follow the register. *)
Definition vfp_set_fpcr_to_host (val mask : Z) (v : Vfp) : Vfp :=
  let changed := Z.land (Z.lxor (fpcr v) val) mask in
  if has changed (Z.lor FPCR_FZ (Z.lor FPCR_AH FPCR_FIZ))
  then vfp_sync_and_clear_float_status_exc_flags v else v.

(** The AArch64 features that give FIZ, AH, NEP and EBF a meaning do not
    exist on M-profile cores. *)
Definition vfp_set_fpcr_masked (val mask : Z) (e : CPUARMState M) : CPUARMState M :=
  let val := if negb (any_fp16 (env_model e)) then Z.land val (not32 FPCR_FZ16) else val in
  let val := Z.land val (not32 (Z.lor FPCR_FIZ (Z.lor FPCR_AH FPCR_NEP))) in
  let val := Z.land val (not32 FPCR_EBF) in
  let e := e <| vfp ::= vfp_set_fpcr_to_host val mask |> in
  let e := if has mask (Z.lor FPCR_LEN_MASK FPCR_STRIDE_MASK) && aa32_mve (env_model e)
           then upd_v7m (fun m => m <| ltpsize := extract32 val FPCR_LTPSIZE_SHIFT FPCR_LTPSIZE_LENGTH |>) e
           else e in
  let val := Z.land val (foldr Z.lor 0 [FPCR_AHP; FPCR_DN; FPCR_FZ; FPCR_RMODE_MASK; FPCR_FZ16;
                                        FPCR_EBF; FPCR_FIZ; FPCR_AH; FPCR_NEP]) in
  e <| vfp ::= fun v => v <| fpcr ::= fun c => Z.lor (Z.land c (not32 mask)) val |> |>.

Definition vfp_set_fpscr (val : Z) (e : CPUARMState M) : CPUARMState M :=
  vfp_set_fpsr (Z.land val FPSCR_FPSR_MASK) (vfp_set_fpcr_masked val FPSCR_FPCR_MASK e).

(** [*aa32_vfp_dreg(env, n)]. *)
Definition get_dreg (e : CPUARMState M) (n : Z) : Z := aget 0 (dregs (vfp e)) n.
Definition set_dreg (n v : Z) (e : CPUARMState M) : CPUARMState M :=
  e <| vfp ::= fun x => x <| dregs ::= fun l => aset l n v |> |>.
End fpscr.

(** ** Privilege and stack pointers *)

(** [arm_current_el(env)] on M-profile. *)
Definition arm_current_el (m : V7M) : Z :=
  of_bool (arm_v7m_is_handler_mode m || negb (has (bget (control m) (secure_state m)) 1)).

Definition v7m_sp_limit (m : V7M) : Z :=
  if v7m_using_psp m then bget (psplim m) (secure_state m) else bget (msplim m) (secure_state m).

Definition v7m_cpacr_pass (m : V7M) (is_secure is_priv : bool) : bool :=
  let v := extract32 (bget (cpacr m) is_secure) 20 2 in
  if v =? 1 then is_priv else v =? 3.

Definition swap_sp (m : V7M) : V7M := m <| other_sp := sp m |> <| sp := other_sp m |>.

Definition write_v7m_control_spsel_for_secstate (new_spsel secstate : bool) (m : V7M) : V7M :=
  let old_is_psp := v7m_using_psp m in
  let m := m <| control ::= fun c => bset secstate
                 (deposit32 (bget c secstate) (shift CONTROL_SPSEL) (flen CONTROL_SPSEL)
                    (of_bool new_spsel)) c |> in
  if eqb secstate (secure_state m) then
    let new_is_psp := v7m_using_psp m in
    if negb (eqb old_is_psp new_is_psp) then swap_sp m else m
  else m.

Definition write_v7m_control_spsel (new_spsel : bool) (m : V7M) : V7M :=
  write_v7m_control_spsel_for_secstate new_spsel (secure_state m) m.

Definition switch_v7m_security_state (new_secstate : bool) (m : V7M) : V7M :=
  if eqb (secure_state m) new_secstate then m
  else
    let new_ss_msp := other_ss_msp m in
    let new_ss_psp := other_ss_psp m in
    let m := if v7m_using_psp m
             then m <| other_ss_psp := sp m |> <| other_ss_msp := other_sp m |>
             else m <| other_ss_msp := sp m |> <| other_ss_psp := other_sp m |> in
    let m := m <| secure_state := new_secstate |> in
    if v7m_using_psp m
    then m <| sp := new_ss_psp |> <| other_sp := new_ss_msp |>
    else m <| sp := new_ss_msp |> <| other_sp := new_ss_psp |>.

(** The variable [arm_v7m_get_sp_ptr] points to. *)
Inductive sp_ptr := PtrSp | PtrOtherSp | PtrOtherSsMsp | PtrOtherSsPsp.

Definition arm_v7m_get_sp_ptr (m : V7M) (secure' threadmode spsel : bool) : sp_ptr :=
  let want_psp := threadmode && spsel in
  if eqb secure' (secure_state m)
  then if eqb want_psp (v7m_using_psp m) then PtrSp else PtrOtherSp
  else if want_psp then PtrOtherSsPsp else PtrOtherSsMsp.

Definition load_sp (m : V7M) (p : sp_ptr) : Z :=
  match p with
  | PtrSp => sp m | PtrOtherSp => other_sp m
  | PtrOtherSsMsp => other_ss_msp m | PtrOtherSsPsp => other_ss_psp m
  end.

Definition store_sp (p : sp_ptr) (v : Z) (m : V7M) : V7M :=
  match p with
  | PtrSp => m <| sp := v |>
  | PtrOtherSp => m <| other_sp := v |>
  | PtrOtherSsMsp => m <| other_ss_msp := v |>
  | PtrOtherSsPsp => m <| other_ss_psp := v |>
  end.

(** ** Special registers *)

Section special.
Context {M : Type}.
Implicit Types e : CPUARMState M.

Definition v7m_msr_xpsr (mask reg val : Z) (e : CPUARMState M) : CPUARMState M :=
  if negb (has reg 4) then
    let apsrmask := 0 in
    let apsrmask := if has mask 8 then Z.lor apsrmask (Z.lor XPSR_NZCV XPSR_Q) else apsrmask in
    let apsrmask := if has mask 4 && FEATURE_THUMB_DSP (env_model e) then Z.lor apsrmask XPSR_GE
                    else apsrmask in
    xpsr_write val apsrmask e
  else e.

Definition v7m_mrs_xpsr (e : CPUARMState M) (reg el : Z) : Z :=
  let mask := if has reg 1 && truth el then XPSR_EXCP else 0 in
  let mask := if negb (has reg 4) then
                let mask := Z.lor mask (Z.lor XPSR_NZCV XPSR_Q) in
                if FEATURE_THUMB_DSP (env_model e) then Z.lor mask XPSR_GE else mask
              else mask in
  Z.land (xpsr_read e) mask.

Definition arm_v7m_mrs_control (m : V7M) (secure' : bool) : Z :=
  let value := bget (control m) secure' in
  if negb secure' then Z.lor value (Z.land (sec (control m)) (field_mask CONTROL_FPCA)) else value.

(** The registers only the Security extension has, read by privileged code:
    [None] when the register is not one of them. *)
Definition mrs_security (e : CPUARMState M) (reg : Z) : option Z :=
  let m := env_v7m e in
  let from_secure v := Some (if secure_state m then v else 0) in
  if reg =? 0x88 then from_secure (other_ss_msp m)
  else if reg =? 0x89 then from_secure (other_ss_psp m)
  else if reg =? 0x8a then from_secure (ns (msplim m))
  else if reg =? 0x8b then from_secure (ns (psplim m))
  else if reg =? 0x90 then from_secure (ns (primask m))
  else if reg =? 0x91 then
    if negb (FEATURE_M_MAIN (env_model e)) then Some 0 else from_secure (ns (basepri m))
  else if reg =? 0x93 then
    if negb (FEATURE_M_MAIN (env_model e)) then Some 0 else from_secure (ns (faultmask m))
  else if reg =? 0x98 then
    let spsel := has (ns (control m)) (field_mask CONTROL_SPSEL) in
    from_secure (if negb (arm_v7m_is_handler_mode m) && spsel then other_ss_psp m else other_ss_msp m)
  else None.

(** The last [switch]. *)
Definition mrs_common (e : CPUARMState M) (reg : Z) : Z :=
  let m := env_v7m e in
  let secure' := secure_state m in
  if reg =? 8 then if v7m_using_psp m then other_sp m else sp m
  else if reg =? 9 then if v7m_using_psp m then sp m else other_sp m
  else if reg =? 10 then if negb (FEATURE_V8 (env_model e)) then 0 else bget (msplim m) secure'
  else if reg =? 11 then if negb (FEATURE_V8 (env_model e)) then 0 else bget (psplim m) secure'
  else if reg =? 16 then bget (primask m) secure'
  else if (reg =? 17) || (reg =? 18) then
    if negb (FEATURE_M_MAIN (env_model e)) then 0 else bget (basepri m) secure'
  else if reg =? 19 then
    if negb (FEATURE_M_MAIN (env_model e)) then 0 else bget (faultmask m) secure'
  else 0.

Definition v7m_mrs (e : CPUARMState M) (reg : Z) : Z :=
  let m := env_v7m e in
  let el := arm_current_el m in
  if (0 <=? reg) && (reg <=? 7) then v7m_mrs_xpsr e reg el
  else if reg =? 20 then arm_v7m_mrs_control m (secure_state m)
  else if reg =? 0x94 then
    if negb (secure_state m) then 0
    else Z.lor (ns (control m)) (Z.land (sec (control m)) (field_mask CONTROL_FPCA))
  else if el =? 0 then 0
  else match (if FEATURE_M_SECURITY (env_model e) then mrs_security e reg else None) with
       | Some v => v
       | None => mrs_common e reg
       end.

(** [x &= ~mask; x |= val & mask;] *)
Definition replace_bits (mask val x : Z) : Z := Z.lor (Z.land x (not32 mask)) (Z.land val mask).

(** What a write does: the new state, or an exception raised in the middle. *)
Inductive msr_result := Written (e : CPUARMState M) | RaiseStkof.

(** The registers only the Security extension has; [None] when the register is
    not one of them.  A write from Non-secure is ignored. *)
Definition msr_security (reg val : Z) (e : CPUARMState M) : option msr_result :=
  let m := env_v7m e in
  let from_secure f := Some (Written (if secure_state m then upd_v7m f e else e)) in
  let main (r : option msr_result) := if negb (FEATURE_M_MAIN (env_model e)) then Some (Written e) else r in
  if reg =? 0x88 then from_secure (fun m => m <| other_ss_msp := Z.land val (not32 3) |>)
  else if reg =? 0x89 then from_secure (fun m => m <| other_ss_psp := Z.land val (not32 3) |>)
  else if reg =? 0x8a then from_secure (fun m => m <| msplim ::= bset false (Z.land val (not32 7)) |>)
  else if reg =? 0x8b then from_secure (fun m => m <| psplim ::= bset false (Z.land val (not32 7)) |>)
  else if reg =? 0x90 then from_secure (fun m => m <| primask ::= bset false (Z.land val 1) |>)
  else if reg =? 0x91 then main (from_secure (fun m => m <| basepri ::= bset false (Z.land val 0xff) |>))
  else if reg =? 0x93 then main (from_secure (fun m => m <| faultmask ::= bset false (Z.land val 1) |>))
  else if reg =? 0x94 then
    from_secure (fun m =>
      let m := write_v7m_control_spsel_for_secstate (has val (field_mask CONTROL_SPSEL)) false m in
      let m := if FEATURE_M_MAIN (env_model e)
               then m <| control ::= fun c => bset false
                           (replace_bits (field_mask CONTROL_NPRIV) val (ns c)) c |> else m in
      if aa32_vfp_simd (env_model e) && truth (extract32 (nsacr m) 10 1)
      then m <| control ::= fun c => bset true
                  (replace_bits (field_mask CONTROL_FPCA) val (sec c)) c |> else m)
  else if reg =? 0x98 then
    let spsel := has (ns (control m)) (field_mask CONTROL_SPSEL) in
    let is_psp := negb (arm_v7m_is_handler_mode m) && spsel in
    if negb (secure_state m) then Some (Written e)
    else
      let limit := if is_psp then ns (psplim m) else ns (msplim m) in
      let val := Z.land val (not32 0x3) in
      if val <? limit then Some RaiseStkof
      else Some (Written (upd_v7m (fun m =>
             if is_psp then m <| other_ss_psp := val |> else m <| other_ss_msp := val |>) e))
  else None.

(** The write of CONTROL. *)
Definition msr_control (val cur_el : Z) (model' : CpuModel) (m : V7M) : V7M :=
  let m := if (cur_el >? 0) && (FEATURE_V8 model' || negb (arm_v7m_is_handler_mode m))
           then write_v7m_control_spsel (has val (field_mask CONTROL_SPSEL)) m else m in
  let m := if (cur_el >? 0) && FEATURE_M_MAIN model'
           then m <| control ::= fun c => bset (secure_state m)
                       (replace_bits (field_mask CONTROL_NPRIV) val (bget c (secure_state m))) c |>
           else m in
  if aa32_vfp_simd model' then
    let m := if secure_state m
             then m <| control ::= fun c => bset true
                         (replace_bits (field_mask CONTROL_SFPA) val (sec c)) c |> else m in
    if (cur_el >? 0) && (secure_state m || negb (FEATURE_M_SECURITY model') ||
                         truth (extract32 (nsacr m) 10 1))
    then m <| control ::= fun c => bset true
                (replace_bits (field_mask CONTROL_FPCA) val (sec c)) c |> else m
  else m.

(** The last [switch]. *)
Definition msr_common (mask reg val cur_el : Z) (e : CPUARMState M) : CPUARMState M :=
  let model' := env_model e in
  let secure' := secure_state (env_v7m e) in
  if (0 <=? reg) && (reg <=? 7) then v7m_msr_xpsr mask reg val e
  else if reg =? 8 then
    upd_v7m (fun m => if v7m_using_psp m then m <| other_sp := Z.land val (not32 3) |>
                      else m <| sp := Z.land val (not32 3) |>) e
  else if reg =? 9 then
    upd_v7m (fun m => if v7m_using_psp m then m <| sp := Z.land val (not32 3) |>
                      else m <| other_sp := Z.land val (not32 3) |>) e
  else if reg =? 10 then
    if negb (FEATURE_V8 model') then e
    else upd_v7m (fun m => m <| msplim ::= bset secure' (Z.land val (not32 7)) |>) e
  else if reg =? 11 then
    if negb (FEATURE_V8 model') then e
    else upd_v7m (fun m => m <| psplim ::= bset secure' (Z.land val (not32 7)) |>) e
  else if reg =? 16 then upd_v7m (fun m => m <| primask ::= bset secure' (Z.land val 1) |>) e
  else if reg =? 17 then
    if negb (FEATURE_M_MAIN model') then e
    else upd_v7m (fun m => m <| basepri ::= bset secure' (Z.land val 0xff) |>) e
  else if reg =? 18 then
    if negb (FEATURE_M_MAIN model') then e
    else
      let val := Z.land val 0xff in
      let old := bget (basepri (env_v7m e)) secure' in
      if truth val && ((val <? old) || (old =? 0))
      then upd_v7m (fun m => m <| basepri ::= bset secure' val |>) e else e
  else if reg =? 19 then
    if negb (FEATURE_M_MAIN model') then e
    else upd_v7m (fun m => m <| faultmask ::= bset secure' (Z.land val 1) |>) e
  else if reg =? 20 then upd_v7m (msr_control val cur_el model') e
  else e.

Definition v7m_msr (maskreg val : Z) (e : CPUARMState M) : msr_result :=
  let mask := extract32 maskreg 8 4 in
  let reg := extract32 maskreg 0 8 in
  let cur_el := arm_current_el (env_v7m e) in
  if (cur_el =? 0) && (7 <? reg) && negb (reg =? 20) then Written e
  else match (if FEATURE_M_SECURITY (env_model e) then msr_security reg val e else None) with
       | Some r => r
       | None => Written (msr_common mask reg val cur_el e)
       end.
End special.
Arguments msr_result : clear implicits.
