(* ===== verification/CpuRegsSpec.v ===== *)
(** Theorems about the CPU registers: the banked stack pointers, the program
    status register, and the special registers. *)

From S2P Require Import Prelude Irq NvicState NvicCore NvicRead Mpu CpuRegs NvicSpec NvicBoard MpuSpec.

(** ** Banked stack pointers *)

(** The architecture's stack pointer of a security state, main or process. *)
Definition bank_sp (m : V7M) (secure' psp : bool) : Z :=
  load_sp m (arm_v7m_get_sp_ptr m secure' true psp).

Lemma bank_sp_eq m secure' psp :
  bank_sp m secure' psp =
  if eqb secure' (secure_state m) then if eqb psp (v7m_using_psp m) then sp m else other_sp m
  else if psp then other_ss_psp m else other_ss_msp m.
Proof. unfold bank_sp, arm_v7m_get_sp_ptr. cbn [andb]. repeat case_if; done. Qed.

Lemma bank_swap m m' :
  secure_state m' = secure_state m → other_ss_msp m' = other_ss_msp m → other_ss_psp m' = other_ss_psp m →
  v7m_using_psp m' = v7m_using_psp m ∧ sp m' = sp m ∧ other_sp m' = other_sp m ∨
  v7m_using_psp m' = negb (v7m_using_psp m) ∧ sp m' = other_sp m ∧ other_sp m' = sp m →
  ∀ secure' psp, bank_sp m' secure' psp = bank_sp m secure' psp.
Proof.
  intros Hs H1 H2 H secure' psp. rewrite !bank_sp_eq, Hs, H1, H2. destruct (eqb secure' _); [|done].
  destruct H as [(-> & -> & ->)|(-> & -> & ->)]; [done|].
  by destruct psp, (v7m_using_psp m).
Qed.

Lemma write_exception_fields x m :
  let m' := write_v7m_exception x m in
  secure_state m' = secure_state m ∧ other_ss_msp m' = other_ss_msp m ∧ other_ss_psp m' = other_ss_psp m ∧
  control m' = control m ∧ exception m' = x ∧
  v7m_using_psp m' = v7m_using_psp (m <| exception := x |>) ∧
  (v7m_using_psp m' = v7m_using_psp m ∧ sp m' = sp m ∧ other_sp m' = other_sp m ∨
   v7m_using_psp m' = negb (v7m_using_psp m) ∧ sp m' = other_sp m ∧ other_sp m' = sp m).
Proof.
  cbv zeta. unfold write_v7m_exception. cbv zeta.
  destruct (eqb _ _) eqn:E; cbn [negb]; split_and!; try done.
  - left. apply eqb_prop in E. by rewrite <- E.
  - right. split_and!; [|done..]. apply eqb_false_iff in E. revert E.
    change (v7m_using_psp (((m <| exception := x |>) <| other_sp := _ |>) <| sp := _ |>))
      with (v7m_using_psp (m <| exception := x |>)).
    by destruct (v7m_using_psp m), (v7m_using_psp (m <| exception := x |>)).
Qed.

Lemma write_spsel_fields b secstate m :
  let m' := write_v7m_control_spsel_for_secstate b secstate m in
  secure_state m' = secure_state m ∧ other_ss_msp m' = other_ss_msp m ∧ other_ss_psp m' = other_ss_psp m ∧
  exception m' = exception m ∧
  control m' = bset secstate (deposit32 (bget (control m) secstate) 1 1 (of_bool b)) (control m) ∧
  (v7m_using_psp m' = v7m_using_psp m ∧ sp m' = sp m ∧ other_sp m' = other_sp m ∨
   v7m_using_psp m' = negb (v7m_using_psp m) ∧ sp m' = other_sp m ∧ other_sp m' = sp m).
Proof.
  cbv zeta. unfold write_v7m_control_spsel_for_secstate. cbv zeta.
  set (m1 := m <| control ::= _ |>). change (secure_state m1) with (secure_state m).
  destruct (eqb secstate (secure_state m)) eqn:Es.
  - destruct (eqb (v7m_using_psp m) (v7m_using_psp m1)) eqn:E; cbn [negb]; split_and!; try done.
    + left. apply eqb_prop in E. by rewrite <- E.
    + right. split_and!; [|done..]. apply eqb_false_iff in E.
      change (v7m_using_psp (swap_sp m1)) with (v7m_using_psp m1).
      by destruct (v7m_using_psp m), (v7m_using_psp m1).
  - split_and!; try done. left. split_and!; [|done..]. unfold v7m_using_psp.
    change (secure_state m1) with (secure_state m). change (exception m1) with (exception m).
    replace (bget (control m1) (secure_state m)) with (bget (control m) (secure_state m)); [done|].
    unfold m1. cbn. by destruct secstate, (secure_state m).
Qed.

(** What the pointers of a record are, from its six fields. *)
Lemma bank_sp_val m st u v w x y secure' psp :
  secure_state m = st → v7m_using_psp m = u → sp m = v → other_sp m = w →
  other_ss_msp m = x → other_ss_psp m = y →
  bank_sp m secure' psp =
  if eqb secure' st then if eqb psp u then v else w else if psp then y else x.
Proof. intros <- <- <- <- <- <-. apply bank_sp_eq. Qed.

(** Writing r13 writes the pointer in use. *)
Lemma bank_sp_r13 m v secure' psp :
  bank_sp (m <| sp := v |>) secure' psp =
  if eqb secure' (secure_state m) && eqb psp (v7m_using_psp m) then v else bank_sp m secure' psp.
Proof.
  rewrite (bank_sp_eq m), (bank_sp_val _ (secure_state m) (v7m_using_psp m) v (other_sp m)
    (other_ss_msp m) (other_ss_psp m)) by done.
  by destruct (eqb secure' (secure_state m)), (eqb psp (v7m_using_psp m)).
Qed.

Lemma switch_state_banks b m secure' psp :
  bank_sp (switch_v7m_security_state b m) secure' psp = bank_sp m secure' psp.
Proof.
  unfold switch_v7m_security_state. destruct (eqb (secure_state m) b) eqn:E; [done|]. cbv zeta.
  rewrite (bank_sp_eq m). apply eqb_false_iff in E.
  destruct (v7m_using_psp m);
    (match goal with |- context [v7m_using_psp ?x] => set (m2 := x) end;
     destruct (v7m_using_psp m2) eqn:Hu;
     (erewrite bank_sp_val; [|reflexivity|exact Hu|reflexivity..]);
     destruct secure', b, (secure_state m), psp; done || congruence).
Qed.

Lemma store_sp_bank m secure' threadmode spsel v secure'' psp :
  bank_sp (store_sp (arm_v7m_get_sp_ptr m secure' threadmode spsel) v m) secure'' psp =
  if eqb secure'' secure' && eqb psp (threadmode && spsel) then v else bank_sp m secure'' psp.
Proof.
  unfold arm_v7m_get_sp_ptr. cbv zeta. set (want := threadmode && spsel). clearbody want.
  rewrite (bank_sp_eq m). destruct (eqb secure' (secure_state m)) eqn:Es.
  - apply eqb_prop in Es as ->. destruct (eqb want (v7m_using_psp m)) eqn:E; cbn [store_sp].
    + apply eqb_prop in E as ->.
      rewrite (bank_sp_val _ (secure_state m) (v7m_using_psp m) v (other_sp m) (other_ss_msp m)
        (other_ss_psp m)) by done.
      by destruct secure'', (secure_state m), psp, (v7m_using_psp m).
    + rewrite (bank_sp_val _ (secure_state m) (v7m_using_psp m) (sp m) v (other_ss_msp m)
        (other_ss_psp m)) by done.
      by destruct secure'', (secure_state m), psp, (v7m_using_psp m), want.
  - destruct want; cbn [store_sp].
    + rewrite (bank_sp_val _ (secure_state m) (v7m_using_psp m) (sp m) (other_sp m) (other_ss_msp m) v)
        by done.
      by destruct secure'', secure', (secure_state m), psp.
    + rewrite (bank_sp_val _ (secure_state m) (v7m_using_psp m) (sp m) (other_sp m) v (other_ss_psp m))
        by done.
      by destruct secure'', secure', (secure_state m), psp.
Qed.

(** The stack pointers are banked.  The CPU keeps the active stack pointer
    in r13 and moves the others around when the mode, CONTROL.SPSEL or the
    security state changes.  Seen through [arm_v7m_get_sp_ptr], there are four
    independent pointers (main and process, for each security state): r13 is
    always the one that the mode and CONTROL.SPSEL select, entering and leaving
    Handler mode, writing SPSEL and switching the security state change none of
    them, and a store through the pointer changes exactly the one it is for. *)
Lemma stack_pointer_banks m :
  sp m = bank_sp m (secure_state m) (v7m_using_psp m) ∧
  ∀ secure' psp,
    (∀ x, bank_sp (write_v7m_exception x m) secure' psp = bank_sp m secure' psp) ∧
    (∀ b st, bank_sp (write_v7m_control_spsel_for_secstate b st m) secure' psp = bank_sp m secure' psp) ∧
    (∀ b, bank_sp (switch_v7m_security_state b m) secure' psp = bank_sp m secure' psp) ∧
    (∀ st thread spsel v,
       bank_sp (store_sp (arm_v7m_get_sp_ptr m st thread spsel) v m) secure' psp =
       if eqb secure' st && eqb psp (thread && spsel) then v else bank_sp m secure' psp).
Proof.
  split; [by rewrite bank_sp_eq, !eqb_reflx|]. intros secure' psp. split_and!.
  - intros x. destruct (write_exception_fields x m) as (? & ? & ? & _ & _ & _ & ?). by apply bank_swap.
  - intros b st. destruct (write_spsel_fields b st m) as (? & ? & ? & _ & _ & ?). by apply bank_swap.
  - intros b. apply switch_state_banks.
  - intros st thread spsel v. apply store_sp_bank.
Qed.

(** ** The program status register *)

(** Ranges of the flag variables. *)
Record flags_wf {M} (e : CPUARMState M) : Prop := {
  wf_NF : is_u32 (NF e); wf_CF : 0 ≤ CF e ≤ 1; wf_VF : is_u32 (VF e); wf_QF : 0 ≤ QF e ≤ 1;
  wf_GE : 0 ≤ GE e < 16; wf_it : 0 ≤ condexec_bits e < 256; wf_exc : 0 ≤ exception (env_v7m e) < 512
}.

(** The bits of the xPSR in terms of the variables it is computed from. *)
Definition xpsr_bit {M} (e : CPUARMState M) (i : Z) : bool :=
  if i =? 31 then Z.testbit (NF e) 31
  else if i =? 30 then ZF e =? 0
  else if i =? 29 then Z.testbit (CF e) 0
  else if i =? 28 then Z.testbit (VF e) 31
  else if i =? 27 then Z.testbit (QF e) 0
  else if between 25 26 i then Z.testbit (condexec_bits e) (i - 25)
  else if i =? 24 then thumb e
  else if between 16 19 i then Z.testbit (GE e) (i - 16)
  else if between 10 15 i then Z.testbit (condexec_bits e) (i - 8)
  else if between 0 8 i then Z.testbit (exception (env_v7m e)) i
  else false.

Lemma land_bit_spec x k i : 0 ≤ k → 0 ≤ i → Z.testbit (Z.land x (bit k)) i = (i =? k) && Z.testbit x i.
Proof. intros. rewrite Z.land_spec, bit_spec, andb_comm, Z.eqb_sym by done. done. Qed.

(** The bits of a field moved to its place. *)
Lemma placed_bits n x k i : in_range n x → 0 ≤ k → 0 ≤ i →
  Z.testbit (Z.shiftl x k) i = between k (k + n - 1) i && Z.testbit x (i - k).
Proof.
  intros Hx Hk Hi. rewrite Z.shiftl_spec by done. unfold between.
  destruct (Z.leb_spec k i); [|by rewrite Z.testbit_neg_r by lia].
  destruct (Z.leb_spec i (k + n - 1)); [done|]. by rewrite (testbit_above n) by (done || lia).
Qed.

Lemma placed_u32 n x k : in_range n x → 0 ≤ n → 0 ≤ k → n + k ≤ 32 → u32 (Z.shiftl x k) = Z.shiftl x k.
Proof.
  intros [Hx Hn] Hn0 Hk Hle. apply wrap_small. rewrite Z.shiftl_mul_pow2 by done. split; [lia|].
  apply Z.lt_le_trans with (2 ^ n * 2 ^ k); [nia|]. rewrite <- Z.pow_add_r by lia.
  apply Z.pow_le_mono_r; lia.
Qed.

Lemma one_bit x : 0 ≤ x ≤ 1 → in_range 1 x.
Proof. unfold in_range. change (2 ^ 1) with 2. lia. Qed.

Lemma of_bool_bit b : in_range 1 (of_bool b).
Proof. by destruct b. Qed.

Lemma of_bool_testbit b : Z.testbit (of_bool b) 0 = b.
Proof. by destruct b. Qed.

(** Thirty-two cases. *)
Definition bits32 : list Z := Eval vm_compute in seqZ 0 32.

Lemma bit_cases (P : Z → Prop) : Forall P bits32 → ∀ i, 0 ≤ i < 32 → P i.
Proof.
  change bits32 with (seqZ 0 32). intros H i Hi. eapply Forall_forall in H; [exact H|].
  apply elem_of_seqZ. lia.
Qed.

(** The bits of literals. *)
Ltac literal_bits :=
  repeat match goal with
  | |- context [Z.testbit (Zpos ?p) ?k] =>
    let b := eval vm_compute in (Z.testbit (Zpos p) k) in
    lazymatch b with true => idtac | false => idtac end;
    change (Z.testbit (Zpos p) k) with b
  end.

Lemma xpsr_read_bits {M} (e : CPUARMState M) i : flags_wf e → 0 ≤ i →
  Z.testbit (xpsr_read e) i = (i <? 32) && xpsr_bit e i.
Proof.
  intros [] Hi. unfold xpsr_read. cbn [foldr].
  rewrite !Z.lor_spec, Z.bits_0.
  assert (in_range 2 (Z.land (condexec_bits e) 3)) as H3 by (apply land_range_r; [done|closed_range]).
  assert (in_range 8 (Z.land (condexec_bits e) 0xfc)) as Hfc by (apply land_range_r; [done|closed_range]).
  assert (in_range 4 (GE e)) as Hge by done.
  rewrite (placed_u32 1 (CF e)), (placed_u32 1 (QF e)), (placed_u32 4 (GE e)) by (lia || by apply one_bit || done).
  rewrite (placed_bits 1 (of_bool (ZF e =? 0))), (placed_bits 1 (of_bool (thumb e)))
    by (done || apply of_bool_bit).
  rewrite (placed_bits 1 (CF e)), (placed_bits 1 (QF e)), (placed_bits 4 (GE e)),
    (placed_bits 2 (Z.land (condexec_bits e) 3)), (placed_bits 8 (Z.land (condexec_bits e) 0xfc))
    by (done || by apply one_bit).
  change 0x80000000 with (bit 31). rewrite Z.shiftr_spec, !land_bit_spec by lia.
  assert (Z.testbit (exception (env_v7m e)) i = (i <? 9) && Z.testbit (exception (env_v7m e)) i) as ->.
  { destruct (Z.ltb_spec i 9); [done|]. by rewrite (testbit_above 9). }
  destruct (Z.ltb_spec i 32) as [H32|H32]; cbn [andb].
  - revert i Hi H32.
    enough (∀ i, 0 ≤ i < 32 → _) as H by (intros i Hi H32; apply (H i); lia).
    apply bit_cases. unfold bits32. repeat constructor; unfold xpsr_bit, between; cbn;
      rewrite ?Z.land_spec, ?of_bool_testbit, ?orb_false_r, ?andb_true_r, ?andb_false_r; done.
  - unfold between. repeat match goal with
    | |- context [i =? ?k] => destruct (Z.eqb_spec i k); [lia|]
    | |- context [i + 3 =? ?k] => destruct (Z.eqb_spec (i + 3) k); [lia|]
    | |- context [i <=? ?k] => destruct (Z.leb_spec i k); [lia|]
    | |- context [i <? ?k] => destruct (Z.ltb_spec i k); [lia|]
    end. by rewrite !andb_false_r.
Qed.

(** The mask exception return writes with, on a core with the DSP extension. *)
Definition return_mask : Z := not32 (Z.lor XPSR_SPREALIGN XPSR_SFPA).

(** The bits the variables can represent. *)
Definition xpsr_stored (i : Z) : bool := between 24 31 i || between 10 19 i || between 0 8 i.

(** The variables after a write with that mask. *)
Lemma xpsr_write_return {M} val (e : CPUARMState M) :
  xpsr_write val return_mask e =
  upd_v7m (write_v7m_exception (Z.land val XPSR_EXCP))
    (e <| ZF := Z.land (not32 val) XPSR_Z |> <| NF := val |> <| CF := Z.land (Z.shiftr val 29) 1 |>
       <| VF := Z.land (u32 (Z.shiftl val 3)) 0x80000000 |> <| QF := of_bool (has val XPSR_Q) |>
       <| GE := Z.shiftr (Z.land val XPSR_GE) 16 |> <| thumb := has val XPSR_T |>
       <| condexec_bits ::= fun c => Z.lor (Z.land c (not32 3)) (Z.land (Z.shiftr val 25) 3) |>
       <| condexec_bits ::= fun c => Z.lor (Z.land c 3) (Z.land (Z.shiftr val 8) 0xfc) |>).
Proof. reflexivity. Qed.

Lemma env_v7m_upd {M} f (e : CPUARMState M) : env_v7m (upd_v7m f e) = f (env_v7m e).
Proof. reflexivity. Qed.

Lemma env_model_upd {M} f (e : CPUARMState M) : env_model (upd_v7m f e) = env_model e.
Proof. reflexivity. Qed.

Lemma xpsr_write_v7m {M} val (e : CPUARMState M) :
  env_v7m (xpsr_write val return_mask e) = write_v7m_exception (Z.land val XPSR_EXCP) (env_v7m e).
Proof. reflexivity. Qed.

Lemma it_bits c val i : 0 ≤ i →
  Z.testbit (Z.lor (Z.land (Z.lor (Z.land c (not32 3)) (Z.land (Z.shiftr val 25) 3)) 3)
               (Z.land (Z.shiftr val 8) 0xfc)) i =
  if between 0 1 i then Z.testbit val (i + 25) else if between 2 7 i then Z.testbit val (i + 8) else false.
Proof.
  intros Hi. rewrite !Z.lor_spec, !Z.land_spec, !Z.lor_spec, !Z.land_spec, !Z.shiftr_spec, not32_spec by done.
  destruct (Z.ltb_spec i 32) as [H|H].
  - assert (0 ≤ i < 32) as Hr by lia. clear Hi H. revert i Hr. apply bit_cases. unfold bits32.
    repeat constructor; unfold between; cbn; literal_bits; cbn [negb andb orb];
      rewrite ?orb_false_r, ?andb_true_r, ?andb_false_r, ?orb_false_r; done.
  - rewrite (testbit_above 8 3), (testbit_above 8 0xfc) by (closed_range || lia). unfold between.
    destruct (Z.leb_spec i 1), (Z.leb_spec i 7); try lia. by rewrite !andb_false_r.
Qed.

Lemma xpsr_write_bits {M} val (e : CPUARMState M) i : is_u32 val → 0 ≤ i < 32 →
  xpsr_bit (xpsr_write val return_mask e) i = xpsr_stored i && Z.testbit val i.
Proof.
  intros Hv. rewrite xpsr_write_return.
  pose proof (write_exception_exception (Z.land val XPSR_EXCP) (env_v7m e)) as He.
  set (e1 := e <| ZF := _ |>). unfold xpsr_bit.
  change (NF (upd_v7m _ _)) with val.
  change (ZF (upd_v7m _ _)) with (Z.land (not32 val) XPSR_Z).
  change (CF (upd_v7m _ _)) with (Z.land (Z.shiftr val 29) 1).
  change (VF (upd_v7m _ _)) with (Z.land (u32 (Z.shiftl val 3)) 0x80000000).
  change (QF (upd_v7m _ _)) with (of_bool (has val XPSR_Q)).
  change (GE (upd_v7m _ _)) with (Z.shiftr (Z.land val XPSR_GE) 16).
  change (thumb (upd_v7m _ _)) with (has val XPSR_T).
  change (condexec_bits (upd_v7m _ _)) with
    (Z.lor (Z.land (Z.lor (Z.land (condexec_bits e) (not32 3)) (Z.land (Z.shiftr val 25) 3)) 3)
               (Z.land (Z.shiftr val 8) 0xfc)).
  change (exception (env_v7m (upd_v7m _ _))) with
    (exception (write_v7m_exception (Z.land val XPSR_EXCP) (env_v7m e))).
  change XPSR_Q with (bit 27). change XPSR_T with (bit 24). rewrite He, !has_bit by done.
  assert ((Z.land (not32 val) XPSR_Z =? 0) = Z.testbit val 30) as ->.
  { pose proof (has_bit (not32 val) 30 ltac:(done)) as Hb. rewrite not32_spec in Hb by done.
    unfold has, truth in Hb. change (bit 30) with XPSR_Z in Hb. cbn in Hb.
    by destruct (Z.land (not32 val) XPSR_Z =? 0), (Z.testbit val 30). }
  revert i. apply bit_cases. unfold bits32. repeat constructor; unfold between, xpsr_stored; cbn;
    rewrite ?it_bits, ?Z.land_spec, ?Z.shiftr_spec, ?Z.land_spec, ?wrap_spec, ?Z.shiftl_spec, ?of_bool_testbit by done;
    literal_bits; rewrite ?andb_true_r, ?andb_false_r; done.
Qed.

Lemma xpsr_write_wf {M} val (e : CPUARMState M) : is_u32 val → flags_wf (xpsr_write val return_mask e).
Proof.
  intros Hv. rewrite xpsr_write_return.
  pose proof (write_exception_exception (Z.land val XPSR_EXCP) (env_v7m e)) as He.
  assert (∀ n y z, 0 ≤ n → in_range n y → in_range n (Z.land z y)) as Hl by (intros; by apply land_range_r).
  split.
  - done.
  - pose proof (Hl 1 1 (Z.shiftr val 29) ltac:(done) ltac:(closed_range)) as [? ?]. change (2 ^ 1) with 2 in *.
    change (CF (upd_v7m _ _)) with (Z.land (Z.shiftr val 29) 1). lia.
  - change (VF (upd_v7m _ _)) with (Z.land (u32 (Z.shiftl val 3)) 0x80000000).
    apply Hl; [done|closed_range].
  - change (QF (upd_v7m _ _)) with (of_bool (has val XPSR_Q)). destruct (has val XPSR_Q); simpl; lia.
  - change (GE (upd_v7m _ _)) with (Z.shiftr (Z.land val XPSR_GE) 16).
    pose proof (Hl 20 XPSR_GE val ltac:(done) ltac:(closed_range)) as [? ?].
    rewrite Z.shiftr_div_pow2 by done. change (2 ^ 20) with 1048576 in *. change (2 ^ 16) with 65536. euclid.
  - change (condexec_bits (upd_v7m _ _)) with
      (Z.lor (Z.land (Z.lor (Z.land (condexec_bits e) (not32 3)) (Z.land (Z.shiftr val 25) 3)) 3)
               (Z.land (Z.shiftr val 8) 0xfc)).
    apply (lor_range 8); [done|apply Hl; [done|closed_range]..].
  - change (exception (env_v7m (upd_v7m _ _))) with
      (exception (write_v7m_exception (Z.land val XPSR_EXCP) (env_v7m e))).
    rewrite He. apply (Hl 9); [done|closed_range].
Qed.

(** ** Special registers *)

(** A v7M core: no v8M, no Security extension. *)
Record v7m_core (s : NVICState) : Prop := {
  core_v8 : FEATURE_V8 (model_of s) = false; core_v81 : FEATURE_V8_1M (model_of s) = false;
  core_sec : FEATURE_M_SECURITY (model_of s) = false; core_m : FEATURE_M (model_of s) = true;
  core_main : FEATURE_M_MAIN (model_of s) = true; core_ns : secure_state (v7m_of s) = false
}.

(** The registers a privileged write stores as they are, with the bits they
    have. *)
Definition plain_mask (reg : Z) : option Z :=
  if (reg =? 8) || (reg =? 9) then Some (not32 3)
  else if (reg =? 16) || (reg =? 19) then Some 1
  else if reg =? 17 then Some 0xff
  else None.

Section special.
Context {M : Type} (e : CPUARMState M) (Hc : v7m_core (env_nvic e)).

Lemma el_cases : arm_current_el (env_v7m e) = 0 ∨ arm_current_el (env_v7m e) = 1.
Proof. unfold arm_current_el. destruct (_ || _); auto. Qed.

(** What a write leaves alone, whatever register it is to. *)
Definition outside_v7m (e' : CPUARMState M) : Prop :=
  regs e' = regs e ∧ vfp e' = vfp e ∧ mem e' = mem e ∧ thumb e' = thumb e ∧
  condexec_bits e' = condexec_bits e ∧ exclusive_addr e' = exclusive_addr e.

Lemma msr_xpsr_nvic mask reg val :
  env_nvic (v7m_msr_xpsr mask reg val e) = env_nvic e ∧ outside_v7m (v7m_msr_xpsr mask reg val e).
Proof.
  unfold v7m_msr_xpsr. destruct (has reg 4); cbn [negb]; [by split_and!|]. cbv zeta.
  assert (∀ x, x = 0 ∨ x = Z.lor XPSR_NZCV XPSR_Q ∨ x = XPSR_GE ∨
    x = Z.lor (Z.lor XPSR_NZCV XPSR_Q) XPSR_GE →
    env_nvic (xpsr_write val x e) = env_nvic e ∧ outside_v7m (xpsr_write val x e)) as Hx.
  { intros x [->|[->|[->| ->]]]; by split_and!. }
  apply Hx. destruct (has mask 8), (has mask 4), (FEATURE_THUMB_DSP (env_model e)); cbn [andb]; auto.
Qed.

(** CONTROL is not changed by unprivileged code. *)
Lemma msr_control_user val : msr_control val 0 (env_model e) (env_v7m e) = env_v7m e.
Proof.
  unfold msr_control. cbn [Z.gtb Z.compare andb]. destruct Hc as [H8 H81 Hs Hm Hmn Hns].
  change (secure_state (v7m_of (env_nvic e))) with (secure_state (env_v7m e)) in Hns. rewrite Hns.
  by destruct (aa32_vfp_simd (env_model e)).
Qed.
End special.

Lemma set_v7m_id f s : f (v7m_of s) = v7m_of s → set_v7m f s = s.
Proof.
  destruct s as [[md v mp ef] vs sv pg nb it vp vb ep vpp ni eo sr]. unfold set_v7m, v7m_of, update.
  cbn [NvicState.cpu v7m model mpu effects vectors sec_vectors prigroup num_prio_bits itns vectpending
    vectpending_is_s_banked exception_prio vectpending_prio num_irq excpout sysresetreq].
  by intros ->.
Qed.

(** The plain registers as they are read by privileged code. *)
Lemma mrs_plain {M} (e : CPUARMState M) reg mask :
  v7m_core (env_nvic e) → arm_current_el (env_v7m e) = 1 → plain_mask reg = Some mask →
  v7m_mrs e reg =
  if reg =? 8 then bank_sp (env_v7m e) false false
  else if reg =? 9 then bank_sp (env_v7m e) false true
  else if reg =? 16 then ns (primask (env_v7m e))
  else if reg =? 17 then ns (basepri (env_v7m e))
  else ns (faultmask (env_v7m e)).
Proof.
  intros [H8 H81 Hs Hm Hmn Hns] Hel Hr. unfold v7m_mrs. cbv zeta. rewrite Hel.
  change (FEATURE_M_SECURITY (env_model e)) with (FEATURE_M_SECURITY (model_of (env_nvic e))). rewrite Hs.
  change (secure_state (v7m_of (env_nvic e))) with (secure_state (env_v7m e)) in Hns.
  assert (reg = 8 ∨ reg = 9 ∨ reg = 16 ∨ reg = 17 ∨ reg = 19) as Hc.
  { revert Hr. unfold plain_mask. repeat case_if; rewrite ?orb_true_iff, ?orb_false_iff, ?Z.eqb_eq in *; lia || done. }
  unfold mrs_common. change (FEATURE_M_MAIN (env_model e)) with (FEATURE_M_MAIN (model_of (env_nvic e))).
  rewrite !bank_sp_eq, Hns, Hmn.
  destruct Hc as [->|[->|[->|[->| ->]]]]; cbn; by destruct (v7m_using_psp (env_v7m e)).
Qed.

Lemma plain_cases reg mask : plain_mask reg = Some mask →
  (reg = 8 ∨ reg = 9) ∧ mask = not32 3 ∨ (reg = 16 ∨ reg = 19) ∧ mask = 1 ∨ reg = 17 ∧ mask = 0xff.
Proof.
  unfold plain_mask. destruct ((reg =? 8) || (reg =? 9)) eqn:E1.
  { intros [= <-]. rewrite orb_true_iff, !Z.eqb_eq in E1. auto. }
  destruct ((reg =? 16) || (reg =? 19)) eqn:E2.
  { intros [= <-]. rewrite orb_true_iff, !Z.eqb_eq in E2. auto. }
  destruct (Z.eqb_spec reg 17); [|done]. intros [= <-]. auto.
Qed.

(** A privileged write of a plain register, as an update of the [V7M] record. *)
Definition plain_update (reg v : Z) (m : V7M) : V7M :=
  if reg =? 8 then if v7m_using_psp m then m <| other_sp := v |> else m <| sp := v |>
  else if reg =? 9 then if v7m_using_psp m then m <| sp := v |> else m <| other_sp := v |>
  else if reg =? 16 then m <| primask ::= bset false v |>
  else if reg =? 17 then m <| basepri ::= bset false v |>
  else m <| faultmask ::= bset false v |>.

Lemma msr_plain {M} (e : CPUARMState M) maskreg reg mask val :
  v7m_core (env_nvic e) → arm_current_el (env_v7m e) = 1 →
  extract32 maskreg 0 8 = reg → plain_mask reg = Some mask →
  v7m_msr maskreg val e = Written (upd_v7m (plain_update reg (Z.land val mask)) e).
Proof.
  intros [H8 H81 Hs Hm Hmn Hns] Hel Hreg Hr. unfold v7m_msr. cbv zeta. rewrite Hreg, Hel.
  change (FEATURE_M_SECURITY (env_model e)) with (FEATURE_M_SECURITY (model_of (env_nvic e))). rewrite Hs.
  change (secure_state (v7m_of (env_nvic e))) with (secure_state (env_v7m e)) in Hns.
  cbn [Z.eqb andb]. unfold msr_common. cbv zeta.
  change (FEATURE_M_MAIN (env_model e)) with (FEATURE_M_MAIN (model_of (env_nvic e))).
  rewrite Hns, Hmn.
  destruct (plain_cases reg mask Hr) as [[[->| ->] ->]|[[[->| ->] ->]|[-> ->]]]; done.
Qed.

Lemma plain_update_fields reg v m : 
  let m' := plain_update reg v m in
  secure_state m' = secure_state m ∧ control m' = control m ∧ exception m' = exception m ∧
  v7m_using_psp m' = v7m_using_psp m.
Proof. cbv zeta. unfold plain_update. repeat case_if; done. Qed.

Lemma plain_update_core {M} (e : CPUARMState M) reg v :
  v7m_core (env_nvic e) → v7m_core (env_nvic (upd_v7m (plain_update reg v) e)).
Proof.
  destruct (plain_update_fields reg v (env_v7m e)) as (F1 & _).
  intros [H1 H2 H3 H4 H5 H6]. split; try done. etrans; [exact F1|exact H6].
Qed.

(** Reading a plain register after writing one. *)
Lemma plain_read_back {M} (e : CPUARMState M) reg mask reg' mask' v :
  v7m_core (env_nvic e) → arm_current_el (env_v7m e) = 1 →
  plain_mask reg = Some mask → plain_mask reg' = Some mask' →
  v7m_mrs (upd_v7m (plain_update reg v) e) reg' = if reg' =? reg then v else v7m_mrs e reg'.
Proof.
  intros Hc Hel Hr Hr'. set (e' := upd_v7m (plain_update reg v) e).
  destruct (plain_update_fields reg v (env_v7m e)) as (F1 & F2 & F3 & F4).
  change (plain_update reg v (env_v7m e)) with (env_v7m e') in F1, F2, F3, F4.
  assert (arm_current_el (env_v7m e') = 1) as Hel'.
  { rewrite <- Hel. unfold arm_current_el, arm_v7m_is_handler_mode. by rewrite F1, F2, F3. }
  rewrite (mrs_plain e' reg' mask' (plain_update_core e reg v Hc) Hel' Hr'), (mrs_plain e reg' mask' Hc Hel Hr').
  rewrite !bank_sp_eq, F1, F4. pose proof (core_ns _ Hc) as Hns.
  change (v7m_of (env_nvic e)) with (env_v7m e) in Hns. rewrite Hns.
  change (env_v7m e') with (plain_update reg v (env_v7m e)). unfold plain_update.
  destruct (plain_cases reg mask Hr) as [[[E|E] _]|[[[E|E] _]|[E _]]]; rewrite E in *;
    destruct (plain_cases reg' mask' Hr') as [[[E'|E'] _]|[[[E'|E'] _]|[E' _]]]; rewrite E' in *;
    cbn [Z.eqb Pos.eqb eqb]; try reflexivity; destruct (v7m_using_psp (env_v7m e)); reflexivity.
Qed.

(** A write of unprivileged code. *)
Lemma msr_user {M} (e : CPUARMState M) maskreg val :
  v7m_core (env_nvic e) → arm_current_el (env_v7m e) = 0 →
  ∃ e', v7m_msr maskreg val e = Written e' ∧ env_nvic e' = env_nvic e ∧ outside_v7m e e'.
Proof.
  intros Hc Hel. unfold v7m_msr. cbv zeta. rewrite Hel. cbn [Z.eqb].
  pose proof (extract32_range maskreg 0 8 ltac:(lia) ltac:(lia)) as Hreg.
  set (reg := extract32 maskreg 0 8) in *. rewrite andb_true_l.
  destruct ((7 <? reg) && negb (reg =? 20)) eqn:Hb; cbn [andb]; [exists e; by split_and!|].
  change (FEATURE_M_SECURITY (env_model e)) with (FEATURE_M_SECURITY (model_of (env_nvic e))).
  rewrite (core_sec _ Hc). eexists. split; [reflexivity|]. unfold msr_common. cbv zeta.
  destruct (Z.leb_spec 0 reg); [|lia]. destruct (Z.leb_spec reg 7); cbn [andb]; [apply msr_xpsr_nvic|].
  destruct (Z.ltb_spec 7 reg); [|lia]. destruct (Z.eqb_spec reg 20) as [E|]; [|done].
  rewrite E. cbn [Z.eqb Pos.eqb]. split; [apply set_v7m_id, (msr_control_user e Hc)|by split_and!].
Qed.

(** C26.  The special registers.  On a v7M core, a privileged MSR to MSP, PSP,
    PRIMASK, BASEPRI or FAULTMASK makes MRS of that register return the written
    value with the bits the register has, and MRS of each of the others return
    what it did before; the general registers, the flags and the memory do not
    change.  Unprivileged code reads all but the flags and CONTROL as zero, and
    whatever it writes, the interrupt controller, the masks, the stack pointers,
    CONTROL, the general and floating-point registers, the Thumb and IT state
    and the memory stay the same. *)
Theorem special_registers {M} (e : CPUARMState M) maskreg val :
  v7m_core (env_nvic e) →
  let reg := extract32 maskreg 0 8 in
  (arm_current_el (env_v7m e) = 1 → ∀ mask, plain_mask reg = Some mask →
     ∃ e', v7m_msr maskreg val e = Written e' ∧ v7m_mrs e' reg = Z.land val mask ∧
       outside_v7m e e' ∧
       ∀ reg' mask', plain_mask reg' = Some mask' → reg' ≠ reg → v7m_mrs e' reg' = v7m_mrs e reg') ∧
  (arm_current_el (env_v7m e) = 0 →
     (∃ e', v7m_msr maskreg val e = Written e' ∧ env_nvic e' = env_nvic e ∧ outside_v7m e e') ∧
     (7 < reg → reg ≠ 20 → v7m_mrs e reg = 0)).
Proof.
  intros Hc reg. split.
  - intros Hel mask Hr. rewrite (msr_plain e maskreg reg mask val Hc Hel eq_refl Hr).
    eexists. split; [reflexivity|]. rewrite (plain_read_back e reg mask reg mask), Z.eqb_refl by done.
    split_and!; try done. intros reg' mask' Hr' Hne.
    rewrite (plain_read_back e reg mask reg' mask') by done. by destruct (Z.eqb_spec reg' reg).
  - intros Hel. split; [by apply msr_user|]. intros H7 H20. unfold v7m_mrs. cbv zeta. rewrite Hel.
    destruct (Z.leb_spec reg 7); [lia|]. rewrite andb_false_r. destruct (Z.eqb_spec reg 20); [done|].
    pose proof (core_ns _ Hc) as Hns. change (v7m_of (env_nvic e)) with (env_v7m e) in Hns.
    rewrite Hns. by case_if.
Qed.

(** ** A CPU on concrete inputs *)

(** The board's CPU after reset, at some code address. *)
Definition cpu_example : CPUARMState () :=
  mk_env nvic0 (replicate 15 0 ++ [0x400100]) 0 1 0 0 0 0 true 0
    (mk_Vfp (replicate 32 0) 0 0 [0; 0; 0; 0] 0) 0 ().

Lemma nvic0_core : v7m_core nvic0.
Proof. split; reflexivity. Qed.

Lemma special_registers_witness :
  ∃ e', v7m_msr 0x810 0xfff cpu_example = Written e' ∧ v7m_mrs e' 16 = 1.
Proof.
  destruct (special_registers cpu_example 0x810 0xfff nvic0_core) as [H _].
  destruct (H eq_refl 1 eq_refl) as (e' & H1 & H2 & _). exists e'. split; [exact H1|exact H2].
Defined.
