(* ===== verification/PendSpec.v ===== *)
(** Pending an exception from the CPU: on a v7M core a synchronous exception
    can be taken at once or the CPU locks up, and pending a derived exception
    during entry never makes the controller less urgent. *)

From S2P Require Import Prelude Irq NvicState NvicCore NvicPrio NvicInv NvicSpec NvicIrq CpuRegsSpec.

(** ** Setting a pending bit *)

(** What pending leaves alone: the CPU but for the fault status. *)
Record pend_kept (s s' : NVICState) : Prop := {
  pk_model : model_of s' = model_of s;
  pk_mpu : mpu (cpu s') = mpu (cpu s);
  pk_num_irq : num_irq s' = num_irq s;
  pk_v7m : ∃ h, v7m_of s' = (v7m_of s) <| hfsr := h |>;
  pk_vec : ∀ i, enabled (vec s' i) = enabled (vec s i) ∧ prio (vec s' i) = prio (vec s i) ∧
                active (vec s' i) = active (vec s i)
}.

Lemma pend_kept_refl s : pend_kept s s.
Proof. split; try done. exists (hfsr (v7m_of s)). by destruct (v7m_of s). Qed.

Section pend.
Context (L : bool) (s : NVICState) (Hi : nvic_inv L s) (i : Z) (Hb : 0 ≤ i < alen (vectors s)).

Lemma pended_get b j : get_vec (pend_vec false i s) b j =
  if eqb false b && (i =? j) then (get_vec s b j) <| pending := true |> else get_vec s b j.
Proof.
  rewrite (pend_vec_get false) by done. destruct b; [done|]. cbn [eqb andb].
  by destruct (Z.eqb_spec i j) as [<-|].
Qed.

Lemma pend_vec_rest : cpu (pend_vec false i s) = cpu s ∧ num_irq (pend_vec false i s) = num_irq s ∧
  prigroup (pend_vec false i s) = prigroup s ∧ itns (pend_vec false i s) = itns s.
Proof.
  unfold pend_vec. destruct (negb _); [|done].
  match goal with |- context [nvic_irq_update ?x] => destruct (update_rest x) as (-> & -> & -> & -> & _) end.
  done.
Qed.

Lemma pend_vec_group e : group_prio (pend_vec false i s) e = group_prio s e.
Proof.
  destruct pend_vec_rest as (H1 & _ & H3 & H4).
  apply group_prio_ext; unfold model_of, v7m_of; rewrite ?H1; try done.
  unfold entry_vec. rewrite pended_get. by case_if.
Qed.

Lemma pend_vec_exists e : exists_entry (pend_vec false i s) e ↔ exists_entry s e.
Proof. destruct pend_vec_rest as (H1 & H2 & _). unfold exists_entry, model_of. by rewrite H1, H2. Qed.

Lemma pend_vec_active e : active (entry_vec (pend_vec false i s) e) = active (entry_vec s e).
Proof. unfold entry_vec. rewrite pended_get. by case_if. Qed.

Lemma pend_vec_ready e : ready s e = true → ready (pend_vec false i s) e = true.
Proof.
  unfold ready, entry_vec. rewrite pended_get. case_if; [|done]. cbn. intros [-> _]%andb_true_iff. done.
Qed.

Lemma pended_kept : pend_kept s (pend_vec false i s).
Proof.
  destruct pend_vec_rest as (H1 & H2 & _). split; unfold model_of, v7m_of; rewrite ?H1; try done.
  - exists (hfsr (v7m (cpu s))). by destruct (v7m (cpu s)).
  - intros j. change (vec ?x j) with (get_vec x false j). rewrite pended_get. by case_if.
Qed.

(** The lowest active priority does not change. *)
Lemma pend_vec_exception_prio : exception_prio (pend_vec false i s) = exception_prio s.
Proof.
  destruct (inv_cache L s Hi) as [_ [Hlow Hin]].
  destruct (inv_cache L _ (pend_vec_inv L false i s Hi)) as [_ [Hlow' Hin']].
  pose proof (exception_prio_le L s Hi). pose proof (exception_prio_le L _ (pend_vec_inv L false i s Hi)).
  assert (exception_prio (pend_vec false i s) ≤ exception_prio s).
  { destruct Hin as [->|(e & _ & Hex & Ha & ->)]; [done|]. rewrite <- pend_vec_group.
    apply Hlow'; [done|by apply pend_vec_exists|by rewrite pend_vec_active]. }
  assert (exception_prio s ≤ exception_prio (pend_vec false i s)); [|lia].
  destruct Hin' as [->|(e & _ & Hex & Ha & ->)]; [done|]. rewrite pend_vec_group.
  apply Hlow; [done|by apply pend_vec_exists|by rewrite <- pend_vec_active].
Qed.

Lemma pend_vec_exec_prio : nvic_exec_prio (pend_vec false i s) = nvic_exec_prio s.
Proof.
  destruct pend_vec_rest as (H1 & _ & H3 & _).
  unfold nvic_exec_prio, exc_group_prio, nvic_gprio_mask, aircr_has, v7m_of.
  by rewrite H1, H3, pend_vec_exception_prio.
Qed.

(** Whatever is ready afterwards bounds the pending priority. *)
Lemma pend_vec_bound e : exists_entry s e → ready (pend_vec false i s) e = true →
  vectpending_prio (pend_vec false i s) ≤ group_prio s e.
Proof.
  intros Hex Hr. destruct (inv_cache L _ (pend_vec_inv L false i s Hi)) as [[(_ & _ & Hno)|(_ & _ & _ & Hp & Hall)] _].
  - rewrite (Hno e) in Hr; [done|done|by apply pend_vec_exists].
  - rewrite Hp. specialize (Hall e I (proj2 (pend_vec_exists e) Hex) Hr). unfold precedes in Hall.
    rewrite !pend_vec_group in Hall. rewrite pend_vec_group. lia.
Qed.

Lemma pend_vec_urgent : vectpending_prio (pend_vec false i s) ≤ vectpending_prio s.
Proof.
  destruct (inv_cache L s Hi) as [[(_ & -> & _)|(_ & Hex & Hr & -> & _)] _].
  - destruct (inv_cache L _ (pend_vec_inv L false i s Hi)) as [[(_ & -> & _)|(_ & _ & _ & -> & _)] _]; [done|].
    rewrite pend_vec_group. pose proof (group_prio_range s (vectpending (pend_vec false i s),
      vectpending_is_s_banked (pend_vec false i s)) (proj1 (proj1 Hi))). unfold NVIC_NOEXC_PRIO. lia.
  - apply pend_vec_bound; [done|by apply pend_vec_ready].
Qed.

Lemma pend_vec_can_take : armv7m_nvic_can_take_pending_exception s = true →
  armv7m_nvic_can_take_pending_exception (pend_vec false i s) = true.
Proof.
  unfold armv7m_nvic_can_take_pending_exception, nvic_pending_prio. rewrite pend_vec_exec_prio.
  rewrite !Z.gtb_ltb, !Z.ltb_lt. pose proof pend_vec_urgent. lia.
Qed.

(** Pending an enabled exception above the execution priority. *)
Lemma pend_vec_takeable : 1 ≤ i < num_irq s → enabled (vec s i) = true →
  group_prio s (i, false) < nvic_exec_prio s →
  armv7m_nvic_can_take_pending_exception (pend_vec false i s) = true.
Proof.
  intros Hr He Hlt. unfold armv7m_nvic_can_take_pending_exception, nvic_pending_prio. rewrite pend_vec_exec_prio.
  rewrite Z.gtb_ltb, Z.ltb_lt. eapply Z.le_lt_trans; [apply pend_vec_bound|exact Hlt].
  - split; [done|by intros].
  - unfold ready, entry_vec. cbn [fst snd]. rewrite pended_get. cbn [eqb andb]. rewrite Z.eqb_refl. cbn. by rewrite He.
Qed.
End pend.

(** ** HardFault *)

(** HardFault is enabled at priority -1: what reset sets up without the
    Security extension, and no register changes. *)
Definition hard_ok (s : NVICState) : Prop :=
  enabled (vec s ARMV7M_EXCP_HARD) = true ∧ prio (vec s ARMV7M_EXCP_HARD) = -1.

(** An operation that gives a state with [P], or finds that the CPU locks up
    ([cpu_abort]); no assertion of the emulator fails. *)
Definition or_lockup {A} (P : A → Prop) (m : outcome A) : Prop :=
  match m with Ok a => P a | Abort r => r = CpuAbort end.

Lemma or_lockup_bind {A B} (P : A → Prop) (Q : B → Prop) (m : outcome A) (k : A → outcome B) :
  or_lockup P m → (∀ a, P a → or_lockup Q (k a)) → or_lockup Q (m ≫= k).
Proof. destruct m; simpl; auto. Qed.

Lemma or_lockup_impl {A} (P Q : A → Prop) (m : outcome A) :
  or_lockup P m → (∀ a, P a → Q a) → or_lockup Q m.
Proof. destruct m; simpl; auto. Qed.

Lemma kept_hard s s' : pend_kept s s' → hard_ok s → hard_ok s'.
Proof. intros Hk [H1 H2]. unfold hard_ok. by destruct (pk_vec _ _ Hk ARMV7M_EXCP_HARD) as (-> & -> & _). Qed.

Lemma kept_core s s' : pend_kept s s' → v7m_core s → v7m_core s'.
Proof.
  intros Hk []. destruct (pk_v7m _ _ Hk) as [h Hh]. split; rewrite ?(pk_model _ _ Hk); try done. by rewrite Hh.
Qed.

Lemma pend_kept_trans s1 s2 s3 : pend_kept s1 s2 → pend_kept s2 s3 → pend_kept s1 s3.
Proof.
  intros [A1 A2 A3 [h A4] A5] [B1 B2 B3 [h' B4] B5]. split; try congruence.
  - exists h'. by rewrite B4, A4.
  - intros i. destruct (A5 i) as (? & ? & ?), (B5 i) as (? & ? & ?). split_and!; congruence.
Qed.

Lemma forced_fault_kept s : pend_kept s (forced_fault s).
Proof. split; try done. by eexists. Qed.

Lemma forced_fault_exec s : nvic_exec_prio (forced_fault s) = nvic_exec_prio s.
Proof. done. Qed.

Section core.
Context (L : bool) (s : NVICState) (Hi : nvic_inv L s) (Hc : v7m_core s) (Hh : hard_ok s).

Lemma internal_bound irq : 0 ≤ irq ≤ NVIC_FIRST_IRQ - 1 → irq < num_irq s ∧ 0 ≤ irq < alen (vectors s).
Proof.
  intros Hr. destruct Hi as [[Hw _] _]. pose proof (nwf_num_irq s Hw). rewrite (nwf_vectors s Hw).
  unfold NVIC_FIRST_IRQ, NVIC_INTERNAL_VECTORS, NVIC_MAX_VECTORS in *. lia.
Qed.

Lemma core_group irq : group_prio s (irq, false) = exc_group_prio s (prio (vec s irq)) false.
Proof.
  unfold group_prio, entry_vec, targets_secure, targets_secure_of. cbn [fst snd get_vec].
  rewrite (core_sec s Hc). cbn [negb]. by rewrite andb_false_r.
Qed.

Lemma core_escalation ts : escalation_bank s ts = false.
Proof. unfold escalation_bank. by rewrite (core_sec s Hc). Qed.

(** After the checks for derived exceptions. *)
Lemma escalate_sync irq ts : ARMV7M_EXCP_HARD ≤ irq < ARMV7M_EXCP_PENDSV →
  or_lockup (fun s' => nvic_inv L s' ∧ pend_kept s s' ∧
      armv7m_nvic_can_take_pending_exception s' = true ∧
      (irq = ARMV7M_EXCP_HARD → vectpending_prio s' ≤ -1))
    (set_pending_escalate irq false false ts s).
Proof.
  intros Hr. unfold set_pending_escalate, ARMV7M_EXCP_HARD, ARMV7M_EXCP_PENDSV in *.
  destruct (Z.leb_spec 3 irq); [|lia]. destruct (Z.ltb_spec irq 14); [|lia]. cbn [andb]. cbv zeta.
  rewrite core_escalation. cbn [get_vec].
  destruct (internal_bound irq) as [Hn Hb]; [unfold NVIC_FIRST_IRQ, NVIC_INTERNAL_VECTORS; lia|].
  destruct (internal_bound 3) as [Hn3 Hb3]; [unfold NVIC_FIRST_IRQ, NVIC_INTERNAL_VECTORS; lia|].
  destruct Hh as [He Hp]. unfold ARMV7M_EXCP_HARD in He, Hp.
  assert (∀ s1, group_prio s1 (3, false) = -1 ∨ prio (vec s1 3) ≠ -1) as Hg.
  { intros s1. destruct (Z.eq_dec (prio (vec s1 3)) (-1)) as [E|]; [left|by right].
    unfold group_prio, entry_vec. cbn [fst snd get_vec]. rewrite E. by apply exc_group_prio_neg. }
  destruct ((nvic_exec_prio s <=? exc_group_prio s (prio (vec s irq)) false) || negb (enabled (vec s irq))) eqn:E.
  - rewrite Hp. destruct (Z.leb_spec (nvic_exec_prio s) (-1)); [done|]. cbn [or_lockup mret outcome_ret].
    set (s1 := forced_fault s).
    assert (nvic_inv L s1) as Hi1 by (eapply frame_inv; [apply forced_fault_frame|done]).
    assert (group_prio s1 (3, false) = -1) as Hg1 by (destruct (Hg s1); done).
    assert (ready (pend_vec false 3 s1) (3, false) = true) as Hrd.
    { unfold ready, entry_vec. cbn [fst snd]. rewrite (pended_get s1 3 Hb3).
      transitivity (enabled (vec s 3) && true); [reflexivity|by rewrite He]. }
    split_and!; [by apply pend_vec_inv| | |intros _].
    + eapply pend_kept_trans; [apply forced_fault_kept|by apply pended_kept].
    + apply (pend_vec_takeable L); [done|done|by split|done|]. rewrite Hg1. unfold s1. rewrite forced_fault_exec. lia.
    + rewrite <- Hg1. apply (pend_vec_bound L); [done|done| |done]. by split.
  - apply orb_false_iff in E as [Hlt Hen]. apply negb_false_iff in Hen. apply Z.leb_gt in Hlt.
    cbn [or_lockup mret outcome_ret].
    split_and!; [by apply pend_vec_inv|by apply pended_kept| |].
    + apply (pend_vec_takeable L); [done|done|lia|done|]. by rewrite core_group.
    + intros ->. destruct (Hg s) as [<-|]; [|done]. apply (pend_vec_bound L); [done|done|by split; [|by intros]|].
      unfold ready, entry_vec. cbn [fst snd]. rewrite (pended_get s 3 Hb3).
      transitivity (enabled (vec s 3) && true); [reflexivity|by rewrite He].
Qed.

Lemma set_pending_start irq derived : ARMV7M_EXCP_HARD ≤ irq < ARMV7M_EXCP_PENDSV →
  ∃ ts, do_armv7m_nvic_set_pending irq false derived s =
    if derived then
      if (irq =? ARMV7M_EXCP_DEBUG) && (nvic_exec_prio s <=? exc_group_prio s (prio (vec s irq)) false)
      then Ok s
      else if (irq =? ARMV7M_EXCP_HARD) && (vectpending_prio s <=? prio (vec s irq)) then Abort CpuAbort
      else set_pending_escalate irq false false ts s
    else set_pending_escalate irq false false ts s.
Proof.
  intros Hr. destruct (internal_bound irq) as [Hn _];
    [unfold NVIC_FIRST_IRQ, NVIC_INTERNAL_VECTORS, ARMV7M_EXCP_HARD, ARMV7M_EXCP_PENDSV in *; lia|].
  exists false. unfold do_armv7m_nvic_set_pending, ARMV7M_EXCP_HARD, ARMV7M_EXCP_PENDSV, ARMV7M_EXCP_RESET in *.
  destruct (Z.ltb_spec 1 irq); [|lia]. destruct (Z.ltb_spec irq (num_irq s)); [|lia].
  assert ((if exc_is_banked irq then mret false else exc_targets_secure s irq) = Ok false) as ->.
  { unfold exc_targets_secure, targets_secure_of. rewrite (core_sec s Hc). by destruct (exc_is_banked irq). }
  destruct (Z.leb_spec 3 irq); [|lia]. destruct (Z.ltb_spec irq 14); [|lia].
  by destruct (exc_is_banked irq), derived.
Qed.

(** A synchronous exception. *)
Lemma sync_pend irq : ARMV7M_EXCP_HARD ≤ irq < ARMV7M_EXCP_PENDSV →
  or_lockup (fun s' => nvic_inv L s' ∧ pend_kept s s' ∧
      armv7m_nvic_can_take_pending_exception s' = true)
    (armv7m_nvic_set_pending irq false s).
Proof.
  intros Hr. destruct (set_pending_start irq false Hr) as [ts Hs]. unfold armv7m_nvic_set_pending. rewrite Hs.
  eapply or_lockup_impl; [by apply escalate_sync|]. by intros s' (? & ? & ? & _).
Qed.

(** A derived exception, while another one can be taken. *)
Lemma derived_pend irq : ARMV7M_EXCP_HARD ≤ irq < ARMV7M_EXCP_PENDSV →
  armv7m_nvic_can_take_pending_exception s = true →
  or_lockup (fun s' => nvic_inv L s' ∧ pend_kept s s' ∧
      armv7m_nvic_can_take_pending_exception s' = true ∧
      (irq = ARMV7M_EXCP_HARD → vectpending_prio s' ≤ -1))
    (armv7m_nvic_set_pending_derived irq false s).
Proof.
  intros Hr Ht. destruct (set_pending_start irq true Hr) as [ts Hs]. unfold armv7m_nvic_set_pending_derived. rewrite Hs.
  cbv iota. destruct (_ && _) eqn:E1.
  - split_and!; [done|apply pend_kept_refl|done|]. intros ->. done.
  - destruct (_ && (vectpending_prio s <=? _)); [done|]. by apply escalate_sync.
Qed.

(** A second HardFault from a failed vector fetch. *)
Lemma derived_hard_again : vectpending_prio s ≤ -1 →
  armv7m_nvic_set_pending_derived ARMV7M_EXCP_HARD false s = Abort CpuAbort.
Proof.
  intros Hv. destruct (set_pending_start ARMV7M_EXCP_HARD true) as [ts Hs]; [done|].
  unfold armv7m_nvic_set_pending_derived. rewrite Hs, (proj2 Hh). cbn [Z.eqb andb].
  by destruct (Z.leb_spec (vectpending_prio s) (-1)); [|lia].
Qed.
End core.
