(* ===== verification/Exception.v ===== *)
(** Exception entry of an M-profile CPU: stacking, the vector fetch, taking the
    pending exception, and lazy floating-point stacking, from
    qemu/target/arm/tcg/m_helper.c.  Memory is reached through the class
    [AddressSpace]. *)

From S2P Require Import Prelude Irq NvicState NvicCore NvicRead Mpu CpuRegs.

(** ** Fields *)

Definition CCR_STKOFHFNMIGN := mk_field 10 1.
Definition CFSR_IACCVIOL := mk_field 0 1.
Definition CFSR_DACCVIOL := mk_field 1 1.
Definition CFSR_MUNSTKERR := mk_field 3 1.
Definition CFSR_MSTKERR := mk_field 4 1.
Definition CFSR_MLSPERR := mk_field 5 1.
Definition CFSR_MMARVALID := mk_field 7 1.
Definition CFSR_IBUSERR := mk_field (8 + 0) 1.
Definition CFSR_PRECISERR := mk_field (8 + 1) 1.
Definition CFSR_UNSTKERR := mk_field (8 + 3) 1.
Definition CFSR_STKERR := mk_field (8 + 4) 1.
Definition CFSR_LSPERR := mk_field (8 + 5) 1.
Definition CFSR_BFARVALID := mk_field (8 + 7) 1.
Definition CFSR_UNDEFINSTR := mk_field (16 + 0) 1.
Definition CFSR_INVSTATE := mk_field (16 + 1) 1.
Definition CFSR_INVPC := mk_field (16 + 2) 1.
Definition CFSR_NOCP := mk_field (16 + 3) 1.
Definition CFSR_STKOF := mk_field (16 + 4) 1.
Definition CFSR_UNALIGNED := mk_field (16 + 8) 1.
Definition CFSR_DIVBYZERO := mk_field (16 + 9) 1.
Definition HFSR_VECTTBL := mk_field 1 1.
Definition SFSR_INVEP := mk_field 0 1.
Definition SFSR_INVIS := mk_field 1 1.
Definition SFSR_INVER := mk_field 2 1.
Definition SFSR_AUVIOL := mk_field 3 1.
Definition SFSR_INVTRAN := mk_field 4 1.
Definition SFSR_LSPERR := mk_field 5 1.
Definition SFSR_SFARVALID := mk_field 6 1.
Definition SFSR_LSERR := mk_field 7 1.
Definition FPCCR_S := mk_field 2 1.
Definition FPCCR_TS := mk_field 26 1.
Definition EXCRET_ES := mk_field 0 1.
Definition EXCRET_RES0 := mk_field 1 1.
Definition EXCRET_SPSEL := mk_field 2 1.
Definition EXCRET_MODE := mk_field 3 1.
Definition EXCRET_FTYPE := mk_field 4 1.
Definition EXCRET_DCRS := mk_field 5 1.
Definition EXCRET_S := mk_field 6 1.
Definition EXCRET_RES1 := mk_field 7 25.
Definition EXC_RETURN_MIN_MAGIC : Z := 0xff000000.
Definition FNC_RETURN_MIN_MAGIC : Z := 0xfefffffe.

(** ** Memory *)

(** The address spaces of a CPU: an access with its attributes acts on the
    interrupt controller (whose registers are in memory) and on the rest of the
    system, and succeeds or gets a bus error.  The emulator's own accesses are
    the [address_space] functions; those of the guest's instructions go through
    the TLB: [tlb_load n a] and [tlb_store n a v] are an access to [n] bytes
    (1, 2 or 4) at an aligned physical address whose page the TLB has, in host
    memory or by a dispatch to a device. *)
Class AddressSpace (M : Type) := {
  address_space_ldl : Z → MemTxAttrs → NVICState * M → outcome (NVICState * M * option Z);
  address_space_lduw_le : Z → MemTxAttrs → NVICState * M → outcome (NVICState * M * option Z);
  address_space_stl_le : Z → Z → MemTxAttrs → NVICState * M → outcome (NVICState * M * bool);
  tlb_load : Z → Z → MemTxAttrs → NVICState * M → outcome (NVICState * M * option Z);
  tlb_store : Z → Z → Z → MemTxAttrs → NVICState * M → outcome (NVICState * M * bool)
}.

Section env.
Context {M : Type}.

Definition on_nvic (f : NVICState → outcome NVICState) (e : CPUARMState M) : outcome (CPUARMState M) :=
  s ← f (env_nvic e); mret (e <| env_nvic := s |>).

(** [env->v7m.cfsr[secure] |= mask] and its like. *)
Definition or_cfsr (secure' : bool) (f : field) : CPUARMState M → CPUARMState M :=
  upd_v7m (fun m => m <| cfsr ::= fun c => bset secure' (Z.lor (bget c secure') (field_mask f)) c |>).
Definition or_sfsr (f : field) : CPUARMState M → CPUARMState M :=
  upd_v7m (fun m => m <| sfsr ::= fun x => Z.lor x (field_mask f) |>).
Definition or_hfsr (f : field) : CPUARMState M → CPUARMState M :=
  upd_v7m (fun m => m <| hfsr ::= fun x => Z.lor x (field_mask f) |>).

(** ** The translation regime of an access *)

Definition arm_v7m_mmu_idx_all (secstate priv negpri : bool) : Z :=
  let idx := ARM_MMU_IDX_M in
  let idx := if priv then Z.lor idx ARM_MMU_IDX_M_PRIV else idx in
  let idx := if negpri then Z.lor idx ARM_MMU_IDX_M_NEGPRI else idx in
  if secstate then Z.lor idx ARM_MMU_IDX_M_S else idx.

Definition arm_v7m_mmu_idx_for_secstate_and_priv (s : NVICState) (secstate priv : bool) : outcome Z :=
  negpri ← armv7m_nvic_neg_prio_requested s secstate;
  mret (arm_v7m_mmu_idx_all secstate priv negpri).

Definition arm_v7m_mmu_idx_for_secstate (s : NVICState) (secstate : bool) : outcome Z :=
  let m := v7m_of s in
  let priv := arm_v7m_is_handler_mode m || negb (has (bget (control m) secstate) 1) in
  arm_v7m_mmu_idx_for_secstate_and_priv s secstate priv.

(** [arm_mmu_idx(env)] on M-profile. *)
Definition arm_mmu_idx (e : CPUARMState M) : outcome Z :=
  arm_v7m_mmu_idx_for_secstate (env_nvic e) (secure_state (env_v7m e)).
End env.

(** ** Stack accesses *)

Inductive StackingMode := STACK_NORMAL | STACK_IGNFAULTS | STACK_LAZYFP.

Section stack.
Context {M : Type} `{AddressSpace M}.
Implicit Types e : CPUARMState M.

Definition env_ldl (addr : Z) (attrs : MemTxAttrs) (e : CPUARMState M)
  : outcome (CPUARMState M * option Z) :=
  r ← address_space_ldl addr attrs (env_nvic e, mem e);
  let '(s, m, v) := r in mret (e <| env_nvic := s |> <| mem := m |>, v).

Definition env_lduw (addr : Z) (attrs : MemTxAttrs) (e : CPUARMState M)
  : outcome (CPUARMState M * option Z) :=
  r ← address_space_lduw_le addr attrs (env_nvic e, mem e);
  let '(s, m, v) := r in mret (e <| env_nvic := s |> <| mem := m |>, v).

Definition env_stl (addr value : Z) (attrs : MemTxAttrs) (e : CPUARMState M)
  : outcome (CPUARMState M * bool) :=
  r ← address_space_stl_le addr value attrs (env_nvic e, mem e);
  let '(s, m, ok) := r in mret (e <| env_nvic := s |> <| mem := m |>, ok).

(** The [switch] after the label [pend_fault]. *)
Definition pend_stack_fault (mode : StackingMode) (exc : Z) (exc_secure : bool) (e : CPUARMState M)
  : outcome (CPUARMState M) :=
  match mode with
  | STACK_NORMAL => on_nvic (armv7m_nvic_set_pending_derived exc exc_secure) e
  | STACK_LAZYFP => on_nvic (armv7m_nvic_set_pending_lazyfp exc exc_secure) e
  | STACK_IGNFAULTS => mret e
  end.

Definition is_lazyfp (mode : StackingMode) : bool :=
  match mode with STACK_LAZYFP => true | _ => false end.

Definition v7m_stack_write (addr value mmu_idx : Z) (mode : StackingMode) (e : CPUARMState M)
  : outcome (CPUARMState M * bool) :=
  let secure' := has mmu_idx ARM_MMU_IDX_M_S in
  let pend_fault exc exc_secure e :=
    e ← pend_stack_fault mode exc exc_secure e; mret (e, false) in
  r ← get_phys_addr (env_nvic e) addr MMU_DATA_STORE mmu_idx;
  let '(fault, res, fi) := r in
  if (fault : bool) then
    if decide (fi = ARMFault_QEMU_SFault) then
      let e := or_sfsr (if is_lazyfp mode then SFSR_LSPERR else SFSR_AUVIOL) e in
      let e := or_sfsr SFSR_SFARVALID e in
      pend_fault ARMV7M_EXCP_SECURE false (upd_v7m (fun m => m <| sfar := addr |>) e)
    else
      pend_fault ARMV7M_EXCP_MEM secure'
        (or_cfsr secure' (if is_lazyfp mode then CFSR_MLSPERR else CFSR_MSTKERR) e)
  else
    r ← env_stl (phys_addr res) value (res_attrs res) e;
    let '(e, ok) := r in
    if (ok : bool) then mret (e, true)
    else pend_fault ARMV7M_EXCP_BUS false
           (or_cfsr false (if is_lazyfp mode then CFSR_LSPERR else CFSR_STKERR) e).

(** The value read, [None] after a fault. *)
Definition v7m_stack_read (addr mmu_idx : Z) (e : CPUARMState M)
  : outcome (CPUARMState M * option Z) :=
  let secure' := has mmu_idx ARM_MMU_IDX_M_S in
  let pend_fault exc exc_secure e :=
    e ← on_nvic (armv7m_nvic_set_pending exc exc_secure) e; mret (e, None) in
  r ← get_phys_addr (env_nvic e) addr MMU_DATA_LOAD mmu_idx;
  let '(fault, res, fi) := r in
  if (fault : bool) then
    if decide (fi = ARMFault_QEMU_SFault) then
      let e := or_sfsr SFSR_SFARVALID (or_sfsr SFSR_AUVIOL e) in
      pend_fault ARMV7M_EXCP_SECURE false (upd_v7m (fun m => m <| sfar := addr |>) e)
    else pend_fault ARMV7M_EXCP_MEM secure' (or_cfsr secure' CFSR_MUNSTKERR e)
  else
    r ← env_ldl (phys_addr res) (res_attrs res) e;
    let '(e, v) := r in
    match v with
    | Some value => mret (e, Some value)
    | None => pend_fault ARMV7M_EXCP_BUS false (or_cfsr false CFSR_UNSTKERR e)
    end.

(** [ok = ok && v7m_stack_write(...) && v7m_stack_write(...) ...] for a list of
    addresses with their values. *)
Fixpoint v7m_stack_writes (ok : bool) (l : list (Z * Z)) (mmu_idx : Z) (mode : StackingMode)
  (e : CPUARMState M) : outcome (CPUARMState M * bool) :=
  match l with
  | [] => mret (e, ok)
  | (addr, value) :: l =>
    if ok then
      r ← v7m_stack_write addr value mmu_idx mode e;
      v7m_stack_writes r.2 l mmu_idx mode r.1
    else mret (e, false)
  end.

(** [ok = ok && v7m_stack_read(&env->regs[r], addr) && ...]. *)
Fixpoint v7m_stack_reads (ok : bool) (l : list (Z * Z)) (mmu_idx : Z) (e : CPUARMState M)
  : outcome (CPUARMState M * bool) :=
  match l with
  | [] => mret (e, ok)
  | (r, addr) :: l =>
    if ok then
      x ← v7m_stack_read addr mmu_idx e;
      let '(e, v) := x in
      match v with
      | Some value => v7m_stack_reads true l mmu_idx (set_reg r value e)
      | None => mret (e, false)
      end
    else mret (e, false)
  end.
End stack.

(** ** Floating-point context *)

Section fp.
Context {M : Type} `{AddressSpace M}.
Implicit Types e : CPUARMState M.

(** The words of d0 to d7 (or d15), with the slot of FPSCR and VPR skipped. *)
Definition fp_words (e : CPUARMState M) (base count : Z) : list (Z * Z) :=
  flat_map (fun n =>
    let i := 2 * n in
    let dn := get_dreg e n in
    let faddr := u32 (base + 4 * i) in
    let faddr := if 16 <=? i then u32 (faddr + 8) else faddr in
    [(faddr, u32 dn); (u32 (faddr + 4), u32 (Z.shiftr dn 32))]) (seqZ 0 (count / 2)).

(** FPSCR, and VPR where there is one. *)
Definition fp_status_words (e : CPUARMState M) (base : Z) : list (Z * Z) :=
  (u32 (base + 0x40), vfp_get_fpscr e) ::
  (if aa32_mve (env_model e) then [(u32 (base + 0x44), vpr (env_v7m e))] else []).

(** [for (i = 0; i < count; i += 2) dreg[i / 2] = 0], FPSCR and VPR. *)
Definition clear_fp (count : Z) (e : CPUARMState M) : CPUARMState M :=
  let e := for_range 0 (count / 2) (fun n e => set_dreg n 0 e) e in
  let e := vfp_set_fpscr 0 e in
  if aa32_mve (env_model e) then upd_v7m (fun m => m <| vpr := 0 |>) e else e.

(** One field of [fpccr[bank]]. *)
Definition dp_fpccr (bank : bool) (f : field) (b : bool) (m : V7M) : V7M :=
  m <| fpccr ::= fun c => bset bank (FIELD_DP32 (bget c bank) f (of_bool b)) c |>.

Definition v7m_update_fpccr (frameptr : Z) (apply_splim : bool) (e : CPUARMState M)
  : outcome (CPUARMState M) :=
  let is_secure := secure_state (env_v7m e) in
  let e := upd_v7m (fun m => m <| fpcar ::= bset is_secure (Z.land frameptr (not32 0x7)) |>) e in
  e ← (if apply_splim && FEATURE_V8 (env_model e) then
         let splim := v7m_sp_limit (env_v7m e) in
         neg ← armv7m_nvic_neg_prio_requested (env_nvic e) is_secure;
         let ign := neg && has (bget (ccr (env_v7m e)) is_secure) (field_mask CCR_STKOFHFNMIGN) in
         mret (upd_v7m (dp_fpccr is_secure FPCCR_SPLIMVIOL (negb ign && (frameptr <? splim))) e)
       else mret e);
  let e := upd_v7m (dp_fpccr is_secure FPCCR_LSPACT true) e in
  let e := upd_v7m (dp_fpccr true FPCCR_S is_secure) e in
  let e := upd_v7m (dp_fpccr is_secure FPCCR_USER (arm_current_el (env_v7m e) =? 0)) e in
  let e := upd_v7m (dp_fpccr is_secure FPCCR_THREAD (negb (arm_v7m_is_handler_mode (env_v7m e)))) e in
  hfrdy ← armv7m_nvic_get_ready_status (env_nvic e) ARMV7M_EXCP_HARD false;
  let e := upd_v7m (dp_fpccr true FPCCR_HFRDY hfrdy) e in
  bfrdy ← armv7m_nvic_get_ready_status (env_nvic e) ARMV7M_EXCP_BUS false;
  let e := upd_v7m (dp_fpccr true FPCCR_BFRDY bfrdy) e in
  mmrdy ← armv7m_nvic_get_ready_status (env_nvic e) ARMV7M_EXCP_MEM is_secure;
  let e := upd_v7m (dp_fpccr is_secure FPCCR_MMRDY mmrdy) e in
  ns_ufrdy ← armv7m_nvic_get_ready_status (env_nvic e) ARMV7M_EXCP_USAGE false;
  let e := upd_v7m (dp_fpccr false FPCCR_UFRDY ns_ufrdy) e in
  monrdy ← armv7m_nvic_get_ready_status (env_nvic e) ARMV7M_EXCP_DEBUG false;
  let e := upd_v7m (dp_fpccr true FPCCR_MONRDY monrdy) e in
  if FEATURE_M_SECURITY (env_model e) then
    s_ufrdy ← armv7m_nvic_get_ready_status (env_nvic e) ARMV7M_EXCP_USAGE true;
    let e := upd_v7m (dp_fpccr true FPCCR_UFRDY s_ufrdy) e in
    sfrdy ← armv7m_nvic_get_ready_status (env_nvic e) ARMV7M_EXCP_SECURE false;
    mret (upd_v7m (dp_fpccr true FPCCR_SFRDY sfrdy) e)
  else mret e.

(** [HELPER(v7m_preserve_fp_state)]: [true] when it raises [EXCP_LAZYFP]. *)
Definition v7m_preserve_fp_state (e : CPUARMState M) : outcome (CPUARMState M * bool) :=
  let m := env_v7m e in
  let fpccr_s := sec (fpccr m) in
  let is_secure := has fpccr_s (field_mask FPCCR_S) in
  let negpri := negb (has fpccr_s (field_mask FPCCR_HFRDY)) in
  let is_priv := negb (has (bget (fpccr m) is_secure) (field_mask FPCCR_USER)) in
  let splimviol := has (bget (fpccr m) is_secure) (field_mask FPCCR_SPLIMVIOL) in
  let fpcar' := bget (fpcar m) is_secure in
  let ts := is_secure && has fpccr_s (field_mask FPCCR_TS) in
  r ← (if negb (v7m_cpacr_pass m is_secure is_priv) then
         e ← on_nvic (armv7m_nvic_set_pending_lazyfp ARMV7M_EXCP_USAGE is_secure) e;
         mret (or_cfsr is_secure CFSR_NOCP e, false)
       else if negb is_secure && negb (truth (extract32 (nsacr m) 10 1)) then
         e ← on_nvic (armv7m_nvic_set_pending_lazyfp ARMV7M_EXCP_USAGE true) e;
         mret (or_cfsr true CFSR_NOCP e, false)
       else mret (e, true));
  let '(e, stacked_ok) := r in
  r ← (if negb splimviol && stacked_ok then
         let mmu_idx := arm_v7m_mmu_idx_all is_secure is_priv negpri in
         v7m_stack_writes true
           (fp_words e fpcar' (if ts then 32 else 16) ++ fp_status_words e fpcar')
           mmu_idx STACK_LAZYFP e
       else mret (e, stacked_ok));
  let '(e, stacked_ok) := r in
  if negb stacked_ok && armv7m_nvic_can_take_pending_exception (env_nvic e) then mret (e, true)
  else
    let e := upd_v7m (fun m => m <| fpccr ::= fun c =>
               bset is_secure (Z.land (bget c is_secure) (not32 (field_mask FPCCR_LSPACT))) c |>) e in
    mret (if ts then clear_fp 32 e else e, false).
End fp.

(** ** Exception entry *)

Section entry.
Context {M : Type} `{AddressSpace M}.
Implicit Types e : CPUARMState M.

(** The basic frame: r0 to r3, r12, lr, pc and xPSR. *)
Definition basic_frame (e : CPUARMState M) (frameptr xpsr : Z) : list (Z * Z) :=
  [(frameptr, get_reg e 0); (u32 (frameptr + 4), get_reg e 1); (u32 (frameptr + 8), get_reg e 2);
   (u32 (frameptr + 12), get_reg e 3); (u32 (frameptr + 16), get_reg e 12);
   (u32 (frameptr + 20), get_reg e 14); (u32 (frameptr + 24), get_reg e 15);
   (u32 (frameptr + 28), xpsr)].

(** Saving the floating-point registers: the part of [v7m_push_stack] for an
    active floating-point context. *)
Definition push_fp (frameptr framesize mmu_idx : Z) (nsacr_cp10 stacked_ok : bool)
  (e : CPUARMState M) : outcome (CPUARMState M * bool) :=
  let m := env_v7m e in
  let fpccr_s := has (sec (fpccr m)) (field_mask FPCCR_S) in
  let lspact := has (bget (fpccr m) fpccr_s) (field_mask FPCCR_LSPACT) in
  if lspact && FEATURE_M_SECURITY (env_model e) then
    e ← on_nvic (armv7m_nvic_set_pending ARMV7M_EXCP_SECURE false) (or_sfsr SFSR_LSERR e);
    mret (e, stacked_ok)
  else if negb (secure_state m) && negb nsacr_cp10 then
    e ← on_nvic (armv7m_nvic_set_pending ARMV7M_EXCP_USAGE true) e;
    mret (or_cfsr true CFSR_NOCP e, stacked_ok)
  else if negb (has (sec (fpccr m)) (field_mask FPCCR_LSPEN)) then
    let cpacr_pass := v7m_cpacr_pass m (secure_state m) (negb (arm_current_el m =? 0)) in
    r ← (if stacked_ok && negb cpacr_pass then
           e ← on_nvic (armv7m_nvic_set_pending ARMV7M_EXCP_USAGE (secure_state m)) e;
           mret (or_cfsr (secure_state m) CFSR_NOCP e, false)
         else mret (e, stacked_ok));
    let '(e, stacked_ok) := r in
    let count := if framesize =? 0xa8 then 32 else 16 in
    let base := u32 (frameptr + 0x20) in
    r ← v7m_stack_writes stacked_ok (fp_words e base count ++ fp_status_words e base)
          mmu_idx STACK_NORMAL e;
    mret (if cpacr_pass then clear_fp count r.1 else r.1, r.2)
  else
    e ← v7m_update_fpccr (u32 (frameptr + 0x20)) true e;
    mret (e, stacked_ok).

(** [true] for a derived exception. *)
Definition v7m_push_stack (e : CPUARMState M) : outcome (CPUARMState M * bool) :=
  let m := env_v7m e in
  let xpsr := xpsr_read e in
  let frameptr := sp m in
  mmu_idx ← arm_mmu_idx e;
  let nsacr_cp10 := truth (extract32 (nsacr m) 10 1) in
  let fpca := has (sec (control m)) (field_mask CONTROL_FPCA) in
  let framesize :=
    if fpca && (secure_state m || nsacr_cp10) then
      if secure_state m && has (sec (fpccr m)) (field_mask FPCCR_TS) then 0xa8 else 0x68
    else 0x20 in
  let realign := has frameptr 4 && has (bget (ccr m) (secure_state m)) (field_mask CCR_STKALIGN) in
  let frameptr := if realign then u32 (frameptr - 4) else frameptr in
  let xpsr := if realign then Z.lor xpsr XPSR_SPREALIGN else xpsr in
  let xpsr := Z.land xpsr (not32 XPSR_SFPA) in
  let xpsr := if secure_state m && has (sec (control m)) (field_mask CONTROL_SFPA)
              then Z.lor xpsr XPSR_SFPA else xpsr in
  let frameptr := u32 (frameptr - framesize) in
  let limit := v7m_sp_limit m in
  let limitviol := FEATURE_V8 (env_model e) && (frameptr <? limit) in
  e ← (if limitviol then
         e ← on_nvic (armv7m_nvic_set_pending ARMV7M_EXCP_USAGE (secure_state m))
               (or_cfsr (secure_state m) CFSR_STKOF e);
         mret (set_reg 13 limit e)
       else mret e);
  r ← v7m_stack_writes (negb limitviol) (basic_frame e frameptr xpsr) mmu_idx STACK_NORMAL e;
  let '(e, stacked_ok) := r in
  r ← (if fpca then push_fp frameptr framesize mmu_idx nsacr_cp10 stacked_ok e
       else mret (e, stacked_ok));
  let '(e, stacked_ok) := r in
  let e := if negb limitviol then set_reg 13 frameptr e else e in
  mret (e, negb stacked_ok).

Definition load_fail (exc_secure : bool) (e : CPUARMState M) : outcome (CPUARMState M * option Z) :=
  let exc_secure := if negb (aircr_has (env_nvic e) AIRCR_BFHFNMINS) then true else exc_secure in
  let e := or_hfsr HFSR_VECTTBL e in
  let e := if negb (FEATURE_V8_1M (env_model e)) then or_hfsr HFSR_FORCED e else e in
  e ← on_nvic (armv7m_nvic_set_pending_derived ARMV7M_EXCP_HARD exc_secure) e;
  mret (e, None).

(** The vector, [None] after a fault. *)
Definition arm_v7m_load_vector (exc : Z) (targets_secure' : bool) (e : CPUARMState M)
  : outcome (CPUARMState M * option Z) :=
  let addr := u32 (bget (vecbase (env_v7m e)) targets_secure' + exc * 4) in
  arm_v7m_mmu_idx_for_secstate_and_priv (env_nvic e) targets_secure' true;;
  let security := FEATURE_M_SECURITY (env_model e) in
  let sattrs := v8m_security_lookup (env_nvic e) addr MMU_DATA_LOAD targets_secure' in
  if security && negb (sa_ns sattrs) && negb targets_secure' then load_fail true e
  else
    let attrs := mk_attrs (if security && sa_ns sattrs then false else targets_secure') false in
    r ← env_ldl addr attrs e;
    let '(e, v) := r in
    match v with
    | Some vector_entry => mret (e, Some vector_entry)
    | None => load_fail (negb (aircr_has (env_nvic e) AIRCR_BFHFNMINS)) e
    end.

Definition v7m_integrity_sig (e : CPUARMState M) (lr : Z) : Z :=
  let sig := 0xfefa125a in
  if negb (aa32_vfp_simd (env_model e)) || has lr (field_mask EXCRET_FTYPE)
  then Z.lor sig 1 else sig.

Definition v7m_push_callee_stack (lr : Z) (dotailchain ignore_faults : bool) (e : CPUARMState M)
  : outcome (CPUARMState M * bool) :=
  let m := env_v7m e in
  let smode := if ignore_faults then STACK_IGNFAULTS else STACK_NORMAL in
  r ← (if dotailchain then
         let mode := has lr (field_mask EXCRET_MODE) in
         let priv := negb (has (sec (control m)) (field_mask CONTROL_NPRIV)) || negb mode in
         mmu_idx ← arm_v7m_mmu_idx_for_secstate_and_priv (env_nvic e) true priv;
         let spsel := has lr (field_mask EXCRET_SPSEL) in
         let limit := if mode && spsel then sec (psplim m) else sec (msplim m) in
         mret (mmu_idx, arm_v7m_get_sp_ptr m true mode spsel, limit)
       else
         mmu_idx ← arm_mmu_idx e;
         mret (mmu_idx, PtrSp, v7m_sp_limit m));
  let '(mmu_idx, frame_sp_p, limit) := r in
  let frameptr := u32 (load_sp m frame_sp_p - 0x28) in
  if frameptr <? limit then
    e ← on_nvic (armv7m_nvic_set_pending ARMV7M_EXCP_USAGE (secure_state m))
          (or_cfsr (secure_state m) CFSR_STKOF e);
    mret (upd_v7m (store_sp frame_sp_p limit) e, true)
  else
    r ← v7m_stack_writes true
          [(frameptr, v7m_integrity_sig e lr); (u32 (frameptr + 0x8), get_reg e 4);
           (u32 (frameptr + 0xc), get_reg e 5); (u32 (frameptr + 0x10), get_reg e 6);
           (u32 (frameptr + 0x14), get_reg e 7); (u32 (frameptr + 0x18), get_reg e 8);
           (u32 (frameptr + 0x1c), get_reg e 9); (u32 (frameptr + 0x20), get_reg e 10);
           (u32 (frameptr + 0x24), get_reg e 11)] mmu_idx smode e;
    let '(e, stacked_ok) := r in
    mret (upd_v7m (store_sp frame_sp_p frameptr) e, negb stacked_ok).
End entry.

(** ** Taking the pending exception *)

Section taken.
Context {M : Type} `{AddressSpace M}.
Implicit Types e : CPUARMState M.

(** The v8M part of [v7m_exception_taken]: LR, whether pushing the callee-saved
    registers failed, and the cleared registers. *)
Definition taken_v8 (lr : Z) (targets_secure' dotailchain ignore_stackfaults : bool)
  (e : CPUARMState M) : outcome (CPUARMState M * Z * bool) :=
  let no_es lr := negb (has lr (field_mask EXCRET_ES)) in
  r ← (if FEATURE_M_SECURITY (env_model e) && has lr (field_mask EXCRET_S) then
         if targets_secure' then
           mret (e, if dotailchain && no_es lr then Z.land lr (not32 (field_mask EXCRET_DCRS)) else lr,
                 false)
         else
           p ← (if has lr (field_mask EXCRET_DCRS) && negb (dotailchain && no_es lr)
                then v7m_push_callee_stack lr dotailchain ignore_stackfaults e
                else mret (e, false));
           mret (p.1, Z.lor lr (field_mask EXCRET_DCRS), p.2)
       else mret (e, lr, false));
  let '(e, lr, push_failed) := r in
  let lr := Z.land lr (not32 (field_mask EXCRET_ES)) in
  let lr := if targets_secure' then Z.lor lr (field_mask EXCRET_ES) else lr in
  let lr := Z.land lr (not32 (field_mask EXCRET_SPSEL)) in
  let lr := if has (bget (control (env_v7m e)) targets_secure') (field_mask CONTROL_SPSEL)
            then Z.lor lr (field_mask EXCRET_SPSEL) else lr in
  if FEATURE_M_SECURITY (env_model e) && (negb targets_secure' || FEATURE_V8_1M (env_model e)) then
    let zero_callee_saves := negb targets_secure' && has lr (field_mask EXCRET_S) in
    let e := for_range 0 13 (fun i e =>
               if (i <? 4) || (11 <? i) || zero_callee_saves then set_reg i 0 e else e) e in
    mret (xpsr_write 0 (Z.lor (Z.lor XPSR_NZCV XPSR_Q) (Z.lor XPSR_GE XPSR_IT)) e, lr, push_failed)
  else mret (e, lr, push_failed).

(** The last part: activate the exception and enter its handler. *)
Definition enter_handler (lr addr : Z) (targets_secure' : bool) (e : CPUARMState M)
  : outcome (CPUARMState M) :=
  e ← on_nvic armv7m_nvic_acknowledge_irq e;
  let e := upd_v7m (switch_v7m_security_state targets_secure') e in
  let e := upd_v7m (write_v7m_control_spsel false) e in
  let e := arm_clear_exclusive e in
  let e := upd_v7m (fun m => m <| control ::= fun c => bset true
             (Z.land (sec c) (not32 (Z.lor (field_mask CONTROL_FPCA) (field_mask CONTROL_SFPA)))) c |>) e in
  let e := e <| condexec_bits := 0 |> in
  let e := set_reg 14 lr e in
  let e := set_reg 15 (Z.land addr 0xfffffffe) e in
  let e := e <| thumb := has addr 1 |> in
  mret (arm_rebuild_hflags e).

(** The function calls itself after a derived exception; at most twice, as
    [exception_taken_fuel] shows. *)
Fixpoint v7m_exception_taken (fuel : nat) (lr : Z) (dotailchain ignore_stackfaults : bool)
  (e : CPUARMState M) : outcome (CPUARMState M) :=
  match fuel with
  | O => Abort OutOfFuel
  | S fuel =>
    r ← armv7m_nvic_get_pending_irq_info (env_nvic e);
    let '(exc, targets_secure') := r in
    let lr := if dotailchain then
                let lr := if negb (aa32_vfp_simd (env_model e))
                          then Z.lor lr (field_mask EXCRET_FTYPE) else lr in
                deposit32 lr 24 8 0xff
              else lr in
    r ← (if FEATURE_V8 (env_model e)
         then taken_v8 lr targets_secure' dotailchain ignore_stackfaults e
         else mret (e, lr, false));
    let '(e, lr, push_failed) := r in
    if push_failed && negb ignore_stackfaults then v7m_exception_taken fuel lr true true e
    else
      r ← arm_v7m_load_vector exc targets_secure' e;
      let '(e, v) := r in
      match v with
      | None => v7m_exception_taken fuel lr true true e
      | Some addr => enter_handler lr addr targets_secure' e
      end
  end.

(** The fuel the callers give. *)
Definition taken_fuel : nat := 4.
End taken.
