(* ===== verification/CpuLdst.v ===== *)
(** Word loads and stores of the CPU: qemu/accel/tcg/cputlb.c, from the lookup
    of the pages of an access ([mmu_lookup]; the alignment check and the lookup
    of an address are [arm_cpu_tlb_fill_align]) to the pieces in which it is
    made.  The TLB is not kept: every access looks its pages up. *)

From S2P Require Import Prelude Irq NvicState NvicCore NvicRead Mpu CpuRegs Exception.

(** Why an access raised a data abort. *)
Inductive abort_kind := AbortUnaligned | AbortMpu (fi : ARMFaultType) | AbortExternal.

(** A call returns, or leaves by raising a data abort at an address. *)
Inductive cpu_result (M A : Type) :=
| Returned (e : CPUARMState M) (a : A)
| Raised (e : CPUARMState M) (addr : Z) (k : abort_kind).
Arguments Returned {M A}.
Arguments Raised {M A}.

Section ldst.
Context {M : Type} `{AddressSpace M}.
Implicit Types e : CPUARMState M.

Definition env_tlb_load (size addr : Z) (attrs : MemTxAttrs) (e : CPUARMState M)
  : outcome (CPUARMState M * option Z) :=
  r ← tlb_load size addr attrs (env_nvic e, mem e);
  let '(s, m, v) := r in mret (e <| env_nvic := s |> <| mem := m |>, v).

Definition env_tlb_store (size addr value : Z) (attrs : MemTxAttrs) (e : CPUARMState M)
  : outcome (CPUARMState M * bool) :=
  r ← tlb_store size addr value attrs (env_nvic e, mem e);
  let '(s, m, ok) := r in mret (e <| env_nvic := s |> <| mem := m |>, ok).

(** ** The pages of an access *)

Record page_data := mk_page { pg_addr : Z; pg_size : Z; pg_phys : Z; pg_attrs : MemTxAttrs }.

(** The page at [addr], for [size] bytes of the access; or why there is none. *)
Definition mmu_lookup1 (addr size : Z) (access_type : MMUAccessType) (mmu_idx : Z) (e : CPUARMState M)
  : outcome (page_data + Z * abort_kind) :=
  r ← get_phys_addr (env_nvic e) addr access_type mmu_idx;
  let '(fault, res, fi) := r in
  mret (if (fault : bool) then inr (addr, AbortMpu fi)
        else inl (mk_page addr size (phys_addr res) (res_attrs res))).

(** A word at [addr], which [align] (MO_ALIGN) requires to be aligned: one page,
    or two when it crosses a boundary. *)
Definition mmu_lookup (align : bool) (addr : Z) (access_type : MMUAccessType) (mmu_idx : Z)
    (e : CPUARMState M) : outcome (list page_data + Z * abort_kind) :=
  if align && truth (Z.land addr 3) then mret (inr (addr, AbortUnaligned))
  else
    let page1 := (addr + 3) / TARGET_PAGE_SIZE * TARGET_PAGE_SIZE in
    if addr / TARGET_PAGE_SIZE =? page1 / TARGET_PAGE_SIZE then
      r ← mmu_lookup1 addr 4 access_type mmu_idx e;
      mret match r with inl p => inl [p] | inr f => inr f end
    else
      let size0 := page1 - addr in
      r ← mmu_lookup1 addr size0 access_type mmu_idx e;
      match r with
      | inr f => mret (inr f)
      | inl p =>
        r ← mmu_lookup1 (u32 page1) (4 - size0) access_type mmu_idx e;
        mret match r with inl q => inl [p; q] | inr f => inr f end
      end.

(** ** The pieces of an access *)

(** [1 << ctz32(size | addr | 8)]: the largest aligned piece. *)
Definition piece_size (size addr : Z) : Z :=
  let x := Z.lor (Z.lor size addr) 8 in
  if Z.testbit x 0 then 1 else if Z.testbit x 1 then 2 else if Z.testbit x 2 then 4 else 8.

(** The bytes of [size] from [addr] on, added to [v] at byte [pos] and up; host
    memory gives the same bytes in pieces as at once. *)
Fixpoint ld_pieces (fuel : nat) (pos v addr phys size : Z) (attrs : MemTxAttrs) (e : CPUARMState M)
  : outcome (cpu_result M Z) :=
  match fuel with
  | O => Abort OutOfFuel
  | S fuel =>
    let n := piece_size size addr in
    r ← env_tlb_load n phys attrs e;
    match r with
    | (e, None) => mret (Raised e addr AbortExternal)
    | (e, Some x) =>
      let v := v + 2 ^ (8 * pos) * x in
      if size =? n then mret (Returned e v)
      else ld_pieces fuel (pos + n) v (addr + n) (phys + n) (size - n) attrs e
    end
  end.

(** What is left of [val] once [size] bytes of it are stored. *)
Fixpoint st_pieces (fuel : nat) (val addr phys size : Z) (attrs : MemTxAttrs) (e : CPUARMState M)
  : outcome (cpu_result M Z) :=
  match fuel with
  | O => Abort OutOfFuel
  | S fuel =>
    let n := piece_size size addr in
    r ← env_tlb_store n phys val attrs e;
    match r with
    | (e, false) => mret (Raised e addr AbortExternal)
    | (e, true) =>
      let val := Z.shiftr val (8 * n) in
      if size =? n then mret (Returned e val)
      else st_pieces fuel val (addr + n) (phys + n) (size - n) attrs e
    end
  end.

(** At most four pieces to a page. *)
Definition pieces_fuel : nat := 4.

Fixpoint ld_pages (pages : list page_data) (pos v : Z) (e : CPUARMState M) : outcome (cpu_result M Z) :=
  match pages with
  | [] => mret (Returned e v)
  | p :: pages =>
    r ← ld_pieces pieces_fuel pos v (pg_addr p) (pg_phys p) (pg_size p) (pg_attrs p) e;
    match r with
    | Raised e a k => mret (Raised e a k)
    | Returned e v => ld_pages pages (pos + pg_size p) v e
    end
  end.

Fixpoint st_pages (pages : list page_data) (val : Z) (e : CPUARMState M) : outcome (cpu_result M ()) :=
  match pages with
  | [] => mret (Returned e tt)
  | p :: pages =>
    r ← st_pieces pieces_fuel val (pg_addr p) (pg_phys p) (pg_size p) (pg_attrs p) e;
    match r with
    | Raised e a k => mret (Raised e a k)
    | Returned e val => st_pages pages val e
    end
  end.

Definition do_ld4_mmu (align : bool) (addr mmu_idx : Z) (e : CPUARMState M) : outcome (cpu_result M Z) :=
  r ← mmu_lookup align addr MMU_DATA_LOAD mmu_idx e;
  match r with inr (a, k) => mret (Raised e a k) | inl pages => ld_pages pages 0 0 e end.

Definition do_st4_mmu (align : bool) (addr val mmu_idx : Z) (e : CPUARMState M) : outcome (cpu_result M ()) :=
  r ← mmu_lookup align addr MMU_DATA_STORE mmu_idx e;
  match r with inr (a, k) => mret (Raised e a k) | inl pages => st_pages pages val e end.

(** The accesses of the helpers, which give MO_ALIGN. *)
Definition cpu_ldl_mmu (addr mmu_idx : Z) (e : CPUARMState M) : outcome (cpu_result M Z) :=
  do_ld4_mmu true addr mmu_idx e.
Definition cpu_stl_mmu (addr val mmu_idx : Z) (e : CPUARMState M) : outcome (cpu_result M ()) :=
  do_st4_mmu true addr val mmu_idx e.

(** ** Word instructions *)

(** CCR.UNALIGN_TRP of the current state, which [rebuild_hflags_m32] copies to
    the flag [finalize_memop_atom] looks at. *)
Definition align_mem (m : V7M) : bool := has (bget (ccr m) (secure_state m)) (field_mask CCR_UNALIGN_TRP).

(** LDR and STR of a word: the access in the regime the CPU is in. *)
Definition cpu_ldl (addr : Z) (e : CPUARMState M) : outcome (cpu_result M Z) :=
  idx ← arm_mmu_idx e; do_ld4_mmu (align_mem (env_v7m e)) addr idx e.
Definition cpu_stl (addr val : Z) (e : CPUARMState M) : outcome (cpu_result M ()) :=
  idx ← arm_mmu_idx e; do_st4_mmu (align_mem (env_v7m e)) addr val idx e.

(** ** Aligned words *)

Lemma aligned_mod a : Z.land a 3 = 0 → a mod 4 = 0.
Proof. change 3 with (Z.ones 2). by rewrite Z.land_ones by lia. Qed.

Lemma piece_aligned a : a mod 4 = 0 → piece_size 4 a = 4.
Proof.
  intros Ha. assert (∀ i, 0 ≤ i < 2 → Z.testbit a i = false) as Hb.
  { intros i Hi. rewrite <- (Z.mod_pow2_bits_low a 2 i) by lia. change (2 ^ 2) with 4. rewrite Ha. apply Z.bits_0. }
  unfold piece_size. rewrite !Z.lor_spec, (Hb 0), (Hb 1) by lia. done.
Qed.

Lemma page_aligned a : a mod 4 = 0 →
  (a / TARGET_PAGE_SIZE =? (a + 3) / TARGET_PAGE_SIZE * TARGET_PAGE_SIZE / TARGET_PAGE_SIZE) = true.
Proof.
  intros Ha. unfold TARGET_PAGE_SIZE, TARGET_PAGE_BITS. rewrite Z.div_mul by done.
  apply Z.eqb_eq. change (2 ^ 10) with 1024. euclid.
Qed.

Lemma lookup_aligned align a t idx e : Z.land a 3 = 0 →
  mmu_lookup align a t idx e =
    (r ← mmu_lookup1 a 4 t idx e; mret match r with inl p => inl [p] | inr f => inr f end).
Proof.
  intros Ha. unfold mmu_lookup. rewrite Ha, andb_false_r. cbv zeta. by rewrite page_aligned by by apply aligned_mod.
Qed.

Lemma ld4_aligned align a idx e r fi : Z.land a 3 = 0 →
  get_phys_addr (env_nvic e) a MMU_DATA_LOAD idx = Ok (false, r, fi) →
  do_ld4_mmu align a idx e =
    (x ← env_tlb_load 4 (phys_addr r) (res_attrs r) e;
     mret match x with (e, Some v) => Returned e v | (e, None) => Raised e a AbortExternal end).
Proof.
  intros Ha Hg. unfold do_ld4_mmu. rewrite lookup_aligned by done. unfold mmu_lookup1. rewrite Hg, !bind_Ok.
  cbn [ld_pages pg_addr pg_phys pg_size pg_attrs ld_pieces pieces_fuel]. rewrite piece_aligned by by apply aligned_mod.
  destruct (env_tlb_load 4 (phys_addr r) (res_attrs r) e) as [[e' [v|]]|]; [|done..].
  rewrite !bind_Ok. change (4 =? 4) with true. cbv iota. rewrite bind_Ok. change (2 ^ (8 * 0)) with 1.
  by rewrite Z.mul_1_l.
Qed.

Lemma st4_aligned align a v idx e r fi : Z.land a 3 = 0 →
  get_phys_addr (env_nvic e) a MMU_DATA_STORE idx = Ok (false, r, fi) →
  do_st4_mmu align a v idx e =
    (x ← env_tlb_store 4 (phys_addr r) v (res_attrs r) e;
     mret match x with (e, true) => Returned e tt | (e, false) => Raised e a AbortExternal end).
Proof.
  intros Ha Hg. unfold do_st4_mmu. rewrite lookup_aligned by done. unfold mmu_lookup1. rewrite Hg, !bind_Ok.
  cbn [st_pages pg_addr pg_phys pg_size pg_attrs st_pieces pieces_fuel]. rewrite piece_aligned by by apply aligned_mod.
  destruct (env_tlb_store 4 (phys_addr r) v (res_attrs r) e) as [[e' [|]]|]; [|done..].
  rewrite !bind_Ok. done.
Qed.
End ldst.
