(* ===== verification/ExceptionExit.v ===== *)
(** Exception return of an M-profile CPU, secure function return and the
    dispatch of CPU exceptions, from qemu/target/arm/tcg/m_helper.c and
    qemu/target/arm/tcg/cpu-v7m.c. *)

From S2P Require Import Prelude Irq NvicState NvicCore NvicRead Mpu CpuRegs Exception CpuLdst.

Section exit.
Context {M : Type} `{AddressSpace M}.
Implicit Types e : CPUARMState M.

(** [v7m_exception_taken(cpu, excret, true, false)]. *)
Definition tail_chain (excret : Z) (e : CPUARMState M) : outcome (CPUARMState M) :=
  v7m_exception_taken taken_fuel excret true false e.

(** The checks of the low bits of the return value. *)
Definition excret_bad (e : CPUARMState M) (excret : Z) (rettobase : bool) : bool :=
  if FEATURE_V8 (env_model e) then
    (negb (FEATURE_M_SECURITY (env_model e)) &&
     (has excret (field_mask EXCRET_S) || has excret (field_mask EXCRET_ES) ||
      negb (has excret (field_mask EXCRET_DCRS)))) ||
    has excret (field_mask EXCRET_RES0)
  else
    let low := Z.land excret 0xf in
    if low =? 1 then false
    else if (low =? 13) || (low =? 9) then
      negb rettobase &&
      negb (has (bget (ccr (env_v7m e)) (secure_state (env_v7m e))) (field_mask CCR_NONBASETHRDENA))
    else true.

(** Clearing the floating-point registers on return: [Some] when an exception
    is taken instead. *)
Definition clear_on_return (excret : Z) (exc_secure : bool) (e : CPUARMState M)
  : outcome (CPUARMState M * bool) :=
  let m := env_v7m e in
  if has (sec (fpccr m)) (field_mask FPCCR_CLRONRET) && has (sec (control m)) (field_mask CONTROL_FPCA) then
    if has (sec (fpccr m)) (field_mask FPCCR_LSPACT) then
      e ← on_nvic (armv7m_nvic_set_pending ARMV7M_EXCP_SECURE false) (or_sfsr SFSR_LSERR e);
      mret (e, true)
    else
      let nsacr_pass := exc_secure || truth (extract32 (nsacr m) 10 1) in
      let cpacr_pass := v7m_cpacr_pass m exc_secure true in
      if FEATURE_V8_1M (env_model e) && negb nsacr_pass then
        e ← on_nvic (armv7m_nvic_set_pending ARMV7M_EXCP_USAGE true) e;
        mret (or_cfsr true CFSR_NOCP e, true)
      else if FEATURE_V8_1M (env_model e) && negb cpacr_pass then
        e ← on_nvic (armv7m_nvic_set_pending ARMV7M_EXCP_USAGE exc_secure) e;
        mret (or_cfsr exc_secure CFSR_NOCP e, true)
      else mret (clear_fp 16 e, false)
  else mret (e, false).

(** The loop that pops the registers of the floating-point context: reading
    stops at the first failure. *)
Fixpoint pop_fp_loop (base mmu_idx : Z) (idxs : list Z) (e : CPUARMState M)
  : outcome (CPUARMState M * bool) :=
  match idxs with
  | [] => mret (e, true)
  | n :: idxs =>
    let i := 2 * n in
    let faddr := u32 (base + 4 * i) in
    let faddr := if 16 <=? i then u32 (faddr + 8) else faddr in
    x ← v7m_stack_read faddr mmu_idx e;
    match x with
    | (e, Some slo) =>
      x ← v7m_stack_read (u32 (faddr + 4)) mmu_idx e;
      match x with
      | (e, Some shi) => pop_fp_loop base mmu_idx idxs (set_dreg n (Z.lor (u64 (Z.shiftl shi 32)) slo) e)
      | (e, None) => mret (e, false)
      end
    | (e, None) => mret (e, false)
    end
  end.

(** The registers of the floating-point context, FPSCR and VPR. *)
Definition pop_fp (base count mmu_idx : Z) (e : CPUARMState M) : outcome (CPUARMState M * bool) :=
  r ← pop_fp_loop base mmu_idx (seqZ 0 (count / 2)) e;
  let '(e, pop_ok) := r in
  r ← (if (pop_ok : bool) then
         x ← v7m_stack_read (u32 (base + 0x40)) mmu_idx e;
         mret match x with
              | (e, Some fpscr) => (vfp_set_fpscr fpscr e, true)
              | (e, None) => (e, false)
              end
       else mret (e, false));
  let '(e, pop_ok) := r in
  r ← (if aa32_mve (env_model e) && pop_ok then
         x ← v7m_stack_read (u32 (base + 0x44)) mmu_idx e;
         mret match x with
              | (e, Some v) => (upd_v7m (fun m => m <| vpr := v |>) e, true)
              | (e, None) => (e, false)
              end
       else mret (e, pop_ok));
  let '(e, pop_ok) := r in
  mret (if (pop_ok : bool) then e else clear_fp count e, pop_ok).

(** Restoring the floating-point context: the state, whether an exception is
    taken instead, and whether s16 to s31 belong to the frame. *)
Definition restore_fp (frameptr mmu_idx : Z) (return_to_secure return_to_priv : bool)
  (e : CPUARMState M) : outcome (CPUARMState M * bool * bool) :=
  let m := env_v7m e in
  if negb return_to_secure && has (sec (fpccr m)) (field_mask FPCCR_LSPACT) then
    e ← on_nvic (armv7m_nvic_set_pending ARMV7M_EXCP_SECURE false) e;
    mret (or_sfsr SFSR_LSERR e, true, false)
  else
    let restore_s16_s31 := return_to_secure && has (sec (fpccr m)) (field_mask FPCCR_TS) in
    if has (bget (fpccr m) return_to_secure) (field_mask FPCCR_LSPACT) then
      mret (upd_v7m (fun m => m <| fpccr ::= fun c => bset return_to_secure
              (Z.land (bget c return_to_secure) (not32 (field_mask FPCCR_LSPACT))) c |>) e,
            false, restore_s16_s31)
    else
      let cpacr_pass := v7m_cpacr_pass m return_to_secure return_to_priv in
      let nsacr_pass := return_to_secure || truth (extract32 (nsacr m) 10 1) in
      if negb cpacr_pass then
        e ← on_nvic (armv7m_nvic_set_pending ARMV7M_EXCP_USAGE return_to_secure) e;
        mret (or_cfsr return_to_secure CFSR_NOCP e, true, restore_s16_s31)
      else if negb nsacr_pass then
        e ← on_nvic (armv7m_nvic_set_pending ARMV7M_EXCP_USAGE true) e;
        mret (or_cfsr true CFSR_INVPC e, true, restore_s16_s31)
      else
        r ← pop_fp (u32 (frameptr + 0x20)) (if restore_s16_s31 then 32 else 16) mmu_idx e;
        mret (r.1, false, restore_s16_s31).

(** What the first half of the return decides. *)
Record exit_info := mk_exit_info {
  excret' : Z; ftype : bool; sfault : bool; ufault : bool; exc_secure' : bool
}.

(** Reading the return value, clearing FAULTMASK and completing the
    exception. *)
Definition exit_complete (e : CPUARMState M) : outcome (CPUARMState M * exit_info) :=
  let m := env_v7m e in
  let excret := if thumb e then Z.lor (get_reg e 15) 1 else get_reg e 15 in
  let ftype := has excret (field_mask EXCRET_FTYPE) || negb (aa32_vfp_simd (env_model e)) in
  let security := FEATURE_M_SECURITY (env_model e) in
  let sfault := security && negb (secure_state m) &&
                (has excret (field_mask EXCRET_ES) || negb (has excret (field_mask EXCRET_DCRS))) in
  let excret := if sfault then Z.land excret (not32 (field_mask EXCRET_ES)) else excret in
  let exc_secure := security && has excret (field_mask EXCRET_ES) in
  let clear b := upd_v7m (fun m => m <| faultmask ::= bset b 0 |>) in
  let e := if negb (exception m =? ARMV7M_EXCP_NMI) then
             if security then
               if 0 <=? armv7m_nvic_raw_execution_priority (env_nvic e) then clear exc_secure e else e
             else clear false e
           else e in
  r ← armv7m_nvic_complete_irq (exception m) exc_secure (env_nvic e);
  let '(s, ret) := r in
  let e := e <| env_nvic := s |> in
  if negb ((ret =? -1) || (ret =? 0) || (ret =? 1)) then Abort NotReached
  else
    let rettobase := ret =? 1 in
    mret (e, mk_exit_info excret ftype sfault ((ret =? -1) || excret_bad e excret rettobase) exc_secure).

(** Popping the callee-saved registers of a Secure context: the state, whether
    all loads succeeded, and whether the integrity signature was wrong. *)
Definition pop_callee (excret frameptr mmu_idx : Z) (e : CPUARMState M)
  : outcome (CPUARMState M * bool * bool) :=
  x ← v7m_stack_read frameptr mmu_idx e;
  match x with
  | (e, None) => mret (e, false, false)
  | (e, Some actual_sig) =>
    if negb (v7m_integrity_sig e excret =? actual_sig) then
      e ← on_nvic (armv7m_nvic_set_pending ARMV7M_EXCP_SECURE false) (or_sfsr SFSR_INVIS e);
      mret (e, false, true)
    else
      r ← v7m_stack_reads true
            [(4, u32 (frameptr + 0x8)); (5, u32 (frameptr + 0xc)); (6, u32 (frameptr + 0x10));
             (7, u32 (frameptr + 0x14)); (8, u32 (frameptr + 0x18)); (9, u32 (frameptr + 0x1c));
             (10, u32 (frameptr + 0x20)); (11, u32 (frameptr + 0x24))] mmu_idx e;
      mret (r.1, r.2, false)
  end.

(** Popping the basic frame; the xPSR of the frame, [None] after a fault. *)
Definition pop_basic (pop_ok : bool) (frameptr mmu_idx : Z) (e : CPUARMState M)
  : outcome (CPUARMState M * option Z) :=
  r ← v7m_stack_reads pop_ok
        [(0, frameptr); (1, u32 (frameptr + 0x4)); (2, u32 (frameptr + 0x8)); (3, u32 (frameptr + 0xc));
         (12, u32 (frameptr + 0x10)); (14, u32 (frameptr + 0x14)); (15, u32 (frameptr + 0x18))] mmu_idx e;
  let '(e, pop_ok) := r in
  if (pop_ok : bool) then v7m_stack_read (u32 (frameptr + 0x1c)) mmu_idx e else mret (e, None).

(** A pc loaded with bit 0 set is used without it. *)
Definition even_pc (e : CPUARMState M) : CPUARMState M :=
  if has (get_reg e 15) 1 then set_reg 15 (Z.land (get_reg e 15) (not32 1)) e else e.

(** The end of the return: the new xPSR, and the check that the mode is the one
    the return value asked for. *)
Definition exit_finish (excret xpsr : Z) (return_to_handler : bool) (e : CPUARMState M)
  : outcome (CPUARMState M) :=
  let xpsr_mask := not32 (Z.lor XPSR_SPREALIGN XPSR_SFPA) in
  let xpsr_mask := if negb (FEATURE_THUMB_DSP (env_model e)) then Z.land xpsr_mask (not32 XPSR_GE)
                   else xpsr_mask in
  let e := xpsr_write xpsr xpsr_mask e in
  let e := if secure_state (env_v7m e)
           then upd_v7m (fun m => m <| control ::= fun c => bset true
                  (FIELD_DP32 (sec c) CONTROL_SFPA (of_bool (has xpsr XPSR_SFPA))) c |>) e
           else e in
  if negb (eqb return_to_handler (arm_v7m_is_handler_mode (env_v7m e))) then
    assert_c (negb (FEATURE_V8 (env_model e)));;
    e ← on_nvic (armv7m_nvic_set_pending ARMV7M_EXCP_USAGE false) e;
    let e := or_cfsr (secure_state (env_v7m e)) CFSR_INVPC e in
    r ← v7m_push_stack e;
    v7m_exception_taken taken_fuel excret false r.2 r.1
  else mret (arm_rebuild_hflags (arm_clear_exclusive e)).

(** The commit: the floating-point context, the stack pointer and the xPSR. *)
Definition exit_commit (excret xpsr frameptr mmu_idx : Z) (frame_sp_p : sp_ptr)
  (ftype return_to_secure return_to_priv return_to_handler : bool) (e : CPUARMState M)
  : outcome (CPUARMState M) :=
  r ← (if negb ftype then restore_fp frameptr mmu_idx return_to_secure return_to_priv e
       else mret (e, false, false));
  let '(e, taken, restore_s16_s31) := r in
  if (taken : bool) then tail_chain excret e
  else
    let e := upd_v7m (fun m => m <| control ::= fun c => bset true
               (FIELD_DP32 (sec c) CONTROL_FPCA (of_bool (negb ftype))) c |>) e in
    let frameptr := u32 (frameptr + 0x20) in
    let frameptr := if negb ftype then
                      let frameptr := u32 (frameptr + 0x48) in
                      if (restore_s16_s31 : bool) then u32 (frameptr + 0x40) else frameptr
                    else frameptr in
    let frameptr := if has xpsr XPSR_SPREALIGN then Z.lor frameptr 4 else frameptr in
    let e := upd_v7m (store_sp frame_sp_p frameptr) e in
    exit_finish excret xpsr return_to_handler e.

(** The second half of the return: unstacking, after the exception has been
    completed and no other is to be taken first. *)
Definition exit_unstack (excret : Z) (ftype return_to_handler return_to_secure : bool)
  (e : CPUARMState M) : outcome (CPUARMState M) :=
  let e := upd_v7m (switch_v7m_security_state return_to_secure) e in
  let m := env_v7m e in
  let spsel := has (bget (control m) return_to_secure) (field_mask CONTROL_SPSEL) in
  let frame_sp_p := arm_v7m_get_sp_ptr m return_to_secure (negb return_to_handler) spsel in
  let frameptr := load_sp m frame_sp_p in
  let return_to_priv := return_to_handler ||
    negb (has (bget (control m) return_to_secure) (field_mask CONTROL_NPRIV)) in
  mmu_idx ← arm_v7m_mmu_idx_for_secstate_and_priv (env_nvic e) return_to_secure return_to_priv;
  let callee := return_to_secure &&
    (negb (has excret (field_mask EXCRET_ES)) || negb (has excret (field_mask EXCRET_DCRS))) in
  r ← (if callee then pop_callee excret frameptr mmu_idx e else mret (e, true, false));
  let '(e, pop_ok, bad_sig) := r in
  if (bad_sig : bool) then tail_chain excret e
  else
    let frameptr := if callee then u32 (frameptr + 0x28) else frameptr in
    r ← pop_basic pop_ok frameptr mmu_idx e;
    match r with
    | (e, None) => tail_chain excret e
    | (e, Some xpsr) =>
      let e := even_pc e in
      let will_be_handler := truth (Z.land xpsr XPSR_EXCP) in
      if FEATURE_V8 (env_model e) && negb (eqb return_to_handler will_be_handler) then
        e ← on_nvic (armv7m_nvic_set_pending ARMV7M_EXCP_USAGE (secure_state (env_v7m e))) e;
        tail_chain excret (or_cfsr (secure_state (env_v7m e)) CFSR_INVPC e)
      else
        exit_commit excret xpsr frameptr mmu_idx frame_sp_p ftype return_to_secure return_to_priv
          return_to_handler e
    end.

Definition do_v7m_exception_exit (e : CPUARMState M) : outcome (CPUARMState M) :=
  if negb (arm_v7m_is_handler_mode (env_v7m e)) then mret e
  else
    r ← exit_complete e;
    let '(e, i) := r in
    let excret := excret' i in
    let return_to_handler := negb (has excret (field_mask EXCRET_MODE)) in
    let return_to_sp_process := has excret (field_mask EXCRET_SPSEL) in
    let return_to_secure := FEATURE_M_SECURITY (env_model e) && has excret (field_mask EXCRET_S) in
    let e := upd_v7m (write_v7m_control_spsel_for_secstate return_to_sp_process (exc_secure' i)) e in
    r ← clear_on_return excret (exc_secure' i) e;
    let '(e, taken) := r in
    if (taken : bool) then tail_chain excret e
    else if sfault i then
      e ← on_nvic (armv7m_nvic_set_pending ARMV7M_EXCP_SECURE false) (or_sfsr SFSR_INVER e);
      tail_chain excret e
    else if ufault i then
      let secure' := secure_state (env_v7m e) in
      e ← on_nvic (armv7m_nvic_set_pending ARMV7M_EXCP_USAGE secure') (or_cfsr secure' CFSR_INVPC e);
      tail_chain excret e
    else if armv7m_nvic_can_take_pending_exception (env_nvic e) then tail_chain excret e
    else exit_unstack excret (ftype i) return_to_handler return_to_secure e.
End exit.

(** ** Secure function return and the SG instruction (v8M) *)

Section secure.
Context {M : Type} `{AddressSpace M}.
Implicit Types e : CPUARMState M.

(** [false]: a UsageFault has been pended and is to be taken. *)
Definition do_v7m_function_return (e : CPUARMState M) : outcome (cpu_result M bool) :=
  let m := env_v7m e in
  let threadmode := negb (arm_v7m_is_handler_mode m) in
  let spsel := has (sec (control m)) (field_mask CONTROL_SPSEL) in
  let frame_sp_p := arm_v7m_get_sp_ptr m true threadmode spsel in
  let frameptr := load_sp m frame_sp_p in
  mmu_idx ← arm_v7m_mmu_idx_for_secstate (env_nvic e) true;
  r ← cpu_ldl_mmu frameptr mmu_idx e;
  match r with
  | Raised e a k => mret (Raised e a k)
  | Returned e newpc =>
    r ← cpu_ldl_mmu (u32 (frameptr + 4)) mmu_idx e;
    match r with
    | Raised e a k => mret (Raised e a k)
    | Returned e newpsr =>
      let m := env_v7m e in
      let newpsr_exc := Z.land newpsr XPSR_EXCP in
      if negb (((exception m =? 0) && (newpsr_exc =? 0)) ||
               ((exception m =? 1) && negb (newpsr_exc =? 0))) then
        e ← on_nvic (armv7m_nvic_set_pending ARMV7M_EXCP_USAGE (secure_state m))
              (or_cfsr (secure_state m) CFSR_INVPC e);
        mret (Returned e false)
      else
        let e := upd_v7m (store_sp frame_sp_p (u32 (frameptr + 8))) e in
        let e := upd_v7m (switch_v7m_security_state true) e in
        let e := upd_v7m (fun m => m <| exception := newpsr_exc |>) e in
        let e := upd_v7m (fun m => m <| control ::= fun c => bset true
                   (let x := Z.land (sec c) (not32 (field_mask CONTROL_SFPA)) in
                    if has newpsr XPSR_SFPA then Z.lor x (field_mask CONTROL_SFPA) else x) c |>) e in
        let e := xpsr_write 0 XPSR_IT e in
        let e := e <| thumb := has newpc 1 |> in
        let e := set_reg 15 (Z.land newpc (not32 1)) e in
        mret (Returned (arm_rebuild_hflags e) true)
    end
  end.

(** The half instruction, [None] after pending a fault. *)
Definition v7m_read_half_insn (mmu_idx : Z) (secure' : bool) (addr : Z) (e : CPUARMState M)
  : outcome (CPUARMState M * option Z) :=
  let sattrs := v8m_security_lookup (env_nvic e) addr MMU_INST_FETCH secure' in
  if negb (sa_nsc sattrs) || sa_ns sattrs then
    e ← on_nvic (armv7m_nvic_set_pending ARMV7M_EXCP_SECURE false) (or_sfsr SFSR_INVEP e);
    mret (e, None)
  else
    r ← get_phys_addr (env_nvic e) addr MMU_INST_FETCH mmu_idx;
    let '(fault, res, _) := r in
    let cur := secure_state (env_v7m e) in
    if (fault : bool) then
      e ← on_nvic (armv7m_nvic_set_pending ARMV7M_EXCP_MEM cur) (or_cfsr cur CFSR_IACCVIOL e);
      mret (e, None)
    else
      r ← env_lduw (phys_addr res) (res_attrs res) e;
      match r with
      | (e, Some insn) => mret (e, Some insn)
      | (e, None) =>
        e ← on_nvic (armv7m_nvic_set_pending ARMV7M_EXCP_BUS false) (or_cfsr false CFSR_IBUSERR e);
        mret (e, None)
      end.

Definition v7m_read_sg_stack_word (mmu_idx addr : Z) (e : CPUARMState M)
  : outcome (CPUARMState M * option Z) :=
  r ← get_phys_addr (env_nvic e) addr MMU_DATA_LOAD mmu_idx;
  let '(fault, res, fi) := r in
  if (fault : bool) then
    if decide (fi = ARMFault_QEMU_SFault) then
      let e := or_sfsr SFSR_SFARVALID (or_sfsr SFSR_AUVIOL e) in
      e ← on_nvic (armv7m_nvic_set_pending ARMV7M_EXCP_SECURE false)
            (upd_v7m (fun m => m <| sfar := addr |>) e);
      mret (e, None)
    else
      let e := or_cfsr true CFSR_MMARVALID (or_cfsr true CFSR_DACCVIOL e) in
      e ← on_nvic (armv7m_nvic_set_pending ARMV7M_EXCP_MEM false)
            (upd_v7m (fun m => m <| mmfar ::= bset true addr |>) e);
      mret (e, None)
  else
    r ← env_ldl (phys_addr res) (res_attrs res) e;
    match r with
    | (e, Some value) => mret (e, Some value)
    | (e, None) =>
      let e := or_cfsr false CFSR_BFARVALID (or_cfsr false CFSR_PRECISERR e) in
      e ← on_nvic (armv7m_nvic_set_pending ARMV7M_EXCP_BUS false)
            (upd_v7m (fun m => m <| bfar := addr |>) e);
      mret (e, None)
    end.

Definition gen_invep (e : CPUARMState M) : outcome (CPUARMState M * bool) :=
  e ← on_nvic (armv7m_nvic_set_pending ARMV7M_EXCP_SECURE false) (or_sfsr SFSR_INVEP e);
  mret (e, false).

(** The end of a confirmed SG instruction. *)
Definition execute_sg (e : CPUARMState M) : CPUARMState M :=
  let e := set_reg 14 (Z.land (get_reg e 14) (not32 1)) e in
  let e := upd_v7m (fun m => m <| control ::= fun c => bset true
             (Z.land (sec c) (not32 (field_mask CONTROL_SFPA))) c |>) e in
  let e := upd_v7m (switch_v7m_security_state true) e in
  let e := xpsr_write 0 XPSR_IT e in
  arm_rebuild_hflags (set_reg 15 (u32 (get_reg e 15 + 4)) e).

(** The integrity check of v8.1M before an SG instruction: whether to go on. *)
Definition sg_stack_check (mmu_idx : Z) (e : CPUARMState M) : outcome (CPUARMState M * option bool) :=
  let m := env_v7m e in
  if aa32_m_sec_state (env_model e) && negb (arm_v7m_is_handler_mode m) then
    let sp' := if v7m_using_psp m then other_ss_psp m else other_ss_msp m in
    r ← v7m_read_sg_stack_word mmu_idx sp' e;
    match r with
    | (e, None) => mret (e, None)
    | (e, Some spdata) =>
      mret (e, Some (negb (has (sec (ccr (env_v7m e))) (field_mask CCR_TRD) &&
                           ((Z.land spdata (not32 1) =? 0xfefa125a) ||
                            negb (has (sec (control (env_v7m e))) 1)))))
    end
  else mret (e, Some true).

(** [true]: the instruction has been executed; [false]: a fault is pending. *)
Definition v7m_handle_execute_nsc (e : CPUARMState M) : outcome (CPUARMState M * bool) :=
  assert_c (negb (secure_state (env_v7m e)));;
  assert_c (FEATURE_M_SECURITY (env_model e));;
  mmu_idx ← arm_v7m_mmu_idx_for_secstate (env_nvic e) true;
  r ← v7m_read_half_insn mmu_idx true (get_reg e 15) e;
  match r with
  | (e, None) => mret (e, false)
  | (e, Some insn) =>
    if negb (thumb e) || negb (insn =? 0xe97f) then gen_invep e
    else
      r ← v7m_read_half_insn mmu_idx true (u32 (get_reg e 15 + 2)) e;
      match r with
      | (e, None) => mret (e, false)
      | (e, Some insn) =>
        if negb (insn =? 0xe97f) then gen_invep e
        else
          r ← sg_stack_check mmu_idx e;
          match r with
          | (e, None) => mret (e, false)
          | (e, Some ok) => if (ok : bool) then mret (execute_sg e, true) else gen_invep e
          end
      end
  end.
End secure.

(** ** Dispatch of CPU exceptions *)

(** [cs->exception_index]; [EXCP_OTHER] is a number without a case. *)
Inductive exception_index :=
| EXCP_UDEF | EXCP_NOCP | EXCP_INVSTATE | EXCP_STKOF | EXCP_LSERR | EXCP_UNALIGNED | EXCP_DIVBYZERO
| EXCP_SWI | EXCP_PREFETCH_ABORT | EXCP_DATA_ABORT | EXCP_SEMIHOST | EXCP_BKPT | EXCP_IRQ
| EXCP_EXCEPTION_EXIT | EXCP_LAZYFP | EXCP_OTHER.

(** [env->exception]. *)
Record exception_data := mk_exception_data { fsr : Z; vaddress : Z; target_el : Z }.

Definition M_FAKE_FSR_NSC_EXEC : Z := 0xf.
Definition M_FAKE_FSR_SFAULT : Z := 0xe.

Section dispatch.
Context {M : Type} `{AddressSpace M}.
Implicit Types e : CPUARMState M.

(** [armv7m_nvic_set_pending(nvic, irq, secure); cfsr[secure] |= ...] *)
Definition usage_fault (secure' : bool) (f : field) (e : CPUARMState M) : outcome (CPUARMState M) :=
  e ← on_nvic (armv7m_nvic_set_pending ARMV7M_EXCP_USAGE secure') e;
  mret (or_cfsr secure' f e).

(** The cases of a prefetch ([insn]) or data abort; [true] when the instruction
    was an SG instruction that has been executed. *)
Definition pend_abort (insn : bool) (x : exception_data) (e : CPUARMState M)
  : outcome (CPUARMState M * bool) :=
  let cur := secure_state (env_v7m e) in
  let code := Z.land (fsr x) 0xf in
  if code =? M_FAKE_FSR_NSC_EXEC then v7m_handle_execute_nsc e
  else if code =? M_FAKE_FSR_SFAULT then
    let e := or_sfsr (if insn then if cur then SFSR_INVTRAN else SFSR_INVEP else SFSR_AUVIOL) e in
    e ← on_nvic (armv7m_nvic_set_pending ARMV7M_EXCP_SECURE false) e;
    mret (e, false)
  else if code =? 0x8 then
    let e := if insn then or_cfsr false CFSR_IBUSERR e
             else upd_v7m (fun m => m <| bfar := u32 (vaddress x) |>)
                    (or_cfsr false CFSR_BFARVALID (or_cfsr false CFSR_PRECISERR e)) in
    e ← on_nvic (armv7m_nvic_set_pending ARMV7M_EXCP_BUS false) e;
    mret (e, false)
  else if code =? 0x1 then
    e ← on_nvic (armv7m_nvic_set_pending ARMV7M_EXCP_USAGE cur) (or_cfsr cur CFSR_UNALIGNED e);
    mret (e, false)
  else
    let e := if insn then or_cfsr cur CFSR_IACCVIOL e
             else upd_v7m (fun m => m <| mmfar ::= bset cur (u32 (vaddress x)) |>)
                    (or_cfsr cur CFSR_MMARVALID (or_cfsr cur CFSR_DACCVIOL e)) in
    e ← on_nvic (armv7m_nvic_set_pending ARMV7M_EXCP_MEM cur) e;
    mret (e, false).

(** The return value for the handler's LR. *)
Definition entry_lr (e : CPUARMState M) : Z :=
  let m := env_v7m e in
  let lr :=
    if FEATURE_V8 (env_model e) then
      let lr := Z.lor (field_mask EXCRET_RES1) (field_mask EXCRET_DCRS) in
      if secure_state m then Z.lor lr (field_mask EXCRET_S) else lr
    else
      let lr := masks [EXCRET_RES1; EXCRET_S; EXCRET_DCRS; EXCRET_ES] in
      if has (ns (control m)) (field_mask CONTROL_SPSEL) then Z.lor lr (field_mask EXCRET_SPSEL) else lr in
  let lr := if negb (has (sec (control m)) (field_mask CONTROL_FPCA))
            then Z.lor lr (field_mask EXCRET_FTYPE) else lr in
  if negb (arm_v7m_is_handler_mode m) then Z.lor lr (field_mask EXCRET_MODE) else lr.

(** The end of [arm_v7m_cpu_do_interrupt]: stack and take the exception. *)
Definition take_exception (e : CPUARMState M) : outcome (CPUARMState M) :=
  let lr := entry_lr e in
  r ← v7m_push_stack e;
  v7m_exception_taken taken_fuel lr false r.2 r.1.

(** The first [switch]: what is pended, or that the function returns early. *)
Definition pend_exception (semihost : CPUARMState M → outcome (CPUARMState M)) (i : exception_index)
  (x : exception_data) (e : CPUARMState M) : outcome (cpu_result M bool) :=
  let cur := secure_state (env_v7m e) in
  let go (r : outcome (CPUARMState M)) : outcome (cpu_result M bool) := e ← r; mret (Returned e false) in
  match i with
  | EXCP_UDEF => go (usage_fault cur CFSR_UNDEFINSTR e)
  | EXCP_NOCP => go (usage_fault (if target_el x =? 3 then true else cur) CFSR_NOCP e)
  | EXCP_INVSTATE => go (usage_fault cur CFSR_INVSTATE e)
  | EXCP_STKOF => go (usage_fault cur CFSR_STKOF e)
  | EXCP_LSERR =>
    go (e ← on_nvic (armv7m_nvic_set_pending ARMV7M_EXCP_SECURE false) e; mret (or_sfsr SFSR_LSERR e))
  | EXCP_UNALIGNED => go (usage_fault cur CFSR_UNALIGNED e)
  | EXCP_DIVBYZERO => go (usage_fault cur CFSR_DIVBYZERO e)
  | EXCP_SWI => go (on_nvic (armv7m_nvic_set_pending ARMV7M_EXCP_SVC cur) e)
  | EXCP_PREFETCH_ABORT => r ← pend_abort true x e; mret (Returned r.1 r.2)
  | EXCP_DATA_ABORT => r ← pend_abort false x e; mret (Returned r.1 r.2)
  | EXCP_SEMIHOST =>
    e ← semihost e;
    mret (Returned (set_reg 15 (u32 (get_reg e 15 + (if thumb e then 2 else 4))) e) true)
  | EXCP_BKPT => go (on_nvic (armv7m_nvic_set_pending ARMV7M_EXCP_DEBUG false) e)
  | EXCP_IRQ => go (mret e)
  | EXCP_EXCEPTION_EXIT =>
    if get_reg e 15 <? EXC_RETURN_MIN_MAGIC then
      assert_c (FNC_RETURN_MIN_MAGIC <=? get_reg e 15);;
      assert_c (FEATURE_M_SECURITY (env_model e));;
      do_v7m_function_return e
    else e ← do_v7m_exception_exit e; mret (Returned e true)
  | EXCP_LAZYFP => go (mret e)
  | EXCP_OTHER => Abort CpuAbort
  end.

Definition arm_v7m_cpu_do_interrupt (semihost : CPUARMState M → outcome (CPUARMState M))
  (i : exception_index) (x : exception_data) (e : CPUARMState M) : outcome (cpu_result M ()) :=
  r ← pend_exception semihost i x e;
  match r with
  | Raised e a k => mret (Raised e a k)
  | Returned e true => mret (Returned e tt)
  | Returned e false => e ← take_exception e; mret (Returned e tt)
  end.

(** An interrupt between two instructions; [true] if it was taken.  The flag of
    the request is the level of the controller's output. *)
Definition arm_v7m_cpu_exec_interrupt (interrupt_request : bool) (e : CPUARMState M)
  : outcome (CPUARMState M * bool) :=
  if interrupt_request && armv7m_nvic_can_take_pending_exception (env_nvic e)
  then e ← take_exception e; mret (e, true)
  else mret (e, false).
End dispatch.
