(* ===== verification/StackSpec.v ===== *)
(** What exception entry and return need of the memory, as a class, and the
    stack accesses of m_helper.c on top of it. *)

From S2P Require Import Prelude Irq NvicState NvicCore NvicInv NvicSpec Mpu MpuSpec CpuRegs CpuRegsSpec Exception.

(** ** Bytes *)

(** [n] little-endian bytes of a block, and the block once they are stored. *)
Fixpoint ldn_le_p (n : nat) (block : Z → Z) (off : Z) : Z :=
  match n with
  | O => 0
  | S n => u8 (block off) + 2 ^ 8 * ldn_le_p n block (off + 1)
  end.

Definition stn_le_p (n : nat) (block : Z → Z) (off val : Z) : Z → Z := fun i =>
  if (off <=? i) && (i <? off + Z.of_nat n) then u8 (Z.shiftr val (8 * (i - off))) else block i.

Lemma ldn_ext n f g a b : (∀ i, 0 ≤ i < Z.of_nat n → f (a + i) = g (b + i)) → ldn_le_p n f a = ldn_le_p n g b.
Proof.
  revert a b. induction n as [|n IH]; intros a b Hfg; [done|]. cbn [ldn_le_p]. f_equal.
  - f_equal. specialize (Hfg 0 ltac:(lia)). by rewrite !Z.add_0_r in Hfg.
  - f_equal. apply IH. intros i Hi. specialize (Hfg (1 + i) ltac:(lia)). by rewrite !Z.add_assoc in Hfg.
Qed.

Lemma ldn_u8 n f a : ldn_le_p n (fun x => u8 (f x)) a = ldn_le_p n f a.
Proof.
  revert a. induction n as [|n IH]; intros a; [done|]. cbn [ldn_le_p]. by rewrite IH, wrap_wrap.
Qed.

Lemma ldn_add n k f a : ldn_le_p (n + k) f a = ldn_le_p n f a + 2 ^ (8 * Z.of_nat n) * ldn_le_p k f (a + Z.of_nat n).
Proof.
  revert a. induction n as [|n IH]; intros a.
  - change (2 ^ (8 * Z.of_nat 0)) with 1. cbn [Nat.add ldn_le_p Z.of_nat]. rewrite Z.add_0_r. lia.
  - cbn [Nat.add ldn_le_p]. rewrite IH. replace (a + Z.of_nat (S n)) with (a + 1 + Z.of_nat n) by lia.
    replace (8 * Z.of_nat (S n)) with (8 + 8 * Z.of_nat n) by lia. rewrite (Z.pow_add_r 2 8) by lia. lia.
Qed.

Lemma stn_add n k f a v i :
  stn_le_p (n + k) f a v i = stn_le_p k (stn_le_p n f a v) (a + Z.of_nat n) (Z.shiftr v (8 * Z.of_nat n)) i.
Proof.
  unfold stn_le_p.
  destruct (Z.leb_spec a i), (Z.ltb_spec i (a + Z.of_nat (n + k))), (Z.leb_spec (a + Z.of_nat n) i),
    (Z.ltb_spec i (a + Z.of_nat n + Z.of_nat k)), (Z.ltb_spec i (a + Z.of_nat n)); cbn [andb]; try done; try (exfalso; lia).
  rewrite Z.shiftr_shiftr by lia. do 2 f_equal. lia.
Qed.

Lemma ldn4_u32 f a : is_u32 (ldn_le_p 4 f a).
Proof.
  cbn [ldn_le_p]. pose proof (λ x, wrap_range 8 x ltac:(lia)) as Hb. unfold in_range in Hb. change (2 ^ 8) with 256 in *.
  pose proof (Hb (f a)). pose proof (Hb (f (a + 1))). pose proof (Hb (f (a + 1 + 1))). pose proof (Hb (f (a + 1 + 1 + 1))).
  split; [lia|]. change (2 ^ 32) with 4294967296. lia.
Qed.

(** The bytes of a word, and the word of its bytes. *)
Lemma ldn4_bytes v f a : is_u32 v → (∀ i, 0 ≤ i < 4 → f (a + i) = u8 (Z.shiftr v (8 * i))) → ldn_le_p 4 f a = v.
Proof.
  intros [Hlo Hhi] Hf. rewrite (ldn_ext 4 f (fun i => u8 (Z.shiftr v (8 * i))) a 0) by (intros; by apply Hf).
  cbn [ldn_le_p Z.add]. rewrite !Z.shiftr_div_pow2 by lia. unfold wrap. change (2 ^ 32) with 4294967296 in Hhi.
  change (2 ^ 8) with 256. change (2 ^ (8 * 0)) with 1. change (2 ^ (8 * 1)) with 256.
  change (2 ^ (8 * 2)) with 65536. change (2 ^ (8 * 3)) with 16777216. euclid.
Qed.

Lemma byte_split x y : 0 ≤ x < 256 → u8 (x + 256 * y) = x.
Proof. intros Hx. unfold wrap. change (2 ^ 8) with 256. euclid. Qed.

Lemma byte_rest x y : 0 ≤ x < 256 → (x + 256 * y) / 256 = y.
Proof. intros Hx. euclid. Qed.

Lemma ldn4_byte f a i : 0 ≤ i < 4 → u8 (Z.shiftr (ldn_le_p 4 f a) (8 * i)) = u8 (f (a + i)).
Proof.
  intros Hi. cbn [ldn_le_p]. pose proof (λ x, wrap_range 8 x ltac:(lia)) as Hb. unfold in_range in Hb.
  change (2 ^ 8) with 256 in *. rewrite Z.shiftr_div_pow2 by lia.
  pose proof (Hb (f a)). pose proof (Hb (f (a + 1))). pose proof (Hb (f (a + 1 + 1))). pose proof (Hb (f (a + 1 + 1 + 1))).
  assert (i = 0 ∨ i = 1 ∨ i = 2 ∨ i = 3) as [-> | [-> | [-> | ->]]] by lia.
  - replace (a + 0) with a by lia. rewrite Z.div_1_r. by apply byte_split.
  - change (2 ^ (8 * 1)) with 256. rewrite byte_rest by done. by apply byte_split.
  - change (2 ^ (8 * 2)) with (256 * 256). replace (a + 2) with (a + 1 + 1) by lia.
    rewrite <- Z.div_div by done. rewrite !byte_rest by done. by apply byte_split.
  - change (2 ^ (8 * 3)) with (256 * 256 * 256). replace (a + 3) with (a + 1 + 1 + 1) by lia.
    rewrite <- !Z.div_div by done. rewrite !byte_rest by done. by apply byte_split.
Qed.

(** Reading back a stored word, and a word next to it. *)
Lemma stl_ldl block off v : is_u32 v → ldn_le_p 4 (stn_le_p 4 block off v) off = v.
Proof.
  intros Hv. apply ldn4_bytes; [done|]. intros i Hi. unfold stn_le_p. replace (off + i - off) with i by lia.
  change (Z.of_nat 4) with 4. by rewrite (proj2 (andb_true_iff _ _)) by lia.
Qed.

Lemma stl_ldl_other block off off' v : off mod 4 = 0 → off' mod 4 = 0 → off ≠ off' →
  ldn_le_p 4 (stn_le_p 4 block off v) off' = ldn_le_p 4 block off'.
Proof.
  intros H1 H2 Hne. apply ldn_ext. intros i Hi. unfold stn_le_p. change (Z.of_nat 4) with 4 in *.
  assert (((off <=? off' + i) && (off' + i <? off + 4)) = false) as -> by euclid. done.
Qed.

(** ** Words of memory *)

(** The word of a byte, and the bytes of the words of a memory. *)
Definition word_start (a : Z) : Z := a - a mod 4.
Definition byte_at (word : Z → Z) (a : Z) : Z := u8 (Z.shiftr (word (word_start a)) (8 * (a mod 4))).

Lemma byte_at_ldn f a : byte_at (ldn_le_p 4 f) a = u8 (f a).
Proof.
  unfold byte_at, word_start. rewrite ldn4_byte by (apply Z.mod_pos_bound; done). by replace (a - a mod 4 + a mod 4) with a by lia.
Qed.

(** The accesses the TLB makes at once. *)
Definition piece (n a : Z) : Prop := (n = 1 ∨ n = 2 ∨ n = 4) ∧ a mod n = 0.

(** Word addresses that answer an access without side effects: [readable] ones
    hold a value, and [writable] ones keep the value stored last.  The other
    addresses (registers of devices, unassigned ones) are not restricted. *)
Class WordMemory (M : Type) `{AddressSpace M} := {
  readable : Z → Prop;
  writable : Z → Prop;
  word_at : M → Z → Z;
  put_word : Z → Z → M → M;
  writable_readable a : writable a → readable a;
  readable_u32 a : readable a → is_u32 a;
  word_u32 m a : readable a → is_u32 (word_at m a);
  ldl_word a attrs s m : readable a → address_space_ldl a attrs (s, m) = Ok (s, m, Some (word_at m a));
  stl_word a v attrs s m : writable a → is_u32 v →
    address_space_stl_le a v attrs (s, m) = Ok (s, put_word a v m, true);
  word_put a v m b : writable a → readable b → is_u32 v →
    word_at (put_word a v m) b = if a =? b then v else word_at m b;
  load_bytes n a attrs s m : piece n a → readable (word_start a) →
    tlb_load n a attrs (s, m) = Ok (s, m, Some (ldn_le_p (Z.to_nat n) (byte_at (word_at m)) a));
  store_word a v attrs s m : writable a → a mod 4 = 0 → is_u32 v →
    tlb_store 4 a v attrs (s, m) = Ok (s, put_word a v m, true);
  store_bytes n a v attrs s m : piece n a → writable (word_start a) → ∃ m',
    tlb_store n a v attrs (s, m) = Ok (s, m', true) ∧
    ∀ b, readable (word_start b) → byte_at (word_at m') b = stn_le_p (Z.to_nat n) (byte_at (word_at m)) a v b
}.

Lemma load_word {M} `{WordMemory M} a attrs s m : readable a → a mod 4 = 0 →
  tlb_load 4 a attrs (s, m) = Ok (s, m, Some (word_at m a)).
Proof.
  intros Ha Hal. assert (word_start a = a) as Hw by (unfold word_start; lia).
  rewrite load_bytes; [|by split; [right; right|]|by rewrite Hw]. change (Z.to_nat 4) with 4%nat. do 3 f_equal.
  apply ldn4_bytes; [by apply word_u32|]. intros i Hi. unfold byte_at, word_start.
  assert ((a + i) mod 4 = i) as -> by euclid. by replace (a + i - i) with a by lia.
Qed.

(** ** The translation regime of a v7M core *)

(** [armv7m_nvic_neg_prio_requested] without the Security extension. *)
Definition neg_prio (s : NVICState) : bool :=
  truth (ns (faultmask (v7m_of s))) || active (vec s ARMV7M_EXCP_HARD) || active (vec s ARMV7M_EXCP_NMI).

Definition core_idx (s : NVICState) (priv : bool) : Z := arm_v7m_mmu_idx_all false priv (neg_prio s).

Lemma core_idx_ns s priv : has (core_idx s priv) ARM_MMU_IDX_M_S = false.
Proof. unfold core_idx, arm_v7m_mmu_idx_all. by destruct priv, (neg_prio s). Qed.

Lemma core_neg_prio s : v7m_core s → armv7m_nvic_neg_prio_requested s false = Ok (neg_prio s).
Proof.
  intros Hc. unfold armv7m_nvic_neg_prio_requested, neg_prio, exc_targets_secure, targets_secure_of.
  rewrite (core_sec s Hc). cbn [negb orb bget get_vec].
  by destruct (truth _), (active (vec s ARMV7M_EXCP_HARD)), (active (vec s ARMV7M_EXCP_NMI)).
Qed.

Lemma core_mmu_idx s priv : v7m_core s →
  arm_v7m_mmu_idx_for_secstate_and_priv s false priv = Ok (core_idx s priv).
Proof. intros Hc. unfold arm_v7m_mmu_idx_for_secstate_and_priv. by rewrite core_neg_prio. Qed.

Lemma core_is_v7m s : v7m_core s → is_v7m s.
Proof. intros []. by split. Qed.

(** The privilege the CPU runs with. *)
Definition privileged_now (m : V7M) : bool :=
  arm_v7m_is_handler_mode m || negb (has (ns (control m)) 1).

Lemma core_arm_mmu_idx {M} (e : CPUARMState M) : v7m_core (env_nvic e) →
  arm_mmu_idx e = Ok (core_idx (env_nvic e) (privileged_now (env_v7m e))).
Proof.
  intros Hc. unfold arm_mmu_idx, arm_v7m_mmu_idx_for_secstate. pose proof (core_ns _ Hc) as Hn.
  change (v7m_of (env_nvic e)) with (env_v7m e) in Hn |- *. rewrite Hn. by rewrite core_mmu_idx.
Qed.

(** ** Stack accesses that succeed *)

Section words.
Context {M : Type} `{WordMemory M}.
Implicit Types e : CPUARMState M.

Lemma env_mem_id e m : e <| env_nvic := env_nvic e |> <| mem := m |> = e <| mem := m |>.
Proof. by destruct e. Qed.

Lemma env_ldl_word a attrs e : readable a → env_ldl a attrs e = Ok (e, Some (word_at (mem e) a)).
Proof. intros Ha. unfold env_ldl. rewrite ldl_word by done. by destruct e. Qed.

(** A word the CPU may store to, and one it may load. *)
Definition may_store (s : NVICState) (idx a : Z) : Prop :=
  writable a ∧ mpu_allows s idx a MMU_DATA_STORE = true.
Definition may_load (s : NVICState) (idx a : Z) : Prop :=
  readable a ∧ mpu_allows s idx a MMU_DATA_LOAD = true.

Lemma stack_write_word a v idx mode e :
  v7m_core (env_nvic e) → mpu_wf (mpu (cpu (env_nvic e))) → may_store (env_nvic e) idx a → is_u32 v →
  v7m_stack_write a v idx mode e = Ok (e <| mem ::= put_word a v |>, true).
Proof.
  intros Hc Hw [Ha Hp] Hv. unfold v7m_stack_write. cbv zeta.
  destruct (lookup_decision (env_nvic e) a MMU_DATA_STORE idx (core_is_v7m _ Hc) Hw)
    as (lg & p & fi & -> & _); [by apply readable_u32, writable_readable|].
  rewrite bind_Ok, Hp. cbn [negb]. unfold env_stl. cbn [phys_addr]. rewrite stl_word by done.
  rewrite !bind_Ok, env_mem_id. done.
Qed.

Lemma stack_read_word a idx e :
  v7m_core (env_nvic e) → mpu_wf (mpu (cpu (env_nvic e))) → may_load (env_nvic e) idx a →
  v7m_stack_read a idx e = Ok (e, Some (word_at (mem e) a)).
Proof.
  intros Hc Hw [Ha Hp]. unfold v7m_stack_read. cbv zeta.
  destruct (lookup_decision (env_nvic e) a MMU_DATA_LOAD idx (core_is_v7m _ Hc) Hw)
    as (lg & p & fi & -> & _); [by apply readable_u32|].
  rewrite bind_Ok, Hp. cbn [negb phys_addr]. by rewrite env_ldl_word.
Qed.

(** Several words, in the order of the stores. *)
Definition put_words (l : list (Z * Z)) (m : M) : M := foldl (fun m w => put_word w.1 w.2 m) m l.

Lemma stack_writes_words l idx mode e :
  v7m_core (env_nvic e) → mpu_wf (mpu (cpu (env_nvic e))) →
  Forall (fun w => may_store (env_nvic e) idx w.1 ∧ is_u32 w.2) l →
  v7m_stack_writes true l idx mode e = Ok (e <| mem ::= put_words l |>, true).
Proof.
  intros Hc Hw Hl. revert e Hc Hw Hl. induction l as [|[a v] l IH]; intros e Hc Hw Hl.
  - by destruct e.
  - inversion_clear Hl as [|?? [Ha Hv] Hl']. cbn [v7m_stack_writes fst snd] in *.
    rewrite stack_write_word by done. rewrite bind_Ok. cbn [fst snd]. by rewrite IH.
Qed.

(** The registers loaded from the words. *)
Definition load_regs (l : list (Z * Z)) e : CPUARMState M :=
  foldl (fun e w => set_reg w.1 (word_at (mem e) w.2) e) e l.

Lemma set_reg_frame r v e : r ≠ 13 →
  env_nvic (set_reg r v e) = env_nvic e ∧ mem (set_reg r v e) = mem e.
Proof. intros Hr. unfold set_reg. by destruct (Z.eqb_spec r 13). Qed.

Lemma stack_reads_words l idx e :
  v7m_core (env_nvic e) → mpu_wf (mpu (cpu (env_nvic e))) →
  Forall (fun w => w.1 ≠ 13 ∧ may_load (env_nvic e) idx w.2) l →
  v7m_stack_reads true l idx e = Ok (load_regs l e, true).
Proof.
  intros Hc Hw Hl. revert e Hc Hw Hl. induction l as [|[r a] l IH]; intros e Hc Hw Hl; [done|].
  inversion_clear Hl as [|?? [Hr Ha] Hl']. cbn [v7m_stack_reads fst snd] in *.
  rewrite stack_read_word by done. rewrite bind_Ok.
  destruct (set_reg_frame r (word_at (mem e) a) e Hr) as [Hn _].
  change (load_regs ((r, a) :: l) e) with (load_regs l (set_reg r (word_at (mem e) a) e)).
  apply IH; by rewrite Hn.
Qed.

(** The memory after the stores: the last value stored, or the old one. *)
Lemma put_words_other l m b : Forall (fun w => writable w.1 ∧ is_u32 w.2 ∧ w.1 ≠ b) l → readable b →
  word_at (put_words l m) b = word_at m b.
Proof.
  revert m. induction l as [|[a v] l IH]; intros m Hl Hb; [done|].
  inversion_clear Hl as [|?? (Ha & Hv & Hne) Hl']. cbn [fst snd] in *.
  change (put_words ((a, v) :: l) m) with (put_words l (put_word a v m)).
  rewrite IH, word_put by done. by destruct (Z.eqb_spec a b).
Qed.

Lemma put_words_at l m a v : NoDup l.*1 → Forall (fun w => writable w.1 ∧ is_u32 w.2) l →
  (a, v) ∈ l → word_at (put_words l m) a = v.
Proof.
  revert m. induction l as [|[b w] l IH]; intros m Hnd Hl Hin; [by apply elem_of_nil in Hin|].
  inversion_clear Hl as [|?? [Hb Hw] Hl']. cbn [fmap list_fmap fst] in Hnd.
  apply NoDup_cons in Hnd as [Hni Hnd]. cbn [fst snd] in *.
  change (put_words ((b, w) :: l) m) with (put_words l (put_word b w m)).
  apply elem_of_cons in Hin as [[= -> ->]|Hin]; [|by apply IH].
  rewrite put_words_other.
  - rewrite word_put by (done || by apply writable_readable). by rewrite Z.eqb_refl.
  - apply Forall_forall. intros [c y] Hc. eapply Forall_forall in Hl'; [|exact Hc].
    destruct Hl'. split_and!; [done..|]. cbn. intros ->. apply Hni.
    apply list_elem_of_fmap. by exists (b, y).
  - by apply writable_readable.
Qed.
End words.
