(* ===== verification/EntrySpec.v ===== *)
(** Exception entry: the frame, the registers, the stack pointers and the
    interrupt controller after [take_exception] on a v7M core. *)

From S2P Require Import Prelude Irq NvicState NvicCore NvicPrio NvicInv NvicSpec Mpu MpuSpec CpuRegs CpuRegsSpec Exception CpuLdst ExceptionExit StackSpec.

(** ** The CPU *)

(** The ranges of the registers of a v7M core. *)
Record cpu_wf {M} (e : CPUARMState M) : Prop := {
  cw_core : v7m_core (env_nvic e);
  cw_mpu : mpu_wf (mpu (cpu (env_nvic e)));
  cw_len : alen (regs e) = 16;
  cw_regs : Forall is_u32 (regs e);
  cw_sp : is_u32 (sp (env_v7m e));
  cw_other_sp : is_u32 (other_sp (env_v7m e));
  cw_flags : flags_wf e
}.

Lemma wf_reg {M} (e : CPUARMState M) r : cpu_wf e → is_u32 (get_reg e r).
Proof. intros []. unfold get_reg. case_if; [done|by apply aget_u32]. Qed.

Lemma wf_secure {M} (e : CPUARMState M) : cpu_wf e → secure_state (env_v7m e) = false.
Proof. intros []. by destruct cw_core0. Qed.

Lemma is_u32_range x : is_u32 x ↔ 0 ≤ x < 2 ^ 32.
Proof. done. Qed.

Lemma xpsr_read_u32 {M} (e : CPUARMState M) : flags_wf e → is_u32 (xpsr_read e).
Proof.
  intros Hf. apply in_range_bits; [done| |].
  - apply Z.bits_iff_nonneg_ex. exists 32. intros i Hi. rewrite xpsr_read_bits by (done || lia).
    by destruct (Z.ltb_spec i 32); [lia|].
  - intros i Hi. rewrite xpsr_read_bits by (done || lia). by destruct (Z.ltb_spec i 32); [lia|].
Qed.

(** ** The frame *)

Definition realigned (m : V7M) : bool :=
  has (sp m) 4 && has (ns (ccr m)) (field_mask CCR_STKALIGN).
Definition frame_top (m : V7M) : Z := if realigned m then u32 (sp m - 4) else sp m.

(** Where the basic frame begins. *)
Definition entry_frame (m : V7M) : Z := u32 (frame_top m - 0x20).

(** The xPSR in the frame: bit 9 records the realignment. *)
Definition entry_xpsr {M} (e : CPUARMState M) : Z :=
  Z.land (if realigned (env_v7m e) then Z.lor (xpsr_read e) XPSR_SPREALIGN else xpsr_read e)
    (not32 XPSR_SFPA).

(** The eight words of a frame, and what entry stores in them. *)
Definition frame_words (fp : Z) : list Z := (fun i => u32 (fp + 4 * i)) <$> seqZ 0 8.
Definition frame_values {M} (e : CPUARMState M) : list Z :=
  [get_reg e 0; get_reg e 1; get_reg e 2; get_reg e 3; get_reg e 12; get_reg e 14; get_reg e 15; entry_xpsr e].

Lemma entry_frame_u32 m : is_u32 (entry_frame m).
Proof. by apply wrap_range. Qed.

Lemma entry_xpsr_u32 {M} (e : CPUARMState M) : cpu_wf e → is_u32 (entry_xpsr e).
Proof.
  intros Hw. pose proof (xpsr_read_u32 e (cw_flags e Hw)). apply land_range; [done|].
  destruct (realigned _); [|done]. apply lor_range; [done..|closed_range].
Qed.

Lemma basic_frame_zip {M} (e : CPUARMState M) fp : is_u32 fp →
  basic_frame e fp (entry_xpsr e) = zip (frame_words fp) (frame_values e).
Proof.
  intros Hfp. unfold basic_frame, frame_words. change (seqZ 0 8) with [0; 1; 2; 3; 4; 5; 6; 7].
  unfold frame_values. cbn [fmap list_fmap zip zip_with].
  change (4 * 0) with 0. by rewrite Z.add_0_r, (wrap_small 32 fp).
Qed.

Lemma u32_inj fp i j : 0 ≤ i < 2 ^ 32 → 0 ≤ j < 2 ^ 32 → u32 (fp + i) = u32 (fp + j) → i = j.
Proof. unfold wrap. intros Hi Hj H. change (2 ^ 32) with 4294967296 in *. euclid. Qed.

Lemma frame_words_nodup fp : NoDup (frame_words fp).
Proof.
  apply NoDup_fmap_2_strong; [|apply NoDup_seqZ].
  intros i j Hi Hj Heq. apply elem_of_seqZ in Hi, Hj. apply u32_inj in Heq; lia.
Qed.

Lemma frame_values_u32 {M} (e : CPUARMState M) : cpu_wf e → Forall is_u32 (frame_values e).
Proof.
  intros Hw. unfold frame_values. rewrite !Forall_cons, Forall_nil.
  split_and!; [by apply wf_reg..|by apply entry_xpsr_u32|done].
Qed.

(** ** Pushing the frame *)

Section entry.
Context {M : Type} `{WordMemory M}.
Implicit Types e : CPUARMState M.

(** No floating-point context is active. *)
Definition no_fp (e : CPUARMState M) : Prop := has (sec (control (env_v7m e))) (field_mask CONTROL_FPCA) = false.

(** The words of the frame can be stored with the privilege of the code. *)
Definition frame_storable (e : CPUARMState M) : Prop :=
  Forall (may_store (env_nvic e) (core_idx (env_nvic e) (privileged_now (env_v7m e))))
    (frame_words (entry_frame (env_v7m e))).

(** The state after the frame has been pushed. *)
Definition pushed (e : CPUARMState M) : CPUARMState M :=
  set_reg 13 (entry_frame (env_v7m e))
    (e <| mem ::= put_words (zip (frame_words (entry_frame (env_v7m e))) (frame_values e)) |>).

Lemma frame_pairs e (P : Z → Prop) : cpu_wf e → Forall P (frame_words (entry_frame (env_v7m e))) →
  Forall (fun w => P w.1 ∧ is_u32 w.2) (zip (frame_words (entry_frame (env_v7m e))) (frame_values e)).
Proof.
  intros Hw HP. pose proof (frame_values_u32 e Hw) as Hv. apply Forall_forall. intros [a v] Hin.
  apply elem_of_zip_l in Hin as Hl. apply elem_of_zip_r in Hin as Hr.
  split; [by eapply Forall_forall in HP|by eapply Forall_forall in Hv].
Qed.

Lemma push_stack_pushed e : cpu_wf e → no_fp e → frame_storable e →
  v7m_push_stack e = Ok (pushed e, false).
Proof.
  intros Hw Hfp Hst. pose proof (cw_core e Hw) as Hc. unfold v7m_push_stack. cbv zeta.
  rewrite core_arm_mmu_idx, bind_Ok, Hfp, (wf_secure e Hw) by done.
  change (FEATURE_V8 (env_model e)) with (FEATURE_V8 (model_of (env_nvic e))). rewrite (core_v8 _ Hc).
  cbn [andb negb]. rewrite bind_Ok.
  pose proof (basic_frame_zip e (entry_frame (env_v7m e)) (entry_frame_u32 _)) as Hz.
  unfold entry_frame, entry_xpsr, frame_top, realigned in Hz. cbn [bget]. rewrite Hz.
  fold (realigned (env_v7m e)) (frame_top (env_v7m e)) (entry_frame (env_v7m e)).
  rewrite stack_writes_words by (apply Hw || by apply (frame_pairs e)). done.
Qed.

(** ** Entering the handler *)

(** The [V7M] record after the handler has been entered. *)
Definition entered_v7m (m : V7M) : V7M :=
  (write_v7m_control_spsel false (switch_v7m_security_state false m))
    <| control ::= fun c => bset true
         (Z.land (sec c) (not32 (Z.lor (field_mask CONTROL_FPCA) (field_mask CONTROL_SFPA)))) c |>.

Definition entered (lr addr : Z) (e : CPUARMState M) : CPUARMState M :=
  (set_reg 15 (Z.land addr 0xfffffffe) (set_reg 14 lr
    (e <| env_nvic ::= fun s => effect RebuildHflags (set_v7m entered_v7m (taken s)) |>)))
    <| exclusive_addr := 2 ^ 64 - 1 |> <| condexec_bits := 0 |> <| thumb := has addr 1 |>.

Lemma enter_handler_entered L lr addr e :
  nvic_inv L (env_nvic e) → armv7m_nvic_can_take_pending_exception (env_nvic e) = true →
  enter_handler lr addr false e = Ok (entered lr addr e).
Proof.
  intros Hi Hc. unfold enter_handler, on_nvic. rewrite (acknowledge_taken L) by done. reflexivity.
Qed.

Lemma pending_info L s : nvic_inv L s → v7m_core s → armv7m_nvic_can_take_pending_exception s = true →
  armv7m_nvic_get_pending_irq_info s = Ok (vectpending s, false).
Proof.
  intros Hi Hc Ht. destruct (can_take_offered L s Hi Ht) as (_ & [[_ Hlt] _] & _ & _ & Hgt & _).
  cbn [offered fst] in Hlt. unfold armv7m_nvic_get_pending_irq_info, vectpending_targets_secure.
  destruct (Z.ltb_spec ARMV7M_EXCP_RESET (vectpending s)); [|lia].
  destruct (Z.ltb_spec (vectpending s) (num_irq s)); [|lia].
  destruct Hi as [[Hw _] _]. destruct (nwf_no_security s Hw (core_sec s Hc)) as [_ ->].
  unfold exc_targets_secure, targets_secure_of. rewrite (core_sec s Hc). by destruct (exc_is_banked _).
Qed.

(** Where the vector of the offered exception is. *)
Definition vector_addr (s : NVICState) : Z := u32 (ns (vecbase (v7m_of s)) + vectpending s * 4).

Lemma taken_entered L fuel lr ignore e :
  nvic_inv L (env_nvic e) → v7m_core (env_nvic e) →
  armv7m_nvic_can_take_pending_exception (env_nvic e) = true → readable (vector_addr (env_nvic e)) →
  v7m_exception_taken (S fuel) lr false ignore e =
  Ok (entered lr (word_at (mem e) (vector_addr (env_nvic e))) e).
Proof.
  intros Hi Hc Ht Hr. cbn [v7m_exception_taken]. rewrite (pending_info L), bind_Ok by done.
  change (FEATURE_V8 (env_model e)) with (FEATURE_V8 (model_of (env_nvic e))). rewrite (core_v8 _ Hc).
  rewrite bind_Ok. cbn [andb]. unfold arm_v7m_load_vector. cbv zeta. rewrite core_mmu_idx, bind_Ok by done.
  change (FEATURE_M_SECURITY (env_model e)) with (FEATURE_M_SECURITY (model_of (env_nvic e))).
  rewrite (core_sec _ Hc). cbn [andb bget]. fold (vector_addr (env_nvic e)).
  rewrite env_ldl_word, !bind_Ok by done. by apply (enter_handler_entered L).
Qed.

(** Changes of r13 are invisible to the controller. *)
Lemma set_sp_inv L v s : nvic_inv L s → nvic_inv L (set_v7m (fun m => m <| sp := v |>) s).
Proof. intros Hi. eapply frame_inv; [|exact Hi]. by apply set_v7m_frame. Qed.

Lemma take_exception_entered L e :
  cpu_wf e → nvic_inv L (env_nvic e) → armv7m_nvic_can_take_pending_exception (env_nvic e) = true →
  no_fp e → frame_storable e → readable (vector_addr (env_nvic e)) →
  take_exception e =
  Ok (entered (entry_lr e) (word_at (mem (pushed e)) (vector_addr (env_nvic e))) (pushed e)).
Proof.
  intros Hw Hi Ht Hfp Hst Hr. unfold take_exception. cbv zeta.
  rewrite push_stack_pushed, bind_Ok by done. cbn [fst snd].
  change (vector_addr (env_nvic e)) with (vector_addr (env_nvic (pushed e))).
  apply (taken_entered L 3 _ _ (pushed e)); [by apply set_sp_inv| |done..].
  pose proof (cw_core e Hw) as []. by split.
Qed.

(** ** What entry changes *)

Lemma taken_v7m s : v7m_of (taken s) = write_v7m_exception (vectpending s) (v7m_of s).
Proof.
  unfold taken. match goal with |- context [nvic_irq_update ?x] => set (s1 := x) end.
  destruct (update_rest s1) as (H1 & _). unfold v7m_of. rewrite H1. unfold s1.
  by destruct (offered s).2.
Qed.

(** Everything but the stack pointers, CONTROL and the exception number. *)
Definition system_part (m : V7M) : V7M :=
  m <| sp := 0 |> <| other_sp := 0 |> <| control := mk_banked 0 0 |> <| exception := 0 |>.

Lemma write_exception_system x m : system_part (write_v7m_exception x m) = system_part m.
Proof. unfold write_v7m_exception. cbv zeta. by destruct (negb _). Qed.

Lemma write_spsel_system b m : secure_state m = false →
  system_part (write_v7m_control_spsel_for_secstate b false m) = system_part m.
Proof.
  intros Hs. unfold write_v7m_control_spsel_for_secstate. cbv zeta.
  change (secure_state (m <| control ::= _ |>)) with (secure_state m). rewrite Hs. cbn [eqb].
  by destruct (negb _).
Qed.

(** In Handler mode r13 is the main stack pointer whatever CONTROL is. *)
Lemma handler_msp m : exception m ≠ 0 → v7m_using_psp m = false.
Proof. intros Hx. unfold v7m_using_psp, arm_v7m_is_handler_mode. by destruct (Z.eqb_spec (exception m) 0). Qed.

Lemma main_sp m : v7m_using_psp m = false → secure_state m = false → sp m = bank_sp m false false.
Proof. intros H1 H2. by rewrite bank_sp_eq, H1, H2. Qed.

Definition handler_control (c : banked Z) : banked Z :=
  mk_banked (deposit32 (ns c) 1 1 0)
    (Z.land (sec c) (not32 (Z.lor (field_mask CONTROL_FPCA) (field_mask CONTROL_SFPA)))).

(** The entered handler, from the state before: [x] is the exception. *)
Lemma entered_fields m x : secure_state m = false → x ≠ 0 →
  let m' := entered_v7m (write_v7m_exception x m) in
  exception m' = x ∧ secure_state m' = false ∧ control m' = handler_control (control m) ∧
  system_part m' = system_part m ∧ (∀ psp, bank_sp m' false psp = bank_sp m false psp).
Proof.
  intros Hs Hx. cbv zeta. destruct (write_exception_fields x m) as (F1 & F2 & F3 & F4 & F5 & _ & F6).
  pose proof (write_exception_system x m) as Fs.
  assert (∀ psp, bank_sp (write_v7m_exception x m) false psp = bank_sp m false psp) as Hb
    by (intros; by apply bank_swap).
  set (m1 := write_v7m_exception x m) in *. clearbody m1. rewrite Hs in F1.
  unfold entered_v7m, write_v7m_control_spsel.
  assert (switch_v7m_security_state false m1 = m1) as -> by (unfold switch_v7m_security_state; by rewrite F1).
  rewrite F1. destruct (write_spsel_fields false false m1) as (G1 & G2 & G3 & G4 & G5 & G6).
  pose proof (write_spsel_system false m1 F1) as Gs.
  assert (∀ psp, bank_sp (write_v7m_control_spsel_for_secstate false false m1) false psp = bank_sp m1 false psp)
    as Hb' by (intros; by apply bank_swap).
  set (m2 := write_v7m_control_spsel_for_secstate false false m1) in *. clearbody m2.
  set (m3 := m2 <| control ::= _ |>). rewrite F1 in G1. rewrite F5 in G4.
  split_and!; [done|done| |by rewrite <- Fs, <- Gs|].
  - change (control m3) with (bset true (Z.land (sec (control m2))
      (not32 (Z.lor (field_mask CONTROL_FPCA) (field_mask CONTROL_SFPA)))) (control m2)).
    rewrite G5, F4. done.
  - intros psp. rewrite <- Hb, <- Hb'. apply bank_swap; try done. left.
    rewrite !handler_msp by (by rewrite ?G4 || by change (exception m3) with (exception m2); rewrite G4). done.
Qed.

Lemma entered_aircr m : aircr (entered_v7m m) = aircr m.
Proof.
  assert (∀ b st m, aircr (write_v7m_control_spsel_for_secstate b st m) = aircr m) as H1.
  { intros b st m'. unfold write_v7m_control_spsel_for_secstate. cbv zeta. by repeat case_if. }
  assert (∀ b m, aircr (switch_v7m_security_state b m) = aircr m) as H2.
  { intros b m'. unfold switch_v7m_security_state. cbv zeta. by repeat case_if. }
  unfold entered_v7m. change (aircr (?m <| control ::= _ |>)) with (aircr m).
  unfold write_v7m_control_spsel. by rewrite H1, H2.
Qed.

(** The controller only looks at the system part. *)
Lemma exec_prio_system f s : system_part (f (v7m_of s)) = system_part (v7m_of s) →
  nvic_exec_prio (set_v7m f s) = nvic_exec_prio s.
Proof.
  intros Hf. set (m' := f (v7m_of s)) in *.
  pose proof (f_equal basepri Hf) as H1. pose proof (f_equal primask Hf) as H2.
  pose proof (f_equal faultmask Hf) as H3. pose proof (f_equal aircr Hf) as H4.
  change (basepri m' = basepri (v7m_of s)) in H1. change (primask m' = primask (v7m_of s)) in H2.
  change (faultmask m' = faultmask (v7m_of s)) in H3. change (aircr m' = aircr (v7m_of s)) in H4.
  unfold nvic_exec_prio, exc_group_prio, nvic_gprio_mask, aircr_has.
  change (v7m_of (set_v7m f s)) with m'. by rewrite H1, H2, H3, H4.
Qed.

Lemma can_take_system x f s : system_part (f (v7m_of s)) = system_part (v7m_of s) →
  armv7m_nvic_can_take_pending_exception (effect x (set_v7m f s)) = armv7m_nvic_can_take_pending_exception s.
Proof.
  intros Hf. transitivity (nvic_exec_prio (set_v7m f s) >? nvic_pending_prio s); [done|].
  by rewrite exec_prio_system.
Qed.

Lemma entry_vec_system x f s v : entry_vec (effect x (set_v7m f s)) v = entry_vec s v.
Proof. done. Qed.

Lemma bank_sp_set m v psp : secure_state m = false →
  bank_sp (m <| sp := v |>) false psp = if eqb psp (v7m_using_psp m) then v else bank_sp m false psp.
Proof. intros Hs. rewrite bank_sp_r13, Hs. done. Qed.

Lemma words_of_frame ks vs m : NoDup ks → length ks = length vs →
  Forall (fun w => writable w.1 ∧ is_u32 w.2) (zip ks vs) →
  word_at (put_words (zip ks vs) m) <$> ks = vs.
Proof.
  intros Hnd Hlen Hf. apply list_eq_same_length with (length vs); [done|by rewrite length_fmap|].
  intros i x y Hi Hx Hy. apply list_lookup_fmap_Some in Hx as (a & -> & Ha).
  apply put_words_at; [by rewrite fst_zip by lia|done|].
  apply (list_elem_of_lookup_2 _ i). apply lookup_zip_Some. done.
Qed.

(** The value for the return: 0xfffffff1 for Handler mode, 0xfffffff9 and
    0xfffffffd for Thread mode on the main and the process stack. *)
Lemma entry_lr_v7m e : cpu_wf e → no_fp e →
  entry_lr e = 0xfffffff1 + (if has (ns (control (env_v7m e))) 2 then 4 else 0) +
               (if arm_v7m_is_handler_mode (env_v7m e) then 0 else 8).
Proof.
  intros Hw Hfp. unfold entry_lr. cbv zeta.
  change (FEATURE_V8 (env_model e)) with (FEATURE_V8 (model_of (env_nvic e))).
  rewrite (core_v8 _ (cw_core e Hw)), Hfp. change (field_mask CONTROL_SPSEL) with 2.
  destruct (has _ 2), (arm_v7m_is_handler_mode _); reflexivity.
Qed.

(** What entry does to the state [e]. *)
Record entry_effect (L : bool) (e e' : CPUARMState M) : Prop := {
  (* the frame, and the rest of the memory *)
  ee_frame : word_at (mem e') <$> frame_words (entry_frame (env_v7m e)) = frame_values e;
  ee_memory : ∀ a, readable a → a ∉ frame_words (entry_frame (env_v7m e)) →
    word_at (mem e') a = word_at (mem e) a;
  (* the stack pointers *)
  ee_banks : ∀ psp, bank_sp (env_v7m e') false psp =
    if eqb psp (v7m_using_psp (env_v7m e)) then entry_frame (env_v7m e)
    else bank_sp (env_v7m e) false psp;
  ee_sp : get_reg e' 13 = bank_sp (env_v7m e') false false;
  (* the registers *)
  ee_lr : get_reg e' 14 = entry_lr e;
  ee_pc : get_reg e' 15 = Z.land (word_at (mem e') (vector_addr (env_nvic e))) 0xfffffffe;
  ee_thumb : thumb e' = has (word_at (mem e') (vector_addr (env_nvic e))) 1;
  ee_regs : ∀ r, 0 ≤ r < 13 → get_reg e' r = get_reg e r;
  ee_len : alen (regs e') = alen (regs e);
  ee_it : condexec_bits e' = 0;
  (* the interrupt controller and the system registers *)
  ee_vectors : ∀ v, entry_vec (env_nvic e') v =
    if decide (v = offered (env_nvic e))
    then (entry_vec (env_nvic e) v) <| active := true |> <| pending := false |>
    else entry_vec (env_nvic e) v;
  ee_exception : exception (env_v7m e') = vectpending (env_nvic e);
  ee_control : control (env_v7m e') = handler_control (control (env_v7m e));
  ee_system : system_part (env_v7m e') = system_part (env_v7m e);
  ee_num_irq : num_irq (env_nvic e') = num_irq (env_nvic e);
  ee_model : model_of (env_nvic e') = model_of (env_nvic e);
  ee_mpu : mpu (cpu (env_nvic e')) = mpu (cpu (env_nvic e));
  ee_preempt : armv7m_nvic_can_take_pending_exception (env_nvic e') = false;
  ee_inv : nvic_inv L (env_nvic e')
}.

Lemma pushed_entered_controller L lr addr e :
  cpu_wf e → nvic_inv L (env_nvic e) → armv7m_nvic_can_take_pending_exception (env_nvic e) = true →
  let s' := env_nvic (entered lr addr (pushed e)) in
  nvic_inv L s' ∧ armv7m_nvic_can_take_pending_exception s' = false ∧
  (∀ v, entry_vec s' v = if decide (v = offered (env_nvic e))
    then (entry_vec (env_nvic e) v) <| active := true |> <| pending := false |>
    else entry_vec (env_nvic e) v) ∧
  exception (v7m_of s') = vectpending (env_nvic e) ∧
  control (v7m_of s') = handler_control (control (env_v7m e)) ∧
  system_part (v7m_of s') = system_part (env_v7m e) ∧
  (∀ psp, bank_sp (v7m_of s') false psp =
     if eqb psp (v7m_using_psp (env_v7m e)) then entry_frame (env_v7m e) else bank_sp (env_v7m e) false psp) ∧
  v7m_using_psp (v7m_of s') = false ∧ secure_state (v7m_of s') = false.
Proof.
  intros Hw Hi Ht. set (s1 := set_v7m (fun m => m <| sp := entry_frame (env_v7m e) |>) (env_nvic e)).
  assert (nvic_inv L s1) as Hi1 by by apply set_sp_inv.
  assert (armv7m_nvic_can_take_pending_exception s1 = true) as Ht1 by done.
  destruct (can_take_offered L s1 Hi1 Ht1) as (_ & Hex & _ & _ & Hgt & _).
  change (env_nvic (entered lr addr (pushed e))) with (effect RebuildHflags (set_v7m entered_v7m (taken s1))).
  set (s' := effect _ _).
  assert (v7m_of s' = entered_v7m (write_v7m_exception (vectpending s1) (v7m_of s1))) as Hm
    by (rewrite <- taken_v7m; done).
  pose proof (wf_secure e Hw) as Hs.
  destruct (entered_fields (v7m_of s1) (vectpending s1)) as (F1 & F2 & F3 & F4 & F5);
    [done|unfold ARMV7M_EXCP_RESET in Hgt; lia|].
  cbv zeta. rewrite Hm.
  split_and!; [| | |exact F1|exact F3|exact F4| |apply handler_msp; rewrite F1; unfold ARMV7M_EXCP_RESET in Hgt; lia|exact F2].
  - eapply frame_inv; [apply effect_frame|]. eapply frame_inv; [apply set_v7m_frame, entered_aircr|].
    by apply taken_inv.
  - unfold s'. rewrite can_take_system; [by apply (taken_no_preempt L)|].
    by rewrite taken_v7m, F4, write_exception_system.
  - intros v. unfold s'. rewrite entry_vec_system. by rewrite taken_vec by (done || apply Hi1).
  - intros psp. rewrite F5. by apply bank_sp_set.
Qed.

Lemma entered_rest f s :
  let s' := effect RebuildHflags (set_v7m f (taken s)) in
  num_irq s' = num_irq s ∧ model_of s' = model_of s ∧ mpu (cpu s') = mpu (cpu s).
Proof.
  cbv zeta. destruct (taken_rest s) as (_ & _ & H3 & _ & H5 & _).
  assert (mpu (cpu (taken s)) = mpu (cpu s)) as Hm.
  { unfold taken. match goal with |- context [nvic_irq_update ?x] => set (s1 := x) end.
    destruct (update_rest s1) as (H1 & _). rewrite H1. unfold s1. by destruct (offered s).2. }
  split_and!; [exact H5|exact H3|exact Hm].
Qed.

Lemma take_exception_effect L e :
  cpu_wf e → nvic_inv L (env_nvic e) → armv7m_nvic_can_take_pending_exception (env_nvic e) = true →
  no_fp e → frame_storable e → readable (vector_addr (env_nvic e)) →
  ∃ e', take_exception e = Ok e' ∧ entry_effect L e e'.
Proof.
  intros Hw Hi Ht Hfp Hst Hr. eexists. split; [by apply (take_exception_entered L)|].
  set (addr := word_at _ _).
  destruct (pushed_entered_controller L (entry_lr e) addr e Hw Hi Ht) as (C1 & C2 & C3 & C4 & C5 & C6 & C7 & C8 & C9).
  destruct (entered_rest entered_v7m (env_nvic (pushed e))) as (D1 & D2 & D3).
  set (e' := entered (entry_lr e) addr (pushed e)) in *.
  assert (Forall writable (frame_words (entry_frame (env_v7m e)))) as Hwr
    by (eapply Forall_impl; [exact Hst|by intros a []]).
  pose proof (frame_pairs e _ Hw Hwr) as Hpairs.
  assert (mem e' = put_words (zip (frame_words (entry_frame (env_v7m e))) (frame_values e)) (mem e)) as Hm by done.
  assert (regs e' = aset (aset (regs e) 14 (entry_lr e)) 15 (Z.land addr 0xfffffffe)) as Hrg by done.
  assert (∀ r, r ≠ 13 → get_reg e' r = aget 0 (regs e') r) as Hg.
  { intros r Hne. unfold get_reg. by destruct (Z.eqb_spec r 13). }
  pose proof (cw_len e Hw) as Hlen.
  split; try assumption; try reflexivity.
  - rewrite Hm. apply words_of_frame; [apply frame_words_nodup|done|done].
  - intros a Ha Hn. rewrite Hm. apply put_words_other; [|done]. apply Forall_forall. intros [b v] Hin.
    eapply Forall_forall in Hpairs as [Hp1 Hp2]; [|exact Hin]. split_and!; [done..|]. cbn [fst]. intros ->.
    by apply Hn, (elem_of_zip_l _ _ _ _ Hin).
  - exact (main_sp _ C8 C9).
  - rewrite Hg, Hrg, aget_aset_ne, aget_aset_eq by (rewrite ?alen_aset, ?Hlen; lia). done.
  - rewrite Hg, Hrg, aget_aset_eq by (rewrite ?alen_aset, ?Hlen; lia). done.
  - intros r Hrr. rewrite Hg, Hrg, !aget_aset_ne by lia. unfold get_reg. by destruct (Z.eqb_spec r 13); [lia|].
  - by rewrite Hrg, !alen_aset.
Qed.

(** C3.  Exception entry.  When the CPU polls its interrupt line with an
    exception that may be taken, no floating-point context, a stack the running
    code may store to and a readable vector, the exception is taken: the eight
    words of the frame hold r0-r3, r12, lr, pc and xPSR (with bit 9 recording
    whether the stack was realigned to 8 bytes) and no other word of memory
    changes; the stack pointer that was in use points to the frame, the other is
    unchanged, and the handler runs on the main stack; pc is the vector, lr the
    value that stands for the interrupted mode and stack, and the other
    registers are unchanged; exactly the offered exception becomes active and
    stops being pending, its number is in IPSR, SPSEL is cleared, and the masks,
    the vector base and the other system registers keep their values; no pending
    exception can preempt the handler. *)
Theorem exception_entry L e :
  cpu_wf e → nvic_inv L (env_nvic e) → armv7m_nvic_can_take_pending_exception (env_nvic e) = true →
  no_fp e → frame_storable e → readable (vector_addr (env_nvic e)) →
  ∃ e', arm_v7m_cpu_exec_interrupt true e = Ok (e', true) ∧ entry_effect L e e' ∧
    get_reg e' 14 = 0xfffffff1 + (if has (ns (control (env_v7m e))) 2 then 4 else 0) +
                    (if arm_v7m_is_handler_mode (env_v7m e) then 0 else 8).
Proof.
  intros Hw Hi Ht Hfp Hst Hr. destruct (take_exception_effect L e Hw Hi Ht Hfp Hst Hr) as (e' & He & Hee).
  exists e'. unfold arm_v7m_cpu_exec_interrupt. rewrite Ht, He. split_and!; [done|done|].
  rewrite (ee_lr L e e' Hee). by apply entry_lr_v7m.
Qed.
End entry.
