(* ===== verification/EntryTotal.v ===== *)
(** Exception entry never fails an assertion of the emulator: on a v7M core,
    with any mix of stacking faults, bus errors and vector fetch failures, it
    ends in a handler or in lockup, and the recursion of [v7m_exception_taken]
    is bounded. *)

From S2P Require Import Prelude Irq NvicState NvicCore NvicRead NvicPrio NvicInv NvicSpec NvicIrq Mpu MpuSpec CpuRegs CpuRegsSpec PendSpec Exception CpuLdst ExceptionExit StackSpec EntrySpec.

(** ** The state during entry *)

(** The system registers entry reads; faults only change the status ones. *)
Definition entry_part (m : V7M) : bool * Z * Z * banked Z * banked Z * banked Z * banked Z :=
  (secure_state m, aircr m, nsacr m, vecbase m, basepri m, primask m, faultmask m).

Section total.
Context {M : Type} `{AddressSpace M}.
Implicit Types e : CPUARMState M.

(** An address outside the interrupt controller: an access works or gets a bus
    error, and leaves the controller alone. *)
Definition quiet (a : Z) : Prop :=
  is_u32 a ∧ ∀ attrs s (m : M),
    (∃ m' v, address_space_ldl a attrs (s, m) = Ok (s, m', v)) ∧
    ∀ x, ∃ m' ok, address_space_stl_le a x attrs (s, m) = Ok (s, m', ok).

(** A v7M core with an exception to take. *)
Record entering (L : bool) (e : CPUARMState M) : Prop := {
  en_inv : nvic_inv L (env_nvic e);
  en_core : v7m_core (env_nvic e);
  en_hard : hard_ok (env_nvic e);
  en_mpu : mpu_wf (mpu (cpu (env_nvic e)));
  en_take : armv7m_nvic_can_take_pending_exception (env_nvic e) = true;
  en_aircr : aircr_has (env_nvic e) AIRCR_BFHFNMINS = true;
  en_nsacr : truth (extract32 (nsacr (env_v7m e)) 10 1) = true;
  en_vectors : ∀ x, 0 ≤ x < NVIC_MAX_VECTORS → quiet (u32 (ns (vecbase (env_v7m e)) + x * 4))
}.

Context (L : bool).

Lemma entering_nvic e e' : env_nvic e' = env_nvic e → entering L e → entering L e'.
Proof. intros Hn []. split; unfold env_v7m in *; by rewrite ?Hn. Qed.

Lemma exec_prio_part f s : entry_part (f (v7m_of s)) = entry_part (v7m_of s) →
  nvic_exec_prio (set_v7m f s) = nvic_exec_prio s.
Proof.
  intros Hf. unfold entry_part in Hf. injection Hf as _ H2 _ _ H5 H6 H7.
  unfold nvic_exec_prio, exc_group_prio, nvic_gprio_mask, aircr_has.
  change (v7m_of (set_v7m f s)) with (f (v7m_of s)). by rewrite H2, H5, H6, H7.
Qed.

Lemma entering_v7m f e : (∀ m, entry_part (f m) = entry_part m) → entering L e → entering L (upd_v7m f e).
Proof.
  intros Hf He. pose proof (Hf (env_v7m e)) as Hp. unfold entry_part in Hp. injection Hp as P1 P2 P3 P4 P5 P6 P7.
  destruct He as [Hi Hc Hh Hm Ht Ha Hn Hv]. split.
  - eapply frame_inv; [apply set_v7m_frame|exact Hi]. intros m. specialize (Hf m). unfold entry_part in Hf. congruence.
  - destruct Hc. split; try done. etrans; [exact P1|done].
  - done.
  - done.
  - unfold armv7m_nvic_can_take_pending_exception.
    change (env_nvic (upd_v7m f e)) with (set_v7m f (env_nvic e)). rewrite exec_prio_part by apply Hf. exact Ht.
  - unfold aircr_has in *. change (v7m_of (env_nvic (upd_v7m f e))) with (f (env_v7m e)). by rewrite P2.
  - rewrite env_v7m_upd, P3. done.
  - intros x Hx. rewrite env_v7m_upd, P4. by apply Hv.
Qed.

Lemma entering_pend e s' : entering L e → nvic_inv L s' → pend_kept (env_nvic e) s' →
  armv7m_nvic_can_take_pending_exception s' = true → entering L (e <| env_nvic := s' |>).
Proof.
  intros [Hi Hc Hh Hm Ht Ha Hn Hv] Hi' Hk Ht'. destruct (pk_v7m _ _ Hk) as [h Hh'].
  assert (env_v7m (e <| env_nvic := s' |>) = (env_v7m e) <| hfsr := h |>) as Hm' by exact Hh'.
  split; try done.
  - by apply (kept_core (env_nvic e)).
  - by apply (kept_hard (env_nvic e)).
  - change (mpu_wf (mpu (cpu s'))). by rewrite (pk_mpu _ _ Hk).
  - unfold aircr_has in *. change (v7m_of (env_nvic (e <| env_nvic := s' |>))) with (v7m_of s'). by rewrite Hh'.
  - by rewrite Hm'.
  - by rewrite Hm'.
Qed.

(** Pending a derived or a synchronous exception. *)
Definition sync_irq (irq : Z) : Prop := ARMV7M_EXCP_HARD ≤ irq < ARMV7M_EXCP_PENDSV.

Lemma entering_derived irq e : sync_irq irq → entering L e →
  or_lockup (fun e' => entering L e' ∧ (irq = ARMV7M_EXCP_HARD → vectpending_prio (env_nvic e') ≤ -1))
    (on_nvic (armv7m_nvic_set_pending_derived irq false) e).
Proof.
  intros Hr He. unfold on_nvic.
  eapply or_lockup_bind; [apply (derived_pend L); [apply He..|exact Hr|apply He]|].
  intros s' (Hi' & Hk & Ht' & Hv). split; [by apply entering_pend|exact Hv].
Qed.

Lemma entering_sync irq e : sync_irq irq → entering L e →
  or_lockup (entering L) (on_nvic (armv7m_nvic_set_pending irq false) e).
Proof.
  intros Hr He. unfold on_nvic.
  eapply or_lockup_bind; [apply (sync_pend L); [apply He..|exact Hr]|].
  intros s' (Hi' & Hk & Ht'). by apply entering_pend.
Qed.

(** ** Stores *)

Ltac keeps := intros ?; reflexivity.

Lemma env_stl_quiet a v attrs e : quiet a → entering L e →
  ∃ e' ok, env_stl a v attrs e = Ok (e', ok) ∧ entering L e'.
Proof.
  intros [_ Hq] He. destruct (Hq attrs (env_nvic e) (mem e)) as [_ Hs]. destruct (Hs v) as (m' & ok & Hst).
  unfold env_stl. rewrite Hst. do 2 eexists. split; [reflexivity|]. by apply (entering_nvic e).
Qed.

Lemma env_ldl_quiet a attrs e : quiet a → entering L e →
  ∃ e' v, env_ldl a attrs e = Ok (e', v) ∧ entering L e' ∧ env_nvic e' = env_nvic e.
Proof.
  intros [_ Hq] He. destruct (Hq attrs (env_nvic e) (mem e)) as [(m' & v & Hl) _].
  unfold env_ldl. rewrite Hl. do 2 eexists. split; [reflexivity|]. split; [by apply (entering_nvic e)|done].
Qed.

Lemma pend_fault_total irq e : sync_irq irq → entering L e →
  or_lockup (fun r => entering L r.1) (e ← pend_stack_fault STACK_NORMAL irq false e; mret (e, false)).
Proof.
  intros Hr He. eapply or_lockup_bind; [by apply entering_derived|]. by intros e' [].
Qed.

Lemma stack_write_total a v idx e : quiet a → has idx ARM_MMU_IDX_M_S = false → entering L e →
  or_lockup (fun r => entering L r.1) (v7m_stack_write a v idx STACK_NORMAL e).
Proof.
  intros Ha Hx He. unfold v7m_stack_write. cbv zeta. rewrite Hx. cbn [is_lazyfp].
  destruct (lookup_decision (env_nvic e) a MMU_DATA_STORE idx) as (lg & p & fi & -> & _);
    [apply core_is_v7m, He|apply He|apply Ha|].
  rewrite bind_Ok. destruct (negb _).
  - destruct (decide _); apply pend_fault_total; try done.
    + apply entering_v7m; [keeps|]. do 2 (apply entering_v7m; [keeps|]). exact He.
    + by apply entering_v7m; [keeps|].
  - cbn [phys_addr res_attrs].
    destruct (env_stl_quiet a v (mk_attrs (has idx ARM_MMU_IDX_M_S) (regime_is_user idx)) e Ha He) as (e' & ok & Hst & He').
    rewrite Hx in Hst. rewrite Hx, Hst, bind_Ok. destruct ok; [done|]. apply pend_fault_total; [done|].
    by apply entering_v7m; [keeps|].
Qed.

Lemma stack_writes_total l idx ok e : Forall (fun w => quiet w.1) l → has idx ARM_MMU_IDX_M_S = false → entering L e →
  or_lockup (fun r => entering L r.1) (v7m_stack_writes ok l idx STACK_NORMAL e).
Proof.
  intros Hl Hx. revert ok e. induction l as [|[a v] l IH]; intros ok e He; [done|].
  inversion_clear Hl as [|?? Ha Hl']. cbn [v7m_stack_writes]. destruct ok; [|done].
  eapply or_lockup_bind; [by apply stack_write_total|]. intros r Hr. by apply IH.
Qed.

(** ** The floating-point context *)

Lemma ready_status irq e : entering L e → ARMV7M_EXCP_RESET < irq < NVIC_FIRST_IRQ →
  ∃ b, armv7m_nvic_get_ready_status (env_nvic e) irq false = Ok b.
Proof.
  intros He Hr. unfold NVIC_FIRST_IRQ, NVIC_INTERNAL_VECTORS in Hr.
  destruct (internal_bound L (env_nvic e) (en_inv L e He) irq) as [Hn _];
    [unfold NVIC_FIRST_IRQ, NVIC_INTERNAL_VECTORS, ARMV7M_EXCP_RESET in *; lia|].
  unfold armv7m_nvic_get_ready_status. destruct (Z.ltb_spec ARMV7M_EXCP_RESET irq); [|lia].
  destruct (Z.ltb_spec irq (num_irq (env_nvic e))); [|lia]. cbn. destruct (_ =? _); by eexists.
Qed.

Ltac ready irq :=
  match goal with |- context [armv7m_nvic_get_ready_status (env_nvic ?x) irq false] =>
    let H := fresh in
    assert (entering L x) as H by (repeat (apply entering_v7m; [keeps|]); assumption);
    destruct (ready_status irq x H) as [? ->]; [by split|]; rewrite bind_Ok; clear H
  end.

Lemma update_fpccr_total fp e : entering L e → or_lockup (entering L) (v7m_update_fpccr fp true e).
Proof.
  intros He. unfold v7m_update_fpccr. cbv zeta.
  pose proof (core_ns _ (en_core L e He)) as Hns. change (v7m_of (env_nvic e)) with (env_v7m e) in Hns. rewrite Hns.
  rewrite env_model_upd.
  change (FEATURE_V8 (env_model e)) with (FEATURE_V8 (model_of (env_nvic e))). rewrite (core_v8 _ (en_core L e He)).
  cbn [andb]. rewrite bind_Ok.
  ready ARMV7M_EXCP_HARD. ready ARMV7M_EXCP_BUS. ready ARMV7M_EXCP_MEM. ready ARMV7M_EXCP_USAGE.
  ready ARMV7M_EXCP_DEBUG.
  rewrite !env_model_upd.
  change (FEATURE_M_SECURITY (env_model e)) with (FEATURE_M_SECURITY (model_of (env_nvic e))).
  rewrite (core_sec _ (en_core L e He)). cbn [or_lockup mret outcome_ret].
  repeat (apply entering_v7m; [keeps|]). exact He.
Qed.

Lemma entering_vfp f e : entering L e → entering L (e <| vfp ::= f |>).
Proof. by apply entering_nvic. Qed.

Lemma entering_fpscr v e : entering L e → entering L (vfp_set_fpscr v e).
Proof.
  intros He. unfold vfp_set_fpscr, vfp_set_fpcr_masked, vfp_set_fpsr. cbv zeta.
  repeat (case_if || apply entering_vfp || (apply entering_v7m; [keeps|])); exact He.
Qed.

Lemma entering_clear_fp n e : 0 ≤ n → entering L e → entering L (clear_fp n e).
Proof.
  intros Hn He. unfold clear_fp. cbv zeta.
  assert (entering L (for_range 0 (n / 2) (fun n e => set_dreg n 0 e) e)) as H1.
  { apply (for_range_ind (fun _ e => entering L e)); [euclid|done|]. intros i x _ Hx. by apply entering_vfp. }
  case_if; [apply entering_v7m; [keeps|]|]; by apply entering_fpscr.
Qed.

(** ** Stacking *)

Definition fp_active (m : V7M) : bool := has (sec (control m)) (field_mask CONTROL_FPCA).

(** The lowest address of the frame, with 26 words for a floating-point
    context and 8 without. *)
Definition stack_low (m : V7M) : Z := u32 (frame_top m - (if fp_active m then 0x68 else 0x20)).

Definition stack_quiet (e : CPUARMState M) : Prop :=
  ∀ i, 0 ≤ i < (if fp_active (env_v7m e) then 26 else 8) → quiet (u32 (stack_low (env_v7m e) + 4 * i)).

Lemma u32_add x i : u32 (u32 x + i) = u32 (x + i).
Proof. unfold wrap. change (2 ^ 32) with 4294967296. euclid. Qed.

Lemma fp_words_quiet fp e : (∀ i, 0 ≤ i < 26 → quiet (u32 (fp + 4 * i))) →
  Forall (fun w => quiet w.1) (fp_words e (u32 (fp + 0x20)) 16 ++ fp_status_words e (u32 (fp + 0x20))).
Proof.
  intros Hq. assert (∀ k, 0 ≤ k < 104 → k mod 4 = 0 → quiet (u32 (fp + k))) as Hk.
  { intros k Hk Hm. replace k with (4 * (k / 4)) by euclid. apply Hq. euclid. }
  apply Forall_app. split.
  - apply Forall_flat_map. apply Forall_forall. intros n Hn. apply elem_of_seqZ in Hn. cbv zeta.
    assert (0 ≤ n < 8) as Hn8 by (change (16 / 2) with 8 in Hn; lia).
    destruct (Z.leb_spec 16 (2 * n)); [lia|]. rewrite !u32_add.
    repeat constructor; cbn [fst]; rewrite <- ?Z.add_assoc; apply Hk; try lia; euclid.
  - unfold fp_status_words. rewrite !u32_add, <- !Z.add_assoc.
    case_if; repeat constructor; cbn [fst]; by apply Hk.
Qed.

Lemma push_fp_total fp idx ok e : (∀ i, 0 ≤ i < 26 → quiet (u32 (fp + 4 * i))) →
  has idx ARM_MMU_IDX_M_S = false → entering L e →
  or_lockup (fun r => entering L r.1) (push_fp fp 0x68 idx true ok e).
Proof.
  intros Hq Hx He. unfold push_fp. cbv zeta.
  change (FEATURE_M_SECURITY (env_model e)) with (FEATURE_M_SECURITY (model_of (env_nvic e))).
  rewrite (core_sec _ (en_core L e He)), !andb_false_r.
  pose proof (core_ns _ (en_core L e He)) as Hns. change (v7m_of (env_nvic e)) with (env_v7m e) in Hns. rewrite Hns.
  cbn [negb andb]. destruct (negb (has _ (field_mask FPCCR_LSPEN))).
  - apply (or_lockup_bind (fun r => entering L r.1)).
    { case_if; [|done]. eapply or_lockup_bind; [by apply entering_sync|].
      intros e' He'. cbn. by apply entering_v7m; [keeps|]. }
    intros [e' ok'] He'. cbn [fst] in He'. change (if 0x68 =? 0xa8 then 32 else 16) with 16.
    eapply or_lockup_bind; [apply stack_writes_total; [by apply fp_words_quiet|done|done]|].
    intros r Hr. cbn. case_if; [by apply entering_clear_fp|done].
  - eapply or_lockup_bind; [by apply update_fpccr_total|]. done.
Qed.

Lemma push_stack_total e : stack_quiet e → entering L e →
  or_lockup (fun r => entering L r.1) (v7m_push_stack e).
Proof.
  intros Hq He. unfold v7m_push_stack. cbv zeta.
  rewrite core_arm_mmu_idx, bind_Ok by apply He. set (idx := core_idx _ _).
  assert (has idx ARM_MMU_IDX_M_S = false) as Hx by apply core_idx_ns. clearbody idx.
  pose proof (core_ns _ (en_core L e He)) as Hns. change (v7m_of (env_nvic e)) with (env_v7m e) in Hns. rewrite Hns.
  rewrite (en_nsacr L e He).
  change (FEATURE_V8 (env_model e)) with (FEATURE_V8 (model_of (env_nvic e))). rewrite (core_v8 _ (en_core L e He)).
  cbn [andb orb negb bget]. rewrite andb_true_r, bind_Ok.
  fold (realigned (env_v7m e)) (frame_top (env_v7m e)) (fp_active (env_v7m e)).
  fold (stack_low (env_v7m e)). unfold stack_quiet in Hq. set (fp := stack_low _) in *.
  assert (fp = u32 (fp + 4 * 0)) as Hfp.
  { change (4 * 0) with 0. rewrite Z.add_0_r. symmetry. apply wrap_small. by apply wrap_range. }
  assert (∀ i, 0 ≤ i < 8 → quiet (u32 (fp + 4 * i))) as Hq8
    by (intros i Hr; apply Hq; destruct (fp_active _); lia).
  eapply or_lockup_bind.
  { apply stack_writes_total; [|exact Hx|exact He]. unfold basic_frame.
    assert (quiet fp) as H0 by (rewrite Hfp; by apply Hq8).
    assert (∀ k, 0 ≤ k < 32 → k mod 4 = 0 → quiet (u32 (fp + k))) as Hk.
    { intros k Hk Hm. replace k with (4 * (k / 4)) by euclid. apply Hq8. euclid. }
    rewrite !Forall_cons, Forall_nil. cbn [fst]. split_and!; try done; by apply Hk. }
  intros [e' ok'] He'. cbn [fst] in He'.
  apply (or_lockup_bind (fun r => entering L r.1)).
  { destruct (fp_active _) eqn:Hf; [|done]. by apply push_fp_total. }
  intros [e2 ok2] He2. cbn [fst] in He2. cbn [negb or_lockup mret outcome_ret fst].
  by apply (entering_v7m (fun m => m <| sp := fp |>)).
Qed.

(** ** Taking the exception *)

(** In a handler that nothing pending can preempt. *)
Definition in_handler (e : CPUARMState M) : Prop :=
  nvic_inv L (env_nvic e) ∧ arm_v7m_is_handler_mode (env_v7m e) = true ∧
  armv7m_nvic_can_take_pending_exception (env_nvic e) = false.

Lemma entered_in_handler lr addr e : entering L e → in_handler (entered lr addr e).
Proof.
  intros He. pose proof (en_inv L e He) as Hi. pose proof (en_take L e He) as Ht.
  destruct (can_take_offered L _ Hi Ht) as (_ & _ & _ & _ & Hgt & _). unfold ARMV7M_EXCP_RESET in Hgt.
  pose proof (core_ns _ (en_core L e He)) as Hns.
  destruct (entered_fields (v7m_of (env_nvic e)) (vectpending (env_nvic e)) Hns) as (F1 & _ & _ & F4 & _); [lia|].
  set (s := env_nvic e) in *.
  assert (env_nvic (entered lr addr e) = effect RebuildHflags (set_v7m entered_v7m (taken s))) as Hn by reflexivity.
  unfold in_handler, env_v7m. rewrite Hn. split_and!.
  - eapply frame_inv; [apply effect_frame|]. eapply frame_inv; [apply set_v7m_frame, entered_aircr|]. by apply taken_inv.
  - assert (v7m_of (effect RebuildHflags (set_v7m entered_v7m (taken s))) =
      entered_v7m (write_v7m_exception (vectpending s) (v7m_of s))) as -> by (rewrite <- taken_v7m; reflexivity).
    unfold arm_v7m_is_handler_mode. rewrite F1. destruct (Z.eqb_spec (vectpending s) 0); [lia|done].
  - rewrite can_take_system; [by apply (taken_no_preempt L)|]. by rewrite taken_v7m, F4, write_exception_system.
Qed.

Lemma load_vector_total e : entering L e →
  or_lockup (fun r => entering L r.1 ∧ (r.2 = None → vectpending_prio (env_nvic r.1) ≤ -1))
    (arm_v7m_load_vector (vectpending (env_nvic e)) false e) ∧
  (vectpending_prio (env_nvic e) ≤ -1 →
   or_lockup (fun r => entering L r.1 ∧ r.2 ≠ None) (arm_v7m_load_vector (vectpending (env_nvic e)) false e)).
Proof.
  intros He. pose proof (en_core L e He) as Hc. unfold arm_v7m_load_vector. cbv zeta.
  rewrite core_mmu_idx by done. rewrite bind_Ok.
  change (FEATURE_M_SECURITY (env_model e)) with (FEATURE_M_SECURITY (model_of (env_nvic e))). rewrite (core_sec _ Hc).
  cbn [andb bget].
  assert (0 ≤ vectpending (env_nvic e) < NVIC_MAX_VECTORS) as Hr.
  { destruct (can_take_offered L _ (en_inv L e He) (en_take L e He)) as (_ & [[Hlo Hhi] _] & _).
    cbn [offered fst] in Hlo, Hhi. pose proof (nwf_num_irq _ (proj1 (proj1 (en_inv L e He)))). lia. }
  destruct (env_ldl_quiet _ (mk_attrs false false) e (en_vectors L e He _ Hr) He) as (e' & v & Hl & He' & Hn).
  rewrite Hl, bind_Ok. destruct v as [v|]; [by split|].
  unfold load_fail. rewrite (en_aircr L e' He'). cbn [negb].
  set (e2 := if negb (FEATURE_V8_1M _) then _ else _).
  assert (entering L e2) as He2 by (unfold e2; case_if; repeat (apply entering_v7m; [keeps|]); exact He').
  assert (vectpending_prio (env_nvic e2) = vectpending_prio (env_nvic e)) as Hv
    by (unfold e2; rewrite <- Hn; case_if; reflexivity). clearbody e2.
  split.
  - eapply or_lockup_bind; [by apply entering_derived|]. intros e3 [H3 H4]. cbn. split; [done|]. intros _. by apply H4.
  - intros Hp. unfold on_nvic. rewrite (derived_hard_again L); [done|apply He2..|lia].
Qed.

Lemma taken_step fuel lr dt ign e : entering L e → ∃ lr',
  v7m_exception_taken (S fuel) lr dt ign e =
  r ← arm_v7m_load_vector (vectpending (env_nvic e)) false e;
  match r.2 with
  | None => v7m_exception_taken fuel lr' true true r.1
  | Some addr => enter_handler lr' addr false r.1
  end.
Proof.
  intros He. cbn [v7m_exception_taken]. rewrite (pending_info L) by apply He. rewrite bind_Ok.
  change (FEATURE_V8 (env_model e)) with (FEATURE_V8 (model_of (env_nvic e))). rewrite (core_v8 _ (en_core L e He)).
  rewrite bind_Ok. cbn [andb]. match goal with |- context [enter_handler ?x] => exists x end.
  destruct (arm_v7m_load_vector _ _ _) as [[e' [v|]]|]; rewrite ?bind_Ok; cbn [fst snd]; reflexivity.
Qed.

(** With a HardFault pending the vector is fetched once more. *)
Lemma taken_hard fuel lr dt ign e : entering L e → vectpending_prio (env_nvic e) ≤ -1 →
  or_lockup in_handler (v7m_exception_taken (S fuel) lr dt ign e).
Proof.
  intros He Hv. destruct (taken_step fuel lr dt ign e He) as [lr' ->].
  eapply or_lockup_bind; [apply (proj2 (load_vector_total e He) Hv)|]. intros [e' [v|]] [He' Hne]; [|done].
  cbn [fst snd]. rewrite (enter_handler_entered L) by apply He'. by apply entered_in_handler.
Qed.

(** Two rounds are enough whatever happens. *)
Lemma exception_taken_fuel fuel lr dt ign e : entering L e →
  or_lockup in_handler (v7m_exception_taken (S (S fuel)) lr dt ign e).
Proof.
  intros He. destruct (taken_step (S fuel) lr dt ign e He) as [lr' ->].
  eapply or_lockup_bind; [apply (proj1 (load_vector_total e He))|]. intros [e' [v|]] [He' Hp]; cbn [fst snd] in *.
  - rewrite (enter_handler_entered L) by apply He'. by apply entered_in_handler.
  - apply taken_hard; auto.
Qed.

Lemma take_exception_total e : entering L e → stack_quiet e → or_lockup in_handler (take_exception e).
Proof.
  intros He Hq. unfold take_exception. cbv zeta. eapply or_lockup_bind; [by apply push_stack_total|].
  intros r Hr. by apply exception_taken_fuel.
Qed.

(** ** CPU exceptions *)

(** A v7M core between two instructions. *)
Record running (e : CPUARMState M) : Prop := {
  ru_inv : nvic_inv L (env_nvic e);
  ru_core : v7m_core (env_nvic e);
  ru_hard : hard_ok (env_nvic e);
  ru_mpu : mpu_wf (mpu (cpu (env_nvic e)));
  ru_aircr : aircr_has (env_nvic e) AIRCR_BFHFNMINS = true;
  ru_nsacr : truth (extract32 (nsacr (env_v7m e)) 10 1) = true;
  ru_vectors : ∀ x, 0 ≤ x < NVIC_MAX_VECTORS → quiet (u32 (ns (vecbase (env_v7m e)) + x * 4));
  ru_stack : stack_quiet e
}.

Lemma running_entering e : running e → armv7m_nvic_can_take_pending_exception (env_nvic e) = true → entering L e.
Proof. intros [] Ht. by split. Qed.

(** What an instruction may do to the status registers before its exception is
    pended. *)
Definition status_only (f : V7M → V7M) : Prop :=
  ∀ m, entry_part (f m) = entry_part m ∧ sp (f m) = sp m ∧ ccr (f m) = ccr m ∧ control (f m) = control m.

Lemma stack_quiet_part e e' : sp (env_v7m e') = sp (env_v7m e) → ccr (env_v7m e') = ccr (env_v7m e) →
  control (env_v7m e') = control (env_v7m e) → stack_quiet e → stack_quiet e'.
Proof. intros H1 H2 H3. unfold stack_quiet, stack_low, frame_top, realigned, fp_active. by rewrite H1, H2, H3. Qed.

Lemma running_v7m f e : status_only f → running e → running (upd_v7m f e).
Proof.
  intros Hf Hr. destruct (Hf (env_v7m e)) as (Hp & Q1 & Q2 & Q3).
  unfold entry_part in Hp. injection Hp as P1 P2 P3 P4 P5 P6 P7. destruct Hr as [Hi Hc Hh Hm Ha Hn Hv Hq]. split.
  - eapply frame_inv; [apply set_v7m_frame|exact Hi]. intros m. destruct (Hf m) as [Hfm _].
    unfold entry_part in Hfm. congruence.
  - destruct Hc. split; try done. etrans; [exact P1|done].
  - done.
  - done.
  - unfold aircr_has in *. change (v7m_of (env_nvic (upd_v7m f e))) with (f (env_v7m e)). by rewrite P2.
  - by rewrite env_v7m_upd, P3.
  - intros x Hx. rewrite env_v7m_upd, P4. by apply Hv.
  - by apply (stack_quiet_part e).
Qed.

(** Pending a synchronous exception. *)
Definition pended (e : CPUARMState M) : Prop := entering L e ∧ stack_quiet e.

Lemma sync_pended irq e : sync_irq irq → running e →
  or_lockup pended (on_nvic (armv7m_nvic_set_pending irq false) e).
Proof.
  intros Hr He. unfold on_nvic. eapply or_lockup_bind; [apply (sync_pend L); [apply He..|exact Hr]|].
  intros s' (Hi' & Hk & Ht'). destruct (pk_v7m _ _ Hk) as [h Hh].
  assert (env_v7m (e <| env_nvic := s' |>) = (env_v7m e) <| hfsr := h |>) as Hm by exact Hh.
  assert (stack_quiet (e <| env_nvic := s' |>)) as Hq
    by (apply (stack_quiet_part e); rewrite ?Hm; try reflexivity; apply He).
  split; [|exact Hq]. apply running_entering; [|exact Ht']. destruct He as [Hi Hc Hd Hmp Ha Hn Hv _]. split; try done.
  - by apply (kept_core (env_nvic e)).
  - by apply (kept_hard (env_nvic e)).
  - change (mpu_wf (mpu (cpu s'))). by rewrite (pk_mpu _ _ Hk).
  - unfold aircr_has in *. change (v7m_of (env_nvic (e <| env_nvic := s' |>))) with (v7m_of s'). by rewrite Hh.
  - by rewrite Hm.
  - by rewrite Hm.
Qed.

Lemma pended_v7m f e : status_only f → pended e → pended (upd_v7m f e).
Proof.
  intros Hf [He Hq]. split; [apply entering_v7m; [apply Hf|done]|].
  destruct (Hf (env_v7m e)) as (_ & Q1 & Q2 & Q3). by apply (stack_quiet_part e).
Qed.

Lemma usage_fault_pended f e : running e → or_lockup pended (usage_fault false f e).
Proof.
  intros He. unfold usage_fault. eapply or_lockup_bind; [by apply sync_pended|].
  intros e' He'. by apply pended_v7m; [|exact He'].
Qed.

(** The exceptions instructions raise on a v7M core: not those of the emulator's
    own, nor those that need the Security extension. *)
Definition synchronous (i : exception_index) (x : exception_data) : Prop :=
  match i with
  | EXCP_UDEF | EXCP_INVSTATE | EXCP_STKOF | EXCP_LSERR | EXCP_UNALIGNED | EXCP_DIVBYZERO | EXCP_SWI | EXCP_BKPT => True
  | EXCP_NOCP => target_el x ≠ 3
  | EXCP_PREFETCH_ABORT | EXCP_DATA_ABORT => Z.land (fsr x) 0xf ≠ M_FAKE_FSR_NSC_EXEC
  | _ => False
  end.

Definition goes_on (r : cpu_result M bool) : Prop := ∃ e', r = Returned e' false ∧ pended e'.

Lemma abort_pended insn x e : Z.land (fsr x) 0xf ≠ M_FAKE_FSR_NSC_EXEC → running e →
  or_lockup (fun r => pended r.1 ∧ r.2 = false) (pend_abort insn x e).
Proof.
  intros Hx He. unfold pend_abort. cbv zeta. destruct (Z.eqb_spec (Z.land (fsr x) 0xf) M_FAKE_FSR_NSC_EXEC); [done|].
  pose proof (core_ns _ (ru_core e He)) as Hns. change (v7m_of (env_nvic e)) with (env_v7m e) in Hns. rewrite Hns.
  repeat case_if; (eapply or_lockup_bind; [apply sync_pended; [done|]|by intros e' He'];
    repeat (apply running_v7m; [intros m; split_and!; reflexivity|]); exact He).
Qed.

Lemma pend_exception_pended semihost i x e : synchronous i x → running e →
  or_lockup goes_on (pend_exception semihost i x e).
Proof.
  intros Hs He. unfold pend_exception. cbv zeta.
  pose proof (core_ns _ (ru_core e He)) as Hns. change (v7m_of (env_nvic e)) with (env_v7m e) in Hns. rewrite Hns.
  assert (∀ r : outcome (CPUARMState M), or_lockup pended r →
    or_lockup goes_on (e ← r; mret (Returned e false))) as Hgo.
  { intros r Hr. eapply or_lockup_bind; [exact Hr|]. intros e' He'. by exists e'. }
  destruct i; try done; try (apply Hgo).
  all: try by apply usage_fault_pended.
  all: try by apply sync_pended.
  - cbn in Hs. destruct (Z.eqb_spec (target_el x) 3); [done|]. by apply usage_fault_pended.
  - eapply or_lockup_bind; [by apply sync_pended|]. intros e' He'. by apply pended_v7m; [|exact He'].
  - eapply or_lockup_bind; [by apply abort_pended|]. intros [e' b] [He' Hb]. cbn in *. rewrite Hb. by exists e'.
  - eapply or_lockup_bind; [by apply abort_pended|]. intros [e' b] [He' Hb]. cbn in *. rewrite Hb. by exists e'.
Qed.

End total.
