(* ===== verification/DataAccess.v ===== *)
(** Data accesses of the CPU and their faults: the M-profile part of
    qemu/target/arm/tcg/tlb_helper.c, from the lookup of an address to the
    exception a failed access raises, and what the fault leaves in the status
    registers.  The accesses themselves are those of [CpuLdst]. *)

From S2P Require Import Prelude Irq NvicState NvicCore NvicRead NvicPrio NvicInv NvicSpec NvicIrq Mpu MpuSpec CpuRegs CpuRegsSpec PendSpec.
From S2P Require Import Exception CpuLdst ExceptionExit StackSpec EntrySpec EntryTotal.

(** ** The exception of a fault *)

(** The short-format status.  A permission fault of an M-profile lookup has
    level 1; the bit that tells the kinds of external aborts apart is not looked
    at by M-profile exceptions and is left out. *)
Definition arm_fi_to_sfsc (k : abort_kind) : Z :=
  match k with
  | AbortUnaligned => 0x1
  | AbortMpu ARMFault_Permission => 0xd
  | AbortMpu ARMFault_QEMU_NSCExec => M_FAKE_FSR_NSC_EXEC
  | AbortMpu ARMFault_QEMU_SFault => M_FAKE_FSR_SFAULT
  | AbortMpu ARMFault_Background | AbortMpu ARMFault_None => 0x0
  | AbortExternal => 0x8
  end.

Section access.
Context {M : Type} `{AddressSpace M}.
Implicit Types e : CPUARMState M.

Definition exception_target_el (e : CPUARMState M) : Z :=
  let target_el := Z.max 1 (arm_current_el (env_v7m e)) in
  if secure_state (env_v7m e) && (target_el =? 1) then 3 else target_el.

Definition arm_deliver_fault (addr : Z) (access_type : MMUAccessType) (k : abort_kind) (e : CPUARMState M)
  : exception_index * exception_data :=
  let target_el := exception_target_el e in
  let fsr := arm_fi_to_sfsc k in
  match access_type with
  | MMU_INST_FETCH => (EXCP_PREFETCH_ABORT, mk_exception_data fsr addr target_el)
  | MMU_DATA_LOAD => (EXCP_DATA_ABORT, mk_exception_data fsr addr target_el)
  | MMU_DATA_STORE => (EXCP_DATA_ABORT, mk_exception_data (Z.lor fsr (bit 11)) addr target_el)
  end.
End access.

(** ** What a fault leaves *)

Inductive data_fault := Unaligned | AccessViolation | BusError.

Definition fault_irq (f : data_fault) : Z :=
  match f with Unaligned => ARMV7M_EXCP_USAGE | AccessViolation => ARMV7M_EXCP_MEM | BusError => ARMV7M_EXCP_BUS end.

Definition fault_status (f : data_fault) : Z :=
  match f with
  | Unaligned => masks [CFSR_UNALIGNED]
  | AccessViolation => masks [CFSR_DACCVIOL; CFSR_MMARVALID]
  | BusError => masks [CFSR_PRECISERR; CFSR_BFARVALID]
  end.

Definition kind_fault (k : abort_kind) : data_fault :=
  match k with AbortUnaligned => Unaligned | AbortMpu _ => AccessViolation | AbortExternal => BusError end.

(** A synchronous exception that cannot be taken becomes a HardFault. *)
Definition escalates (s : NVICState) (irq : Z) : bool :=
  (nvic_exec_prio s <=? exc_group_prio s (prio (vec s irq)) false) || negb (enabled (vec s irq)).

Lemma sync_pend_eq L s irq : nvic_inv L s → v7m_core s → hard_ok s → sync_irq irq →
  armv7m_nvic_set_pending irq false s =
  if escalates s irq
  then if nvic_exec_prio s <=? -1 then Abort CpuAbort else Ok (pend_vec false ARMV7M_EXCP_HARD (forced_fault s))
  else Ok (pend_vec false irq s).
Proof.
  intros Hi Hc [_ Hp] Hr. destruct (set_pending_start L s Hi Hc irq false Hr) as [ts Hs].
  unfold armv7m_nvic_set_pending. rewrite Hs. unfold set_pending_escalate.
  unfold sync_irq in Hr. destruct (Z.leb_spec ARMV7M_EXCP_HARD irq); [|lia]. destruct (Z.ltb_spec irq ARMV7M_EXCP_PENDSV); [|lia].
  cbn [andb]. cbv zeta. rewrite (core_escalation s Hc). cbn [get_vec]. by rewrite Hp.
Qed.

Lemma escalates_part f s irq : entry_part (f (v7m_of s)) = entry_part (v7m_of s) →
  escalates (set_v7m f s) irq = escalates s irq.
Proof.
  intros Hf. unfold escalates. rewrite exec_prio_part by done. unfold entry_part in Hf. injection Hf as _ H2 _ _ _ _ _.
  unfold exc_group_prio, nvic_gprio_mask, aircr_has. change (v7m_of (set_v7m f s)) with (f (v7m_of s)). by rewrite H2.
Qed.

Definition or_status (c : Z) (m : V7M) : V7M := m <| cfsr ::= fun x => bset false (Z.lor (bget x false) c) x |>.

(** The status registers of the fault. *)
Definition record_fault (f : data_fault) (a : Z) (m : V7M) : V7M :=
  match f with
  | Unaligned => or_status (field_mask CFSR_UNALIGNED) m
  | AccessViolation =>
    (or_status (field_mask CFSR_MMARVALID) (or_status (field_mask CFSR_DACCVIOL) m)) <| mmfar ::= bset false (u32 a) |>
  | BusError =>
    (or_status (field_mask CFSR_BFARVALID) (or_status (field_mask CFSR_PRECISERR) m)) <| bfar := u32 a |>
  end.

Lemma record_fault_only f a : status_only (record_fault f a).
Proof. intros m. by destruct f. Qed.

Lemma record_fault_fields f a m : is_u32 a →
  ns (cfsr (record_fault f a m)) = Z.lor (ns (cfsr m)) (fault_status f) ∧
  ns (mmfar (record_fault f a m)) = (if f is AccessViolation then a else ns (mmfar m)) ∧
  bfar (record_fault f a m) = (if f is BusError then a else bfar m) ∧
  hfsr (record_fault f a m) = hfsr m.
Proof.
  intros Ha. destruct f; cbn -[Z.lor wrap]; rewrite ?wrap_small by done; unfold fault_status, masks;
    cbn [foldr]; rewrite ?Z.lor_0_r, ?Z.lor_assoc; split_and!; try done.
Qed.

Section faults.
Context {M : Type} `{AddressSpace M} (L : bool).
Implicit Types e : CPUARMState M.

(** After the exception of the data abort has been made pending. *)
Record fault_reported (f : data_fault) (a : Z) (e e' : CPUARMState M) : Prop := {
  fr_cfsr : ns (cfsr (env_v7m e')) = Z.lor (ns (cfsr (env_v7m e))) (fault_status f);
  fr_mmfar : ns (mmfar (env_v7m e')) = if f is AccessViolation then a else ns (mmfar (env_v7m e));
  fr_bfar : bfar (env_v7m e') = if f is BusError then a else bfar (env_v7m e);
  fr_hfsr : hfsr (env_v7m e') =
    if escalates (env_nvic e) (fault_irq f) then Z.lor (hfsr (env_v7m e)) (field_mask HFSR_FORCED)
    else hfsr (env_v7m e);
  fr_vectors : ∀ b i, get_vec (env_nvic e') b i =
    if eqb false b && ((if escalates (env_nvic e) (fault_irq f) then ARMV7M_EXCP_HARD else fault_irq f) =? i)
    then (get_vec (env_nvic e) b i) <| pending := true |> else get_vec (env_nvic e) b i;
  fr_rest : regs e' = regs e ∧ mem e' = mem e ∧ xpsr_read e' = xpsr_read e
}.

Lemma fault_irq_sync f : sync_irq (fault_irq f).
Proof. by destruct f. Qed.

(** The exception is pended on the recorded status. *)
Lemma pend_abort_record k t a e : v7m_core (env_nvic e) → t ≠ MMU_INST_FETCH →
  (∀ fi, k = AbortMpu fi → fi = ARMFault_Background ∨ fi = ARMFault_Permission) →
  let x := (arm_deliver_fault a t k e).2 in
  (arm_deliver_fault a t k e).1 = EXCP_DATA_ABORT ∧
  pend_abort false x e =
    (e ← on_nvic (armv7m_nvic_set_pending (fault_irq (kind_fault k)) false)
           (upd_v7m (record_fault (kind_fault k) a) e); mret (e, false)).
Proof.
  intros Hc Ht Hk x. split; [by destruct t|]. pose proof (core_ns _ Hc) as Hns.
  change (v7m_of (env_nvic e)) with (env_v7m e) in Hns.
  unfold pend_abort. rewrite Hns. cbv zeta. subst x.
  destruct k as [|fi|]; [| |].
  - by destruct t.
  - destruct (Hk fi eq_refl) as [-> | ->]; by destruct t.
  - by destruct t.
Qed.

Lemma forced_fault_get s b i : get_vec (forced_fault s) b i = get_vec s b i.
Proof. reflexivity. Qed.

Lemma set_v7m_get f s b i : get_vec (set_v7m f s) b i = get_vec s b i.
Proof. reflexivity. Qed.

Lemma forced_fault_v7m s : v7m_of (forced_fault s) =
  (v7m_of s) <| hfsr ::= fun h => Z.lor h (field_mask HFSR_FORCED) |>.
Proof. reflexivity. Qed.

(** The vectors and the CPU after pending. *)
Lemma pend_reported f a e irq s' : running L e → is_u32 a →
  irq = (if escalates (env_nvic e) (fault_irq f) then ARMV7M_EXCP_HARD else fault_irq f) →
  s' = pend_vec false irq ((if escalates (env_nvic e) (fault_irq f) then forced_fault else id)
                             (set_v7m (record_fault f a) (env_nvic e))) →
  fault_reported f a e ((upd_v7m (record_fault f a) e) <| env_nvic := s' |>).
Proof.
  intros He Ha Hirq Hs.
  set (s1 := (if escalates _ _ then forced_fault else id) _) in Hs.
  assert (∀ b i, get_vec s1 b i = get_vec (env_nvic e) b i) as Hget by (intros b i; subst s1; by destruct (escalates _ _)).
  assert (0 ≤ irq < alen (vectors s1)) as Hb.
  { replace (alen (vectors s1)) with (alen (vectors (env_nvic e))) by (subst s1; by destruct (escalates _ _)).
    apply (internal_bound L _ (ru_inv L e He)). subst irq. destruct (escalates _ _); [done|by destruct f]. }
  destruct (pend_vec_rest s1 irq) as (Hcpu & _).
  assert (v7m_of s' = v7m_of s1) as Hv by (subst s'; unfold v7m_of; by rewrite Hcpu).
  destruct (record_fault_fields f a (env_v7m e) Ha) as (F1 & F2 & F3 & F4).
  assert (v7m_of s1 = (if escalates (env_nvic e) (fault_irq f)
    then (record_fault f a (env_v7m e)) <| hfsr ::= fun h => Z.lor h (field_mask HFSR_FORCED) |>
    else record_fault f a (env_v7m e))) as Hv1 by (subst s1; by destruct (escalates _ _)).
  assert (exception (v7m_of s1) = exception (env_v7m e)) as Hx
    by (rewrite Hv1; destruct (escalates _ _); by destruct f).
  split; change (env_v7m (?e <| env_nvic := s' |>)) with (v7m_of s'); rewrite ?Hv.
  - rewrite Hv1. rewrite <- F1. by destruct (escalates _ _).
  - rewrite Hv1. rewrite <- F2. by destruct (escalates _ _).
  - rewrite Hv1. rewrite <- F3. by destruct (escalates _ _).
  - rewrite Hv1, <- F4. by destruct (escalates _ _).
  - intros b i. change (get_vec s' b i = if eqb false b && ((if escalates (env_nvic e) (fault_irq f) then ARMV7M_EXCP_HARD else fault_irq f) =? i)
      then (get_vec (env_nvic e) b i) <| pending := true |> else get_vec (env_nvic e) b i).
    rewrite Hs, pended_get by done. by rewrite Hget, <- Hirq.
  - split_and!; [done|done|]. unfold xpsr_read.
    change (env_v7m (?e <| env_nvic := s' |>)) with (v7m_of s'). by rewrite Hv, Hx.
Qed.

Lemma abort_reported semihost k t a e : running L e → is_u32 a → t ≠ MMU_INST_FETCH →
  (∀ fi, k = AbortMpu fi → fi = ARMFault_Background ∨ fi = ARMFault_Permission) →
  let d := arm_deliver_fault a t k e in
  or_lockup (fun r => ∃ e', r = Returned e' false ∧ fault_reported (kind_fault k) a e e' ∧ pended L e')
    (pend_exception semihost d.1 d.2 e).
Proof.
  intros He Ha Ht Hk d. destruct (pend_abort_record k t a e (ru_core L e He) Ht Hk) as [Hi Hp].
  unfold d. rewrite Hi. unfold pend_exception. rewrite Hp. clear Hi Hp d.
  set (f := kind_fault k). assert (running L (upd_v7m (record_fault f a) e)) as He1
    by (apply running_v7m; [apply record_fault_only|done]).
  pose proof (sync_pended L (fault_irq f) _ (fault_irq_sync f) He1) as Hpend. unfold on_nvic in *.
  pose proof (sync_pend_eq L (env_nvic (upd_v7m (record_fault f a) e)) (fault_irq f) (ru_inv L _ He1)
    (ru_core L _ He1) (ru_hard L _ He1) (fault_irq_sync f)) as Heq.
  change (env_nvic (upd_v7m (record_fault f a) e)) with (set_v7m (record_fault f a) (env_nvic e)) in *.
  rewrite Heq in *. clear Heq. rewrite escalates_part in * by apply record_fault_only.
  destruct (escalates (env_nvic e) (fault_irq f)) eqn:E.
  - destruct (_ <=? -1); [done|]. rewrite !bind_Ok in *. eexists. split; [reflexivity|]. split; [|exact Hpend].
    apply (pend_reported f a e ARMV7M_EXCP_HARD); rewrite ?E; done.
  - rewrite !bind_Ok in *. eexists. split; [reflexivity|]. split; [|exact Hpend].
    apply (pend_reported f a e (fault_irq f)); rewrite ?E; done.
Qed.
End faults.

(** ** The pieces of an access *)

Lemma low_zero a k : 0 ≤ k → (∀ i, 0 ≤ i < k → Z.testbit a i = false) → a mod 2 ^ k = 0.
Proof.
  intros Hk Ha. apply Z.bits_inj'. intros n Hn. rewrite Z.bits_0. destruct (Z.lt_ge_cases n k).
  - rewrite Z.mod_pow2_bits_low by done. by apply Ha.
  - by apply Z.mod_pow2_bits_high.
Qed.

Lemma piece_of size a : 1 ≤ size ≤ 4 → piece (piece_size size a) a ∧ piece_size size a ≤ size.
Proof.
  intros Hs. unfold piece_size, piece. rewrite !Z.lor_spec.
  assert (size = 1 ∨ size = 2 ∨ size = 3 ∨ size = 4) as Hc by lia.
  destruct (Z.testbit a 0) eqn:B0.
  { rewrite orb_true_r. cbn [orb]. split; [split; [by left|apply Z.mod_1_r]|lia]. }
  destruct (Z.testbit a 1) eqn:B1.
  { rewrite !orb_true_r, !orb_false_r. cbn [orb]. split; [|destruct Hc as [-> | [-> | [-> | ->]]]; vm_compute; congruence].
    case_if; [split; [by left|apply Z.mod_1_r]|]. split; [right; by left|].
    apply (low_zero a 1); [done|]. intros i Hi. by replace i with 0 by lia. }
  assert (a mod 2 = 0) as H2 by (apply (low_zero a 1); [done|]; intros i Hi; by replace i with 0 by lia).
  assert (a mod 4 = 0) as H4.
  { apply (low_zero a 2); [done|]. intros i Hi. assert (i = 0 ∨ i = 1) as [-> | ->] by lia; done. }
  pose proof (Z.mod_1_r a) as H1.
  destruct Hc as [-> | [-> | [-> | ->]]]; cbn -[Z.modulo]; repeat split; first [done|tauto|lia].
Qed.

Section pieces.
Context {M : Type} `{AddressSpace M}.
Implicit Types e : CPUARMState M.

(** An address at which no access touches the interrupt controller. *)
Definition tlb_quiet (a : Z) : Prop := ∀ n attrs s m, piece n a →
  (∃ m' w, tlb_load n a attrs (s, m) = Ok (s, m', w)) ∧
  ∀ v, ∃ m' ok, tlb_store n a v attrs (s, m) = Ok (s, m', ok).

Definition same_cpu (e e' : CPUARMState M) : Prop := env_nvic e' = env_nvic e ∧ regs e' = regs e.

(** The pieces are all accessed, or the bus refuses one of them. *)
Definition pieces_end {A} (a size : Z) (e : CPUARMState M) (r : outcome (cpu_result M A)) : Prop :=
  match r with
  | Ok (Returned e' _) => same_cpu e e'
  | Ok (Raised e' b k) => same_cpu e e' ∧ k = AbortExternal ∧ ∃ i, 0 ≤ i < size ∧ b = a + i
  | Abort _ => False
  end.

Lemma pieces_end_shift A a n size e e' (r : outcome (cpu_result M A)) : 0 ≤ n → same_cpu e e' →
  pieces_end (a + n) (size - n) e' r → pieces_end a size e r.
Proof.
  intros Hn [H1 H2]. destruct r as [[e2 x|e2 b k]|]; [| |done]; unfold pieces_end, same_cpu.
  - intros [-> ->]. done.
  - intros ([-> ->] & -> & i & Hi & ->). split_and!; try done. exists (n + i). split; [lia|lia].
Qed.

Lemma ld_pieces_end fuel pos v a size attrs e : 1 ≤ size ≤ Z.of_nat fuel → size ≤ 4 →
  (∀ i, 0 ≤ i < size → tlb_quiet (a + i)) → pieces_end a size e (ld_pieces fuel pos v a a size attrs e).
Proof.
  revert pos v a size e. induction fuel as [|fuel IH]; intros pos v a size e Hs H4 Hq; [lia|].
  cbn [ld_pieces]. destruct (piece_of size a) as [Hp Hle]; [lia|]. set (n := piece_size size a) in *.
  assert (1 ≤ n) as Hn by (destruct Hp; lia).
  assert (tlb_quiet a) as Ha by (specialize (Hq 0); rewrite Z.add_0_r in Hq; apply Hq; lia).
  destruct (Ha n attrs (env_nvic e) (mem e) Hp) as [(m' & w & Hl) _].
  unfold env_tlb_load. rewrite Hl, !bind_Ok. destruct w as [w|].
  - destruct (Z.eqb_spec size n); [by split|].
    apply (pieces_end_shift _ a n size e (e <| env_nvic := env_nvic e |> <| mem := m' |>)); [lia|by split|].
    apply IH; [lia|lia|]. intros i Hi. rewrite <- Z.add_assoc. apply Hq. lia.
  - split; [by split|]. split; [done|]. exists 0. lia.
Qed.

Lemma st_pieces_end fuel v a size attrs e : 1 ≤ size ≤ Z.of_nat fuel → size ≤ 4 →
  (∀ i, 0 ≤ i < size → tlb_quiet (a + i)) → pieces_end a size e (st_pieces fuel v a a size attrs e).
Proof.
  revert v a size e. induction fuel as [|fuel IH]; intros v a size e Hs H4 Hq; [lia|].
  cbn [st_pieces]. destruct (piece_of size a) as [Hp Hle]; [lia|]. set (n := piece_size size a) in *.
  assert (1 ≤ n) as Hn by (destruct Hp; lia).
  assert (tlb_quiet a) as Ha by (specialize (Hq 0); rewrite Z.add_0_r in Hq; apply Hq; lia).
  destruct (Ha n attrs (env_nvic e) (mem e) Hp) as [_ Hst]. destruct (Hst v) as (m' & ok & Hl).
  unfold env_tlb_store. rewrite Hl, !bind_Ok. destruct ok.
  - destruct (Z.eqb_spec size n); [by split|].
    apply (pieces_end_shift _ a n size e (e <| env_nvic := env_nvic e |> <| mem := m' |>)); [lia|by split|].
    apply IH; [lia|lia|]. intros i Hi. rewrite <- Z.add_assoc. apply Hq. lia.
  - split; [by split|]. split; [done|]. exists 0. lia.
Qed.
End pieces.

(** Pieces in memory. *)
Section memory_pieces.
Context {M : Type} `{WordMemory M}.
Implicit Types e : CPUARMState M.

Lemma ld_pieces_memory fuel pos v a size attrs e : 1 ≤ size ≤ Z.of_nat fuel → size ≤ 4 → 0 ≤ pos →
  (∀ i, 0 ≤ i < size → readable (word_start (a + i))) →
  ld_pieces fuel pos v a a size attrs e =
    Ok (Returned e (v + 2 ^ (8 * pos) * ldn_le_p (Z.to_nat size) (byte_at (word_at (mem e))) a)).
Proof.
  revert pos v a size. induction fuel as [|fuel IH]; intros pos v a size Hs H4 Hpos Hr; [lia|].
  cbn [ld_pieces]. destruct (piece_of size a) as [Hp Hle]; [lia|]. set (n := piece_size size a) in *.
  assert (1 ≤ n) as Hn by (destruct Hp; lia).
  assert (readable (word_start a)) as Ha by (specialize (Hr 0); rewrite Z.add_0_r in Hr; apply Hr; lia).
  unfold env_tlb_load. rewrite load_bytes, !bind_Ok by done.
  replace (e <| env_nvic := env_nvic e |> <| mem := mem e |>) with e by by destruct e.
  destruct (Z.eqb_spec size n) as [Hsn|Hne]; [by rewrite Hsn|].
  rewrite IH; [|lia|lia|lia|intros i Hi; rewrite <- Z.add_assoc; apply Hr; lia].
  replace (Z.to_nat size) with (Z.to_nat n + Z.to_nat (size - n))%nat by lia. rewrite ldn_add, !Z2Nat.id by lia.
  do 2 f_equal. replace (8 * (pos + n)) with (8 * pos + 8 * n) by lia. rewrite (Z.pow_add_r 2 (8 * pos)) by lia. lia.
Qed.

(** The bytes of [m] that are in memory are those of [f]. *)
Definition memory_is (m : M) (f : Z → Z) : Prop := ∀ b, readable (word_start b) → byte_at (word_at m) b = f b.

Lemma st_pieces_memory fuel v a size attrs e f : 1 ≤ size ≤ Z.of_nat fuel → size ≤ 4 →
  (∀ i, 0 ≤ i < size → writable (word_start (a + i))) → memory_is (mem e) f → ∃ m',
  st_pieces fuel v a a size attrs e = Ok (Returned (e <| mem := m' |>) (Z.shiftr v (8 * size))) ∧
  memory_is m' (stn_le_p (Z.to_nat size) f a v).
Proof.
  revert v a size e f. induction fuel as [|fuel IH]; intros v a size e f Hs H4 Hr Hf; [lia|].
  cbn [st_pieces]. destruct (piece_of size a) as [Hp Hle]; [lia|]. set (n := piece_size size a) in *.
  assert (1 ≤ n) as Hn by (destruct Hp; lia).
  assert (writable (word_start a)) as Ha by (specialize (Hr 0); rewrite Z.add_0_r in Hr; apply Hr; lia).
  destruct (store_bytes n a v attrs (env_nvic e) (mem e) Hp Ha) as (m1 & Hst & Hm1).
  unfold env_tlb_store. rewrite Hst, !bind_Ok, env_mem_id.
  assert (memory_is m1 (stn_le_p (Z.to_nat n) f a v)) as H1.
  { intros b Hb. rewrite Hm1 by done. unfold stn_le_p. case_if; [done|]. by apply Hf. }
  destruct (Z.eqb_spec size n) as [Hsn|Hne]; [rewrite Hsn; by exists m1|].
  destruct (IH (Z.shiftr v (8 * n)) (a + n) (size - n) (e <| mem := m1 |>) (stn_le_p (Z.to_nat n) f a v)) as (m' & -> & Hm');
    [lia|lia|intros i Hi; rewrite <- Z.add_assoc; apply Hr; lia|exact H1|].
  exists m'. split.
  - rewrite Z.shiftr_shiftr by lia. by replace (8 * n + 8 * (size - n)) with (8 * size) by lia.
  - intros b Hb. rewrite Hm' by done.
    replace (Z.to_nat size) with (Z.to_nat n + Z.to_nat (size - n))%nat by lia. by rewrite stn_add, !Z2Nat.id by lia.
Qed.
End memory_pieces.

(** ** Accesses *)

(** A word that goes on in the next page. *)
Definition crosses (a : Z) : bool := TARGET_PAGE_SIZE - 4 <? a mod TARGET_PAGE_SIZE.
Definition next_page (a : Z) : Z := u32 ((a / TARGET_PAGE_SIZE + 1) * TARGET_PAGE_SIZE).

(** The check that fails first, with the address it reports: alignment if it is
    required, the MPU on the page of the address, the MPU on the next page. *)
Definition first_fault (s : NVICState) (idx : Z) (t : MMUAccessType) (align : bool) (a : Z) : option (Z * data_fault) :=
  if align && truth (Z.land a 3) then Some (a, Unaligned)
  else if negb (mpu_allows s idx a t) then Some (a, AccessViolation)
  else if crosses a && negb (mpu_allows s idx (next_page a) t) then Some (next_page a, AccessViolation)
  else None.

Definition lookup_attrs (idx : Z) : MemTxAttrs := mk_attrs (has idx ARM_MMU_IDX_M_S) (regime_is_user idx).

Definition access_pages (idx a : Z) : list page_data :=
  if crosses a then
    let size0 := TARGET_PAGE_SIZE - a mod TARGET_PAGE_SIZE in
    [mk_page a size0 a (lookup_attrs idx); mk_page (next_page a) (4 - size0) (next_page a) (lookup_attrs idx)]
  else [mk_page a 4 a (lookup_attrs idx)].

Definition mpu_fault (k : abort_kind) : Prop :=
  ∀ fi, k = AbortMpu fi → fi = ARMFault_Background ∨ fi = ARMFault_Permission.

Lemma next_page_u32 a : is_u32 (next_page a).
Proof. by apply wrap_range. Qed.

Lemma crosses_spec a :
  let page1 := (a + 3) / TARGET_PAGE_SIZE * TARGET_PAGE_SIZE in
  if crosses a then (a / TARGET_PAGE_SIZE =? page1 / TARGET_PAGE_SIZE) = false ∧ u32 page1 = next_page a ∧
    page1 - a = TARGET_PAGE_SIZE - a mod TARGET_PAGE_SIZE
  else (a / TARGET_PAGE_SIZE =? page1 / TARGET_PAGE_SIZE) = true.
Proof.
  cbv zeta. unfold crosses, next_page, TARGET_PAGE_SIZE, TARGET_PAGE_BITS. change (2 ^ 10) with 1024.
  rewrite Z.div_mul by done. destruct (Z.ltb_spec (1024 - 4) (a mod 1024)).
  - assert ((a + 3) / 1024 = a / 1024 + 1) as -> by euclid. split_and!; [lia|done|euclid].
  - apply Z.eqb_eq. euclid.
Qed.

Section lookup.
Context {M : Type} `{AddressSpace M}.
Implicit Types e : CPUARMState M.

Lemma lookup1_spec a size t idx e : v7m_core (env_nvic e) → mpu_wf (mpu (NvicState.cpu (env_nvic e))) → is_u32 a →
  ∃ fi, (fi = ARMFault_Background ∨ fi = ARMFault_Permission) ∧
  mmu_lookup1 a size t idx e = Ok (if mpu_allows (env_nvic e) idx a t then inl (mk_page a size a (lookup_attrs idx))
                                   else inr (a, AbortMpu fi)).
Proof.
  intros Hc Hw Ha. destruct (lookup_decision (env_nvic e) a t idx (core_is_v7m _ Hc) Hw Ha)
    as (lg & p & fi & Hl & _ & _ & Hfi). exists fi. split; [done|]. unfold mmu_lookup1. rewrite Hl, bind_Ok.
  by destruct (mpu_allows _ _ _ _).
Qed.

Lemma lookup_spec align a t idx e : v7m_core (env_nvic e) → mpu_wf (mpu (NvicState.cpu (env_nvic e))) → is_u32 a →
  match first_fault (env_nvic e) idx t align a with
  | Some (a', f) => ∃ k, mmu_lookup align a t idx e = Ok (inr (a', k)) ∧ kind_fault k = f ∧ mpu_fault k ∧ is_u32 a'
  | None => mmu_lookup align a t idx e = Ok (inl (access_pages idx a))
  end.
Proof.
  intros Hc Hw Ha. unfold first_fault, mmu_lookup, access_pages.
  destruct (align && truth (Z.land a 3)); [by exists AbortUnaligned|]. cbv zeta.
  pose proof (crosses_spec a) as Hp. cbv zeta in Hp. destruct (crosses a).
  - destruct Hp as (-> & -> & ->).
    destruct (lookup1_spec a (TARGET_PAGE_SIZE - a mod TARGET_PAGE_SIZE) t idx e Hc Hw Ha) as (fi & Hfi & ->).
    rewrite bind_Ok. destruct (mpu_allows _ idx a t); cbn [negb andb];
      [|exists (AbortMpu fi); split_and!; [done..|by intros ? [= <-]|done]].
    destruct (lookup1_spec (next_page a) (4 - (TARGET_PAGE_SIZE - a mod TARGET_PAGE_SIZE)) t idx e Hc Hw (next_page_u32 a))
      as (fi2 & Hfi2 & ->). rewrite bind_Ok. destruct (mpu_allows _ idx _ t); cbn [negb]; [done|].
    exists (AbortMpu fi2). split_and!; [done..|by intros ? [= <-]|apply next_page_u32].
  - rewrite Hp. destruct (lookup1_spec a 4 t idx e Hc Hw Ha) as (fi & Hfi & ->). rewrite bind_Ok.
    destruct (mpu_allows _ idx a t); cbn [negb andb]; [done|].
    exists (AbortMpu fi). split_and!; [done..|by intros ? [= <-]|done].
Qed.

(** The addresses of the two parts. *)
Lemma crosses_parts a : is_u32 a → crosses a = true →
  let size0 := TARGET_PAGE_SIZE - a mod TARGET_PAGE_SIZE in
  1 ≤ size0 ≤ 3 ∧ (∀ i, 0 ≤ i < size0 → u32 (a + i) = a + i) ∧
  (∀ i, 0 ≤ i < 4 - size0 → u32 (a + (size0 + i)) = next_page a + i).
Proof.
  intros [Hlo Hhi] Hc size0. apply Z.ltb_lt in Hc. unfold size0, next_page, TARGET_PAGE_SIZE, TARGET_PAGE_BITS in *.
  change (2 ^ 10) with 1024 in *. clear size0. unfold wrap. change (2 ^ 32) with 4294967296 in *.
  split; [euclid|]. split; intros i Hi.
  - euclid.
  - replace (a + (1024 - a mod 1024 + i)) with ((a / 1024 + 1) * 1024 + i) by euclid. euclid.
Qed.

Lemma whole_part a : is_u32 a → crosses a = false → ∀ i, 0 ≤ i < 4 → u32 (a + i) = a + i.
Proof.
  intros [Hlo Hhi] Hc i Hi. apply Z.ltb_ge in Hc. unfold TARGET_PAGE_SIZE, TARGET_PAGE_BITS in *.
  change (2 ^ 10) with 1024 in *. apply wrap_small. unfold in_range. change (2 ^ 32) with 4294967296 in *. euclid.
Qed.
End lookup.

Section pages.
Context {M : Type} `{AddressSpace M}.
Implicit Types e : CPUARMState M.

(** All is accessed, or the bus refuses a byte. *)
Definition access_end {A} (a : Z) (e : CPUARMState M) (r : outcome (cpu_result M A)) : Prop :=
  match r with
  | Ok (Returned e' _) => same_cpu e e'
  | Ok (Raised e' b k) => same_cpu e e' ∧ k = AbortExternal ∧ ∃ i, 0 ≤ i < 4 ∧ b = u32 (a + i)
  | Abort _ => False
  end.

(** One part of the access, [p] bytes after its start, and what follows. *)
Lemma part_end A B a b p size e (r : outcome (cpu_result M A)) (k : CPUARMState M → A → outcome (cpu_result M B)) :
  0 ≤ p → p + size ≤ 4 → (∀ i, 0 ≤ i < size → u32 (a + (p + i)) = b + i) → pieces_end b size e r →
  (∀ e' x, same_cpu e e' → access_end a e' (k e' x)) →
  access_end a e (r ← r; match r with Raised e a k => mret (Raised e a k) | Returned e x => k e x end).
Proof.
  intros Hp Hs Hb Hr Hk. destruct r as [[e' x|e' b' k']|]; [| |done]; cbn [pieces_end] in Hr.
  - rewrite bind_Ok. specialize (Hk e' x Hr). destruct Hr as [H1 H2].
    destruct (k e' x) as [[e2 y|e2 b2 k2]|]; [| |done]; unfold access_end, same_cpu in *; by rewrite <- H1, <- H2.
  - destruct Hr as (Hsame & -> & i & Hi & ->). split; [done|]. split; [done|]. exists (p + i). split; [lia|].
    by rewrite Hb.
Qed.

Lemma quiet_part (Q : Z → Prop) a b p size : (∀ i, 0 ≤ i < 4 → Q (u32 (a + i))) → 0 ≤ p → p + size ≤ 4 →
  (∀ i, 0 ≤ i < size → u32 (a + (p + i)) = b + i) → ∀ i, 0 ≤ i < size → Q (b + i).
Proof. intros HQ Hp Hs Hb i Hi. rewrite <- Hb by done. apply HQ. lia. Qed.

Lemma ld_pages_end a idx e : is_u32 a → (∀ i, 0 ≤ i < 4 → tlb_quiet (M := M) (u32 (a + i))) →
  access_end a e (ld_pages (access_pages idx a) 0 0 e).
Proof.
  intros Ha Hq. unfold access_pages. destruct (crosses a) eqn:Hc.
  - destruct (crosses_parts a Ha Hc) as (Hs & H0 & H1). set (size0 := TARGET_PAGE_SIZE - _) in *. cbv zeta. clearbody size0.
    assert (∀ i, 0 ≤ i < size0 → u32 (a + (0 + i)) = a + i) as H0' by exact H0.
    cbn [ld_pages pg_addr pg_size pg_phys pg_attrs]. apply (part_end _ _ a a 0 size0); [done|lia|done| |].
    { apply ld_pieces_end; [split; [lia|change (Z.of_nat pieces_fuel) with 4; lia]|lia|]. apply (quiet_part _ a a 0); [done|done|lia|done]. }
    intros e' v Hs'. apply (part_end _ _ a (next_page a) size0 (4 - size0)); [lia|lia|done| |by intros].
    apply ld_pieces_end; [split; [lia|change (Z.of_nat pieces_fuel) with 4; lia]|lia|]. apply (quiet_part _ a _ size0); [done|lia|lia|done].
  - pose proof (whole_part a Ha Hc) as H0. cbn [ld_pages pg_addr pg_size pg_phys pg_attrs].
    apply (part_end _ _ a a 0 4); [done|done|done| |by intros].
    apply ld_pieces_end; [done|done|]. by apply (quiet_part _ a a 0).
Qed.

Lemma st_pages_end a v idx e : is_u32 a → (∀ i, 0 ≤ i < 4 → tlb_quiet (M := M) (u32 (a + i))) →
  access_end a e (st_pages (access_pages idx a) v e).
Proof.
  intros Ha Hq. unfold access_pages. destruct (crosses a) eqn:Hc.
  - destruct (crosses_parts a Ha Hc) as (Hs & H0 & H1). set (size0 := TARGET_PAGE_SIZE - _) in *. cbv zeta. clearbody size0.
    assert (∀ i, 0 ≤ i < size0 → u32 (a + (0 + i)) = a + i) as H0' by exact H0.
    cbn [st_pages pg_addr pg_size pg_phys pg_attrs]. apply (part_end _ _ a a 0 size0); [done|lia|done| |].
    { apply st_pieces_end; [split; [lia|change (Z.of_nat pieces_fuel) with 4; lia]|lia|]. apply (quiet_part _ a a 0); [done|done|lia|done]. }
    intros e' w Hs'. apply (part_end _ _ a (next_page a) size0 (4 - size0)); [lia|lia|done| |by intros].
    apply st_pieces_end; [split; [lia|change (Z.of_nat pieces_fuel) with 4; lia]|lia|]. apply (quiet_part _ a _ size0); [done|lia|lia|done].
  - pose proof (whole_part a Ha Hc) as H0. cbn [st_pages pg_addr pg_size pg_phys pg_attrs].
    apply (part_end _ _ a a 0 4); [done|done|done| |by intros].
    apply st_pieces_end; [done|done|]. by apply (quiet_part _ a a 0).
Qed.
End pages.

Section memory_pages.
Context {M : Type} `{WordMemory M}.
Implicit Types e : CPUARMState M.

(** The word at [a] in memory, and byte [b] once [v] is stored there. *)
Definition word_bytes (m : M) (a : Z) : Z := ldn_le_p 4 (fun x => byte_at (word_at m) (u32 x)) a.
Definition stored_byte (a v : Z) (m : M) (b : Z) : Z :=
  if u32 (b - a) <? 4 then u8 (Z.shiftr v (8 * u32 (b - a))) else byte_at (word_at m) b.

Lemma ld_pages_memory a idx e : is_u32 a → (∀ i, 0 ≤ i < 4 → readable (word_start (u32 (a + i)))) →
  ld_pages (access_pages idx a) 0 0 e = Ok (Returned e (word_bytes (mem e) a)).
Proof.
  intros Ha Hq. unfold access_pages, word_bytes. destruct (crosses a) eqn:Hc.
  - destruct (crosses_parts a Ha Hc) as (Hs & P0 & P1). set (size0 := TARGET_PAGE_SIZE - _) in *. cbv zeta. clearbody size0.
    assert (∀ i, 0 ≤ i < size0 → u32 (a + (0 + i)) = a + i) as P0' by exact P0.
    cbn [ld_pages pg_addr pg_size pg_phys pg_attrs].
    rewrite ld_pieces_memory, bind_Ok;
      [|split; [lia|change (Z.of_nat pieces_fuel) with 4; lia]|lia|done|apply (quiet_part (fun x => readable (word_start x)) a a 0); [done|done|lia|done]].
    rewrite ld_pieces_memory, bind_Ok;
      [|split; [lia|change (Z.of_nat pieces_fuel) with 4; lia]|lia|lia|apply (quiet_part (fun x => readable (word_start x)) a _ size0); [done|lia|lia|done]].
    replace 4%nat with (Z.to_nat size0 + Z.to_nat (4 - size0))%nat by lia. rewrite ldn_add, Z2Nat.id by lia.
    change (2 ^ (8 * 0)) with 1. rewrite Z.mul_1_l, !Z.add_0_l. do 3 f_equal; [|f_equal]; apply ldn_ext; intros i Hi; f_equal.
    + by rewrite P0 by lia.
    + by rewrite <- P1, Z.add_assoc by lia.
  - pose proof (whole_part a Ha Hc) as P0. cbn [ld_pages pg_addr pg_size pg_phys pg_attrs].
    rewrite ld_pieces_memory, bind_Ok;
      [|done|done|done|by apply (quiet_part (fun x => readable (word_start x)) a a 0)].
    change (2 ^ (8 * 0)) with 1. rewrite Z.mul_1_l, Z.add_0_l. do 2 f_equal. apply ldn_ext. intros i Hi. by rewrite P0.
Qed.

Lemma stored_two a v m b size0 : is_u32 a → is_u32 b → 1 ≤ size0 ≤ 3 →
  (∀ i, 0 ≤ i < size0 → u32 (a + i) = a + i) → (∀ i, 0 ≤ i < 4 - size0 → u32 (a + (size0 + i)) = next_page a + i) →
  stn_le_p (Z.to_nat (4 - size0)) (stn_le_p (Z.to_nat size0) (byte_at (word_at m)) a v) (next_page a)
    (Z.shiftr v (8 * size0)) b = stored_byte a v m b.
Proof.
  intros [Ha1 Ha2] [Hb1 Hb2] Hs P0 P1. specialize (P0 (size0 - 1) ltac:(lia)).
  pose proof (P1 0 ltac:(lia)) as P2. specialize (P1 (3 - size0) ltac:(lia)). unfold stn_le_p, stored_byte.
  rewrite !Z2Nat.id by lia. unfold wrap in P0, P1, P2. change (2 ^ 32) with 4294967296 in *.
  assert (u32 (b - a) = b - a ∧ a ≤ b ∨ u32 (b - a) = b - a + 4294967296 ∧ b < a) as Hw
    by (unfold wrap; change (2 ^ 32) with 4294967296; euclid).
  assert (next_page a = a + size0 ∧ a + 3 < 4294967296 ∨ next_page a = 0 ∧ a + size0 = 4294967296) as Hp by euclid.
  destruct (Z.leb_spec (next_page a) b), (Z.ltb_spec b (next_page a + (4 - size0))), (Z.leb_spec a b),
    (Z.ltb_spec b (a + size0)), (Z.ltb_spec (u32 (b - a)) 4); cbn [andb]; try done; try (exfalso; lia).
  all: rewrite ?Z.shiftr_shiftr by lia; do 2 f_equal; lia.
Qed.
Lemma stored_one a v m b : is_u32 a → is_u32 b → u32 (a + 3) = a + 3 →
  stn_le_p (Z.to_nat 4) (byte_at (word_at m)) a v b = stored_byte a v m b.
Proof.
  intros [Ha1 Ha2] [Hb1 Hb2] P0. unfold stn_le_p, stored_byte. change (Z.of_nat (Z.to_nat 4)) with 4.
  unfold wrap in P0. change (2 ^ 32) with 4294967296 in *.
  assert (u32 (b - a) = b - a ∧ a ≤ b ∨ u32 (b - a) = b - a + 4294967296 ∧ b < a) as Hw
    by (unfold wrap; change (2 ^ 32) with 4294967296; euclid).
  assert (a + 3 < 4294967296) as Hp by euclid.
  destruct (Z.leb_spec a b), (Z.ltb_spec b (a + 4)), (Z.ltb_spec (u32 (b - a)) 4); cbn [andb]; try done; try (exfalso; lia).
  do 2 f_equal. lia.
Qed.

Lemma st_pages_memory a v idx e : is_u32 a → (∀ i, 0 ≤ i < 4 → writable (word_start (u32 (a + i)))) → ∃ m',
  st_pages (access_pages idx a) v e = Ok (Returned (e <| mem := m' |>) tt) ∧
  ∀ b, is_u32 b → readable (word_start b) → byte_at (word_at m') b = stored_byte a v (mem e) b.
Proof.
  intros Ha Hq. unfold access_pages. destruct (crosses a) eqn:Hc.
  - destruct (crosses_parts a Ha Hc) as (Hs & P0 & P1). set (size0 := TARGET_PAGE_SIZE - _) in *. cbv zeta. clearbody size0.
    assert (∀ i, 0 ≤ i < size0 → u32 (a + (0 + i)) = a + i) as P0' by exact P0.
    cbn [st_pages pg_addr pg_size pg_phys pg_attrs].
    destruct (st_pieces_memory pieces_fuel v a size0 (lookup_attrs idx) e (byte_at (word_at (mem e)))) as (m1 & -> & Hm1);
      [split; [lia|change (Z.of_nat pieces_fuel) with 4; lia]|lia
      |apply (quiet_part (fun x => writable (word_start x)) a a 0); [done|done|lia|done]|done|]. rewrite bind_Ok.
    destruct (st_pieces_memory pieces_fuel (Z.shiftr v (8 * size0)) (next_page a) (4 - size0) (lookup_attrs idx)
      (e <| mem := m1 |>) (stn_le_p (Z.to_nat size0) (byte_at (word_at (mem e))) a v)) as (m2 & -> & Hm2);
      [split; [lia|change (Z.of_nat pieces_fuel) with 4; lia]|lia
      |apply (quiet_part (fun x => writable (word_start x)) a _ size0); [done|lia|lia|done]|exact Hm1|]. rewrite bind_Ok.
    exists m2. split; [by destruct e|]. intros b Hb Hr. rewrite Hm2 by done. by apply stored_two.
  - pose proof (whole_part a Ha Hc) as P0. cbn [st_pages pg_addr pg_size pg_phys pg_attrs].
    destruct (st_pieces_memory pieces_fuel v a 4 (lookup_attrs idx) e (byte_at (word_at (mem e)))) as (m1 & -> & Hm1);
      [done|done|by apply (quiet_part (fun x => writable (word_start x)) a a 0)|done|]. rewrite bind_Ok.
    exists m1. split; [done|]. intros b Hb Hr. rewrite Hm1 by done. apply stored_one; [done..|]. apply (P0 3). lia.
Qed.
End memory_pages.

Section accesses.
Context {M : Type} `{WordMemory M} (L : bool).
Implicit Types e : CPUARMState M.

(** The regime of the running code, and the check at which its access fails. *)
Definition run_idx (e : CPUARMState M) : Z := core_idx (env_nvic e) (privileged_now (env_v7m e)).
Definition access_fault (t : MMUAccessType) (a : Z) (e : CPUARMState M) : option (Z * data_fault) :=
  first_fault (env_nvic e) (run_idx e) t (align_mem (env_v7m e)) a.

(** The abort records the fault and pends its exception, and taking the
    exception ends in a handler or in lockup. *)
Definition reported (semihost : CPUARMState M → outcome (CPUARMState M)) (a : Z) (t : MMUAccessType) (k : abort_kind)
  (e : CPUARMState M) : Prop :=
  let d := arm_deliver_fault a t k e in
  or_lockup (fun r => ∃ e2, r = Returned e2 false ∧ fault_reported (kind_fault k) a e e2)
    (pend_exception semihost d.1 d.2 e) ∧
  or_lockup (fun r => ∃ e2, r = Returned e2 tt ∧ in_handler L e2)
    (arm_v7m_cpu_do_interrupt semihost d.1 d.2 e).

(** What an access at [a] does: it is made, or it raises the data abort of the
    first check that fails, the last of which is that of the bus. *)
Definition access_outcome {A} (semihost : CPUARMState M → outcome (CPUARMState M)) (a : Z)
  (t : MMUAccessType) (e : CPUARMState M) (r : outcome (cpu_result M A)) : Prop :=
  match r with
  | Ok (Returned e' _) => access_fault t a e = None ∧ same_cpu e e'
  | Ok (Raised e' b k) =>
    same_cpu e e' ∧
    match access_fault t a e with
    | Some f => (b, kind_fault k) = f ∧ e' = e
    | None => kind_fault k = BusError ∧ ∃ i, 0 ≤ i < 4 ∧ b = u32 (a + i)
    end ∧
    reported semihost b t k e'
  | Abort _ => False
  end.

Lemma running_nvic e e' : env_nvic e' = env_nvic e → running L e → running L e'.
Proof.
  intros Hn []. split; unfold stack_quiet, env_v7m in *; by rewrite ?Hn.
Qed.

Lemma abort_taken semihost a t k e : running L e → is_u32 a → t ≠ MMU_INST_FETCH → mpu_fault k →
  reported semihost a t k e.
Proof.
  intros He Ha Ht Hk. pose proof (abort_reported L semihost k t a e He Ha Ht Hk) as Hp. cbv zeta in Hp.
  split.
  - eapply or_lockup_impl; [exact Hp|]. intros r (e2 & -> & Hf & _). by exists e2.
  - unfold arm_v7m_cpu_do_interrupt. eapply or_lockup_bind; [exact Hp|]. intros r (e2 & -> & _ & [Hen Hq]).
    eapply or_lockup_bind; [by apply take_exception_total|]. intros e3 H3. by exists e3.
Qed.

Lemma end_outcome A semihost a t e (r : outcome (cpu_result M A)) : running L e → t ≠ MMU_INST_FETCH →
  access_fault t a e = None → access_end a e r → access_outcome semihost a t e r.
Proof.
  intros He Ht Hf Hr. destruct r as [[e' x|e' b k]|]; [done| |done].
  destruct Hr as (Hs & -> & i & Hi & ->). split; [done|]. rewrite Hf. split; [by split; [|exists i]|].
  apply abort_taken; [by apply (running_nvic e); [apply Hs|]|by apply wrap_range|done|done].
Qed.

Lemma fault_outcome A semihost a t e b f k : running L e → t ≠ MMU_INST_FETCH → is_u32 b → mpu_fault k →
  access_fault t a e = Some (b, f) → kind_fault k = f → access_outcome (A := A) semihost a t e (Ok (Raised e b k)).
Proof.
  intros He Ht Hb Hk Hf <-. split; [done|]. rewrite Hf. split; [done|]. by apply abort_taken.
Qed.

(** The pages of an access whose checks succeed. *)
Lemma cpu_ldl_pages a e : v7m_core (env_nvic e) → mpu_wf (mpu (NvicState.cpu (env_nvic e))) → is_u32 a →
  access_fault MMU_DATA_LOAD a e = None → cpu_ldl a e = ld_pages (access_pages (run_idx e) a) 0 0 e.
Proof.
  intros Hc Hw Ha Hf. unfold cpu_ldl, do_ld4_mmu. rewrite core_arm_mmu_idx, bind_Ok by done. fold (run_idx e).
  pose proof (lookup_spec (align_mem (env_v7m e)) a MMU_DATA_LOAD (run_idx e) e Hc Hw Ha) as Hl.
  unfold access_fault in Hf. rewrite Hf in Hl. by rewrite Hl, bind_Ok.
Qed.

Lemma cpu_stl_pages a v e : v7m_core (env_nvic e) → mpu_wf (mpu (NvicState.cpu (env_nvic e))) → is_u32 a →
  access_fault MMU_DATA_STORE a e = None → cpu_stl a v e = st_pages (access_pages (run_idx e) a) v e.
Proof.
  intros Hc Hw Ha Hf. unfold cpu_stl, do_st4_mmu. rewrite core_arm_mmu_idx, bind_Ok by done. fold (run_idx e).
  pose proof (lookup_spec (align_mem (env_v7m e)) a MMU_DATA_STORE (run_idx e) e Hc Hw Ha) as Hl.
  unfold access_fault in Hf. rewrite Hf in Hl. by rewrite Hl, bind_Ok.
Qed.

Lemma ldl_outcome semihost a e : running L e → is_u32 a → (∀ i, 0 ≤ i < 4 → tlb_quiet (M := M) (u32 (a + i))) →
  access_outcome semihost a MMU_DATA_LOAD e (cpu_ldl a e).
Proof.
  intros He Ha Hq. destruct (access_fault MMU_DATA_LOAD a e) as [[b f]|] eqn:Hf.
  - unfold cpu_ldl, do_ld4_mmu. rewrite core_arm_mmu_idx, bind_Ok by apply He. fold (run_idx e).
    pose proof (lookup_spec (align_mem (env_v7m e)) a MMU_DATA_LOAD (run_idx e) e (ru_core L e He) (ru_mpu L e He) Ha) as Hl.
    unfold access_fault in Hf. rewrite Hf in Hl. destruct Hl as (k & -> & Hk & Hm & Hb). rewrite bind_Ok.
    by apply (fault_outcome _ _ _ _ _ _ f).
  - rewrite cpu_ldl_pages by (done || apply He). apply end_outcome; [done..|]. by apply ld_pages_end.
Qed.

Lemma stl_outcome semihost a v e : running L e → is_u32 a → (∀ i, 0 ≤ i < 4 → tlb_quiet (M := M) (u32 (a + i))) →
  access_outcome semihost a MMU_DATA_STORE e (cpu_stl a v e).
Proof.
  intros He Ha Hq. destruct (access_fault MMU_DATA_STORE a e) as [[b f]|] eqn:Hf.
  - unfold cpu_stl, do_st4_mmu. rewrite core_arm_mmu_idx, bind_Ok by apply He. fold (run_idx e).
    pose proof (lookup_spec (align_mem (env_v7m e)) a MMU_DATA_STORE (run_idx e) e (ru_core L e He) (ru_mpu L e He) Ha) as Hl.
    unfold access_fault in Hf. rewrite Hf in Hl. destruct Hl as (k & -> & Hk & Hm & Hb). rewrite bind_Ok.
    by apply (fault_outcome _ _ _ _ _ _ f).
  - rewrite cpu_stl_pages by (done || apply He). apply end_outcome; [done..|]. by apply st_pages_end.
Qed.
(** An aligned word: one access of the TLB. *)
Lemma cpu_ldl_aligned a e : v7m_core (env_nvic e) → mpu_wf (mpu (NvicState.cpu (env_nvic e))) → is_u32 a → Z.land a 3 = 0 →
  mpu_allows (env_nvic e) (run_idx e) a MMU_DATA_LOAD = true →
  cpu_ldl a e =
    (x ← env_tlb_load 4 a (lookup_attrs (run_idx e)) e;
     mret match x with (e, Some v) => Returned e v | (e, None) => Raised e a AbortExternal end).
Proof.
  intros Hc Hw Ha Hal Hm. unfold cpu_ldl. rewrite core_arm_mmu_idx, bind_Ok by done. fold (run_idx e).
  destruct (lookup_decision (env_nvic e) a MMU_DATA_LOAD (run_idx e) (core_is_v7m _ Hc) Hw Ha) as (lg & p & fi & Hl & _).
  rewrite Hm in Hl. rewrite (ld4_aligned _ a _ e _ fi Hal Hl). done.
Qed.

Lemma cpu_stl_aligned a v e : v7m_core (env_nvic e) → mpu_wf (mpu (NvicState.cpu (env_nvic e))) → is_u32 a → Z.land a 3 = 0 →
  mpu_allows (env_nvic e) (run_idx e) a MMU_DATA_STORE = true →
  cpu_stl a v e =
    (x ← env_tlb_store 4 a v (lookup_attrs (run_idx e)) e;
     mret match x with (e, true) => Returned e tt | (e, false) => Raised e a AbortExternal end).
Proof.
  intros Hc Hw Ha Hal Hm. unfold cpu_stl. rewrite core_arm_mmu_idx, bind_Ok by done. fold (run_idx e).
  destruct (lookup_decision (env_nvic e) a MMU_DATA_STORE (run_idx e) (core_is_v7m _ Hc) Hw Ha) as (lg & p & fi & Hl & _).
  rewrite Hm in Hl. rewrite (st4_aligned _ a v _ e _ fi Hal Hl). done.
Qed.

End accesses.
