(* ===== verification/Secure.v ===== *)
(** The instructions of the Security extension (v8M) in
    qemu/target/arm/tcg/m_helper.c: BXNS, BLXNS, VLSTM, VLLDM and TT, and the
    Cortex-M33, the CPU model that has them.  The CPUs of the board do not. *)

From S2P Require Import Prelude Irq NvicState NvicCore NvicRead NvicPrio NvicInv NvicSpec CortexM Mpu MpuSpec CpuRegs CpuRegsSpec.
From S2P Require Import Exception CpuLdst ExceptionExit StackSpec DataAccess.

(** ** The Cortex-M33 *)

Definition cortex_m33_idregs (r : idreg) : Z :=
  match r with
  | ID_PFR0 => 0x00000030
  | ID_PFR1 => 0x00000210
  | ID_DFR0 => 0x00200000
  | ID_AFR0 => 0x00000000
  | ID_MMFR0 => 0x00101F40
  | ID_MMFR1 => 0x00000000
  | ID_MMFR2 => 0x01000000
  | ID_MMFR3 => 0x00000000
  | ID_ISAR0 => 0x01101110
  | ID_ISAR1 => 0x02212000
  | ID_ISAR2 => 0x20232232
  | ID_ISAR3 => 0x01111131
  | ID_ISAR4 => 0x01310132
  | ID_ISAR5 => 0x00000000
  | CLIDR => 0x00000000
  end.

(** v8 implies v7; there is no implementation-defined attribution unit. *)
Definition cortex_m33_initfn : CpuModel :=
  let mvfr0' := 0x10110021 in
  let mvfr1' := 0x11000011 in
  mk_CpuModel true true false true true true true true false
    (isar_feature_aa32_mve (cortex_m33_idregs ID_PFR1) mvfr1')
    (isar_feature_aa32_m_sec_state (cortex_m33_idregs ID_PFR1)) None
    (isar_feature_aa32_vfp_simd mvfr0')
    (isar_feature_aa32_ras (cortex_m33_idregs ID_PFR0))
    (isar_feature_aa32_fp16_arith (cortex_m33_idregs ID_PFR1) mvfr1')
    (isar_feature_aa32_lob (cortex_m33_idregs ID_ISAR0))
    0x410fd213 0 0x8000c000 (replicate 16 0) cortex_m33_idregs
    mvfr0' mvfr1' 0x00000040 16 8.

(** ** Branches between the security states *)

(** The instruction is executed, or left by a data abort of one of its accesses
    or by an exception. *)
Inductive helper_result (M : Type) :=
| Executed (e : CPUARMState M)
| Aborted (e : CPUARMState M) (addr : Z) (k : abort_kind)
| Trapped (e : CPUARMState M) (i : exception_index).
Arguments Executed {M}.
Arguments Aborted {M}.
Arguments Trapped {M}.

Section helpers.
Context {M : Type} `{AddressSpace M}.
Implicit Types e : CPUARMState M.

(** [control[M_REG_S] &= ~mask] and [|= mask]. *)
Definition control_s_clear (f : field) : V7M → V7M := fun m =>
  m <| control ::= fun c => bset true (Z.land (sec c) (not32 (field_mask f))) c |>.
Definition control_s_set (f : field) : V7M → V7M := fun m =>
  m <| control ::= fun c => bset true (Z.lor (sec c) (field_mask f)) c |>.

Definition v7m_bxns (dest : Z) (e : CPUARMState M) : outcome (helper_result M) :=
  let min_magic :=
    if FEATURE_M_SECURITY (env_model e) then FNC_RETURN_MIN_MAGIC else EXC_RETURN_MIN_MAGIC in
  if min_magic <=? dest then
    let e := set_reg 15 (Z.land dest (not32 1)) e in
    mret (Trapped (e <| thumb := has dest 1 |>) EXCP_EXCEPTION_EXIT)
  else
    assert_c (secure_state (env_v7m e));;
    let e := if negb (has dest 1) then upd_v7m (control_s_clear CONTROL_SFPA) e else e in
    let e := upd_v7m (switch_v7m_security_state (has dest 1)) e in
    let e := e <| thumb := true |> in
    mret (Executed (arm_rebuild_hflags (set_reg 15 (Z.land dest (not32 1)) e))).

(** The stores of the helpers, up to the first abort. *)
Fixpoint cpu_stores (l : list (Z * Z)) (mmu_idx : Z) (e : CPUARMState M) : outcome (cpu_result M ()) :=
  match l with
  | [] => mret (Returned e tt)
  | (a, v) :: l =>
    r ← cpu_stl_mmu a v mmu_idx e;
    match r with
    | Raised e a k => mret (Raised e a k)
    | Returned e _ => cpu_stores l mmu_idx e
    end
  end.

(** The switch to the Non-secure state after the frame has been pushed. *)
Definition blxns_enter (dest sp' : Z) (e : CPUARMState M) : CPUARMState M :=
  let e := set_reg 13 sp' e in
  let e := set_reg 14 0xfeffffff e in
  let e := if arm_v7m_is_handler_mode (env_v7m e) then upd_v7m (write_v7m_exception 1) e else e in
  let e := upd_v7m (control_s_clear CONTROL_SFPA) e in
  let e := upd_v7m (switch_v7m_security_state false) e in
  let e := e <| thumb := true |> in
  arm_rebuild_hflags (set_reg 15 dest e).

Definition v7m_blxns (dest : Z) (e : CPUARMState M) : outcome (helper_result M) :=
  let nextinst := Z.lor (get_reg e 15) 1 in
  let sp' := u32 (get_reg e 13 - 8) in
  assert_c (secure_state (env_v7m e));;
  if has dest 1 then
    let e := set_reg 14 nextinst e in
    let e := e <| thumb := true |> in
    mret (Executed (set_reg 15 (Z.land dest (not32 1)) e))
  else if sp' <? v7m_sp_limit (env_v7m e) then mret (Trapped e EXCP_STKOF)
  else
    let saved_psr :=
      if has (sec (control (env_v7m e))) (field_mask CONTROL_SFPA)
      then Z.lor (exception (env_v7m e)) XPSR_SFPA else exception (env_v7m e) in
    mmu_idx ← arm_mmu_idx e;
    r ← cpu_stores [(sp', nextinst); (u32 (sp' + 4), saved_psr)] mmu_idx e;
    mret match r with
         | Raised e a k => Aborted e a k
         | Returned e _ => Executed (blxns_enter dest sp' e)
         end.

(** ** The floating-point context across a call *)

(** The checks of VLSTM and VLLDM: [Some] when the instruction ends there. *)
Definition vlxxm_check (e : CPUARMState M) : option (helper_result M) :=
  let m := env_v7m e in
  if negb (has (sec (control m)) (field_mask CONTROL_SFPA)) then Some (Executed e)
  else if negb (v7m_cpacr_pass m true (negb (arm_current_el m =? 0))) then Some (Trapped e EXCP_NOCP)
  else None.

Definition v7m_vlstm (fptr : Z) (e : CPUARMState M) : outcome (helper_result M) :=
  let m := env_v7m e in
  let s := has (sec (fpccr m)) (field_mask FPCCR_S) in
  let lspact := has (bget (fpccr m) s) (field_mask FPCCR_LSPACT) in
  mmu_idx ← arm_mmu_idx e;
  assert_c (secure_state m);;
  match vlxxm_check e with
  | Some r => mret r
  | None =>
    if lspact then mret (Trapped e EXCP_LSERR)
    else if truth (Z.land fptr 7) then mret (Trapped e EXCP_UNALIGNED)
    else
      r ← (if negb (has (sec (fpccr m)) (field_mask FPCCR_LSPEN)) then
             let ts := has (sec (fpccr m)) (field_mask FPCCR_TS) in
             r ← cpu_stores (fp_words e fptr (if ts then 32 else 16) ++ fp_status_words e fptr) mmu_idx e;
             mret match r with
                  | Raised e a k => Aborted e a k
                  | Returned e _ => Executed (if ts then clear_fp 32 e else e)
                  end
           else e ← v7m_update_fpccr fptr false e; mret (Executed e));
      mret match r with
           | Executed e => Executed (upd_v7m (control_s_clear CONTROL_FPCA) e)
           | r => r
           end
  end.

(** The loop that loads the registers. *)
Fixpoint vlldm_loop (fptr mmu_idx : Z) (idxs : list Z) (e : CPUARMState M) : outcome (cpu_result M ()) :=
  match idxs with
  | [] => mret (Returned e tt)
  | n :: idxs =>
    let i := 2 * n in
    let faddr := u32 (fptr + 4 * i) in
    let faddr := if 16 <=? i then u32 (faddr + 8) else faddr in
    r ← cpu_ldl_mmu faddr mmu_idx e;
    match r with
    | Raised e a k => mret (Raised e a k)
    | Returned e slo =>
      r ← cpu_ldl_mmu (u32 (faddr + 4)) mmu_idx e;
      match r with
      | Raised e a k => mret (Raised e a k)
      | Returned e shi => vlldm_loop fptr mmu_idx idxs (set_dreg n (Z.lor (u64 (Z.shiftl shi 32)) slo) e)
      end
    end
  end.

(** The registers, FPSCR and VPR. *)
Definition vlldm_load (fptr mmu_idx : Z) (ts : bool) (e : CPUARMState M) : outcome (cpu_result M ()) :=
  r ← vlldm_loop fptr mmu_idx (seqZ 0 ((if ts then 32 else 16) / 2)) e;
  match r with
  | Raised e a k => mret (Raised e a k)
  | Returned e _ =>
    r ← cpu_ldl_mmu (u32 (fptr + 0x40)) mmu_idx e;
    match r with
    | Raised e a k => mret (Raised e a k)
    | Returned e fpscr =>
      let e := vfp_set_fpscr fpscr e in
      if aa32_mve (env_model e) then
        r ← cpu_ldl_mmu (u32 (fptr + 0x44)) mmu_idx e;
        mret match r with
             | Raised e a k => Raised e a k
             | Returned e v => Returned (upd_v7m (fun m => m <| vpr := v |>) e) tt
             end
      else mret (Returned e tt)
    end
  end.

Definition v7m_vlldm (fptr : Z) (e : CPUARMState M) : outcome (helper_result M) :=
  mmu_idx ← arm_mmu_idx e;
  assert_c (secure_state (env_v7m e));;
  match vlxxm_check e with
  | Some r => mret r
  | None =>
    let fpccr_s := sec (fpccr (env_v7m e)) in
    r ← (if has fpccr_s (field_mask FPCCR_LSPACT) then
           mret (Executed (upd_v7m (fun m => m <| fpccr ::= fun c =>
                   bset true (Z.land (sec c) (not32 (field_mask FPCCR_LSPACT))) c |>) e))
         else if truth (Z.land fptr 7) then mret (Trapped e EXCP_UNALIGNED)
         else
           r ← vlldm_load fptr mmu_idx (has fpccr_s (field_mask FPCCR_TS)) e;
           mret match r with
                | Raised e a k => Aborted e a k
                | Returned e _ => Executed e
                end);
    mret match r with
         | Executed e => Executed (upd_v7m (control_s_set CONTROL_FPCA) e)
         | r => r
         end
  end.

(** ** The TT instruction *)

(** Read and write permission and region of the target's MPU: [r], [rw],
    [mrvalid] and [mregion]. *)
Definition tt_mpu (addr mmu_idx : Z) (targetsec : bool) (e : CPUARMState M)
  : outcome (bool * bool * bool * Z) :=
  x ← pmsav8_mpu_lookup (env_nvic e) addr MMU_DATA_LOAD mmu_idx targetsec
        (mk_result 0 0 0 (mk_attrs false false));
  let '(_, res, _, mregion) := x in
  mret (has (prot res) PAGE_READ, has (prot res) PAGE_WRITE, bool_decide (is_Some mregion),
        default 0 mregion).

Definition tt_target (op : Z) (m : V7M) : bool * bool :=
  let targetsec := if has op 2 then negb (secure_state m) else secure_state m in
  let targetpriv :=
    if has op 1 then false
    else arm_v7m_is_handler_mode m || negb (has (bget (control m) targetsec) (field_mask CONTROL_NPRIV)) in
  (targetsec, targetpriv).

Definition v7m_tt (addr op : Z) (e : CPUARMState M) : outcome Z :=
  let alt := has op 2 in
  let '(targetsec, targetpriv) := tt_target op (env_v7m e) in
  mmu_idx ← arm_v7m_mmu_idx_for_secstate_and_priv (env_nvic e) targetsec targetpriv;
  x ← (if negb (arm_current_el (env_v7m e) =? 0) || alt then tt_mpu addr mmu_idx targetsec e
       else mret (false, false, false, 0));
  let '(r, rw, mrvalid, mregion) := x in
  let '(sattrs, nsr, nsrw) :=
    if secure_state (env_v7m e) then
      let sattrs := v8m_security_lookup (env_nvic e) addr MMU_DATA_LOAD targetsec in
      (sattrs, sa_ns sattrs && r, sa_ns sattrs && rw)
    else (sattrs_zero <| sa_ns := true |>, false, false) in
  mret (foldr Z.lor mregion
    [Z.shiftl (sa_iregion sattrs) 24; Z.shiftl (of_bool (sa_irvalid sattrs)) 23;
     Z.shiftl (of_bool (negb (sa_ns sattrs))) 22; Z.shiftl (of_bool nsrw) 21; Z.shiftl (of_bool nsr) 20;
     Z.shiftl (of_bool rw) 19; Z.shiftl (of_bool r) 18; Z.shiftl (of_bool (sa_srvalid sattrs)) 17;
     Z.shiftl (of_bool mrvalid) 16; Z.shiftl (sa_sregion sattrs) 8]).
End helpers.
