(* ===== verification/SecureSpec.v ===== *)
(** Theorems about the instructions of the Security extension: what a TT
    instruction reports of an address is what an access by Non-secure code would
    meet, a BLXNS call comes back to its caller, and VLSTM and VLLDM carry the
    floating-point registers over it. *)

From S2P Require Import Prelude Irq NvicState NvicCore NvicRead NvicPrio NvicInv NvicSpec CortexM Mpu MpuSpec CpuRegs CpuRegsSpec.
From S2P Require Import Exception CpuLdst ExceptionExit StackSpec DataAccess Secure.

(** ** The MPU of v8M *)

Lemma simple_ap_ok x is_user : ∃ p, simple_ap_to_rw_prot_is_user (extract32 x 1 2) is_user = Ok p.
Proof.
  pose proof (extract32_range x 1 2 ltac:(lia) ltac:(lia)) as H. unfold simple_ap_to_rw_prot_is_user.
  repeat match goal with |- context [if ?b then _ else _] => destruct b eqn:?; [by eexists|] end. lia.
Qed.

Lemma pmsav8_search_region m secure a regions r r' :
  Forall (fun n => 0 ≤ n < 256) regions → (∀ n, matchregion r = Some n → 0 ≤ n < 256) →
  pmsav8_search m secure a regions r = inl r' → ∀ n, matchregion r' = Some n → 0 ≤ n < 256.
Proof.
  revert r. induction regions as [|k regions IH]; intros r Hk Hr; [by intros [= <-]|].
  apply Forall_cons in Hk as [Hk Hl]. cbn [pmsav8_search]. cbv zeta.
  destruct (negb (has _ _)); [by apply IH|]. destruct (_ || _); [by apply IH|].
  destruct (matchregion r); [done|]. apply IH; [done|]. by intros ? [= <-].
Qed.

(** The lookup never fails an assertion, and the permissions it finds do not
    depend on the kind of access. *)
Lemma pmsav8_lookup s a idx secure : is_u32 a → pmsav7_dregion (model_of s) ≤ 256 →
  ∃ p lg fi mr, (∀ n, mr = Some n → 0 ≤ n < 256) ∧ ∀ t res,
    pmsav8_mpu_lookup s a t idx secure res =
    Ok (negb (has p (access_bit t)), mk_result a lg p (res_attrs res), fi, mr).
Proof.
  intros Ha Hd. unfold pmsav8_mpu_lookup. cbv zeta. set (scan := if regime_translation_disabled _ _ _ then _ else _).
  assert (Hs : ∀ r, scan = inl r → ∀ n, matchregion r = Some n → 0 ≤ n < 256).
  { subst scan. intros r. do 2 (case_if; [by intros [= <-]|]). apply pmsav8_search_region; [|done].
    apply Forall_rev, Forall_seqZ. lia. }
  clearbody scan. destruct scan as [r|lg]; [|by exists 0, lg, ARMFault_Permission, None].
  destruct (hit r); [|by exists 0, (v8_lg r), ARMFault_Background, None].
  cbn [negb]. specialize (Hs r eq_refl). destruct (matchregion r) as [n|].
  - destruct (simple_ap_ok (aget 0 (bget (rbar (mpu (cpu s))) secure) n) (regime_is_user idx)) as [p Hp].
    eexists _, (v8_lg r), _, _. split; [exact Hs|]. intros t res. rewrite Hp. reflexivity.
  - destruct (default_prot a Ha) as (p & Hp & _). exists p, (v8_lg r), ARMFault_Permission, None.
    split; [done|]. intros t res. by rewrite Hp.
Qed.

Lemma neg_prio_ok s secure : ∃ b, armv7m_nvic_neg_prio_requested s secure = Ok b.
Proof.
  unfold armv7m_nvic_neg_prio_requested, exc_targets_secure. repeat case_if; by eexists.
Qed.

Lemma mmu_idx_state s secure priv : ∃ idx,
  arm_v7m_mmu_idx_for_secstate_and_priv s secure priv = Ok idx ∧ arm_mmu_idx_to_security_space idx = secure.
Proof.
  unfold arm_v7m_mmu_idx_for_secstate_and_priv. destruct (neg_prio_ok s secure) as [b ->].
  eexists. split; [by rewrite bind_Ok|]. by destruct secure, priv, b.
Qed.

(** ** The TT instruction *)

Lemma sau_attrs_range s a t secure : 
  let sa := v8m_security_lookup s a t secure in in_range 8 (sa_sregion sa).
Proof.
  cbv zeta. unfold v8m_security_lookup. cbv zeta. case_if; [done|]. case_if; [done|].
  set (x := if negb _ then _ else _).
  assert (Hx : in_range 8 (sa_sregion x)) by (subst x; by case_if). clearbody x.
  set (y := if _ =? 0 then _ else _).
  assert (Hy : in_range 8 (sa_sregion y)).
  { subst y. case_if; [done|]. case_if; [done|]. clear -Hx. revert x Hx.
    induction (seqZ 0 (sau_sregion (model_of s))) as [|k l IH]; intros x Hx; [done|].
    cbn [sau_search]. cbv zeta. case_if; [by apply IH|]. case_if; [|apply IH; by case_if].
    set (z := if _ || _ then _ else _). assert (Hz : in_range 8 (sa_sregion z)) by (subst z; by case_if).
    clearbody z. case_if; [done|]. apply IH. apply wrap_range. lia. }
  clearbody y. by case_if.
Qed.

(** The kinds of data access have the same attribution. *)
Lemma sau_data_access s a secure :
  v8m_security_lookup s a MMU_DATA_STORE secure = v8m_security_lookup s a MMU_DATA_LOAD secure.
Proof. reflexivity. Qed.

(** The bit of the response for a Non-secure load or store. *)
Definition tt_ns_bit (t : MMUAccessType) : Z := match t with MMU_DATA_STORE => 21 | _ => 20 end.

Lemma tt_response_bit (i m : Z) (iv ns nsrw nsr rw r sv mv : bool) (sr : Z) :
  in_range 8 sr → in_range 8 m → let x := foldr Z.lor m
    [Z.shiftl i 24; Z.shiftl (of_bool iv) 23; Z.shiftl (of_bool ns) 22; Z.shiftl (of_bool nsrw) 21;
     Z.shiftl (of_bool nsr) 20; Z.shiftl (of_bool rw) 19; Z.shiftl (of_bool r) 18;
     Z.shiftl (of_bool sv) 17; Z.shiftl (of_bool mv) 16; Z.shiftl sr 8] in
  Z.testbit x 20 = nsr ∧ Z.testbit x 21 = nsrw.
Proof.
  intros Hs Hm. cbn [foldr]. cbv zeta. rewrite !Z.lor_spec, !Z.shiftl_spec by done.
  rewrite !(testbit_above 8 m), !(testbit_above 8 sr) by (done || lia).
  rewrite !(Z.testbit_neg_r i) by done.
  destruct iv, ns, nsrw, nsr, rw, r, sv, mv; done.
Qed.

(** TT with the A option, executed by Secure code.  It always returns, and two
    bits of the response tell exactly whether Non-secure code, with the
    privilege it has now (or without privilege, with the T option), may load and
    store at the address: whether the attribution unit leaves it the address and
    the Non-secure MPU allows the access. *)
Lemma tt_nonsecure_access {M} `{AddressSpace M} (e : CPUARMState M) addr op :
  FEATURE_V8 (env_model e) = true → FEATURE_M_SECURITY (env_model e) = true →
  pmsav7_dregion (env_model e) ≤ 256 → secure_state (env_v7m e) = true → has op 2 = true → is_u32 addr →
  ∃ idx resp,
    arm_v7m_mmu_idx_for_secstate_and_priv (env_nvic e) false (tt_target op (env_v7m e)).2 = Ok idx ∧
    v7m_tt addr op e = Ok resp ∧
    ∀ t, t ≠ MMU_INST_FETCH → ∃ r fi,
      get_phys_addr (env_nvic e) addr t idx = Ok (negb (Z.testbit resp (tt_ns_bit t)), r, fi).
Proof.
  intros H8 Hsec Hd Hs Hop Ha. unfold v7m_tt.
  replace (tt_target op (env_v7m e)) with (false, (tt_target op (env_v7m e)).2)
    by (unfold tt_target; by rewrite Hop, Hs).
  set (priv := (tt_target op (env_v7m e)).2). cbn [snd].
  destruct (mmu_idx_state (env_nvic e) false priv) as (idx & Hidx & Hspace).
  exists idx. rewrite Hidx, bind_Ok, Hop, orb_true_r, Hs. unfold tt_mpu.
  destruct (pmsav8_lookup (env_nvic e) addr idx false Ha Hd) as (p & lg & fi & mr & Hmr & Hl).
  rewrite Hl, !bind_Ok. cbn [prot]. eexists. split; [done|]. split; [reflexivity|].
  intros t Ht. set (sa := v8m_security_lookup (env_nvic e) addr MMU_DATA_LOAD false).
  match goal with |- context [Z.testbit ?x (tt_ns_bit t)] => assert (Hb :
    Z.testbit x (tt_ns_bit t) = sa_ns sa && has p (access_bit t)) end.
  { destruct (tt_response_bit (sa_iregion sa) (default 0 mr) (sa_irvalid sa) (negb (sa_ns sa))
      (sa_ns sa && has p PAGE_WRITE) (sa_ns sa && has p PAGE_READ) (has p PAGE_WRITE) (has p PAGE_READ)
      (sa_srvalid sa) (bool_decide (is_Some mr)) (sa_sregion sa)) as [H20 H21].
    - apply sau_attrs_range.
    - destruct mr as [n|]; [|done]. by apply (Hmr n).
    - destruct t; [exact H20|exact H21|done]. }
  rewrite Hb. clear Hb. unfold get_phys_addr. cbv zeta. rewrite Hspace.
  change (model_of (env_nvic e)) with (env_model e). rewrite H8, (wrap_small 32) by done.
  unfold get_phys_addr_pmsav8. cbv zeta. change (model_of (env_nvic e)) with (env_model e).
  rewrite Hsec, bool_decide_false by done.
  replace (v8m_security_lookup (env_nvic e) addr t false) with sa by (by destruct t).
  destruct (sa_ns sa); cbn [andb negb]; [|by do 2 eexists].
  rewrite Hl, bind_Ok. by do 2 eexists.
Qed.

(** ** The stack pointers across a call *)

Lemma using_psp_eq m m' :
  (exception m =? 0) = (exception m' =? 0) → secure_state m = secure_state m' →
  Z.testbit (bget (control m) (secure_state m')) 1 = Z.testbit (bget (control m') (secure_state m')) 1 →
  v7m_using_psp m = v7m_using_psp m'.
Proof.
  intros He Hs Hc. unfold v7m_using_psp, arm_v7m_is_handler_mode. rewrite He, Hs.
  change (field_mask CONTROL_SPSEL) with (bit 1). by rewrite !has_bit, Hc.
Qed.

(** Changing bits of CONTROL_S other than SPSEL, or the number of the exception
    within the mode, moves no stack pointer. *)
Lemma bank_sp_control m f secure' psp :
  Z.testbit (bget (f (control m)) (secure_state m)) 1 = Z.testbit (bget (control m) (secure_state m)) 1 →
  bank_sp (m <| control ::= f |>) secure' psp = bank_sp m secure' psp.
Proof. intros Hc. apply bank_swap; [done..|]. left. split; [|done]. by apply using_psp_eq. Qed.

Lemma bank_sp_exception m x secure' psp : (x =? 0) = (exception m =? 0) →
  bank_sp (m <| exception := x |>) secure' psp = bank_sp m secure' psp.
Proof. intros Hx. apply bank_swap; [done..|]. left. split; [|done]. by apply using_psp_eq. Qed.

(** [blxns_enter] on the state of [env->v7m]. *)
Definition enter_nonsecure (sp' : Z) (m : V7M) : V7M :=
  let m := m <| sp := sp' |> in
  let m := if arm_v7m_is_handler_mode m then write_v7m_exception 1 m else m in
  switch_v7m_security_state false (control_s_clear CONTROL_SFPA m).

Lemma switch_state_fields b m : let m' := switch_v7m_security_state b m in
  secure_state m' = b ∧ exception m' = exception m ∧ control m' = control m.
Proof.
  cbv zeta. unfold switch_v7m_security_state. destruct (eqb _ _) eqn:E.
  - by apply eqb_prop in E.
  - cbv zeta. destruct (v7m_using_psp m); (match goal with |- context [v7m_using_psp ?x] => destruct (v7m_using_psp x) end); done.
Qed.

Lemma enter_nonsecure_spec sp' m : secure_state m = true → let m' := enter_nonsecure sp' m in
  secure_state m' = false ∧ exception m' = of_bool (arm_v7m_is_handler_mode m) ∧
  Z.testbit (sec (control m')) 1 = Z.testbit (sec (control m)) 1 ∧
  (∀ secure' psp, bank_sp m' secure' psp =
     if secure' && eqb psp (v7m_using_psp m) then sp' else bank_sp m secure' psp).
Proof.
  intros Hs. cbv zeta. unfold enter_nonsecure. cbv zeta. set (m0 := m <| sp := sp' |>).
  set (m1 := if arm_v7m_is_handler_mode m0 then _ else m0).
  assert (H1 : secure_state m1 = true ∧ exception m1 = of_bool (arm_v7m_is_handler_mode m) ∧ control m1 = control m ∧
    ∀ secure' psp, bank_sp m1 secure' psp = bank_sp m0 secure' psp).
  { subst m1. change (arm_v7m_is_handler_mode m0) with (arm_v7m_is_handler_mode m).
    destruct (arm_v7m_is_handler_mode m) eqn:Eh.
    - destruct (write_exception_fields 1 m0) as (A & B & C & D & E & _ & F). split_and!; [by rewrite A|done|by rewrite D|].
      by apply bank_swap.
    - unfold arm_v7m_is_handler_mode in Eh. split_and!; [done|cbn; lia|done..]. }
  destruct H1 as (A & B & C & D). clearbody m1.
  destruct (switch_state_fields false (control_s_clear CONTROL_SFPA m1)) as (E & F & G).
  split_and!; [done|by rewrite F|rewrite G; unfold control_s_clear; cbn; rewrite Z.land_spec, C, not32_spec by done; by rewrite andb_true_r|].
  intros secure' psp. rewrite switch_state_banks. unfold control_s_clear. rewrite bank_sp_control, D.
  - unfold m0. rewrite bank_sp_r13, Hs. by destruct secure'.
  - rewrite A. cbn. rewrite Z.land_spec, not32_spec by done. by rewrite andb_true_r.
Qed.

(** ** A call to Non-secure code *)

Section call.
Context {M : Type} `{WordMemory M}.
Implicit Types e : CPUARMState M.

(** An aligned word that the lookup lets an access reach. *)
Definition permits (s : NVICState) (idx a : Z) (t : MMUAccessType) : Prop :=
  Z.land a 3 = 0 ∧ ∃ r fi, get_phys_addr s a t idx = Ok (false, r, fi) ∧ phys_addr r = a.

Lemma stl_mmu_word a v idx e : writable a → is_u32 v → permits (env_nvic e) idx a MMU_DATA_STORE →
  cpu_stl_mmu a v idx e = Ok (Returned (e <| mem ::= put_word a v |>) tt).
Proof.
  intros Ha Hv (Hal & r & fi & Hg & Hr). unfold cpu_stl_mmu.
  rewrite (st4_aligned true a v idx e r fi Hal Hg), Hr. unfold env_tlb_store.
  rewrite store_word by (done || by apply aligned_mod). by rewrite !bind_Ok, env_mem_id.
Qed.

Lemma ldl_mmu_word a idx e : readable a → permits (env_nvic e) idx a MMU_DATA_LOAD →
  cpu_ldl_mmu a idx e = Ok (Returned e (word_at (mem e) a)).
Proof.
  intros Ha (Hal & r & fi & Hg & Hr). unfold cpu_ldl_mmu.
  rewrite (ld4_aligned true a idx e r fi Hal Hg), Hr. unfold env_tlb_load.
  rewrite load_word by (done || by apply aligned_mod). rewrite !bind_Ok. by destruct e.
Qed.

(** The two words a call pushes: the return address, and the number of the
    exception with SFPA. *)
Definition call_frame (e : CPUARMState M) : Z := u32 (get_reg e 13 - 8).
Definition call_psr (m : V7M) : Z :=
  if has (sec (control m)) (field_mask CONTROL_SFPA) then Z.lor (exception m) XPSR_SFPA else exception m.

Record callable e (idx : Z) : Prop := {
  cl_secure : secure_state (env_v7m e) = true;
  cl_limit : v7m_sp_limit (env_v7m e) ≤ call_frame e;
  cl_sp : is_u32 (get_reg e 13);
  cl_pc : is_u32 (get_reg e 15);
  cl_exc : 0 ≤ exception (env_v7m e) < 512;
  cl_len : alen (regs e) = 16;
  cl_idx : arm_mmu_idx e = Ok idx;
  cl_writable : writable (call_frame e) ∧ writable (u32 (call_frame e + 4));
  cl_permits : permits (env_nvic e) idx (call_frame e) MMU_DATA_STORE ∧
    permits (env_nvic e) idx (u32 (call_frame e + 4)) MMU_DATA_STORE
}.

(** What Non-secure code cannot change: the Secure stack pointers and SPSEL, the
    number of the exception, and the Secure words of the frame.  It has ended
    with a branch to the value it got in lr. *)
Record came_back e1 e2 (frame idx : Z) : Prop := {
  cb_model : FEATURE_M_SECURITY (env_model e2) = true;
  cb_state : secure_state (env_v7m e2) = false;
  cb_exc : exception (env_v7m e2) = exception (env_v7m e1);
  cb_sp psp : bank_sp (env_v7m e2) true psp = bank_sp (env_v7m e1) true psp;
  cb_spsel : Z.testbit (sec (control (env_v7m e2))) 1 = Z.testbit (sec (control (env_v7m e1))) 1;
  cb_pc : get_reg e2 15 = Z.land (get_reg e1 14) (not32 1);
  cb_len : alen (regs e2) = 16;
  cb_idx : arm_v7m_mmu_idx_for_secstate (env_nvic e2) true = Ok idx;
  cb_words : word_at (mem e2) frame = word_at (mem e1) frame ∧
    word_at (mem e2) (u32 (frame + 4)) = word_at (mem e1) (u32 (frame + 4));
  cb_permits : permits (env_nvic e2) idx frame MMU_DATA_LOAD ∧
    permits (env_nvic e2) idx (u32 (frame + 4)) MMU_DATA_LOAD
}.

Lemma call_psr_range m : 0 ≤ exception m < 512 → is_u32 (call_psr m).
Proof.
  intros Hx. unfold call_psr. case_if; [apply lor_range; [lia| |done]|]; unfold is_u32, in_range; lia.
Qed.

Lemma call_psr_parts m : 0 ≤ exception m < 512 →
  Z.land (call_psr m) XPSR_EXCP = exception m ∧
  has (call_psr m) XPSR_SFPA = Z.testbit (sec (control m)) 3.
Proof.
  intros Hx. unfold call_psr. change XPSR_SFPA with (bit 20). change (field_mask CONTROL_SFPA) with (bit 3).
  assert (Hr : in_range 9 (exception m)) by (unfold in_range; lia).
  rewrite (has_bit _ 3), has_bit by done. change XPSR_EXCP with (Z.ones 9).
  rewrite Z.land_ones by done. destruct (Z.testbit _ 3).
  - rewrite Z.lor_spec, bit_spec, (testbit_above 9 (exception m)) by (done || lia). split; [|done].
    change (wrap 9 (Z.lor (exception m) (bit 20)) = exception m).
    apply Z.bits_inj'. intros i Hi. rewrite wrap_spec, Z.lor_spec, bit_spec by lia.
    destruct (Z.ltb_spec i 9); [|by rewrite (testbit_above 9)].
    rewrite (proj2 (Z.eqb_neq 20 i)) by lia. by rewrite orb_false_r.
  - rewrite (testbit_above 9) by (done || lia). split; [|done]. apply Z.mod_small. lia.
Qed.

Lemma enter_env dest f e : let e1 := blxns_enter dest f e in
  env_v7m e1 = enter_nonsecure f (env_v7m e) ∧ mem e1 = mem e ∧
  regs e1 = aset (aset (regs e) 14 0xfeffffff) 15 dest.
Proof.
  cbv zeta. unfold blxns_enter, enter_nonsecure. cbv zeta.
  set (e0 := set_reg 14 _ _). set (m0 := (env_v7m e) <| sp := f |>).
  change (env_v7m e0) with m0. by destruct (arm_v7m_is_handler_mode m0).
Qed.

(** The memory after the frame has been pushed. *)
Definition call_memory (e : CPUARMState M) : M :=
  put_word (u32 (call_frame e + 4)) (call_psr (env_v7m e))
    (put_word (call_frame e) (Z.lor (get_reg e 15) 1) (mem e)).

Lemma blxns_call dest idx e : callable e idx → has dest 1 = false →
  v7m_blxns dest e = Ok (Executed (blxns_enter dest (call_frame e) (e <| mem := call_memory e |>))).
Proof.
  intros Hc Hd. unfold v7m_blxns. cbv zeta. rewrite (cl_secure _ _ Hc). cbn [assert_c]. rewrite bind_Ok, Hd.
  fold (call_frame e). rewrite (proj2 (Z.ltb_ge _ _) (cl_limit _ _ Hc)). fold (call_psr (env_v7m e)).
  rewrite (cl_idx _ _ Hc), bind_Ok. cbn [cpu_stores].
  destruct (cl_writable _ _ Hc), (cl_permits _ _ Hc).
  rewrite stl_mmu_word, bind_Ok, stl_mmu_word, !bind_Ok; try done.
  - apply call_psr_range, Hc.
  - apply lor_range; [lia|apply Hc|done].
Qed.

Lemma call_words e idx : callable e idx →
  word_at (call_memory e) (call_frame e) = Z.lor (get_reg e 15) 1 ∧
  word_at (call_memory e) (u32 (call_frame e + 4)) = call_psr (env_v7m e).
Proof.
  intros Hc. destruct (cl_writable _ _ Hc) as [W1 W2]. unfold call_memory.
  pose proof (writable_readable _ W1). pose proof (writable_readable _ W2).
  pose proof (call_psr_range _ (cl_exc _ _ Hc)).
  assert (Hpc : is_u32 (Z.lor (get_reg e 15) 1)) by (apply lor_range; [lia|apply Hc|done]).
  assert (Hne : u32 (call_frame e + 4) ≠ call_frame e).
  { unfold call_frame. set (x := get_reg e 13 - 8). unfold u32, wrap.
    rewrite Zplus_mod_idemp_l. intros Heq.
    assert (Hz : (x + 4 - x) mod 2 ^ 32 = 0) by (rewrite Zminus_mod, Heq, Z.sub_diag; done).
    replace (x + 4 - x) with 4 in Hz by lia. done. }
  split.
  - rewrite word_put by done. rewrite (proj2 (Z.eqb_neq _ _) Hne), word_put by done. by rewrite Z.eqb_refl.
  - rewrite word_put by done. by rewrite Z.eqb_refl.
Qed.

(** The state of [env->v7m] after the return. *)
Definition back_to_secure (psr frame : Z) (m : V7M) : V7M :=
  let p := arm_v7m_get_sp_ptr m true (negb (arm_v7m_is_handler_mode m))
             (has (sec (control m)) (field_mask CONTROL_SPSEL)) in
  let m := switch_v7m_security_state true (store_sp p (u32 (frame + 8)) m) in
  let m := m <| exception := Z.land psr XPSR_EXCP |> in
  m <| control ::= fun c => bset true
         (let x := Z.land (sec c) (not32 (field_mask CONTROL_SFPA)) in
          if has psr XPSR_SFPA then Z.lor x (field_mask CONTROL_SFPA) else x) c |>.

Lemma function_return_eq psr pc idx frame e :
  let m := env_v7m e in
  load_sp m (arm_v7m_get_sp_ptr m true (negb (arm_v7m_is_handler_mode m))
               (has (sec (control m)) (field_mask CONTROL_SPSEL))) = frame →
  exception m = of_bool (negb (Z.land psr XPSR_EXCP =? 0)) →
  arm_v7m_mmu_idx_for_secstate (env_nvic e) true = Ok idx →
  cpu_ldl_mmu frame idx e = Ok (Returned e pc) → cpu_ldl_mmu (u32 (frame + 4)) idx e = Ok (Returned e psr) →
  ∃ e', do_v7m_function_return e = Ok (Returned e' true) ∧ env_v7m e' = back_to_secure psr frame m ∧
    mem e' = mem e ∧ regs e' = aset (regs e) 15 (Z.land pc (not32 1)) ∧ thumb e' = has pc 1.
Proof.
  cbv zeta. intros Hf Hx Hidx Hl1 Hl2. unfold do_v7m_function_return. cbv zeta.
  rewrite Hf, Hidx, bind_Ok, Hl1, bind_Ok, Hl2, bind_Ok, Hx.
  destruct (Z.land psr XPSR_EXCP =? 0); cbn [negb of_bool Z.eqb andb orb];
    (eexists; split; [reflexivity|]; done).
Qed.

Lemma back_to_secure_spec psr frame m :
  (Z.land psr XPSR_EXCP =? 0) = (exception m =? 0) → let m' := back_to_secure psr frame m in
  secure_state m' = true ∧ exception m' = Z.land psr XPSR_EXCP ∧
  Z.testbit (sec (control m')) 1 = Z.testbit (sec (control m)) 1 ∧
  Z.testbit (sec (control m')) 3 = has psr XPSR_SFPA ∧
  (∀ secure' psp, bank_sp m' secure' psp =
     if secure' && eqb psp (negb (arm_v7m_is_handler_mode m) && Z.testbit (sec (control m)) 1)
     then u32 (frame + 8) else bank_sp m secure' psp).
Proof.
  intros Hx. cbv zeta. unfold back_to_secure. cbv zeta.
  change (field_mask CONTROL_SPSEL) with (bit 1). rewrite has_bit by done.
  set (p := arm_v7m_get_sp_ptr _ _ _ _). set (m1 := store_sp p (u32 (frame + 8)) m).
  assert (H1 : exception m1 = exception m ∧ control m1 = control m) by (subst m1; by destruct p).
  destruct H1 as [X1 C1].
  destruct (switch_state_fields true m1) as (S2 & X2 & C2). set (m2 := switch_v7m_security_state true m1) in *.
  assert (B2 : ∀ secure' psp, bank_sp m2 secure' psp = bank_sp m1 secure' psp)
    by (intros; apply switch_state_banks). clearbody m2.
  set (g := fun x => let y := Z.land x (not32 (field_mask CONTROL_SFPA)) in
         if has psr XPSR_SFPA then Z.lor y (field_mask CONTROL_SFPA) else y).
  assert (G1 : ∀ x, Z.testbit (g x) 1 = Z.testbit x 1).
  { intros x. unfold g. cbv zeta. case_if; rewrite ?Z.lor_spec, Z.land_spec, not32_spec by done;
      by destruct (Z.testbit x 1). }
  assert (G3 : ∀ x, Z.testbit (g x) 3 = has psr XPSR_SFPA).
  { intros x. unfold g. cbv zeta. case_if; rewrite ?Z.lor_spec, Z.land_spec, not32_spec by done;
      by destruct (Z.testbit x 3). }
  split_and!; [exact S2|done| | |].
  - cbn. fold (g (sec (control m2))). by rewrite G1, C2, C1.
  - cbn. fold (g (sec (control m2))). apply G3.
  - intros secure' psp. rewrite bank_sp_control, bank_sp_exception, B2.
    + unfold m1, p. rewrite store_sp_bank. by destruct secure'.
    + by rewrite X2, X1.
    + cbn. rewrite S2. cbn. fold (g (sec (control m2))). apply G1.
Qed.

Lemma using_psp_secure m : secure_state m = true →
  v7m_using_psp m = negb (arm_v7m_is_handler_mode m) && Z.testbit (sec (control m)) 1.
Proof.
  intros Hs. unfold v7m_using_psp. rewrite Hs. change (field_mask CONTROL_SPSEL) with (bit 1).
  by rewrite has_bit.
Qed.

Lemma call_frame_end e : is_u32 (get_reg e 13) → u32 (call_frame e + 8) = get_reg e 13.
Proof.
  intros Hs. unfold call_frame, u32, wrap. rewrite Zplus_mod_idemp_l, Z.sub_add. by apply Z.mod_small.
Qed.

Lemma land_lor_bit0 x : Z.land (Z.lor x 1) (not32 1) = Z.land x (not32 1).
Proof.
  rewrite Z.land_lor_distr_l. by rewrite Z.lor_0_r.
Qed.

Lemma bank_sp_now m : sp m = bank_sp m (secure_state m) (v7m_using_psp m).
Proof. by rewrite bank_sp_eq, !eqb_reflx. Qed.

(** What is known of the state at the return. *)
Lemma returning dest idx idx2 e e2 : callable e idx →
  came_back (blxns_enter dest (call_frame e) (e <| mem := call_memory e |>)) e2 (call_frame e) idx2 →
  let m := env_v7m e2 in
  arm_v7m_is_handler_mode m = arm_v7m_is_handler_mode (env_v7m e) ∧
  Z.testbit (sec (control m)) 1 = Z.testbit (sec (control (env_v7m e))) 1 ∧
  exception m = of_bool (negb (exception (env_v7m e) =? 0)) ∧
  get_reg e2 15 = 0xfefffffe ∧
  (∀ psp, bank_sp m true psp =
     if eqb psp (v7m_using_psp (env_v7m e)) then call_frame e else bank_sp (env_v7m e) true psp) ∧
  cpu_ldl_mmu (call_frame e) idx2 e2 = Ok (Returned e2 (Z.lor (get_reg e 15) 1)) ∧
  cpu_ldl_mmu (u32 (call_frame e + 4)) idx2 e2 = Ok (Returned e2 (call_psr (env_v7m e))).
Proof.
  intros Hc Hb. cbv zeta. destruct (enter_env dest (call_frame e) (e <| mem := call_memory e |>)) as (Hv & Hm & Hr).
  destruct (enter_nonsecure_spec (call_frame e) (env_v7m e) (cl_secure _ _ Hc)) as (_ & Hx & Hsel & Hbank).
  set (e1 := blxns_enter _ _ _) in *. change (env_v7m (e <| mem := _ |>)) with (env_v7m e) in Hv.
  destruct (call_words e idx Hc) as [W1 W2]. destruct (cb_words _ _ _ _ Hb) as [V1 V2].
  destruct (cl_writable _ _ Hc) as [R1%writable_readable R2%writable_readable].
  destruct (cb_permits _ _ _ _ Hb) as [P1 P2]. pose proof (cl_len _ _ Hc) as Hlen.
  rewrite <- Hv in Hx, Hsel. rewrite Hm in V1, V2.
  assert (Hx' : exception (env_v7m e2) = of_bool (negb (exception (env_v7m e) =? 0))) by (rewrite (cb_exc _ _ _ _ Hb); exact Hx).
  split_and!.
  - unfold arm_v7m_is_handler_mode. rewrite Hx'. by destruct (exception (env_v7m e) =? 0).
  - rewrite (cb_spsel _ _ _ _ Hb). exact Hsel.
  - exact Hx'.
  - rewrite (cb_pc _ _ _ _ Hb). unfold get_reg. rewrite Hr. cbn [Z.eqb Pos.eqb regs].
    rewrite aget_aset_ne, aget_aset_eq; [done| |lia]. change (regs (e <| mem := _ |>)) with (regs e). lia.
  - intros psp. rewrite (cb_sp _ _ _ _ Hb), Hv, Hbank. done.
  - rewrite ldl_mmu_word by done. rewrite V1. by change (mem (e <| mem := ?x |>)) with x; rewrite W1.
  - rewrite ldl_mmu_word by done. rewrite V2. by change (mem (e <| mem := ?x |>)) with x; rewrite W2.
Qed.

(** C35.  A call to Non-secure code comes back.  BLXNS with an even address pushes the
    return address and the state of the caller on its Secure stack and continues
    at the address in the Non-secure state, where the number of the exception is
    hidden (1 in a handler) and lr holds the magic value; the other stack
    pointers do not move.  Whatever runs then, if it leaves the Secure state
    alone and branches to the value in lr, the caller continues after the BLXNS
    in the Secure state, with its mode, the number of its exception, SFPA and its
    stack pointers as before the call; the Non-secure stack pointers, the other
    registers and the memory are those the callee left. *)
Theorem secure_call_round_trip dest idx e : callable e idx → has dest 1 = false →
  ∃ e1, v7m_blxns dest e = Ok (Executed e1) ∧
    (secure_state (env_v7m e1) = false ∧ get_reg e1 15 = dest ∧ get_reg e1 14 = 0xfeffffff ∧
     exception (env_v7m e1) = of_bool (arm_v7m_is_handler_mode (env_v7m e)) ∧
     ∀ psp, bank_sp (env_v7m e1) false psp = bank_sp (env_v7m e) false psp) ∧
    ∀ idx2 e2 semihost x, came_back e1 e2 (call_frame e) idx2 →
    ∃ e3, arm_v7m_cpu_do_interrupt semihost EXCP_EXCEPTION_EXIT x e2 = Ok (Returned e3 tt) ∧
      secure_state (env_v7m e3) = true ∧ get_reg e3 15 = Z.land (get_reg e 15) (not32 1) ∧ thumb e3 = true ∧
      exception (env_v7m e3) = exception (env_v7m e) ∧
      Z.testbit (sec (control (env_v7m e3))) 3 = Z.testbit (sec (control (env_v7m e))) 3 ∧
      get_reg e3 13 = get_reg e 13 ∧
      (∀ psp, bank_sp (env_v7m e3) true psp = bank_sp (env_v7m e) true psp) ∧
      (∀ psp, bank_sp (env_v7m e3) false psp = bank_sp (env_v7m e2) false psp) ∧
      (∀ r, r ≠ 13 → r ≠ 15 → get_reg e3 r = get_reg e2 r) ∧ mem e3 = mem e2.
Proof.
  intros Hc Hd. eexists. split; [exact (blxns_call dest idx e Hc Hd)|].
  destruct (enter_env dest (call_frame e) (e <| mem := call_memory e |>)) as (Hv & _ & Hr).
  change (env_v7m (e <| mem := _ |>)) with (env_v7m e) in Hv. change (regs (e <| mem := _ |>)) with (regs e) in Hr.
  destruct (enter_nonsecure_spec (call_frame e) (env_v7m e) (cl_secure _ _ Hc)) as (Hs1 & Hx1 & _ & Hb1).
  pose proof (cl_len _ _ Hc) as Hlen. split.
  { rewrite Hv. split_and!; [done| | |done|intros psp; by rewrite Hb1]; unfold get_reg; rewrite Hr; cbn [Z.eqb Pos.eqb].
    - rewrite aget_aset_eq; [done|]. rewrite alen_aset. lia.
    - rewrite aget_aset_ne, aget_aset_eq by lia. done. }
  intros idx2 e2 semihost x Hb.
  destruct (returning dest idx idx2 e e2 Hc Hb) as (Hh & Hsel & Hx & Hpc & Hbank & L1 & L2).
  destruct (call_psr_parts (env_v7m e) (cl_exc _ _ Hc)) as [Hpx Hpf].
  pose proof (using_psp_secure _ (cl_secure _ _ Hc)) as Hu.
  destruct (function_return_eq (call_psr (env_v7m e)) (Z.lor (get_reg e 15) 1) idx2 (call_frame e) e2)
    as (e3 & Hret & Hv3 & Hm3 & Hr3 & Ht3); [| |apply (cb_idx _ _ _ _ Hb)|done..|].
  { change (load_sp _ _) with (bank_sp (env_v7m e2) true (negb (arm_v7m_is_handler_mode (env_v7m e2)) &&
      has (sec (control (env_v7m e2))) (field_mask CONTROL_SPSEL))).
    change (field_mask CONTROL_SPSEL) with (bit 1). rewrite has_bit, Hbank, Hh, Hsel, Hu by done. by rewrite eqb_reflx. }
  { by rewrite Hpx. }
  destruct (back_to_secure_spec (call_psr (env_v7m e)) (call_frame e) (env_v7m e2)) as (B1 & B2 & B3 & B4 & B5).
  { rewrite Hpx, Hx. by destruct (exception (env_v7m e) =? 0). }
  rewrite <- Hv3 in B1, B2, B3, B4. rewrite Hpx in B2. rewrite Hpf in B4. rewrite Hsel in B3.
  assert (Hu3 : v7m_using_psp (env_v7m e3) = v7m_using_psp (env_v7m e)).
  { rewrite Hu, using_psp_secure by done. unfold arm_v7m_is_handler_mode. by rewrite B2, B3. }
  assert (Hsp3 : ∀ psp, bank_sp (env_v7m e3) true psp = bank_sp (env_v7m e) true psp).
  { intros psp. rewrite Hv3, B5, Hh, Hsel, <- Hu, Hbank. cbn [andb].
    destruct (eqb psp _) eqn:E; [|done]. apply eqb_prop in E as ->.
    rewrite <- (cl_secure _ _ Hc), <- bank_sp_now. apply call_frame_end, (cl_sp _ _ Hc). }
  exists e3. split; [|split_and!; try done].
  - unfold arm_v7m_cpu_do_interrupt, pend_exception. cbv zeta. rewrite Hpc, (cb_model _ _ _ _ Hb).
    change (0xfefffffe <? EXC_RETURN_MIN_MAGIC) with true. cbv iota.
    change (assert_c (FNC_RETURN_MIN_MAGIC <=? 0xfefffffe)) with (Ok (A := ()) ()).
    change (assert_c true) with (Ok (A := ()) ()). by rewrite !bind_Ok, Hret, bind_Ok.
  - unfold get_reg at 1. cbn [Z.eqb Pos.eqb]. rewrite Hr3, aget_aset_eq by (rewrite (cb_len _ _ _ _ Hb); lia).
    apply land_lor_bit0.
  - rewrite Ht3. change 1 with (bit 0) at 2. rewrite has_bit, Z.lor_spec by done. by rewrite orb_true_r.
  - unfold get_reg. cbn [Z.eqb Pos.eqb]. by rewrite (bank_sp_now (env_v7m e3)), B1, Hu3, Hsp3, <- (cl_secure _ _ Hc), <- bank_sp_now.
  - intros psp. by rewrite Hv3, B5.
  - intros r H13 H15. unfold get_reg. rewrite (proj2 (Z.eqb_neq r 13) H13), Hr3. by rewrite aget_aset_ne.
Qed.
End call.

(** ** The floating-point context across a call *)

Section context.
Context {M : Type} `{WordMemory M}.
Implicit Types e : CPUARMState M.

Lemma stores_words l idx e :
  Forall (fun w => writable w.1 ∧ is_u32 w.2 ∧ permits (env_nvic e) idx w.1 MMU_DATA_STORE) l →
  cpu_stores l idx e = Ok (Returned (e <| mem ::= put_words l |>) tt).
Proof.
  revert e. induction l as [|[a v] l IH]; intros e Hl; [by destruct e|].
  apply Forall_cons in Hl as [(Ha & Hv & Hp) Hl]. cbn [cpu_stores fst snd] in *.
  rewrite stl_mmu_word by done. rewrite bind_Ok. by rewrite IH.
Qed.

(** Where d[n] is in the frame. *)
Definition dreg_addr (fptr n : Z) : Z :=
  let faddr := u32 (fptr + 4 * (2 * n)) in if 16 <=? 2 * n then u32 (faddr + 8) else faddr.

Definition dreg_at (m : M) (a : Z) : Z := Z.lor (u64 (Z.shiftl (word_at m (u32 (a + 4))) 32)) (word_at m a).

Lemma vlldm_loop_words fptr idx idxs e :
  (∀ n a, n ∈ idxs → a = dreg_addr fptr n ∨ a = u32 (dreg_addr fptr n + 4) →
     readable a ∧ permits (env_nvic e) idx a MMU_DATA_LOAD) →
  vlldm_loop fptr idx idxs e =
  Ok (Returned (foldl (fun e n => set_dreg n (dreg_at (mem e) (dreg_addr fptr n)) e) e idxs) tt).
Proof.
  revert e. induction idxs as [|n idxs IH]; intros e Hl; [done|]. cbn [vlldm_loop]. cbv zeta.
  fold (dreg_addr fptr n). destruct (Hl n (dreg_addr fptr n)) as [R1 P1]; [left|by left|].
  destruct (Hl n (u32 (dreg_addr fptr n + 4))) as [R2 P2]; [left|by right|].
  rewrite ldl_mmu_word, bind_Ok, ldl_mmu_word, bind_Ok by done.
  rewrite IH; [done|]. intros k a Hk. apply (Hl k a). by right.
Qed.

Lemma dreg_halves d : in_range 64 d →
  Z.lor (u64 (Z.shiftl (u32 (Z.shiftr d 32)) 32)) (u32 d) = d.
Proof.
  intros Hd. apply Z.bits_inj'. intros i Hi. rewrite Z.lor_spec, !wrap_spec by lia.
  rewrite Z.shiftl_spec by lia. destruct (Z.ltb_spec i 32).
  - rewrite (Z.testbit_neg_r _ (i - 32)) by lia. by rewrite andb_false_r.
  - rewrite wrap_spec, Z.shiftr_spec by lia. cbn [andb]. rewrite orb_false_r, Z.sub_add.
    destruct (Z.ltb_spec i 64); [|by rewrite (testbit_above 64)].
    by rewrite (proj2 (Z.ltb_lt (i - 32) 32)) by lia.
Qed.

Lemma load_dregs_get fptr idxs e k : alen (dregs (vfp e)) = 32 → Forall (fun n => 0 ≤ n < 32) idxs →
  let e' := foldl (fun e n => set_dreg n (dreg_at (mem e) (dreg_addr fptr n)) e) e idxs in
  get_dreg e' k = (if bool_decide (k ∈ idxs) then dreg_at (mem e) (dreg_addr fptr k) else get_dreg e k) ∧
  env_nvic e' = env_nvic e ∧ mem e' = mem e.
Proof.
  cbv zeta. revert e. induction idxs as [|n idxs IH]; intros e Hlen Hn; [done|].
  apply Forall_cons in Hn as [Hn Hl]. cbn [foldl]. set (e1 := set_dreg n _ e).
  destruct (IH e1) as (G & N1 & M1); [|done|].
  { unfold e1, set_dreg. cbn. by rewrite alen_aset. }
  split_and!; [|by rewrite N1|by rewrite M1]. rewrite G. change (mem e1) with (mem e).
  destruct (bool_decide (k ∈ idxs)) eqn:Ek.
  - rewrite bool_decide_true; [done|]. right. by apply bool_decide_eq_true in Ek.
  - apply bool_decide_eq_false in Ek. unfold e1, set_dreg, get_dreg. cbn [vfp dregs].
    destruct (decide (k = n)) as [->|Hne].
    + rewrite bool_decide_true by left. cbn. rewrite aget_aset_eq by lia. done.
    + rewrite bool_decide_false by (intros [|]%elem_of_cons; done). cbn. by rewrite aget_aset_ne.
Qed.

(** The words VLSTM saves. *)
Definition saved_words (e : CPUARMState M) (fptr : Z) (ts : bool) : list (Z * Z) :=
  fp_words e fptr (if ts then 32 else 16) ++ fp_status_words e fptr.

Definition saved_count (ts : bool) : Z := if ts then 16 else 8.

Lemma seqZ_saved (ts : bool) : seqZ 0 ((if ts then 32 else 16) / 2) = seqZ 0 (saved_count ts).
Proof. by destruct ts. Qed.

Definition dreg_offset (n : Z) : Z := if 16 <=? 2 * n then 8 * n + 8 else 8 * n.

Lemma dreg_addr_eq fptr n : 0 ≤ fptr → fptr + 136 ≤ 2 ^ 32 → 0 ≤ n < 16 →
  dreg_addr fptr n = fptr + dreg_offset n ∧ u32 (dreg_addr fptr n + 4) = fptr + (dreg_offset n + 4).
Proof.
  intros Hf Hl Hn. unfold dreg_addr, dreg_offset. cbv zeta.
  rewrite (wrap_small 32 (fptr + _)) by (unfold in_range; lia).
  destruct (Z.leb_spec 16 (2 * n)); rewrite !wrap_small by (rewrite ?wrap_small; unfold in_range; lia); lia.
Qed.

Lemma saved_addrs e fptr ts : 0 ≤ fptr → fptr + 136 ≤ 2 ^ 32 →
  (saved_words e fptr ts).*1 = Z.add fptr <$>
    (flat_map (fun n => [dreg_offset n; dreg_offset n + 4]) (seqZ 0 (saved_count ts)) ++
     0x40 :: (if aa32_mve (env_model e) then [0x44] else [])).
Proof.
  intros Hf Hl. unfold saved_words, fp_words. rewrite !fmap_app, seqZ_saved. f_equal.
  - assert (Hn : Forall (fun n => 0 ≤ n < 16) (seqZ 0 (saved_count ts))) by (apply Forall_seqZ; destruct ts; cbn; lia).
    induction Hn as [|n l Hn _ IH]; [done|]. cbn [flat_map]. rewrite !fmap_app, <- IH. f_equal.
    destruct (dreg_addr_eq fptr n Hf Hl Hn) as [E1 E2].
    change ([dreg_addr fptr n; u32 (dreg_addr fptr n + 4)] =
            [fptr + dreg_offset n; fptr + (dreg_offset n + 4)]). by rewrite E1, <- E2, E1.
  - unfold fp_status_words. destruct (aa32_mve _); cbn [fmap list_fmap fst]; rewrite !wrap_small by (unfold in_range; lia); done.
Qed.

Lemma saved_nodup e fptr ts : 0 ≤ fptr → fptr + 136 ≤ 2 ^ 32 → NoDup (saved_words e fptr ts).*1.
Proof.
  intros Hf Hl. rewrite saved_addrs by done. apply NoDup_fmap_2; [intros ??; lia|].
  destruct ts, (aa32_mve _); apply (bool_decide_unpack _); vm_compute; exact I.
Qed.

Lemma saved_dreg e fptr ts n : 0 ≤ n < saved_count ts →
  (dreg_addr fptr n, u32 (get_dreg e n)) ∈ saved_words e fptr ts ∧
  (u32 (dreg_addr fptr n + 4), u32 (Z.shiftr (get_dreg e n) 32)) ∈ saved_words e fptr ts.
Proof.
  intros Hn. assert (Hin : n ∈ seqZ 0 (saved_count ts)) by (apply elem_of_seqZ; lia).
  unfold saved_words, fp_words. rewrite seqZ_saved.
  split; apply elem_of_app; left; apply list_elem_of_In, in_flat_map; exists n;
    (split; [by apply list_elem_of_In|]); [by left|right; by left].
Qed.

(** The instructions get to the transfer: Secure code with an active context it
    may use, and an aligned frame. *)
Record fp_ready e (idx fptr : Z) : Prop := {
  fr_secure : secure_state (env_v7m e) = true;
  fr_sfpa : has (sec (control (env_v7m e))) (field_mask CONTROL_SFPA) = true;
  fr_cpacr : v7m_cpacr_pass (env_v7m e) true (negb (arm_current_el (env_v7m e) =? 0)) = true;
  fr_idx : arm_mmu_idx e = Ok idx;
  fr_ptr : Z.land fptr 7 = 0;
  fr_range : 0 ≤ fptr ∧ fptr + 136 ≤ 2 ^ 32;
  fr_len : alen (dregs (vfp e)) = 32
}.

(** The words of the frame can be stored. *)
Record savable e (idx fptr : Z) (ts : bool) : Prop := {
  sv_lspact s : has (bget (fpccr (env_v7m e)) s) (field_mask FPCCR_LSPACT) = false;
  sv_lspen : has (sec (fpccr (env_v7m e))) (field_mask FPCCR_LSPEN) = false;
  sv_ts : has (sec (fpccr (env_v7m e))) (field_mask FPCCR_TS) = ts;
  sv_words : Forall (fun a => writable a ∧ permits (env_nvic e) idx a MMU_DATA_STORE) (saved_words e fptr ts).*1;
  sv_dregs n : in_range 64 (get_dreg e n);
  sv_vpr : is_u32 (vpr (env_v7m e))
}.

Lemma fpscr_range e : is_u32 (vfp_get_fpscr e).
Proof. unfold vfp_get_fpscr. apply lor_range; [lia|by apply land_range_r|by apply land_range_r]. Qed.

Lemma saved_range e fptr ts : is_u32 (vpr (env_v7m e)) → Forall (fun w => is_u32 w.2) (saved_words e fptr ts).
Proof.
  intros Hv. unfold saved_words, fp_words, fp_status_words. apply Forall_app. split.
  - apply Forall_flat_map, Forall_forall. intros n _. repeat constructor; by apply wrap_range.
  - apply Forall_cons. split; [apply fpscr_range|]. destruct (aa32_mve _); [|done].
    apply Forall_cons. by split.
Qed.

Lemma check_ready e idx fptr : fp_ready e idx fptr → vlxxm_check e = None.
Proof. intros Hr. unfold vlxxm_check. by rewrite (fr_sfpa _ _ _ Hr), (fr_cpacr _ _ _ Hr). Qed.

Lemma vlstm_saves e idx fptr ts : fp_ready e idx fptr → savable e idx fptr ts →
  v7m_vlstm fptr e = Ok (Executed (upd_v7m (control_s_clear CONTROL_FPCA)
    (let e := e <| mem ::= put_words (saved_words e fptr ts) |> in if ts then clear_fp 32 e else e))).
Proof.
  intros Hr Hs. unfold v7m_vlstm. cbv zeta.
  rewrite (fr_idx _ _ _ Hr), bind_Ok, (fr_secure _ _ _ Hr). cbn [assert_c]. rewrite bind_Ok.
  rewrite (check_ready _ _ _ Hr), (sv_lspact _ _ _ _ Hs), (fr_ptr _ _ _ Hr), (sv_lspen _ _ _ _ Hs), (sv_ts _ _ _ _ Hs).
  cbn [truth Z.eqb negb]. fold (saved_words e fptr ts). rewrite stores_words; [by rewrite !bind_Ok|].
  pose proof (sv_words _ _ _ _ Hs) as Hw. rewrite Forall_fmap in Hw.
  pose proof (saved_range e fptr ts (sv_vpr _ _ _ _ Hs)) as Hu.
  eapply Forall_impl; [apply Forall_and; split; [exact Hw|exact Hu]|]. cbn. tauto.
Qed.

Lemma fpcr_to_host_dregs val mask v : dregs (vfp_set_fpcr_to_host val mask v) = dregs v.
Proof. unfold vfp_set_fpcr_to_host. cbv zeta. by destruct (has _ _). Qed.

Lemma set_fpscr_dregs v e : dregs (vfp (vfp_set_fpscr v e)) = dregs (vfp e).
Proof.
  unfold vfp_set_fpscr, vfp_set_fpsr, vfp_set_fpcr_masked. cbv zeta.
  rewrite <- (fpcr_to_host_dregs (Z.land (Z.land (if negb (any_fp16 (env_model e)) then Z.land v (not32 FPCR_FZ16) else v)
    (not32 (Z.lor FPCR_FIZ (Z.lor FPCR_AH FPCR_NEP)))) (not32 FPCR_EBF)) FPSCR_FPCR_MASK (vfp e)).
  repeat case_if; reflexivity.
Qed.

Lemma set_fpscr_mem v e : mem (vfp_set_fpscr v e) = mem e.
Proof. unfold vfp_set_fpscr, vfp_set_fpsr, vfp_set_fpcr_masked. cbv zeta. repeat case_if; reflexivity. Qed.

Lemma mem_upd f e : mem (upd_v7m f e) = mem e.
Proof. reflexivity. Qed.

Lemma get_dreg_upd f e n : get_dreg (upd_v7m f e) n = get_dreg e n.
Proof. reflexivity. Qed.

Lemma clear_fp_mem n e : 0 ≤ n → mem (clear_fp n e) = mem e.
Proof.
  intros Hn. unfold clear_fp. cbv zeta. set (e1 := for_range _ _ _ e).
  assert (mem e1 = mem e) as <-.
  { apply (for_range_ind (fun _ x => mem x = mem e)); [|done|by intros i x _ Hx].
    by apply Z.div_pos. }
  case_if; [rewrite mem_upd|]; apply set_fpscr_mem.
Qed.

Lemma control_bit_cleared e : Z.testbit (sec (control (env_v7m (upd_v7m (control_s_clear CONTROL_FPCA) e)))) 2 = false.
Proof. cbn. rewrite Z.land_spec, not32_spec by done. by rewrite andb_false_r. Qed.

Lemma control_bit_set e : Z.testbit (sec (control (env_v7m (upd_v7m (control_s_set CONTROL_FPCA) e)))) 2 = true.
Proof. cbn. rewrite Z.lor_spec. by rewrite orb_true_r. Qed.

Lemma clear_fp_dreg e n : alen (dregs (vfp e)) = 32 → 0 ≤ n < 16 → get_dreg (clear_fp 32 e) n = 0.
Proof.
  intros Hl Hn. unfold clear_fp. cbv zeta. change (32 / 2) with 16.
  set (e1 := for_range 0 16 _ e).
  assert (H1 : alen (dregs (vfp e1)) = 32 ∧ ∀ k, 0 ≤ k < 16 → get_dreg e1 k = 0).
  { apply (for_range_ind (fun i e => alen (dregs (vfp e)) = 32 ∧ ∀ k, 0 ≤ k < i → get_dreg e k = 0));
      [lia|split; [done|lia]|].
    intros i e0 Hi [Hl0 Hz]. unfold set_dreg, get_dreg. cbn. rewrite alen_aset. split; [done|].
    intros k Hk. destruct (decide (k = i)) as [->|Hne]; [by rewrite aget_aset_eq by lia|].
    rewrite aget_aset_ne by done. apply Hz. lia. }
  pose proof (set_fpscr_dregs 0 e1) as Hd. unfold get_dreg in *.
  case_if; (change (aget 0 (dregs (vfp (vfp_set_fpscr 0 e1))) n = 0) || idtac); rewrite Hd; by apply H1.
Qed.

(** The words of the frame are still there and can be loaded. *)
Record frame_kept e e2 (idx fptr : Z) (ts : bool) : Prop := {
  fk_lspact : has (sec (fpccr (env_v7m e2))) (field_mask FPCCR_LSPACT) = false;
  fk_ts : has (sec (fpccr (env_v7m e2))) (field_mask FPCCR_TS) = ts;
  fk_words a : a ∈ (saved_words e fptr ts).*1 →
    permits (env_nvic e2) idx a MMU_DATA_LOAD ∧
    word_at (mem e2) a = word_at (put_words (saved_words e fptr ts) (mem e)) a
}.

Lemma saved_value e idx fptr ts n : fp_ready e idx fptr → savable e idx fptr ts → 0 ≤ n < saved_count ts →
  dreg_at (put_words (saved_words e fptr ts) (mem e)) (dreg_addr fptr n) = get_dreg e n.
Proof.
  intros Hr Hs Hn. destruct (saved_dreg e fptr ts n Hn) as [I1 I2]. destruct (fr_range _ _ _ Hr) as [Hf Hl].
  assert (Hw : Forall (fun w => writable w.1 ∧ is_u32 w.2) (saved_words e fptr ts)).
  { apply Forall_and. split; [|apply saved_range, Hs]. apply Forall_fmap. 
    eapply Forall_impl; [apply (sv_words _ _ _ _ Hs)|]. by intros a [? _]. }
  unfold dreg_at. rewrite (put_words_at _ _ _ _ (saved_nodup e fptr ts Hf Hl) Hw I1),
    (put_words_at _ _ _ _ (saved_nodup e fptr ts Hf Hl) Hw I2). apply dreg_halves, Hs.
Qed.

(** The registers loaded from the frame. *)
Definition load_dregs (fptr : Z) (ts : bool) (e : CPUARMState M) : CPUARMState M :=
  foldl (fun e n => set_dreg n (dreg_at (mem e) (dreg_addr fptr n)) e) e (seqZ 0 (saved_count ts)).

Lemma vlldm_restores e e2 idx idx2 fptr ts : savable e idx fptr ts →
  fp_ready e2 idx2 fptr → aa32_mve (env_model e2) = false → frame_kept e e2 idx2 fptr ts →
  ∃ v, v7m_vlldm fptr e2 = Ok (Executed (upd_v7m (control_s_set CONTROL_FPCA) (vfp_set_fpscr v (load_dregs fptr ts e2)))).
Proof.
  intros Hs Hr Hmve Hk. unfold v7m_vlldm. rewrite (fr_idx _ _ _ Hr), bind_Ok, (fr_secure _ _ _ Hr).
  cbn [assert_c]. rewrite bind_Ok, (check_ready _ _ _ Hr). cbv zeta.
  rewrite (fk_lspact _ _ _ _ _ Hk), (fr_ptr _ _ _ Hr), (fk_ts _ _ _ _ _ Hk). cbn [truth Z.eqb negb].
  assert (Hp : ∀ a, a ∈ (saved_words e fptr ts).*1 → readable a ∧ permits (env_nvic e2) idx2 a MMU_DATA_LOAD).
  { intros a Ha. pose proof (proj1 (Forall_forall _ _) (sv_words _ _ _ _ Hs) a Ha) as [Hw _].
    split; [by apply writable_readable|by apply (fk_words _ _ _ _ _ Hk)]. }
  unfold vlldm_load. rewrite seqZ_saved, vlldm_loop_words, bind_Ok.
  2: { intros n a Hn Ha. apply elem_of_seqZ in Hn. apply Hp.
       destruct (saved_dreg e fptr ts n) as [I1 I2]; [lia|].
       destruct Ha as [-> | ->]; [exact (list_elem_of_fmap_2 fst _ _ I1)|exact (list_elem_of_fmap_2 fst _ _ I2)]. }
  fold (load_dregs fptr ts e2).
  destruct (load_dregs_get fptr (seqZ 0 (saved_count ts)) e2 0 (fr_len _ _ _ Hr)) as (_ & Hn & Hm).
  { apply Forall_seqZ. destruct ts; cbn; lia. }
  fold (load_dregs fptr ts e2) in Hn, Hm.
  destruct (Hp (u32 (fptr + 0x40))) as [Hrd Hpm].
  { apply (list_elem_of_fmap_2 fst (saved_words e fptr ts) (u32 (fptr + 0x40), vfp_get_fpscr e)).
    unfold saved_words. apply elem_of_app. right. left. }
  rewrite ldl_mmu_word by (rewrite ?Hn; done). rewrite bind_Ok. eexists.
  set (e3 := vfp_set_fpscr _ _).
  assert (Hmv : aa32_mve (env_model e3) = false).
  { transitivity (aa32_mve (env_model (load_dregs fptr ts e2))); [|unfold env_model; by rewrite Hn].
    subst e3. unfold vfp_set_fpscr, vfp_set_fpsr, vfp_set_fpcr_masked. cbv zeta. repeat case_if; reflexivity. }
  rewrite Hmv, !bind_Ok. reflexivity.
Qed.

(** On a core without MVE (like the Cortex-M33) VLSTM and VLLDM save and restore
    the floating-point registers of Secure code around a Non-secure call, when
    lazy preservation is off.  VLSTM stores them to the frame, gives up the
    context and, with FPCCR.TS, clears d0 to d15 so that the callee sees none of
    it; once the callee is back, with the frame as it was, VLLDM puts into the
    registers the values they had and takes the context back. *)
Lemma fp_context_round_trip e idx fptr ts : fp_ready e idx fptr → savable e idx fptr ts →
  ∃ e1, v7m_vlstm fptr e = Ok (Executed e1) ∧ Z.testbit (sec (control (env_v7m e1))) 2 = false ∧
    (ts = true → ∀ n, 0 ≤ n < 16 → get_dreg e1 n = 0) ∧
    mem e1 = put_words (saved_words e fptr ts) (mem e) ∧
    ∀ idx2 e2, fp_ready e2 idx2 fptr → aa32_mve (env_model e2) = false → frame_kept e e2 idx2 fptr ts →
    ∃ e3, v7m_vlldm fptr e2 = Ok (Executed e3) ∧ Z.testbit (sec (control (env_v7m e3))) 2 = true ∧
      (∀ n, 0 ≤ n < saved_count ts → get_dreg e3 n = get_dreg e n) ∧
      (∀ n, saved_count ts ≤ n → get_dreg e3 n = get_dreg e2 n) ∧ mem e3 = mem e2.
Proof.
  intros Hr Hs. eexists. split; [exact (vlstm_saves e idx fptr ts Hr Hs)|]. cbv zeta.
  set (e0 := e <| mem ::= _ |>). split_and!.
  - apply control_bit_cleared.
  - intros -> n Hn. rewrite get_dreg_upd. exact (clear_fp_dreg e0 n (fr_len _ _ _ Hr) Hn).
  - rewrite mem_upd. destruct ts; [by rewrite clear_fp_mem|done].
  - intros idx2 e2 Hr2 Hmve Hk. destruct (vlldm_restores e e2 idx idx2 fptr ts Hs Hr2 Hmve Hk) as [v Hv].
    eexists. split; [exact Hv|].
    assert (Hg : ∀ n, get_dreg (load_dregs fptr ts e2) n =
      (if bool_decide (n ∈ seqZ 0 (saved_count ts)) then dreg_at (mem e2) (dreg_addr fptr n) else get_dreg e2 n) ∧
      mem (load_dregs fptr ts e2) = mem e2).
    { intros n. destruct (load_dregs_get fptr (seqZ 0 (saved_count ts)) e2 n (fr_len _ _ _ Hr2)) as (? & _ & ?); [|done].
      apply Forall_seqZ. destruct ts; cbn; lia. }
    split_and!.
    + apply control_bit_set.
    + intros n Hn. rewrite get_dreg_upd. unfold get_dreg at 1. rewrite set_fpscr_dregs.
      fold (get_dreg (load_dregs fptr ts e2) n). rewrite (proj1 (Hg n)), bool_decide_true by (apply elem_of_seqZ; lia).
      rewrite <- (saved_value e idx fptr ts n Hr Hs Hn). unfold dreg_at.
      destruct (saved_dreg e fptr ts n Hn) as [I1 I2].
      rewrite (proj2 (fk_words _ _ _ _ _ Hk (dreg_addr fptr n) (list_elem_of_fmap_2 fst _ _ I1))).
      by rewrite (proj2 (fk_words _ _ _ _ _ Hk (u32 (dreg_addr fptr n + 4)) (list_elem_of_fmap_2 fst _ _ I2))).
    + intros n Hn. rewrite get_dreg_upd. unfold get_dreg at 1. rewrite set_fpscr_dregs.
      fold (get_dreg (load_dregs fptr ts e2) n). rewrite (proj1 (Hg n)), bool_decide_false; [done|].
      rewrite elem_of_seqZ. lia.
    + rewrite mem_upd, set_fpscr_mem. apply (Hg 0).
Qed.
End context.

(** ** Secure code on a Cortex-M33 *)

(** A memory of bytes without devices. *)
#[export] Instance byte_space : AddressSpace (Z → Z) := {
  address_space_ldl a _ sm := Ok (sm, Some (ldn_le_p 4 sm.2 a));
  address_space_lduw_le a _ sm := Ok (sm, Some (ldn_le_p 2 sm.2 a));
  address_space_stl_le a v _ sm := Ok (sm.1, stn_le_p 4 sm.2 a v, true);
  tlb_load n a _ sm := Ok (sm, Some (ldn_le_p (Z.to_nat n) sm.2 a));
  tlb_store n a v _ sm := Ok (sm.1, stn_le_p (Z.to_nat n) sm.2 a v, true)
}.

Definition word_address (a : Z) : Prop := is_u32 a ∧ a mod 4 = 0.

Lemma word_address_dec a : (0 <=? a) && (a <? 2 ^ 32) && (a mod 4 =? 0) = true → word_address a.
Proof. intros [[H1 H2]%andb_prop H3]%andb_prop. split; [split; lia|lia]. Qed.

#[export, refine] Instance byte_memory : WordMemory (Z → Z) := {
  readable := word_address; writable := word_address; word_at := ldn_le_p 4; put_word a v m := stn_le_p 4 m a v
}.
Proof.
  - done.
  - by intros a [].
  - intros m a _. apply ldn4_u32.
  - done.
  - done.
  - intros a v m b [_ Ha] [_ Hb] Hv. destruct (Z.eqb_spec a b) as [->|Hne]; [by apply stl_ldl|by apply stl_ldl_other].
  - intros n a attrs s m Hp _. cbn [tlb_load byte_space fst snd]. do 3 f_equal. rewrite <- ldn_u8. apply ldn_ext.
    intros i Hi. by rewrite byte_at_ldn.
  - done.
  - intros n a v attrs s m Hp _. eexists. split; [reflexivity|]. intros b _. rewrite byte_at_ldn. unfold stn_le_p.
    rewrite byte_at_ldn. case_if; [by rewrite wrap_wrap by lia|done].
Defined.

Definition nvic33 : NVICState :=
  match armv7m_nvic_realize (nvic_instance (cpu_reset cortex_m33_initfn 0 0 0x20010000) 64 4 (Some [])) with
  | Some s => s
  | None => nvic_instance (cpu_reset cortex_m33_initfn 0 0 0) 0 0 None
  end.

(** After reset, in Secure Thread mode. *)
Definition env33 : CPUARMState (Z → Z) :=
  mk_env nvic33 [1; 2; 3; 4; 5; 6; 7; 8; 9; 10; 11; 12; 13; 0; 0x201; 0x104] 0 1 0 0 0 0 true 0
    (mk_Vfp (replicate 32 0x3ff0000000000000) 0 0 [0; 0; 0; 0] 0) 0 (fun _ => 0).

Lemma permits_dec {M} (e : CPUARMState M) idx a t :
  (Z.land a 3 =? 0) && match get_phys_addr (env_nvic e) a t idx with
                       | Ok (false, r, _) => phys_addr r =? a
                       | _ => false
                       end = true → permits (env_nvic e) idx a t.
Proof.
  intros [H1%Z.eqb_eq H2]%andb_prop. split; [done|].
  destruct (get_phys_addr _ _ _ _) as [[[[] r] fi]|]; [done| |done]. exists r, fi. split; [done|lia].
Qed.

Definition idx33 : Z := arm_v7m_mmu_idx_all true true false.

Lemma callable33 : callable env33 idx33.
Proof.
  split; [vm_compute; reflexivity|vm_compute; congruence|split; vm_compute; congruence|split; vm_compute; congruence
    |split; vm_compute; congruence|vm_compute; reflexivity|vm_compute; reflexivity| |].
  - split; apply word_address_dec; vm_compute; reflexivity.
  - split; apply permits_dec; vm_compute; reflexivity.
Qed.

(** The callee returns at once. *)
Definition callee_returns (e : CPUARMState (Z → Z)) : CPUARMState (Z → Z) := set_reg 15 0xfefffffe e.

Lemma came_back33 :
  let e1 := blxns_enter 0x1000 (call_frame env33) (env33 <| mem := call_memory env33 |>) in
  came_back e1 (callee_returns e1) (call_frame env33) idx33.
Proof.
  cbv zeta. split; [| | |intros []| | | | |split|split; apply permits_dec]; vm_compute; reflexivity.
Qed.

Lemma secure_call_round_trip_witness : ∃ e1 e3,
  v7m_blxns 0x1000 env33 = Ok (Executed e1) ∧
  arm_v7m_cpu_do_interrupt mret EXCP_EXCEPTION_EXIT (mk_exception_data 0 0 0) (callee_returns e1) = Ok (Returned e3 tt) ∧
  get_reg e3 15 = 0x104 ∧ get_reg e3 13 = 0x20010000 ∧ secure_state (env_v7m e3) = true.
Proof.
  destruct (secure_call_round_trip 0x1000 idx33 env33 callable33 eq_refl) as (e1 & He & _ & Hb).
  pose proof (blxns_call 0x1000 idx33 env33 callable33 eq_refl) as He'. rewrite He in He'. injection He' as ->.
  destruct (Hb idx33 _ mret (mk_exception_data 0 0 0) came_back33) as (e3 & H3 & Hs & Hpc & _ & _ & _ & Hsp & _).
  eexists _, e3. split; [exact He|]. split; [exact H3|]. split; [exact Hpc|]. split; [exact Hsp|exact Hs].
Defined.

(** With the attribution unit off, everything is Secure. *)
Example tt_example : ∃ resp, v7m_tt 0x20000000 2 env33 = Ok resp ∧
  Z.testbit resp 20 = false ∧ Z.testbit resp 21 = false ∧ Z.testbit resp 18 = true.
Proof. eexists. split; [vm_compute; reflexivity|]. split_and!; vm_compute; reflexivity. Qed.

(** A floating-point context, preserved at once. *)
Definition env33_fp : CPUARMState (Z → Z) :=
  upd_v7m (fun m => m <| control := mk_banked 0 8 |> <| cpacr := mk_banked 0 0x300000 |> <| fpccr := mk_banked 0 0 |>) env33.

Lemma savable33 : fp_ready env33_fp idx33 0x20000000 ∧ savable env33_fp idx33 0x20000000 false.
Proof.
  split.
  - split; [| | | | |split; vm_compute; congruence|]; vm_compute; reflexivity.
  - split; [intros []; vm_compute; reflexivity|vm_compute; reflexivity|vm_compute; reflexivity| | |].
    + apply Forall_forall. intros a Ha.
      rewrite saved_addrs in Ha by (vm_compute; congruence).
      apply list_elem_of_fmap in Ha as (k & -> & Hk). vm_compute in Hk.
      repeat (apply elem_of_cons in Hk as [->|Hk];
        [split; [apply word_address_dec|apply permits_dec]; vm_compute; reflexivity|]).
      by apply elem_of_nil in Hk.
    + intros n. unfold get_dreg. change (dregs (vfp env33_fp)) with (replicate 32 0x3ff0000000000000).
      unfold aget. case_match; [split; vm_compute; congruence|].
      destruct (replicate _ _ !! _) as [x|] eqn:E; [|split; vm_compute; congruence].
      apply lookup_replicate in E as [-> _]. split; vm_compute; congruence.
    + split; vm_compute; congruence.
Qed.
