(* ===== verification/ReturnSpec.v ===== *)
(** Exception return on a v7M core: what [do_v7m_exception_exit] restores, and
    that entry followed by return is the identity for the interrupted code. *)

From S2P Require Import Prelude Irq NvicState NvicCore NvicPrio NvicInv NvicSpec NvicIrq Mpu MpuSpec CpuRegs CpuRegsSpec Exception CpuLdst ExceptionExit StackSpec EntrySpec.

Section exits.
Context {M : Type} `{WordMemory M}.
Implicit Types e : CPUARMState M.

(** ** Leaving the handler *)

(** The value that was branched to. *)
Definition exit_excret e : Z := if thumb e then Z.lor (get_reg e 15) 1 else get_reg e 15.

Definition to_thread e : bool := has (exit_excret e) 8.
Definition to_psp e : bool := has (exit_excret e) 4.

(** Leaving any handler but the one of NMI clears FAULTMASK. *)
Definition unmasked e : CPUARMState M :=
  if exception (env_v7m e) =? ARMV7M_EXCP_NMI then e
  else upd_v7m (fun m => m <| faultmask ::= bset false 0 |>) e.

(** The state after the exception has been completed and SPSEL been written,
    before anything is popped. *)
Definition left_handler e : CPUARMState M :=
  upd_v7m (write_v7m_control_spsel_for_secstate (to_psp e) false)
    ((unmasked e) <| env_nvic ::= fun s => nvic_irq_update (completed s (exception (env_v7m e))) |>).

(** A return that completes the running exception and resumes other code. *)
Record returns e : Prop := {
  rt_number : ARMV7M_EXCP_RESET < exception (env_v7m e) < num_irq (env_nvic e);
  rt_active : active (vec (env_nvic e) (exception (env_v7m e))) = true;
  rt_level : exception (env_v7m e) < NVIC_FIRST_IRQ →
    level (vec (env_nvic e) (exception (env_v7m e))) = 0;
  rt_excret : Z.land (exit_excret e) 0xf = 1 ∨
    (Z.land (exit_excret e) 0xf = 9 ∨ Z.land (exit_excret e) 0xf = 13) ∧
    (nvic_rettobase (env_nvic e) = true ∨
     has (ns (ccr (env_v7m e))) (field_mask CCR_NONBASETHRDENA) = true);
  rt_ftype : has (exit_excret e) 16 = true;
  rt_fpccr : has (sec (fpccr (env_v7m e))) (field_mask FPCCR_CLRONRET) = false;
  rt_preempt : armv7m_nvic_can_take_pending_exception (env_nvic (left_handler e)) = false
}.

Lemma unmasked_fields e :
  exception (env_v7m (unmasked e)) = exception (env_v7m e) ∧
  secure_state (env_v7m (unmasked e)) = secure_state (env_v7m e) ∧
  ccr (env_v7m (unmasked e)) = ccr (env_v7m e) ∧ fpccr (env_v7m (unmasked e)) = fpccr (env_v7m e) ∧
  control (env_v7m (unmasked e)) = control (env_v7m e) ∧
  model_of (env_nvic (unmasked e)) = model_of (env_nvic e) ∧
  (∀ secure' psp, bank_sp (env_v7m (unmasked e)) secure' psp = bank_sp (env_v7m e) secure' psp).
Proof. unfold unmasked. by destruct (_ =? _). Qed.

Lemma update_cpu s : cpu (nvic_irq_update s) = cpu s.
Proof. by destruct (update_rest s). Qed.

Lemma completed_cpu s irq : cpu (completed s irq) = cpu s.
Proof. unfold completed. cbv zeta. by destruct (truth _). Qed.

(** The controller's part of the state after completion, as a change of the
    CPU's. *)
Lemma left_handler_v7m e :
  env_v7m (left_handler e) = write_v7m_control_spsel_for_secstate (to_psp e) false (env_v7m (unmasked e)).
Proof.
  unfold left_handler, env_v7m, upd_v7m, v7m_of.
  change (v7m (cpu (env_nvic ?e))) with (v7m_of (env_nvic e)).
  set (u := unmasked e). clearbody u.
  change (write_v7m_control_spsel_for_secstate (to_psp e) false
    (v7m (cpu (nvic_irq_update (completed (env_nvic u) (exception (env_v7m e)))))) =
    write_v7m_control_spsel_for_secstate (to_psp e) false (v7m (cpu (env_nvic u)))).
  by rewrite update_cpu, completed_cpu.
Qed.

Lemma rettobase_v7m f s : nvic_rettobase (set_v7m f s) = nvic_rettobase s.
Proof.
  assert (∀ l n, rettobase_loop (set_v7m f s) l n = rettobase_loop s l n) as Hl; [|apply Hl].
  intros l. induction l as [|i l IH]; intros n; cbn [rettobase_loop]; [done|]. by rewrite !IH.
Qed.

Lemma unmasked_controller e :
  vectors (env_nvic (unmasked e)) = vectors (env_nvic e) ∧
  num_irq (env_nvic (unmasked e)) = num_irq (env_nvic e) ∧
  nvic_rettobase (env_nvic (unmasked e)) = nvic_rettobase (env_nvic e).
Proof. unfold unmasked. destruct (_ =? _); [done|]. split_and!; [done..|apply rettobase_v7m]. Qed.

Lemma mode_ok e : cpu_wf e → returns e →
  excret_bad ((unmasked e) <| env_nvic ::= fun s => nvic_irq_update (completed s (exception (env_v7m e))) |>)
    (exit_excret e) (of_bool (nvic_rettobase (env_nvic e)) =? 1) = false.
Proof.
  intros Hw Hr. destruct (unmasked_fields e) as (_ & U2 & U3 & _ & _ & U6 & _). unfold excret_bad.
  set (e1 := _ <| env_nvic ::= _ |>).
  assert (cpu (env_nvic e1) = cpu (env_nvic (unmasked e))) as Hcpu.
  { change (cpu (nvic_irq_update (completed (env_nvic (unmasked e)) (exception (env_v7m e)))) =
      cpu (env_nvic (unmasked e))). by rewrite update_cpu, completed_cpu. }
  unfold env_model, env_v7m, model_of, v7m_of. rewrite Hcpu.
  change (FEATURE_V8 (model_of (env_nvic (unmasked e)))) with (FEATURE_V8 (model (cpu (env_nvic (unmasked e))))) in U6.
  change (model (cpu ?s)) with (model_of s). change (v7m (cpu (env_nvic ?e))) with (env_v7m e).
  rewrite U6, (core_v8 _ (cw_core e Hw)), U2, U3, (wf_secure e Hw). cbv zeta. cbn [bget].
  destruct (rt_excret e Hr) as [->|[[->| ->] [->| ->]]]; try done; cbn; by rewrite andb_false_r.
Qed.

Lemma exit_complete_core e : cpu_wf e → nvic_wf (env_nvic e) → returns e →
  exit_complete e = Ok
    ((unmasked e) <| env_nvic ::= fun s => nvic_irq_update (completed s (exception (env_v7m e))) |>,
     mk_exit_info (exit_excret e) true false false false).
Proof.
  intros Hw Hn Hr. pose proof (mode_ok e Hw Hr) as Hmode. pose proof (cw_core e Hw) as Hc.
  unfold exit_complete. cbv zeta. fold (exit_excret e).
  change (field_mask EXCRET_FTYPE) with 16. rewrite (rt_ftype e Hr).
  change (FEATURE_M_SECURITY (env_model e)) with (FEATURE_M_SECURITY (model_of (env_nvic e))).
  rewrite (core_sec _ Hc). cbn [andb orb].
  replace (if negb (exception (env_v7m e) =? ARMV7M_EXCP_NMI)
    then upd_v7m (fun m => m <| faultmask ::= bset false 0 |>) e else e) with (unmasked e)
    by (unfold unmasked; by destruct (exception _ =? ARMV7M_EXCP_NMI)).
  destruct (unmasked_controller e) as (V1 & V2 & V3).
  destruct (unmasked_fields e) as (_ & _ & _ & _ & _ & U6 & _).
  assert (∀ i, vec (env_nvic (unmasked e)) i = vec (env_nvic e) i) as Hv
    by (intros; unfold vec; by rewrite V1).
  pose proof (nwf_num_irq _ Hn) as Hni. pose proof (rt_number e Hr) as Hnum.
  unfold ARMV7M_EXCP_RESET in Hnum.
  rewrite complete_core; rewrite ?U6, ?Hv, ?V1, ?V2, ?(nwf_vectors _ Hn);
    [|apply Hc..|done|apply Hr|lia].
  rewrite (rt_active e Hr), V3, bind_Ok. cbn [negb].
  set (e1 := (unmasked e) <| env_nvic ::= _ |>) in *.
  transitivity (Ok (e1, mk_exit_info (exit_excret e) true false
    (excret_bad e1 (exit_excret e) (of_bool (nvic_rettobase (env_nvic e)) =? 1)) false)); [|by rewrite Hmode].
  destruct (nvic_rettobase (env_nvic e)); reflexivity.
Qed.

(** The system registers after the handler has been left: FAULTMASK apart they
    are the old ones. *)
Lemma left_handler_fields e : cpu_wf e →
  let m := env_v7m (left_handler e) in
  secure_state m = false ∧ exception m = exception (env_v7m e) ∧
  system_part m = system_part (env_v7m (unmasked e)) ∧
  control m = bset false (deposit32 (ns (control (env_v7m e))) 1 1 (of_bool (to_psp e))) (control (env_v7m e)) ∧
  (∀ psp, bank_sp m false psp = bank_sp (env_v7m e) false psp) ∧
  model_of (env_nvic (left_handler e)) = model_of (env_nvic e) ∧
  mpu (cpu (env_nvic (left_handler e))) = mpu (cpu (env_nvic e)).
Proof.
  intros Hw. cbv zeta. rewrite left_handler_v7m.
  destruct (unmasked_fields e) as (U1 & U2 & _ & _ & U5 & U6 & U7). rewrite (wf_secure e Hw) in U2.
  destruct (write_spsel_fields (to_psp e) false (env_v7m (unmasked e))) as (G1 & G2 & G3 & G4 & G5 & G6).
  pose proof (write_spsel_system (to_psp e) (env_v7m (unmasked e)) U2) as Gs.
  assert (∀ psp, bank_sp (write_v7m_control_spsel_for_secstate (to_psp e) false (env_v7m (unmasked e))) false psp =
    bank_sp (env_v7m (unmasked e)) false psp) as Hb by (intros; by apply bank_swap).
  assert (cpu (env_nvic (left_handler e)) =
    (cpu (env_nvic (unmasked e))) <| v7m ::= write_v7m_control_spsel_for_secstate (to_psp e) false |>) as Hcpu.
  { transitivity ((cpu (nvic_irq_update (completed (env_nvic (unmasked e)) (exception (env_v7m e)))))
      <| v7m ::= write_v7m_control_spsel_for_secstate (to_psp e) false |>); [reflexivity|].
    by rewrite update_cpu, completed_cpu. }
  split_and!; [by rewrite G1|by rewrite G4|done|by rewrite G5, U5|intros; by rewrite Hb, U7| |].
  - unfold model_of. by rewrite Hcpu.
  - rewrite Hcpu. unfold unmasked. by destruct (exception _ =? _).
Qed.

Lemma left_handler_core e : cpu_wf e → v7m_core (env_nvic (left_handler e)).
Proof.
  intros Hw. destruct (left_handler_fields e Hw) as (F1 & _ & _ & _ & _ & F6 & _).
  destruct (cw_core e Hw). by split; rewrite ?F6.
Qed.

Lemma exit_unstacks e : cpu_wf e → nvic_wf (env_nvic e) → returns e →
  do_v7m_exception_exit e = exit_unstack (exit_excret e) true (negb (to_thread e)) false (left_handler e).
Proof.
  intros Hw Hn Hr. pose proof (rt_number e Hr) as Hx. unfold ARMV7M_EXCP_RESET in Hx.
  unfold do_v7m_exception_exit, arm_v7m_is_handler_mode at 1. destruct (Z.eqb_spec (exception (env_v7m e)) 0); [lia|].
  cbn [negb]. rewrite exit_complete_core, bind_Ok by done. cbv zeta. cbn [excret' ftype sfault ufault exc_secure'].
  set (e1 := (unmasked e) <| env_nvic ::= _ |>).
  change (field_mask EXCRET_SPSEL) with 4. fold (to_psp e).
  change (upd_v7m (write_v7m_control_spsel_for_secstate (to_psp e) false) e1) with (left_handler e).
  destruct (left_handler_fields e Hw) as (_ & _ & F3 & _ & _ & F6 & _).
  assert (FEATURE_M_SECURITY (env_model e1) = false) as ->.
  { change (model_of (env_nvic (left_handler e))) with (env_model e1) in F6. rewrite F6. apply (cw_core e Hw). }
  destruct (unmasked_fields e) as (_ & _ & _ & U4 & _).
  unfold clear_on_return. cbv zeta.
  assert (fpccr (env_v7m (left_handler e)) = fpccr (env_v7m e)) as ->
    by (rewrite <- U4; exact (f_equal fpccr F3)).
  rewrite (rt_fpccr e Hr). cbn [andb]. rewrite bind_Ok, (rt_preempt e Hr). done.
Qed.

(** ** Popping the frame *)

Definition return_frame e : Z := bank_sp (env_v7m e) false (to_thread e && to_psp e).
Definition return_xpsr e : Z := word_at (mem e) (u32 (return_frame e + 0x1c)).
Definition return_top e : Z :=
  let top := u32 (return_frame e + 0x20) in
  if has (return_xpsr e) XPSR_SPREALIGN then Z.lor top 4 else top.

(** The words of the frame can be loaded with the privilege of the code that
    resumes. *)
Definition frame_loadable e : Prop :=
  Forall (may_load (env_nvic (left_handler e)) (core_idx (env_nvic (left_handler e))
            (negb (to_thread e) || negb (has (ns (control (env_v7m (left_handler e)))) 1))))
    (frame_words (return_frame e)).

(** The registers of the frame, in its order. *)
Definition popped_regs : list Z := [0; 1; 2; 3; 12; 14; 15].

Definition popped e : CPUARMState M :=
  even_pc (load_regs (zip popped_regs (frame_words (return_frame e))) (left_handler e)).

Lemma popped_eq e :
  even_pc (load_regs (zip popped_regs (frame_words (return_frame e))) (left_handler e)) = popped e.
Proof. unfold popped. reflexivity. Qed.

Definition clear_fpca : V7M → V7M :=
  fun m => m <| control ::= fun c => bset true (FIELD_DP32 (sec c) CONTROL_FPCA 0) c |>.

Definition resumed e : CPUARMState M :=
  arm_rebuild_hflags (arm_clear_exclusive (xpsr_write (return_xpsr e) return_mask
    (upd_v7m (store_sp (arm_v7m_get_sp_ptr (env_v7m (left_handler e)) false true (to_thread e && to_psp e))
                (return_top e)) (upd_v7m clear_fpca (popped e))))).

Lemma load_bank m secure' psp : load_sp m (arm_v7m_get_sp_ptr m secure' true psp) = bank_sp m secure' psp.
Proof. done. Qed.

Lemma sp_ptr_and m secure' thread spsel :
  arm_v7m_get_sp_ptr m secure' thread spsel = arm_v7m_get_sp_ptr m secure' true (thread && spsel).
Proof. done. Qed.

Lemma spsel_deposit x b : has (deposit32 x 1 1 (of_bool b)) 2 = b.
Proof.
  change 2 with (bit 1). rewrite has_bit by done. unfold deposit32. cbv zeta.
  rewrite Z.lor_spec, !Z.land_spec, not32_spec by done.
  change (u32 (Z.shiftl (Z.shiftr (2 ^ 32 - 1) (32 - 1)) 1)) with (bit 1). rewrite bit_spec by done.
  rewrite Z.eqb_refl. cbn [negb]. rewrite andb_true_r. by destruct b; rewrite ?andb_false_r.
Qed.

Lemma load_regs_frame l e : Forall (fun w => w.1 ≠ 13) l →
  env_nvic (load_regs l e) = env_nvic e ∧ mem (load_regs l e) = mem e.
Proof.
  revert e. induction l as [|[r a] l IH]; intros e Hl; [done|]. inversion_clear Hl as [|?? Hr Hl'].
  change (load_regs ((r, a) :: l) e) with (load_regs l (set_reg r (word_at (mem e) a) e)).
  destruct (IH (set_reg r (word_at (mem e) a) e) Hl') as [-> ->]. by apply set_reg_frame.
Qed.

Lemma popped_frame e : env_nvic (popped e) = env_nvic (left_handler e) ∧ mem (popped e) = mem e.
Proof.
  unfold popped, even_pc. set (l := zip _ _).
  assert (Forall (fun w => w.1 ≠ 13) l) as Hl by (by repeat constructor).
  assert (mem (left_handler e) = mem e) as Hm by (unfold left_handler, unmasked; by destruct (exception _ =? _)).
  destruct (load_regs_frame l (left_handler e) Hl) as [H1 H2]. rewrite <- Hm, <- H1, <- H2.
  destruct (has _ 1); [|done]. by apply set_reg_frame.
Qed.

Lemma upd_v7m_id f e : f (env_v7m e) = env_v7m e → upd_v7m f e = e.
Proof.
  intros Hf. unfold upd_v7m. transitivity (e <| env_nvic := set_v7m f (env_nvic e) |>); [done|].
  rewrite set_v7m_id by done. by destruct e.
Qed.

Lemma return_frame_u32 e : cpu_wf e → is_u32 (return_frame e).
Proof.
  intros Hw. unfold return_frame. rewrite bank_sp_eq, (wf_secure e Hw). cbn [eqb].
  destruct (eqb _ _); apply Hw.
Qed.

Lemma pop_basic_popped e : cpu_wf e → frame_loadable e →
  pop_basic true (return_frame e)
    (core_idx (env_nvic (left_handler e)) (negb (to_thread e) || negb (has (ns (control (env_v7m (left_handler e)))) 1)))
    (left_handler e) =
  Ok (load_regs (zip popped_regs (frame_words (return_frame e))) (left_handler e), Some (return_xpsr e)).
Proof.
  intros Hw Hl. unfold frame_loadable in Hl. set (idx := core_idx _ _) in *.
  pose proof (left_handler_core e Hw) as Hc. pose proof (return_frame_u32 e Hw) as Hu.
  destruct (left_handler_fields e Hw) as (_ & _ & _ & _ & _ & _ & Hmpu).
  set (fp := return_frame e) in *. set (l := zip popped_regs (frame_words fp)).
  assert (l = [(0, fp); (1, u32 (fp + 0x4)); (2, u32 (fp + 0x8)); (3, u32 (fp + 0xc)); (12, u32 (fp + 0x10));
    (14, u32 (fp + 0x14)); (15, u32 (fp + 0x18))]) as Hll.
  { unfold l, frame_words. change (seqZ 0 8) with [0; 1; 2; 3; 4; 5; 6; 7]. cbn [fmap list_fmap zip zip_with popped_regs].
    change (4 * 0) with 0. by rewrite Z.add_0_r, (wrap_small 32 fp). }
  unfold pop_basic. rewrite <- Hll.
  assert (Forall (fun w => w.1 ≠ 13 ∧ may_load (env_nvic (left_handler e)) idx w.2) l) as Hf.
  { apply Forall_forall. intros [r a] Hin. split.
    - apply elem_of_zip_l in Hin. assert (Forall (fun r => r ≠ 13) popped_regs) as Hp by (by repeat constructor).
      by eapply Forall_forall in Hp.
    - apply elem_of_zip_r in Hin. by eapply Forall_forall in Hl. }
  rewrite stack_reads_words by (done || by rewrite Hmpu; apply Hw). rewrite bind_Ok.
  assert (Forall (fun w => w.1 ≠ 13) l) as Hne by (eapply Forall_impl; [exact Hf|by intros w []]).
  destruct (load_regs_frame l (left_handler e) Hne) as [Hn Hm].
  rewrite stack_read_word; [|by rewrite Hn|rewrite Hn, Hmpu; apply Hw|].
  - rewrite Hm. unfold return_xpsr. fold fp. do 4 f_equal.
    unfold left_handler, unmasked. by destruct (exception _ =? _).
  - rewrite Hn. eapply Forall_forall in Hl; [exact Hl|]. apply list_elem_of_fmap. exists 7. split; [done|].
    apply elem_of_seqZ. lia.
Qed.

(** The system registers when the interrupted code resumes. *)
Definition resumed_v7m e : V7M :=
  write_v7m_exception (Z.land (return_xpsr e) XPSR_EXCP)
    (store_sp (arm_v7m_get_sp_ptr (env_v7m (left_handler e)) false true (to_thread e && to_psp e))
       (return_top e) (clear_fpca (env_v7m (left_handler e)))).

#[local] Strategy -100 [resumed_v7m].

Lemma store_sp_fields p v m :
  secure_state (store_sp p v m) = secure_state m ∧ control (store_sp p v m) = control m ∧
  (p = PtrSp ∨ p = PtrOtherSp → system_part (store_sp p v m) = system_part m).
Proof. destruct p; split_and!; try done; by intros [|]. Qed.

(** Storing the stack pointer of the popped frame and writing IPSR. *)
Lemma resume_fields m0 x top sel : secure_state m0 = false →
  let m := write_v7m_exception x (store_sp (arm_v7m_get_sp_ptr m0 false true sel) top (clear_fpca m0)) in
  secure_state m = false ∧ exception m = x ∧
  control m = bset true (FIELD_DP32 (sec (control m0)) CONTROL_FPCA 0) (control m0) ∧
  system_part m = system_part m0 ∧
  (∀ psp, bank_sp m false psp = if eqb psp sel then top else bank_sp m0 false psp).
Proof.
  intros F1. cbv zeta. set (m1 := clear_fpca m0).
  assert (v7m_using_psp m1 = v7m_using_psp m0) as Hu.
  { unfold v7m_using_psp. change (secure_state m1) with (secure_state m0). by rewrite F1. }
  assert (∀ p, arm_v7m_get_sp_ptr m0 false true p = arm_v7m_get_sp_ptr m1 false true p) as ->.
  { intros p. unfold arm_v7m_get_sp_ptr. by rewrite Hu. }
  set (p := arm_v7m_get_sp_ptr m1 false true _).
  assert (p = PtrSp ∨ p = PtrOtherSp) as Hp.
  { unfold p, arm_v7m_get_sp_ptr. change (secure_state m1) with (secure_state m0). rewrite F1. cbn [eqb].
    destruct (eqb _ _); auto. }
  destruct (store_sp_fields p top m1) as (S1 & S2 & S3). specialize (S3 Hp).
  assert (∀ psp, bank_sp (store_sp p top m1) false psp = if eqb psp sel then top else bank_sp m1 false psp) as S4
    by (intros psp; apply (store_sp_bank m1)).
  set (m2 := store_sp p top m1) in *. clearbody m2.
  destruct (write_exception_fields x m2) as (W1 & W2 & W3 & W4 & W5 & _ & W6).
  split_and!; [by rewrite W1, S1|done|by rewrite W4, S2|by rewrite write_exception_system, S3|].
  intros psp. rewrite (bank_swap m2) by done. rewrite S4. destruct (eqb psp _); [done|]. apply bank_swap; auto.
Qed.

Lemma resumed_fields e m : cpu_wf e → m = resumed_v7m e →
  secure_state m = false ∧ exception m = Z.land (return_xpsr e) XPSR_EXCP ∧
  control m = mk_banked (deposit32 (ns (control (env_v7m e))) 1 1 (of_bool (to_psp e)))
                (FIELD_DP32 (sec (control (env_v7m e))) CONTROL_FPCA 0) ∧
  system_part m = system_part (env_v7m (unmasked e)) ∧
  (∀ psp, bank_sp m false psp = if eqb psp (to_thread e && to_psp e) then return_top e
                                else bank_sp (env_v7m e) false psp).
Proof.
  intros Hw Hm. destruct (left_handler_fields e Hw) as (F1 & F2 & F3 & F4 & F5 & _). unfold resumed_v7m in Hm.
  set (m0 := env_v7m (left_handler e)) in *. clearbody m0.
  destruct (resume_fields m0 (Z.land (return_xpsr e) XPSR_EXCP) (return_top e) (to_thread e && to_psp e) F1)
    as (R1 & R2 & R3 & R4 & R5). rewrite <- Hm in *.
  split_and!; [done|done|by rewrite R3, F4|by rewrite R4|intros; by rewrite R5, F5].
Qed.

Lemma commit_resumed e idx priv : cpu_wf e →
  FEATURE_THUMB_DSP (model_of (env_nvic (left_handler e))) = true →
  to_thread e = (Z.land (return_xpsr e) XPSR_EXCP =? 0) →
  exit_commit (exit_excret e) (return_xpsr e) (return_frame e) idx
    (arm_v7m_get_sp_ptr (env_v7m (left_handler e)) false true (to_thread e && to_psp e))
    true false priv (negb (to_thread e)) (popped e) = Ok (resumed e).
Proof.
  intros Hw Hdsp Hmode. destruct (popped_frame e) as [P1 _]. unfold exit_commit. cbn [negb]. rewrite bind_Ok.
  cbv zeta. unfold exit_finish. cbv zeta. fold return_mask.
  assert (FEATURE_THUMB_DSP (env_model (popped e)) = true) as Hd by (unfold env_model; by rewrite P1).
  rewrite !env_model_upd, Hd. cbn [negb].
  assert (env_v7m (popped e) = env_v7m (left_handler e)) as Hp by (unfold env_v7m; by rewrite P1).
  destruct (resumed_fields e _ Hw eq_refl) as (R1 & R2 & _). unfold resumed_v7m in R1, R2.
  rewrite xpsr_write_v7m, !env_v7m_upd, Hp.
  match type of R1 with secure_state ?x = _ => set (m := x) in R1, R2 end.
  match goal with |- context [secure_state ?x] => change x with m end. rewrite R1. cbv iota.
  rewrite xpsr_write_v7m, !env_v7m_upd, Hp.
  match goal with |- context [arm_v7m_is_handler_mode ?x] => change x with m end.
  unfold arm_v7m_is_handler_mode. rewrite R2, <- Hmode, eqb_reflx. reflexivity.
Qed.

Lemma exit_resumed e : cpu_wf e → nvic_wf (env_nvic e) → returns e → frame_loadable e →
  FEATURE_THUMB_DSP (model_of (env_nvic e)) = true →
  to_thread e = (Z.land (return_xpsr e) XPSR_EXCP =? 0) →
  do_v7m_exception_exit e = Ok (resumed e).
Proof.
  intros Hw Hn Hr Hl Hdsp Hmode. rewrite exit_unstacks by done.
  pose proof (left_handler_core e Hw) as Hc.
  destruct (left_handler_fields e Hw) as (F1 & F2 & F3 & F4 & F5 & F6 & F7).
  unfold exit_unstack. rewrite upd_v7m_id by (unfold switch_v7m_security_state; by rewrite F1).
  cbv zeta. cbn [bget]. change (field_mask CONTROL_SPSEL) with 2. change (field_mask CONTROL_NPRIV) with 1.
  assert (has (ns (control (env_v7m (left_handler e)))) 2 = to_psp e) as -> by (rewrite F4; apply spsel_deposit).
  rewrite negb_involutive, sp_ptr_and, load_bank, F5. fold (return_frame e).
  rewrite core_mmu_idx by done. rewrite bind_Ok. cbn [andb]. rewrite bind_Ok.
  rewrite pop_basic_popped, bind_Ok by done. cbv beta iota zeta.
  rewrite popped_eq.
  destruct (popped_frame e) as [P1 P2].
  assert (FEATURE_V8 (env_model (popped e)) = false) as -> by (unfold env_model; rewrite P1; apply Hc).
  cbn [andb]. apply commit_resumed; [done|by rewrite F6|done].
Qed.

(** ** What return changes *)

Lemma rebuilt_flags e : flags_wf e → flags_wf (arm_rebuild_hflags (arm_clear_exclusive e)).
Proof. intros []. by split. Qed.

Lemma rebuilt_bit e i : xpsr_bit (arm_rebuild_hflags (arm_clear_exclusive e)) i = xpsr_bit e i.
Proof. reflexivity. Qed.

(** The last steps leave the registers and the memory alone. *)
Lemma finish_fields v f g e :
  let e' := arm_rebuild_hflags (arm_clear_exclusive (xpsr_write v return_mask (upd_v7m f (upd_v7m g e)))) in
  regs e' = regs e ∧ mem e' = mem e ∧ vfp e' = vfp e ∧
  env_v7m e' = write_v7m_exception (Z.land v XPSR_EXCP) (f (g (env_v7m e))) ∧
  env_nvic e' = effect RebuildHflags (set_v7m (write_v7m_exception (Z.land v XPSR_EXCP))
                  (set_v7m f (set_v7m g (env_nvic e)))) ∧
  (is_u32 v → flags_wf e' ∧
    ∀ i, 0 ≤ i < 32 → Z.testbit (xpsr_read e') i = xpsr_stored i && Z.testbit v i).
Proof.
  cbv zeta. split_and!; try reflexivity. intros Hv. set (e1 := upd_v7m f (upd_v7m g e)).
  pose proof (rebuilt_flags _ (xpsr_write_wf v e1 Hv)) as Hf.
  split; [exact Hf|]. intros i Hi. rewrite (xpsr_read_bits _ i Hf) by lia.
  rewrite rebuilt_bit, (xpsr_write_bits v e1 i Hv Hi). destruct (Z.ltb_spec i 32); [reflexivity|lia].
Qed.

(** The popped registers. *)
Lemma popped_reg_list fp e :
  let w i := word_at (mem e) (u32 (fp + 4 * i)) in
  regs (load_regs (zip popped_regs (frame_words fp)) e) =
  aset (aset (aset (aset (aset (aset (aset (regs e) 0 (w 0)) 1 (w 1)) 2 (w 2)) 3 (w 3)) 12 (w 4)) 14 (w 5)) 15 (w 6).
Proof. reflexivity. Qed.

Lemma even_land x : is_u32 x → (if has x 1 then Z.land x (not32 1) else x) = Z.land x 0xfffffffe.
Proof.
  intros Hx. destruct (has x 1) eqn:E; [done|]. change 1 with (bit 0) in E. rewrite has_bit in E by done.
  apply Z.bits_inj'. intros i Hi. change 0xfffffffe with (not32 (bit 0)).
  rewrite Z.land_spec, not32_spec, bit_spec by done.
  destruct (Z.ltb_spec i 32); [|by rewrite (testbit_above 32) by done].
  destruct (Z.eqb_spec 0 i) as [<-|]; [by rewrite E|by rewrite andb_true_r].
Qed.


(** The slot of the frame a register is restored from. *)
Definition frame_slot (r : Z) : option Z :=
  if (0 <=? r) && (r <=? 3) then Some r
  else if r =? 12 then Some 4 else if r =? 14 then Some 5 else if r =? 15 then Some 6 else None.

Definition frame_word e (i : Z) : Z := word_at (mem e) (u32 (return_frame e + 4 * i)).

Ltac solve_aget := repeat first
  [rewrite aget_aset_eq by (rewrite ?alen_aset; lia) | rewrite aget_aset_ne by lia].

Lemma frame_slot_none r : 4 ≤ r < 12 → frame_slot r = None.
Proof.
  intros Hr. unfold frame_slot. destruct (Z.leb_spec r 3); [lia|]. rewrite andb_false_r.
  by repeat match goal with |- context [r =? ?k] => destruct (Z.eqb_spec r k); [lia|] end.
Qed.

Lemma loaded_reg fp e r : alen (regs e) = 16 → 0 ≤ r < 16 → r ≠ 13 →
  aget 0 (regs (load_regs (zip popped_regs (frame_words fp)) e)) r =
  match frame_slot r with
  | Some i => word_at (mem e) (u32 (fp + 4 * i))
  | None => aget 0 (regs e) r
  end.
Proof.
  intros Hl Hr Hne. rewrite popped_reg_list. cbv zeta.
  assert (r = 0 ∨ r = 1 ∨ r = 2 ∨ r = 3 ∨ 4 ≤ r < 12 ∨ r = 12 ∨ r = 14 ∨ r = 15) as Hc by lia.
  destruct Hc as [->|[->|[->|[->|[Hm|[->|[->| ->]]]]]]]; cbn -[word_at aget aset wrap Z.add Z.mul];
    try (solve_aget; reflexivity).
  rewrite frame_slot_none by done. solve_aget. reflexivity.
Qed.

Lemma left_handler_frame e : regs (left_handler e) = regs e ∧ mem (left_handler e) = mem e ∧ vfp (left_handler e) = vfp e.
Proof. unfold left_handler, unmasked. by destruct (exception _ =? _). Qed.

Lemma frame_word_u32 e i : frame_loadable e → 0 ≤ i < 8 → is_u32 (frame_word e i).
Proof.
  intros Hl Hi. apply word_u32. eapply Forall_forall in Hl as [Hr _]; [exact Hr|].
  apply list_elem_of_fmap. exists i. split; [done|]. apply elem_of_seqZ. lia.
Qed.

Lemma popped_reg e r : cpu_wf e → frame_loadable e → 0 ≤ r < 16 → r ≠ 13 →
  aget 0 (regs (popped e)) r =
  match frame_slot r with
  | Some i => if r =? 15 then Z.land (frame_word e i) 0xfffffffe else frame_word e i
  | None => get_reg e r
  end.
Proof.
  intros Hw Hl Hr Hne. destruct (left_handler_frame e) as (L1 & L2 & _). pose proof (cw_len e Hw) as Hlen.
  rewrite <- L1 in Hlen. pose proof (loaded_reg (return_frame e) (left_handler e) r Hlen Hr Hne) as Hld.
  pose proof (loaded_reg (return_frame e) (left_handler e) 15 Hlen ltac:(lia) ltac:(done)) as Hld15.
  assert (alen (regs (load_regs (zip popped_regs (frame_words (return_frame e))) (left_handler e))) = 16) as Hlen'
    by (rewrite popped_reg_list; cbv zeta; by rewrite !alen_aset).
  unfold popped, even_pc. set (x := load_regs _ _) in *. clearbody x.
  rewrite L1, L2 in Hld. rewrite L2 in Hld15. change (frame_slot 15) with (Some 6) in Hld15. cbv iota in Hld15.
  fold (frame_word e 6) in Hld15. change (get_reg x 15) with (aget 0 (regs x) 15). rewrite Hld15.
  assert (get_reg e r = aget 0 (regs e) r) as Hg by (unfold get_reg; by destruct (Z.eqb_spec r 13)).
  pose proof (even_land _ (frame_word_u32 e 6 Hl ltac:(lia))) as Hev.
  destruct (Z.eqb_spec r 15) as [->|Hn15].
  - change (frame_slot 15) with (Some 6). cbv iota. rewrite <- Hev. destruct (has (frame_word e 6) 1); [|done].
    change (regs (set_reg 15 ?v x)) with (aset (regs x) 15 v). by rewrite aget_aset_eq by lia.
  - transitivity (aget 0 (regs x) r).
    { destruct (has (frame_word e 6) 1); [|done].
      change (regs (set_reg 15 ?v x)) with (aset (regs x) 15 v). by rewrite aget_aset_ne by lia. }
    rewrite Hld, Hg. destruct (frame_slot r); reflexivity.
Qed.

(** What return does to the state [e]. *)
Record return_effect (L : bool) (e e' : CPUARMState M) : Prop := {
  re_regs : ∀ r, 0 ≤ r < 16 → r ≠ 13 → get_reg e' r =
    match frame_slot r with
    | Some i => if r =? 15 then Z.land (frame_word e i) 0xfffffffe else frame_word e i
    | None => get_reg e r
    end;
  re_mem : mem e' = mem e;
  re_vfp : vfp e' = vfp e;
  re_flags : flags_wf e';
  re_xpsr : ∀ i, 0 ≤ i < 32 → Z.testbit (xpsr_read e') i = xpsr_stored i && Z.testbit (return_xpsr e) i;
  re_banks : ∀ psp, bank_sp (env_v7m e') false psp =
    if eqb psp (to_thread e && to_psp e) then return_top e else bank_sp (env_v7m e) false psp;
  re_exception : exception (env_v7m e') = Z.land (return_xpsr e) XPSR_EXCP;
  re_control : control (env_v7m e') =
    mk_banked (deposit32 (ns (control (env_v7m e))) 1 1 (of_bool (to_psp e)))
      (FIELD_DP32 (sec (control (env_v7m e))) CONTROL_FPCA 0);
  re_system : system_part (env_v7m e') = system_part (env_v7m (unmasked e));
  re_core : v7m_core (env_nvic e');
  re_vectors : ∀ b i, get_vec (env_nvic e') b i =
    if eqb false b && (exception (env_v7m e) =? i)
    then (vec (env_nvic e) i) <| active := false |>
           <| pending ::= fun p => p || truth (level (vec (env_nvic e) i)) |>
    else get_vec (env_nvic e) b i;
  re_inv : nvic_inv L (env_nvic e')
}.

Lemma left_handler_vec e b i : nvic_wf (env_nvic e) → returns e →
  get_vec (env_nvic (left_handler e)) b i =
    if eqb false b && (exception (env_v7m e) =? i)
    then (vec (env_nvic e) i) <| active := false |>
           <| pending ::= fun p => p || truth (level (vec (env_nvic e) i)) |>
    else get_vec (env_nvic e) b i.
Proof.
  intros Hn Hr. set (x := exception (env_v7m e)).
  transitivity (get_vec (nvic_irq_update (completed (env_nvic (unmasked e)) x)) b i); [by destruct b|].
  destruct (unmasked_controller e) as (V1 & _). pose proof (rt_number e Hr) as Hx.
  pose proof (nwf_num_irq _ Hn). unfold ARMV7M_EXCP_RESET in Hx.
  rewrite update_vec, completed_vec by (rewrite V1, (nwf_vectors _ Hn); fold x in Hx; lia).
  assert (∀ b i, get_vec (env_nvic (unmasked e)) b i = get_vec (env_nvic e) b i) as Hg.
  { intros b' i'. unfold unmasked. by destruct (exception _ =? _), b'. }
  pose proof (Hg false x) as Hv. cbn [get_vec] in Hv. rewrite Hg, Hv.
  destruct (eqb false b && (x =? i)) eqn:E; [|done].
  apply andb_true_iff in E as [_ E]. apply Z.eqb_eq in E as ->. done.
Qed.

Lemma left_handler_inv L e : cpu_wf e → nvic_inv L (env_nvic e) → returns e →
  nvic_inv L (env_nvic (left_handler e)).
Proof.
  intros Hw Hi Hr. eapply frame_inv; [apply set_v7m_frame|].
  { intros m. unfold write_v7m_control_spsel_for_secstate. cbv zeta. by repeat case_if. }
  assert (nvic_inv L (env_nvic (unmasked e))) as Hu.
  { unfold unmasked. destruct (_ =? _); [done|]. eapply frame_inv; [by apply set_v7m_frame|done]. }
  pose proof (complete_inv L (exception (env_v7m e)) false _ Hu) as Hc.
  destruct (unmasked_fields e) as (_ & _ & _ & _ & _ & U6 & _). pose proof (cw_core e Hw) as Hco.
  destruct (unmasked_controller e) as (V1 & V2 & _). pose proof (rt_number e Hr) as Hx.
  destruct Hi as [[Hn _] _]. pose proof (nwf_num_irq _ Hn). unfold ARMV7M_EXCP_RESET in Hx.
  rewrite complete_core in Hc; [exact Hc|rewrite U6; apply Hco..|by rewrite V2| |rewrite V1, (nwf_vectors _ Hn); lia].
  unfold vec. rewrite V1. apply (rt_level e Hr).
Qed.

Lemma model_finish x f g h s : model_of (effect x (set_v7m f (set_v7m g (set_v7m h s)))) = model_of s.
Proof. reflexivity. Qed.

Lemma vec_finish x f g h s b i : get_vec (effect x (set_v7m f (set_v7m g (set_v7m h s)))) b i = get_vec s b i.
Proof. reflexivity. Qed.

Lemma popped_vfp e : vfp (popped e) = vfp (left_handler e).
Proof.
  assert (∀ r v x, vfp (set_reg r v x) = vfp (x : CPUARMState M)) as Hs by (intros r v x; unfold set_reg; by case_if).
  assert (∀ l x, vfp (load_regs l x) = vfp x) as Hl.
  { intros l. induction l as [|[r a] l IH]; intros x; [done|].
    change (load_regs ((r, a) :: l) x) with (load_regs l (set_reg r (word_at (mem x) a) x)). by rewrite IH, Hs. }
  unfold popped, even_pc. by destruct (has _ 1); rewrite ?Hs, Hl.
Qed.

Lemma exit_effect L e : cpu_wf e → nvic_inv L (env_nvic e) → returns e → frame_loadable e →
  FEATURE_THUMB_DSP (model_of (env_nvic e)) = true →
  to_thread e = (Z.land (return_xpsr e) XPSR_EXCP =? 0) →
  ∃ e', do_v7m_exception_exit e = Ok e' ∧ return_effect L e e'.
Proof.
  intros Hw Hi Hr Hl Hdsp Hmode. pose proof (proj1 (proj1 Hi)) as Hn.
  eexists. split; [by apply exit_resumed|]. destruct (popped_frame e) as [P1 P2].
  destruct (finish_fields (return_xpsr e)
    (store_sp (arm_v7m_get_sp_ptr (env_v7m (left_handler e)) false true (to_thread e && to_psp e)) (return_top e))
    clear_fpca (popped e)) as (E1 & E2 & E3 & E4 & E5 & E6).
  destruct (E6 (frame_word_u32 e 7 Hl ltac:(lia))) as [E7 E8].
  fold (resumed e) in E1, E2, E3, E4, E5, E7, E8.
  set (e' := resumed e) in *. clearbody e'. clear E6.
  destruct (left_handler_fields e Hw) as (_ & _ & _ & _ & _ & F6 & _).
  destruct (left_handler_frame e) as (_ & _ & L3).
  destruct (resumed_fields e (env_v7m e') Hw) as (R1 & R2 & R3 & R4 & R5).
  { rewrite E4. unfold env_v7m. rewrite P1. reflexivity. }
  split; try assumption.
  - intros r Hrr Hne. unfold get_reg at 1. destruct (Z.eqb_spec r 13); [done|]. rewrite E1. by apply popped_reg.
  - by rewrite E2.
  - by rewrite E3, popped_vfp, L3.
  - assert (model_of (env_nvic e') = model_of (env_nvic e)) as Hm by (rewrite E5, P1; by rewrite model_finish).
    destruct (cw_core e Hw). by split; rewrite ?Hm.
  - intros b i. rewrite E5, P1, vec_finish. by apply left_handler_vec.
  - rewrite E5, P1. eapply frame_inv; [apply effect_frame|].
    eapply frame_inv; [apply set_v7m_frame; intros m; unfold write_v7m_exception; by case_if|].
    eapply frame_inv; [apply set_v7m_frame; intros m; by destruct (arm_v7m_get_sp_ptr _ _ _ _)|].
    eapply frame_inv; [by apply set_v7m_frame|]. by apply left_handler_inv.
Qed.

(** C12.  Exception return.  When a handler branches to a return value for the
    basic frame, its exception is active, no pending exception is to be taken
    first, and the frame on the selected stack can be loaded, the CPU resumes the
    code the frame describes: r0-r3, r12, lr and pc (with bit 0 cleared) come from
    the frame and r4-r11 stay; the xPSR is the one of the frame in every bit the
    xPSR has, IPSR included; the selected stack pointer moves over the frame (and
    over the padding word when bit 9 of the stacked xPSR is set), the other stays;
    SPSEL is the one of the return value and FPCA is cleared; the handler's
    exception is inactive, and pending again if it was pending or its line is
    still high; no other vector, no system register but FAULTMASK and no memory
    changes. *)
Theorem exception_return L semihost x e :
  cpu_wf e → nvic_inv L (env_nvic e) → returns e → frame_loadable e →
  FEATURE_THUMB_DSP (model_of (env_nvic e)) = true →
  to_thread e = (Z.land (return_xpsr e) XPSR_EXCP =? 0) → EXC_RETURN_MIN_MAGIC ≤ get_reg e 15 →
  ∃ e', arm_v7m_cpu_do_interrupt semihost EXCP_EXCEPTION_EXIT x e = Ok (Returned e' tt) ∧
        return_effect L e e'.
Proof.
  intros Hw Hi Hr Hl Hdsp Hmode Hpc. destruct (exit_effect L e Hw Hi Hr Hl Hdsp Hmode) as (e' & He & Hre).
  exists e'. split; [|done]. unfold arm_v7m_cpu_do_interrupt, pend_exception.
  destruct (Z.ltb_spec (get_reg e 15) EXC_RETURN_MIN_MAGIC); [lia|]. by rewrite He.
Qed.

(** ** Entry followed by return *)

(** The bits of the stacked xPSR: bit 9 is the realignment, bit 20 is clear. *)
Lemma entry_xpsr_bits e i : cpu_wf e → 0 ≤ i < 32 →
  Z.testbit (entry_xpsr e) i = negb (i =? 20) && (xpsr_bit e i || (i =? 9) && realigned (env_v7m e)).
Proof.
  intros Hw Hi. unfold entry_xpsr. change XPSR_SFPA with (bit 20). change XPSR_SPREALIGN with (bit 9).
  rewrite Z.land_spec, not32_spec, bit_spec, (Z.eqb_sym 20) by lia.
  destruct (Z.ltb_spec i 32) as [Hlt|]; [|lia]. rewrite andb_true_l, andb_comm. f_equal.
  destruct (realigned _); rewrite ?Z.lor_spec, (xpsr_read_bits e i (cw_flags e Hw)) by lia;
    destruct (Z.ltb_spec i 32); try lia; rewrite ?bit_spec, ?(Z.eqb_sym 9), ?andb_true_r, ?andb_false_r, ?orb_false_r by lia; done.
Qed.

Lemma xpsr_bit_stored e i : xpsr_bit e i = true → 0 ≤ i < 32 → xpsr_stored i = true.
Proof.
  intros Hx Hi. revert i Hi Hx. apply (bit_cases (fun i => xpsr_bit e i = true → xpsr_stored i = true)).
  unfold bits32. repeat constructor; done.
Qed.

Lemma stacked_bit i b r : 0 ≤ i < 32 → (b = true → xpsr_stored i = true) →
  xpsr_stored i && (negb (i =? 20) && (b || (i =? 9) && r)) = b.
Proof.
  intros Hi. revert i Hi.
  apply (bit_cases (fun i => (b = true → xpsr_stored i = true) →
    xpsr_stored i && (negb (i =? 20) && (b || (i =? 9) && r)) = b)).
  unfold bits32. repeat constructor; destruct b, r; cbn; intros Hs; try done; by specialize (Hs eq_refl).
Qed.

Lemma u32_bits_eq x y : is_u32 x → is_u32 y →
  (∀ i, 0 ≤ i < 32 → Z.testbit x i = Z.testbit y i) → x = y.
Proof.
  intros Hx Hy Hb. apply Z.bits_inj'. intros i Hi. destruct (Z.ltb_spec i 32); [apply Hb; lia|].
  by rewrite (testbit_above 32 x), (testbit_above 32 y).
Qed.

Lemma sp_bank m : sp m = bank_sp m (secure_state m) (v7m_using_psp m).
Proof. by rewrite bank_sp_eq, !eqb_reflx. Qed.

Lemma entry_xpsr_exception e : cpu_wf e → Z.land (entry_xpsr e) XPSR_EXCP = exception (env_v7m e).
Proof.
  intros Hw. pose proof (wf_exc e (cw_flags e Hw)) as Hx. apply Z.bits_inj'. intros i Hi.
  change XPSR_EXCP with (2 ^ 9 - 1). rewrite land_mask by done. rewrite wrap_spec by done.
  destruct (Z.ltb_spec i 9) as [Hlt|]; [|by rewrite (testbit_above 9 (exception (env_v7m e))) by done].
  rewrite entry_xpsr_bits by (done || lia).
  assert (xpsr_bit e i = Z.testbit (exception (env_v7m e)) i) as ->.
  { assert (0 ≤ i < 32) as H32 by lia. revert i H32 Hi Hlt.
    apply (bit_cases (fun i => 0 ≤ i → i < 9 → xpsr_bit e i = Z.testbit (exception (env_v7m e)) i)).
    unfold bits32. repeat constructor; intros; done || lia. }
  destruct (Z.eqb_spec i 20); [lia|]. destruct (Z.eqb_spec i 9); [lia|]. by rewrite orb_false_r.
Qed.

(** A v7M handler has SPSEL clear, and Thread mode has no active exception. *)
Record mode_wf (e : CPUARMState M) : Prop := {
  mw_spsel : exception (env_v7m e) ≠ 0 → has (ns (control (env_v7m e))) 2 = false;
  mw_base : exception (env_v7m e) = 0 → ∀ i, active (vec (env_nvic e) i) = false
}.

(** A handler that has run from its entry [e1] to its return instruction [e2]:
    it keeps the stack pointers, the callee-saved registers, the frame and
    CONTROL, branches to the return value, and leaves the same exceptions
    active.  What else it does to the memory, the registers and the controller
    is free. *)
Record handler_ran (L : bool) (fp : Z) (e1 e2 : CPUARMState M) : Prop := {
  hr_wf : cpu_wf e2;
  hr_inv : nvic_inv L (env_nvic e2);
  hr_model : model_of (env_nvic e2) = model_of (env_nvic e1);
  hr_num_irq : num_irq (env_nvic e2) = num_irq (env_nvic e1);
  hr_exception : exception (env_v7m e2) = exception (env_v7m e1);
  hr_active : ∀ i, active (vec (env_nvic e2) i) = active (vec (env_nvic e1) i);
  hr_level : exception (env_v7m e2) < NVIC_FIRST_IRQ →
    level (vec (env_nvic e2) (exception (env_v7m e2))) = 0;
  hr_banks : ∀ psp, bank_sp (env_v7m e2) false psp = bank_sp (env_v7m e1) false psp;
  hr_callee : ∀ r, 4 ≤ r < 12 → get_reg e2 r = get_reg e1 r;
  hr_frame : word_at (mem e2) <$> frame_words fp = word_at (mem e1) <$> frame_words fp;
  hr_branch : get_reg e2 15 = Z.land (get_reg e1 14) 0xfffffffe ∧ thumb e2 = has (get_reg e1 14) 1;
  hr_control : ns (control (env_v7m e2)) = ns (control (env_v7m e1));
  hr_fpccr : has (sec (fpccr (env_v7m e2))) (field_mask FPCCR_CLRONRET) = false;
  hr_preempt : armv7m_nvic_can_take_pending_exception (env_nvic (left_handler e2)) = false;
  hr_loadable : frame_loadable e2
}.

(** The three return values. *)
Lemma entry_lr_cases e : cpu_wf e → no_fp e → mode_wf e →
  entry_lr e = (if arm_v7m_is_handler_mode (env_v7m e) then 0xfffffff1
                else if has (ns (control (env_v7m e))) 2 then 0xfffffffd else 0xfffffff9).
Proof.
  intros Hw Hfp Hm. rewrite entry_lr_v7m by done. pose proof (mw_spsel e Hm) as Hs.
  unfold arm_v7m_is_handler_mode. destruct (Z.eqb_spec (exception (env_v7m e)) 0); cbn [negb].
  - by destruct (has _ 2).
  - by rewrite Hs.
Qed.

Section trip.
Context (L : bool) (e e1 e2 : CPUARMState M).
Context (Hw : cpu_wf e) (Hi : nvic_inv L (env_nvic e)) (Hfp : no_fp e) (Hm : mode_wf e).
Context (He1 : entry_effect L e e1) (Hh : handler_ran L (entry_frame (env_v7m e)) e1 e2).

Lemma trip_excret : exit_excret e2 = entry_lr e.
Proof.
  unfold exit_excret. destruct (hr_branch _ _ _ _ Hh) as [-> ->]. rewrite (ee_lr _ _ _ He1), entry_lr_cases by done.
  by destruct (arm_v7m_is_handler_mode _), (has (ns (control (env_v7m e))) 2).
Qed.

Lemma trip_thread : to_thread e2 = (exception (env_v7m e) =? 0).
Proof.
  unfold to_thread. rewrite trip_excret, entry_lr_cases by done. unfold arm_v7m_is_handler_mode.
  by destruct (exception (env_v7m e) =? 0), (has (ns (control (env_v7m e))) 2).
Qed.

Lemma trip_psp : to_psp e2 = has (ns (control (env_v7m e))) 2.
Proof.
  unfold to_psp. rewrite trip_excret, entry_lr_cases by done. pose proof (mw_spsel e Hm) as Hs.
  unfold arm_v7m_is_handler_mode. destruct (Z.eqb_spec (exception (env_v7m e)) 0); cbn [negb].
  - by destruct (has (ns (control (env_v7m e))) 2).
  - by rewrite Hs.
Qed.

Lemma trip_using : to_thread e2 && to_psp e2 = v7m_using_psp (env_v7m e).
Proof.
  rewrite trip_thread, trip_psp. unfold v7m_using_psp, arm_v7m_is_handler_mode.
  rewrite (wf_secure e Hw), negb_involutive. done.
Qed.

Lemma trip_frame : return_frame e2 = entry_frame (env_v7m e).
Proof.
  unfold return_frame. rewrite trip_using, (hr_banks _ _ _ _ Hh), (ee_banks _ _ _ He1). by rewrite eqb_reflx.
Qed.

Lemma trip_word i v : frame_values e !! i = Some v → frame_word e2 (Z.of_nat i) = v.
Proof.
  intros Hv. pose proof (hr_frame _ _ _ _ Hh) as Hf. rewrite (ee_frame _ _ _ He1) in Hf.
  rewrite <- Hf in Hv. apply list_lookup_fmap_Some in Hv as (a & -> & Ha).
  apply list_lookup_fmap_Some in Ha as (j & -> & Hj). apply lookup_seqZ in Hj as [-> _].
  unfold frame_word. by rewrite trip_frame.
Qed.

Lemma trip_xpsr : return_xpsr e2 = entry_xpsr e.
Proof. exact (trip_word 7 (entry_xpsr e) eq_refl). Qed.

Lemma trip_top : return_top e2 = sp (env_v7m e).
Proof.
  unfold return_top. cbv zeta. rewrite trip_xpsr, trip_frame. change XPSR_SPREALIGN with (bit 9).
  rewrite has_bit, entry_xpsr_bits by (done || lia). pose proof (cw_sp e Hw) as [Hlo Hhi].
  assert (u32 (entry_frame (env_v7m e) + 0x20) = frame_top (env_v7m e)) as ->.
  { unfold entry_frame, frame_top, wrap. change (2 ^ 32) with 4294967296 in *. case_if; euclid. }
  change (negb (9 =? 20) && (xpsr_bit e 9 || (9 =? 9) && realigned (env_v7m e))) with (realigned (env_v7m e)).
  unfold frame_top. destruct (realigned (env_v7m e)) eqn:Hr; [|done].
  unfold realigned in Hr. apply andb_true_iff in Hr as [Hb _]. change 4 with (bit 2) in Hb.
  rewrite has_bit in Hb by done. set (x := sp (env_v7m e)) in *.
  pose proof (Z.testbit_spec' x 2 ltac:(lia)) as H2. rewrite Hb in H2. cbn [Z.b2z] in H2. change (2 ^ 2) with 4 in H2.
  rewrite wrap_small by (split; change (2 ^ 32) with 4294967296 in *; euclid).
  assert (Z.land (x - 4) 4 = 0) as Hz.
  { change 4 with (bit 2) at 2. apply Z.bits_inj'. intros i Hi0. rewrite land_bit_spec, Z.bits_0 by lia.
    destruct (Z.eqb_spec i 2) as [->|]; [|done]. cbn [andb].
    pose proof (Z.testbit_spec' (x - 4) 2 ltac:(lia)) as H3. change (2 ^ 2) with 4 in H3.
    destruct (Z.testbit (x - 4) 2); [|done]. exfalso. cbn [Z.b2z] in H3. euclid. }
  pose proof (Z.add_lor_land (x - 4) 4) as Ha. lia.
Qed.

Lemma trip_returns : armv7m_nvic_can_take_pending_exception (env_nvic e) = true → returns e2.
Proof.
  intros Ht. destruct (can_take_offered L _ Hi Ht) as (_ & Hex & _ & _ & Hgt & _).
  pose proof (nwf_no_security _ (proj1 (proj1 Hi)) (core_sec _ (cw_core e Hw))) as [_ Hnb].
  assert (offered (env_nvic e) = (vectpending (env_nvic e), false)) as Ho by (unfold offered; by rewrite Hnb).
  assert (∀ i, active (vec (env_nvic e2) i) =
    if decide ((i, false) = offered (env_nvic e)) then true else active (vec (env_nvic e) i)) as Ha.
  { intros i. rewrite (hr_active _ _ _ _ Hh). change (vec ?s i) with (entry_vec s (i, false)).
    rewrite (ee_vectors _ _ _ He1). by destruct (decide _). }
  assert (exception (env_v7m e2) = vectpending (env_nvic e)) as Hx
    by (by rewrite (hr_exception _ _ _ _ Hh), (ee_exception _ _ _ He1)).
  assert (1 < vectpending (env_nvic e) < num_irq (env_nvic e2)) as Hrange.
  { rewrite (hr_num_irq _ _ _ _ Hh), (ee_num_irq _ _ _ He1). rewrite Ho in Hex. destruct Hex as [[_ Hlt] _].
    cbn [fst] in Hlt. unfold ARMV7M_EXCP_RESET in Hgt. lia. }
  assert (active (vec (env_nvic e2) (vectpending (env_nvic e))) = true) as Hact
    by (rewrite Ha, Ho; by rewrite decide_True).
  split.
  - by rewrite Hx.
  - by rewrite Hx.
  - apply (hr_level _ _ _ _ Hh).
  - rewrite trip_excret, entry_lr_cases by done. unfold arm_v7m_is_handler_mode.
    destruct (Z.eqb_spec (exception (env_v7m e)) 0) as [Hx0|]; cbn [negb]; [right|by left].
    split; [destruct (has _ 2); auto|left].
    rewrite (rettobase_spec _ (vectpending (env_nvic e))); [|apply (cw_core _ (hr_wf _ _ _ _ Hh))|lia|done].
    intros i _ Hne. rewrite Ha, decide_False by (rewrite Ho; congruence). by apply (mw_base e Hm).
  - rewrite trip_excret, entry_lr_cases by done. by destruct (arm_v7m_is_handler_mode _), (has (ns (control (env_v7m e))) 2).
  - apply (hr_fpccr _ _ _ _ Hh).
  - apply (hr_preempt _ _ _ _ Hh).
Qed.

(** CONTROL: SPSEL is cleared by entry and put back by return. *)
Lemma spsel_restored c : is_u32 c → deposit32 (deposit32 c 1 1 0) 1 1 (of_bool (has c 2)) = c.
Proof.
  intros Hc. apply Z.bits_inj'. intros i Hi0. unfold deposit32. cbv zeta.
  change (u32 (Z.shiftl (Z.shiftr (2 ^ 32 - 1) (32 - 1)) 1)) with (bit 1).
  rewrite !Z.lor_spec, !Z.land_spec, !Z.lor_spec, !Z.land_spec, !not32_spec, !bit_spec by lia.
  destruct (Z.ltb_spec i 32); [|by rewrite (testbit_above 32 c), !andb_false_l, !andb_false_r by (done || lia);
    destruct (Z.eqb_spec 1 i); [lia|]; rewrite !andb_false_r].
  destruct (Z.eqb_spec 1 i) as [<-|]; cbn [negb andb]; rewrite ?andb_false_r, ?andb_true_r, ?orb_false_r, ?orb_false_l; [|done].
  change 2 with (bit 1). rewrite has_bit by done. by destruct (Z.testbit c 1).
Qed.

Lemma trip_reg e3 r : Z.testbit (get_reg e 15) 0 = false → return_effect L e2 e3 →
  0 ≤ r < 16 → r ≠ 13 → get_reg e3 r = get_reg e r.
Proof.
  intros Hpc Hr Hrr Hne. rewrite (re_regs _ _ _ Hr) by done.
  assert (r = 0 ∨ r = 1 ∨ r = 2 ∨ r = 3 ∨ 4 ≤ r < 12 ∨ r = 12 ∨ r = 14 ∨ r = 15) as Hc by lia.
  destruct Hc as [->|[->|[->|[->|[Hr2|[->|[->| ->]]]]]]].
  - exact (trip_word 0 _ eq_refl).
  - exact (trip_word 1 _ eq_refl).
  - exact (trip_word 2 _ eq_refl).
  - exact (trip_word 3 _ eq_refl).
  - rewrite frame_slot_none by done. rewrite (hr_callee _ _ _ _ Hh) by done. apply (ee_regs _ _ _ He1). lia.
  - exact (trip_word 4 _ eq_refl).
  - exact (trip_word 5 _ eq_refl).
  - change (frame_slot 15) with (Some 6). cbv iota. cbn [Z.eqb Pos.eqb].
    rewrite (trip_word 6 _ eq_refl : frame_word e2 6 = _), <- even_land by by apply wf_reg.
    change 1 with (bit 0). rewrite has_bit, Hpc by done. done.
Qed.

Lemma trip_restores e3 : Z.testbit (get_reg e 15) 0 = false → is_u32 (ns (control (env_v7m e))) →
  return_effect L e2 e3 →
  (∀ r, 0 ≤ r < 16 → get_reg e3 r = get_reg e r) ∧ xpsr_read e3 = xpsr_read e ∧
  (∀ psp, bank_sp (env_v7m e3) false psp = bank_sp (env_v7m e) false psp) ∧
  exception (env_v7m e3) = exception (env_v7m e) ∧ ns (control (env_v7m e3)) = ns (control (env_v7m e)).
Proof.
  intros Hpc Hcu Hr.
  assert (exception (env_v7m e3) = exception (env_v7m e)) as Hx
    by (rewrite (re_exception _ _ _ Hr), trip_xpsr; by apply entry_xpsr_exception).
  assert (ns (control (env_v7m e3)) = ns (control (env_v7m e))) as Hc.
  { rewrite (re_control _ _ _ Hr). cbn [ns]. rewrite (hr_control _ _ _ _ Hh), (ee_control _ _ _ He1), trip_psp.
    cbn [ns handler_control]. by apply spsel_restored. }
  assert (∀ psp, bank_sp (env_v7m e3) false psp = bank_sp (env_v7m e) false psp) as Hb.
  { intros psp. rewrite (re_banks _ _ _ Hr), trip_using, trip_top, (hr_banks _ _ _ _ Hh), (ee_banks _ _ _ He1).
    destruct (eqb psp _) eqn:E; [|done]. apply eqb_prop in E as ->.
    rewrite bank_sp_eq, (wf_secure e Hw). by rewrite !eqb_reflx. }
  split_and!; try done.
  - intros r Hrr. destruct (Z.eqb_spec r 13) as [->|Hne]; [|by apply trip_reg].
    change (get_reg ?x 13) with (sp (env_v7m x)).
    pose proof (core_ns _ (re_core _ _ _ Hr)) as Hs. change (v7m_of (env_nvic e3)) with (env_v7m e3) in Hs.
    assert (v7m_using_psp (env_v7m e3) = v7m_using_psp (env_v7m e)) as Hu.
    { unfold v7m_using_psp, arm_v7m_is_handler_mode. rewrite Hx, Hs, (wf_secure e Hw). cbn [bget]. by rewrite Hc. }
    rewrite (sp_bank (env_v7m e3)), (sp_bank (env_v7m e)), Hs, (wf_secure e Hw), Hu. apply Hb.
  - apply (u32_bits_eq _ _ (xpsr_read_u32 _ (re_flags _ _ _ Hr)) (xpsr_read_u32 _ (cw_flags e Hw))).
    intros i Hi0. rewrite (re_xpsr _ _ _ Hr), trip_xpsr, entry_xpsr_bits by done.
    rewrite (xpsr_read_bits e i (cw_flags e Hw)) by lia. destruct (Z.ltb_spec i 32); [|lia]. rewrite andb_true_l.
    apply stacked_bit; [done|]. intros Hs. by apply (xpsr_bit_stored e i).
Qed.
End trip.

Lemma fpca_cleared c : has (FIELD_DP32 c CONTROL_FPCA 0) (field_mask CONTROL_FPCA) = false.
Proof.
  change (field_mask CONTROL_FPCA) with (bit 2). rewrite has_bit by done. unfold FIELD_DP32, deposit32. cbv zeta.
  change (u32 (Z.shiftl (Z.shiftr (2 ^ 32 - 1) (32 - flen CONTROL_FPCA)) (shift CONTROL_FPCA))) with (bit 2).
  rewrite Z.lor_spec, !Z.land_spec, not32_spec, bit_spec by done. cbn. by rewrite andb_false_r.
Qed.

(** C4.  Entry and return are transparent to the interrupted code.  Take an
    exception with a usable stack and vector and no floating-point context, let
    the handler do anything that keeps the stack pointers, r4-r11, CONTROL and
    the eight words of the frame, and let it branch to the value it got in lr
    with no exception left that must be taken first.  Then the return succeeds
    and the interrupted code finds every register, the xPSR, both stack
    pointers, its mode and SPSEL exactly as they were, wherever the stack was and
    whether or not it had to be realigned; the exception taken is inactive, and
    pending only if the handler left it pending or its line is high. *)
Theorem exception_round_trip L e :
  cpu_wf e → nvic_inv L (env_nvic e) → armv7m_nvic_can_take_pending_exception (env_nvic e) = true →
  no_fp e → frame_storable e → readable (vector_addr (env_nvic e)) → mode_wf e →
  FEATURE_THUMB_DSP (model_of (env_nvic e)) = true → Z.testbit (get_reg e 15) 0 = false →
  is_u32 (ns (control (env_v7m e))) →
  ∃ e1, take_exception e = Ok e1 ∧
    ∀ e2, handler_ran L (entry_frame (env_v7m e)) e1 e2 →
    ∃ e3, do_v7m_exception_exit e2 = Ok e3 ∧
      (∀ r, 0 ≤ r < 16 → get_reg e3 r = get_reg e r) ∧ xpsr_read e3 = xpsr_read e ∧
      (∀ psp, bank_sp (env_v7m e3) false psp = bank_sp (env_v7m e) false psp) ∧
      exception (env_v7m e3) = exception (env_v7m e) ∧
      ns (control (env_v7m e3)) = ns (control (env_v7m e)) ∧ no_fp e3 ∧ mem e3 = mem e2 ∧
      (∀ b i, get_vec (env_nvic e3) b i =
         if eqb false b && (vectpending (env_nvic e) =? i)
         then (vec (env_nvic e2) i) <| active := false |>
                <| pending ::= fun p => p || truth (level (vec (env_nvic e2) i)) |>
         else get_vec (env_nvic e2) b i) ∧
      nvic_inv L (env_nvic e3).
Proof.
  intros Hw Hi Ht Hfp Hst Hr Hm Hdsp Hpc Hc.
  destruct (take_exception_effect L e Hw Hi Ht Hfp Hst Hr) as (e1 & He1 & Hee).
  exists e1. split; [done|]. intros e2 Hh.
  destruct (exit_effect L e2) as (e3 & He3 & Hre).
  - apply (hr_wf _ _ _ _ Hh).
  - apply (hr_inv _ _ _ _ Hh).
  - by apply (trip_returns L e e1 e2).
  - apply (hr_loadable _ _ _ _ Hh).
  - by rewrite (hr_model _ _ _ _ Hh), (ee_model _ _ _ Hee).
  - rewrite (trip_thread L e e1 e2), (trip_xpsr L e e1 e2) by done. by rewrite entry_xpsr_exception.
  - destruct (trip_restores L e e1 e2 Hw Hfp Hm Hee Hh e3 Hpc Hc Hre) as (T1 & T2 & T3 & T4 & T5).
    exists e3. split_and!; try done.
    + unfold no_fp. rewrite (re_control _ _ _ Hre). apply fpca_cleared.
    + apply (re_mem _ _ _ Hre).
    + intros b i. rewrite (re_vectors _ _ _ Hre), (hr_exception _ _ _ _ Hh), (ee_exception _ _ _ Hee). done.
    + apply (re_inv _ _ _ Hre).
Qed.
End exits.
