(* ===== verification/Memory.v ===== *)
(** Memory regions and their flattening: the part of qemu/system/memory.c that
    decides which region answers at an address.

    Regions are heap objects that point at each other; here they live in a
    store indexed by their identity, so that an alias sees the subregions its
    target is given later. *)

From S2P Require Import Prelude.

(** ** Regions *)

(** [alias] with its target and [alias_offset], or a plain region which
    [terminates] (RAM, ROM, I/O) or is a pure container. *)
Inductive mr_kind (R : Type) :=
| Plain (terminates : bool)
| AliasOf (target : R) (alias_offset : Z).
Arguments Plain {R}.
Arguments AliasOf {R}.

(** A subregion with its [addr] in the container and its [priority]. *)
Record Subregion (R : Type) := mk_sub { sub_mr : R; sub_addr : Z; sub_priority : Z }.
Arguments mk_sub {R}.
Arguments sub_mr {R}.
Arguments sub_addr {R}.
Arguments sub_priority {R}.

Record MemoryRegion (R : Type) := mk_mr {
  mr_size : Z; mr_readonly : bool; mr_of_kind : mr_kind R;
  mr_container : option R; mr_subregions : list (Subregion R)
}.
Arguments mk_mr {R}.
Arguments mr_size {R}.
Arguments mr_readonly {R}.
Arguments mr_of_kind {R}.
Arguments mr_container {R}.
Arguments mr_subregions {R}.

#[export] Instance eta_MemoryRegion {R} : RecordEta (MemoryRegion R) := fun m =>
  mk_mr (mr_size m) (mr_readonly m) (mr_of_kind m) (mr_container m) (mr_subregions m).

(** [AddrRange] and [FlatRange]. *)
Record AddrRange := mk_range { start : Z; rsize : Z }.
Record FlatRange (R : Type) := mk_fr {
  fr_addr : AddrRange; fr_mr : R; fr_offset : Z; fr_readonly : bool
}.
Arguments mk_fr {R}.
Arguments fr_addr {R}.
Arguments fr_mr {R}.
Arguments fr_offset {R}.
Arguments fr_readonly {R}.

Definition addrrange_end (r : AddrRange) : Z := start r + rsize r.
Definition addrrange_contains (r : AddrRange) (addr : Z) : bool :=
  (start r <=? addr) && (addr <? addrrange_end r).
Definition addrrange_intersects (r1 r2 : AddrRange) : bool :=
  addrrange_contains r1 (start r2) || addrrange_contains r2 (start r1).
Definition addrrange_intersection (r1 r2 : AddrRange) : AddrRange :=
  let s := Z.max (start r1) (start r2) in
  let e := Z.min (addrrange_end r1) (addrrange_end r2) in
  mk_range s (e - s).

Section Regions.
Context {R : Type} `{EqDecision R}.

Definition store := R → MemoryRegion R.

Definition supd (r : R) (f : MemoryRegion R → MemoryRegion R) (st : store) : store :=
  fun r' => if decide (r' = r) then f (st r') else st r'.

(** ** Initialisation *)

(** The size [UINT64_MAX] stands for the whole address space. *)
Definition memory_region_do_init (size : Z) : MemoryRegion R :=
  mk_mr (if size =? 2 ^ 64 - 1 then 2 ^ 64 else size) false (Plain false) None [].

Definition memory_region_init (mr : R) (size : Z) (st : store) : store :=
  supd mr (fun _ => memory_region_do_init size) st.

Definition memory_region_init_io (mr : R) (size : Z) (st : store) : store :=
  supd mr (fun _ => (memory_region_do_init size) <| mr_of_kind := Plain true |>) st.

Definition memory_region_init_alias (mr orig : R) (offset size : Z) (st : store) : store :=
  supd mr (fun _ => (memory_region_do_init size) <| mr_of_kind := AliasOf orig offset |>) st.

(** RAM always terminates; the backing block is not modelled. *)
Definition memory_region_init_ram (mr : R) (size : Z) (st : store) : store :=
  supd mr (fun _ => (memory_region_do_init size) <| mr_of_kind := Plain true |>) st.

Definition memory_region_init_rom (mr : R) (size : Z) (st : store) : store :=
  supd mr (fun _ => (memory_region_do_init size) <| mr_of_kind := Plain true |>
                      <| mr_readonly := true |>) st.

(** ** Adding subregions *)

(** The queue is kept in rendering order: descending priority, and among equal
    priorities the newest first. *)
Fixpoint insert_subregion (sub : Subregion R) (l : list (Subregion R)) : list (Subregion R) :=
  match l with
  | [] => [sub]
  | other :: l' =>
    if sub_priority other <=? sub_priority sub then sub :: l
    else other :: insert_subregion sub l'
  end.

Definition memory_region_add_subregion_common (mr : R) (offset : Z) (subregion : R)
    (priority : Z) (st : store) : outcome store :=
  assert_c (match mr_container (st subregion) with None => true | Some _ => false end);;
  let st := supd subregion (fun m => m <| mr_container := Some mr |>) st in
  mret (supd mr (fun m => m <| mr_subregions ::=
    insert_subregion (mk_sub subregion offset priority) |>) st).

Definition memory_region_add_subregion (mr : R) (offset : Z) (subregion : R) (st : store)
  : outcome store :=
  memory_region_add_subregion_common mr offset subregion 0 st.

Definition memory_region_add_subregion_overlap (mr : R) (offset : Z) (subregion : R)
    (priority : Z) (st : store) : outcome store :=
  memory_region_add_subregion_common mr offset subregion priority st.

(** ** Rendering *)

(** The loop that renders a terminating region into the gaps of the view, from
    [base] on, for [remain] bytes. *)
Fixpoint fill_gaps (mr : R) (readonly : bool) (view : list (FlatRange R))
    (base remain offset : Z) : list (FlatRange R) :=
  match view with
  | [] => if remain =? 0 then [] else [mk_fr (mk_range base remain) mr offset readonly]
  | r :: view' =>
    if remain =? 0 then view
    else if addrrange_end (fr_addr r) <=? base
    then r :: fill_gaps mr readonly view' base remain offset
    else
      let gap := if base <? start (fr_addr r)
                 then Z.min remain (start (fr_addr r) - base) else 0 in
      let new := if base <? start (fr_addr r)
                 then [mk_fr (mk_range base gap) mr offset readonly] else [] in
      let base' := base + gap in
      let offset' := offset + gap in
      let remain' := remain - gap in
      let now := Z.min (base' + remain') (addrrange_end (fr_addr r)) - base' in
      new ++ r :: fill_gaps mr readonly view' (base' + now) (remain' - now) (offset' + now)
  end.

(** [base] is the address of the container, [addr] the region's offset in it;
    the fuel bounds the depth of nesting. *)
Fixpoint render_memory_region (fuel : nat) (st : store) (view : list (FlatRange R)) (mr : R)
    (addr base : Z) (clip : AddrRange) (readonly : bool) : list (FlatRange R) :=
  match fuel with
  | O => view
  | S fuel =>
    let base := base + addr in
    let readonly := readonly || mr_readonly (st mr) in
    let tmp := mk_range base (mr_size (st mr)) in
    if negb (addrrange_intersects tmp clip) then view
    else
      let clip := addrrange_intersection tmp clip in
      match mr_of_kind (st mr) with
      | AliasOf target offset =>
        render_memory_region fuel st view target 0 (base - offset) clip readonly
      | Plain terminates =>
        let view := fold_left (fun view sub =>
          render_memory_region fuel st view (sub_mr sub) (sub_addr sub) base clip readonly)
          (mr_subregions (st mr)) view in
        if negb terminates then view
        else fill_gaps mr readonly view (start clip) (rsize clip) (start clip - base)
      end
  end.

Definition can_merge (r1 r2 : FlatRange R) : bool :=
  (addrrange_end (fr_addr r1) =? start (fr_addr r2)) &&
  bool_decide (fr_mr r1 = fr_mr r2) &&
  (fr_offset r1 + rsize (fr_addr r1) =? fr_offset r2) &&
  eqb (fr_readonly r1) (fr_readonly r2).

(** The inner loop: [r] is the range that absorbs, [prev] the last range it
    absorbed, compared with the next one. *)
Fixpoint simplify_from (r prev : FlatRange R) (view : list (FlatRange R)) : list (FlatRange R) :=
  match view with
  | [] => [r]
  | r' :: view' =>
    if can_merge prev r'
    then simplify_from (mk_fr (mk_range (start (fr_addr r)) (rsize (fr_addr r) + rsize (fr_addr r')))
                          (fr_mr r) (fr_offset r) (fr_readonly r)) r' view'
    else r :: simplify_from r' r' view'
  end.

Definition flatview_simplify (view : list (FlatRange R)) : list (FlatRange R) :=
  match view with
  | [] => []
  | r :: view' => simplify_from r r view'
  end.

(** The view of an address space of [2 ^ 64] bytes over [root]. *)
Definition generate_memory_topology (fuel : nat) (st : store) (root : R) : list (FlatRange R) :=
  flatview_simplify (render_memory_region fuel st [] root 0 0 (mk_range 0 (2 ^ 64)) false).

(** The region, offset and permission at an address. *)
Definition flatview_lookup (view : list (FlatRange R)) (addr : Z) : option (R * Z * bool) :=
  (fun r => (fr_mr r, addr - start (fr_addr r) + fr_offset r, fr_readonly r)) <$>
    head (filter (fun r => addrrange_contains (fr_addr r) addr = true) view).

(** ** The region an address belongs to, directly

    The first region, in rendering order, that contains the address. *)
Fixpoint resolve (fuel : nat) (st : store) (mr : R) (a : Z) (readonly : bool)
  : option (R * Z * bool) :=
  match fuel with
  | O => None
  | S fuel =>
    let readonly := readonly || mr_readonly (st mr) in
    if (a <? 0) || (mr_size (st mr) <=? a) then None
    else
      match mr_of_kind (st mr) with
      | AliasOf target offset => resolve fuel st target (a + offset) readonly
      | Plain terminates =>
        match head (omap (fun sub => resolve fuel st (sub_mr sub) (a - sub_addr sub) readonly)
                      (mr_subregions (st mr))) with
        | Some r => Some r
        | None => if terminates then Some (mr, a, readonly) else None
        end
      end
  end.

(** ** The view shows what [resolve] finds *)

(** Disjoint ranges in ascending order, from [lo] on. *)
Fixpoint view_wf (lo : Z) (view : list (FlatRange R)) : Prop :=
  match view with
  | [] => True
  | r :: view' =>
    lo ≤ start (fr_addr r) ∧ 0 ≤ rsize (fr_addr r) ∧ view_wf (addrrange_end (fr_addr r)) view'
  end.

Definition entry_at (r : FlatRange R) (a : Z) : R * Z * bool :=
  (fr_mr r, a - start (fr_addr r) + fr_offset r, fr_readonly r).

Lemma lookup_cons (r : FlatRange R) view a :
  flatview_lookup (r :: view) a =
    if addrrange_contains (fr_addr r) a then Some (entry_at r a) else flatview_lookup view a.
Proof.
  unfold flatview_lookup. destruct (addrrange_contains (fr_addr r) a) eqn:Hc.
  - by rewrite filter_cons_True.
  - rewrite filter_cons_False by (rewrite Hc; done). done.
Qed.

Lemma contains_spec r a : addrrange_contains r a = true ↔ start r ≤ a < start r + rsize r.
Proof. unfold addrrange_contains, addrrange_end. lia. Qed.

Lemma view_wf_weaken lo lo' view : lo' ≤ lo → view_wf lo view → view_wf lo' view.
Proof. destruct view; simpl; [done|]. intros. split_and!; lia || tauto. Qed.

Lemma lookup_below lo view a : view_wf lo view → a < lo → flatview_lookup view a = None.
Proof.
  revert lo. induction view as [|r view IH]; intros lo Hwf Ha; [done|]. rewrite lookup_cons.
  destruct Hwf as (H1 & H2 & H3). unfold addrrange_end in H3.
  destruct (addrrange_contains (fr_addr r) a) eqn:Hc.
  - apply contains_spec in Hc. lia.
  - apply (IH _ H3). lia.
Qed.

(** What is found once a region has been rendered below what is there. *)
Definition below (found : option (R * Z * bool)) (inside : bool) (e : R * Z * bool)
  : option (R * Z * bool) :=
  match found with Some x => Some x | None => if inside then Some e else None end.

Lemma fill_gaps_nil mr ro view base offset : fill_gaps mr ro view base 0 offset = view.
Proof. by destruct view. Qed.

(** One step: the gap before a range, the range, and what was done after it. *)
Lemma fill_gap_step mr ro r view rest lo base gap now remain offset a :
  view_wf lo (r :: view) → lo ≤ base → base < addrrange_end (fr_addr r) → 0 < remain → 0 ≤ gap ≤ remain →
  (base < start (fr_addr r) → gap = Z.min remain (start (fr_addr r) - base)) →
  (start (fr_addr r) ≤ base → gap = 0) → 0 ≤ now → base + gap + now ≤ addrrange_end (fr_addr r) →
  now = remain - gap ∨ base + gap + now = addrrange_end (fr_addr r) →
  view_wf (addrrange_end (fr_addr r)) rest →
  flatview_lookup rest a = below (flatview_lookup view a)
    ((base + gap + now <=? a) && (a <? base + remain)) (mr, a - base + offset, ro) →
  let view' := (if base <? start (fr_addr r) then [mk_fr (mk_range base gap) mr offset ro] else []) ++ r :: rest in
  view_wf lo view' ∧ flatview_lookup view' a =
    below (flatview_lookup (r :: view) a) ((base <=? a) && (a <? base + remain)) (mr, a - base + offset, ro).
Proof.
  intros (H1 & H2 & H3) Hlo Hb Hrem Hg1 Hg2 Hg3 Hn1 Hn3 Hn2 Hw Hl. cbv zeta.
  assert (He : addrrange_end (fr_addr r) = start (fr_addr r) + rsize (fr_addr r)) by done.
  remember (start (fr_addr r)) as s0 eqn:Es. remember (addrrange_end (fr_addr r)) as e0 eqn:Ee.
  symmetry in Es, Ee. unfold below in *. destruct (Z.ltb_spec base s0) as [Hlt|Hge]; simpl.
  - split.
    { change (addrrange_end (mk_range base gap)) with (base + gap).
      rewrite Es, Ee. split_and!; done || lia. }
    rewrite !lookup_cons, Hl. simpl. unfold addrrange_contains.
    change (addrrange_end (mk_range base gap)) with (base + gap). simpl. rewrite Es, Ee.
    destruct (Z.leb_spec s0 a), (Z.ltb_spec a e0), (Z.leb_spec base a), (Z.ltb_spec a (base + gap)),
      (Z.ltb_spec a (base + remain)), (Z.leb_spec (base + gap + now) a); simpl; try lia; try done;
      rewrite (lookup_below e0 view a) by (done || lia); done.
  - split; [rewrite Es, Ee; by split_and!|].
    rewrite !lookup_cons, Hl. unfold addrrange_contains. rewrite Es, Ee.
    destruct (Z.leb_spec s0 a), (Z.ltb_spec a e0), (Z.leb_spec base a),
      (Z.ltb_spec a (base + remain)), (Z.leb_spec (base + gap + now) a); simpl; try lia; try done;
      rewrite (lookup_below e0 view a) by (done || lia); done.
Qed.

Lemma fill_gaps_spec mr ro view lo base remain offset a :
  view_wf lo view → lo ≤ base → 0 ≤ remain →
  view_wf lo (fill_gaps mr ro view base remain offset) ∧
  flatview_lookup (fill_gaps mr ro view base remain offset) a =
    below (flatview_lookup view a) ((base <=? a) && (a <? base + remain))
      (mr, a - base + offset, ro).
Proof.
  revert lo base remain offset.
  induction view as [|r view IH]; intros lo base remain offset Hwf Hlo Hrem; simpl.
  - destruct (Z.eqb_spec remain 0) as [->|Hne].
    + split; [done|]. simpl. destruct (Z.leb_spec base a), (Z.ltb_spec a (base + 0)); done || lia.
    + simpl. split; [unfold addrrange_end; simpl; lia|]. rewrite lookup_cons. simpl.
      unfold addrrange_contains, addrrange_end. simpl. by case_if.
  - destruct (Z.eqb_spec remain 0) as [->|Hne].
    { split; [done|]. destruct (flatview_lookup (r :: view) a); [done|]. simpl.
      destruct (Z.leb_spec base a), (Z.ltb_spec a (base + 0)); done || lia. }
    destruct Hwf as (H1 & H2 & H3).
    set (s0 := start (fr_addr r)) in *. set (e0 := addrrange_end (fr_addr r)) in *.
    assert (e0 = s0 + rsize (fr_addr r)) as He by done.
    destruct (Z.leb_spec e0 base) as [Hb|Hb].
    { destruct (IH e0 base remain offset H3 Hb Hrem) as [Hw Hl]. split; [by split_and!|].
      rewrite !lookup_cons, Hl. by case_if. }
    set (gap := if base <? s0 then Z.min remain (s0 - base) else 0).
    set (now := Z.min (base + gap + (remain - gap)) e0 - (base + gap)).
    assert (0 ≤ gap ≤ remain ∧ (base < s0 → gap = Z.min remain (s0 - base)) ∧ (s0 ≤ base → gap = 0))
      as (Hg1 & Hg2 & Hg3) by (unfold gap; destruct (Z.ltb_spec base s0); lia).
    assert (0 ≤ now ∧ base + gap + now ≤ e0 ∧ (now = remain - gap ∨ base + gap + now = e0))
      as (Hn1 & Hn3 & Hn2) by (unfold now; lia).
    assert (view_wf e0 (fill_gaps mr ro view (base + gap + now) (remain - gap - now) (offset + gap + now)) ∧
      flatview_lookup (fill_gaps mr ro view (base + gap + now) (remain - gap - now) (offset + gap + now)) a =
      below (flatview_lookup view a)
        ((base + gap + now <=? a) && (a <? base + remain)) (mr, a - base + offset, ro)) as [Hw Hl].
    { destruct Hn2 as [Hn2|Hn2].
      - replace (remain - gap - now) with 0 by lia. rewrite fill_gaps_nil. split; [done|].
        destruct (flatview_lookup view a); [done|]. simpl.
        destruct (Z.leb_spec (base + gap + now) a), (Z.ltb_spec a (base + remain)); done || lia.
      - destruct (IH e0 (base + gap + now) (remain - gap - now) (offset + gap + now)) as [Hw Hl];
          [done|lia|lia|].
        split; [done|]. rewrite Hl. unfold below.
        replace (base + gap + now + (remain - gap - now)) with (base + remain) by lia.
        by replace (a - (base + gap + now) + (offset + gap + now)) with (a - base + offset) by lia. }
    apply fill_gap_step with (now := now); done || lia.
Qed.

(** The region rendered on its own, seen at an address: where it lies, through
    the clip. *)
Definition rendered (fuel : nat) (st : store) (mr : R) (base : Z) (clip : AddrRange) (ro : bool)
    (a : Z) : option (R * Z * bool) :=
  if addrrange_contains clip a then resolve fuel st mr (a - base) ro else None.

Lemma intersect_spec r1 r2 :
  0 ≤ rsize r1 → 0 ≤ rsize r2 → 0 ≤ start r2 →
  (addrrange_intersects r1 r2 = false → ∀ a, addrrange_contains r1 a && addrrange_contains r2 a = false) ∧
  (addrrange_intersects r1 r2 = true →
     let r := addrrange_intersection r1 r2 in
     0 ≤ rsize r ∧ 0 ≤ start r ∧
     ∀ a, addrrange_contains r a = addrrange_contains r1 a && addrrange_contains r2 a).
Proof.
  intros H1 H2 H3. unfold addrrange_intersects, addrrange_contains, addrrange_intersection, addrrange_end.
  simpl. split; intros H; [intros a; lia|]. split_and!; [lia|lia|]. intros a. lia.
Qed.

Section Render.
Context (st : store) (sizes : ∀ r, 0 ≤ mr_size (st r)).

(** What rendering one region adds to a view, at one address. *)
Definition adds (found : option (R * Z * bool)) (view view' : list (FlatRange R)) (a : Z) : Prop :=
  view_wf 0 view' ∧
  flatview_lookup view' a =
    match flatview_lookup view a with Some x => Some x | None => found end.

Lemma adds_none view a : view_wf 0 view → adds None view view a.
Proof. intros H. split; [done|]. by destruct (flatview_lookup view a). Qed.

(** The subregions in turn, given that each adds what it should. *)
Lemma adds_fold (f : list (FlatRange R) → Subregion R → list (FlatRange R))
    (g : Subregion R → option (R * Z * bool)) subs view a :
  (∀ view sub, view_wf 0 view → adds (g sub) view (f view sub) a) →
  view_wf 0 view → adds (head (omap g subs)) view (fold_left f subs view) a.
Proof.
  intros Hf. revert view. induction subs as [|sub subs IH]; intros view Hwf; simpl.
  { by apply adds_none. }
  destruct (Hf view sub Hwf) as [Hw Hl]. destruct (IH _ Hw) as [Hw' Hl']. split; [done|].
  rewrite Hl', Hl. destruct (flatview_lookup view a); [done|]. by destruct (g sub).
Qed.

Lemma omap_none {A B} (l : list A) : omap (fun _ => None : option B) l = [].
Proof. by induction l. Qed.

Lemma render_spec fuel view mr addr base clip ro a :
  0 ≤ rsize clip → 0 ≤ start clip → view_wf 0 view →
  adds (rendered fuel st mr (base + addr) clip ro a) view
    (render_memory_region fuel st view mr addr base clip ro) a.
Proof.
  revert view mr addr base clip ro.
  induction fuel as [|fuel IH]; intros view mr addr base clip ro Hc Hc0 Hwf.
  { unfold rendered. simpl. case_if; by apply adds_none. }
  cbn [render_memory_region]. cbv zeta. set (b := base + addr).
  set (tmp := mk_range b (mr_size (st mr))). pose proof (sizes mr) as Hm.
  destruct (intersect_spec tmp clip Hm Hc Hc0) as [Hno Hyes].
  assert (∀ x, (x - b <? 0) || (mr_size (st mr) <=? x - b) = negb (addrrange_contains tmp x)) as Htmp.
  { intros x. unfold addrrange_contains, addrrange_end, tmp. simpl. lia. }
  unfold rendered. cbn [resolve]. cbv zeta. rewrite Htmp.
  destruct (addrrange_intersects tmp clip); simpl negb.
  2: { specialize (Hno eq_refl a). destruct (addrrange_contains clip a); [|by apply adds_none].
       rewrite andb_true_r in Hno. rewrite Hno. by apply adds_none. }
  destruct (Hyes eq_refl) as (Hc' & Hc0' & Hin). specialize (Hin a).
  set (clip' := addrrange_intersection tmp clip) in *. clearbody clip' tmp. clear Hno Hyes Htmp.
  set (ro' := ro || mr_readonly (st mr)). destruct (mr_of_kind (st mr)) as [terminates|target off].
  - pose proof (adds_fold
      (fun view sub => render_memory_region fuel st view (sub_mr sub) (sub_addr sub) b clip' ro')
      (fun sub => if addrrange_contains clip' a
                  then resolve fuel st (sub_mr sub) (a - b - sub_addr sub) ro' else None)
      (mr_subregions (st mr)) view a) as [Hw Hl]; [|done|].
    { intros v sub Hv. replace (a - b - sub_addr sub) with (a - (b + sub_addr sub)) by lia.
      by apply IH. }
    set (view' := fold_left _ _ view) in *. clearbody view'. rewrite Hin in Hl.
    destruct terminates; simpl.
    + destruct (fill_gaps_spec mr ro' view' 0 (start clip') (rsize clip') (start clip' - b) a Hw Hc0' Hc')
        as [Hw' Hl']. split; [done|]. rewrite Hl', Hl. unfold below.
      change ((start clip' <=? a) && (a <? start clip' + rsize clip')) with (addrrange_contains clip' a).
      rewrite Hin. replace (a - start clip' + (start clip' - b)) with (a - b) by lia.
      destruct (flatview_lookup view a); [done|].
      destruct (addrrange_contains tmp a), (addrrange_contains clip a); simpl;
        rewrite ?omap_none; done.
    + split; [done|]. rewrite Hl. destruct (flatview_lookup view a); [done|].
      destruct (addrrange_contains tmp a), (addrrange_contains clip a); simpl;
        rewrite ?omap_none; try done. by destruct (head _).
  - destruct (IH view target 0 (b - off) clip' ro' Hc' Hc0' Hwf) as [Hw Hl]. split; [done|].
    rewrite Hl. destruct (flatview_lookup view a); [done|]. unfold rendered. rewrite Hin.
    replace (a - (b - off + 0)) with (a - b + off) by lia.
    by destruct (addrrange_contains tmp a), (addrrange_contains clip a).
Qed.

(** ** Simplification *)

Lemma simplify_spec (r prev : FlatRange R) view lo a :
  lo ≤ start (fr_addr r) → 0 ≤ rsize (fr_addr r) → view_wf (addrrange_end (fr_addr r)) view →
  addrrange_end (fr_addr prev) = addrrange_end (fr_addr r) → fr_mr prev = fr_mr r →
  fr_readonly prev = fr_readonly r →
  fr_offset prev + rsize (fr_addr prev) = fr_offset r + rsize (fr_addr r) →
  flatview_lookup (simplify_from r prev view) a = flatview_lookup (r :: view) a.
Proof.
  revert r prev lo. induction view as [|r' view IH]; intros r prev lo Hlo Hsz Hwf He Hm Hro Hoff; [done|].
  simpl. destruct Hwf as (H1 & H2 & H3). destruct (can_merge prev r') eqn:Hc.
  - unfold can_merge in Hc. rewrite !andb_true_iff, !Z.eqb_eq, bool_decide_eq_true, eqb_true_iff in Hc.
    destruct Hc as [[[Hend Hmr] Ho] Hr]. unfold addrrange_end in *.
    rewrite (IH _ r' lo); simpl; try done; unfold addrrange_end in *; simpl; try congruence; try lia.
    + rewrite !lookup_cons. unfold entry_at, addrrange_contains, addrrange_end. simpl.
      destruct (Z.leb_spec (start (fr_addr r)) a), (Z.ltb_spec a (start (fr_addr r) + rsize (fr_addr r))),
        (Z.leb_spec (start (fr_addr r')) a),
        (Z.ltb_spec a (start (fr_addr r) + (rsize (fr_addr r) + rsize (fr_addr r')))),
        (Z.ltb_spec a (start (fr_addr r') + rsize (fr_addr r'))); simpl; try lia; try done.
      f_equal. f_equal; [f_equal; [congruence|lia]|congruence].
    + by replace (start (fr_addr r) + (rsize (fr_addr r) + rsize (fr_addr r')))
        with (start (fr_addr r') + rsize (fr_addr r')) by lia.
  - rewrite !lookup_cons. case_if; [done|]. rewrite (IH r' r' (addrrange_end (fr_addr r))); try done.
    by rewrite lookup_cons.
Qed.

(** C20.  The flattened view is right.  Whatever tree of containers, aliases and
    regions with priorities is built, looking an address up in the flattened
    and simplified view gives the region, offset and permission found by
    descending the tree: the first region in descending priority order, the
    newest first among equals, with aliases followed at their offset. *)
Theorem memory_view_correct fuel root a :
  flatview_lookup (generate_memory_topology fuel st root) a =
    if (0 <=? a) && (a <? 2 ^ 64) then resolve fuel st root a false else None.
Proof.
  unfold generate_memory_topology.
  destruct (render_spec fuel [] root 0 0 (mk_range 0 (2 ^ 64)) false a) as [Hw Hl];
    [simpl; lia|simpl; lia|done|].
  transitivity (flatview_lookup
    (render_memory_region fuel st [] root 0 0 (mk_range 0 (2 ^ 64)) false) a).
  - destruct (render_memory_region fuel st [] root 0 0 _ false) as [|r view]; [done|].
    destruct Hw as (H1 & H2 & H3). by apply (simplify_spec r r view 0).
  - rewrite Hl. unfold rendered. replace (a - (0 + 0)) with a by lia. reflexivity.
Qed.
End Render.
End Regions.

(** A container with a RAM at 0x10 and, on top of it, an alias of its second
    half at 0x18. *)
Inductive demo_region := DemoRoot | DemoRam | DemoAlias.
#[export] Instance demo_region_eq_dec : EqDecision demo_region.
Proof. solve_decision. Defined.

Definition demo_regions : store (R := demo_region) := fun r =>
  match r with
  | DemoRoot => mk_mr 0x100 false (Plain false) None [mk_sub DemoAlias 0x18 1; mk_sub DemoRam 0x10 0]
  | DemoRam => mk_mr 0x20 false (Plain true) (Some DemoRoot) []
  | DemoAlias => mk_mr 0x8 true (AliasOf DemoRam 0x10) (Some DemoRoot) []
  end.

Lemma memory_view_correct_witness :
  flatview_lookup (generate_memory_topology 3 demo_regions DemoRoot) 0x19 =
    if (0 <=? 0x19) && (0x19 <? 2 ^ 64) then Some (DemoRam, 0x11, true) else None.
Proof.
  rewrite (memory_view_correct demo_regions ltac:(intros []; simpl; lia) 3 DemoRoot 0x19).
  vm_compute. reflexivity.
Defined.
