(* ===== verification/Mcu.v ===== *)
(** The microcontroller: qemu/hw/arm/nxp_s32k3.c with the address map of the
    CPU containers of qemu/hw/arm/armv7m.c, the numbers of
    qemu/include/hw/arm/nxp_s32k3.h, and what each CPU sees at each address. *)

From S2P Require Import Prelude Memory NvicState CortexM.

(** ** Addresses, sizes and interrupt numbers *)

Definition ITCM_BA : Z := 0x00000000.
Definition DTCM_BA : Z := 0x20000000.
Definition ITCM_SIZE : Z := 0x10000.
Definition DTCM_SIZE : Z := 0x20000.
Definition SRAM_0_BA : Z := 0x20400000.
Definition SRAM_1_BA : Z := 0x20440000.
Definition SRAM_2_BA : Z := 0x20480000.
Definition SRAM_SIZE : Z := 0x40000.
Definition PFLASH_0_BA : Z := 0x00400000.
Definition PFLASH_SIZE : Z := 0x200000.
Definition DFLASH_0_BA : Z := 0x10000000.
Definition DFLASH_SIZE : Z := 0xA000.
Definition UART0_BA : Z := 0x40328000.
Definition UART0_IRQn : Z := 141.
Definition CAN0_BA : Z := 0x40304000.
Definition CAN0_IRQn : Z := 109.
Definition CAN1_BA : Z := 0x40308000.
Definition CAN1_IRQn : Z := 113.

(** ** The memory regions *)

(** The [MemoryRegion] fields of [NXPS32K3McuState], of each [ARMv7MState] and
    of the peripherals. *)
Inductive region :=
| SysMem | ITCM | DTCM
| CpuSysmem (cpu : nat) | SysmemAlias (cpu : nat)
| SRAM (cpu : nat) | PFLASH (cpu : nat) | DFLASH (cpu : nat) | Pflash0Alias
| Armv7mContainer (cpu : nat) | PpbDefault (cpu : nat) | NvicSysregs (cpu : nat)
| SystickMem (cpu : nat)
| UartMmio | Can0Mmio | Can1Mmio.

#[export] Instance region_eq_dec : EqDecision region.
Proof. solve_decision. Defined.

Abbreviation regions := (store (R := region)).

(** Before initialisation every object is zero. *)
Definition no_regions : regions := fun _ => mk_mr 0 false (Plain false) None [].

(** The root of the system address space, the CPU containers and the
    peripherals' own regions are initialised when their objects are. *)
Definition init_objects (st : regions) : regions :=
  let st := memory_region_init SysMem (2 ^ 64 - 1) st in
  let st := foldl (fun st i => memory_region_init (Armv7mContainer i) (2 ^ 64 - 1) st) st [0; 1; 2]%nat in
  let st := memory_region_init_io UartMmio 20 st in
  let st := memory_region_init_io Can0Mmio (11 * 4) st in
  memory_region_init_io Can1Mmio (11 * 4) st.

(** The mappings [armv7m_realize] makes for a CPU without the v8M, RAS and
    bit-band parts. *)
Definition armv7m_realize_memory (i : nat) (st : regions) : outcome regions :=
  st ← memory_region_add_subregion_overlap (Armv7mContainer i) 0 (CpuSysmem i) (-1) st;
  let st := memory_region_init_io (NvicSysregs i) 0x1000 st in
  let st := memory_region_init_io (PpbDefault i) 0x100000 st in
  st ← memory_region_add_subregion_overlap (Armv7mContainer i) 0xe0000000 (PpbDefault i) (-1) st;
  st ← memory_region_add_subregion (Armv7mContainer i) 0xe000e000 (NvicSysregs i) st;
  let st := memory_region_init_io (SystickMem i) 0xe0 st in
  memory_region_add_subregion_overlap (Armv7mContainer i) 0xe000e010 (SystickMem i) 1 st.

(** One iteration of the loop over the CPUs. *)
Definition realize_cpu_memory (i : nat) (st : regions) : outcome regions :=
  let st := memory_region_init (CpuSysmem i) (2 ^ 64 - 1) st in
  let st := memory_region_init_alias (SysmemAlias i) SysMem 0 (2 ^ 64 - 1) st in
  st ← memory_region_add_subregion_overlap (CpuSysmem i) 0 (SysmemAlias i) (-1) st;
  st ← armv7m_realize_memory i st;
  let sram_ba := aget 0 [SRAM_0_BA; SRAM_1_BA; SRAM_2_BA] (Z.of_nat i) in
  let pflash_ba := aget 0 [PFLASH_0_BA; PFLASH_0_BA; PFLASH_0_BA] (Z.of_nat i) in
  let dflash_ba := aget 0 [DFLASH_0_BA; DFLASH_0_BA; DFLASH_0_BA] (Z.of_nat i) in
  let st := memory_region_init_ram (SRAM i) SRAM_SIZE st in
  let st := memory_region_init_rom (PFLASH i) PFLASH_SIZE st in
  let st := memory_region_init_rom (DFLASH i) DFLASH_SIZE st in
  st ← memory_region_add_subregion (CpuSysmem i) sram_ba (SRAM i) st;
  st ← memory_region_add_subregion (CpuSysmem i) pflash_ba (PFLASH i) st;
  st ← memory_region_add_subregion (CpuSysmem i) dflash_ba (DFLASH i) st;
  if decide (i = 0%nat) then
    let st := memory_region_init_alias Pflash0Alias (PFLASH i) 0 ITCM_SIZE st in
    memory_region_add_subregion (CpuSysmem i) 0 Pflash0Alias st
  else mret st.

(** The memory part of [nxps32k3_realize]; [sysbus_mmio_map] maps into the
    system address space. *)
Definition nxps32k3_realize_memory (st : regions) : outcome regions :=
  let st := memory_region_init_ram ITCM ITCM_SIZE st in
  let st := memory_region_init_ram DTCM DTCM_SIZE st in
  st ← memory_region_add_subregion SysMem ITCM_BA ITCM st;
  st ← memory_region_add_subregion SysMem DTCM_BA DTCM st;
  st ← realize_cpu_memory 0 st;
  st ← realize_cpu_memory 1 st;
  st ← realize_cpu_memory 2 st;
  st ← memory_region_add_subregion SysMem UART0_BA UartMmio st;
  st ← memory_region_add_subregion SysMem CAN0_BA Can0Mmio st;
  memory_region_add_subregion SysMem CAN1_BA Can1Mmio st.

(** Regions nest at most five deep (container, CPU memory, alias, system
    memory, leaf; or container, CPU memory, flash alias, flash). *)
Definition nesting : nat := 5.

Definition mcu_regions : outcome regions := nxps32k3_realize_memory (init_objects no_regions).

Definition cpu_view (i : nat) : outcome (list (FlatRange region)) :=
  (fun st => generate_memory_topology nesting st (Armv7mContainer i)) <$> mcu_regions.

(** ** The address map of each CPU *)

(** Base, size, region and whether it is read-only; the first entry that
    contains the address counts. *)
Definition memory_table (i : nat) : list (Z * Z * region * bool) :=
  [ (0x0, ITCM_SIZE, if decide (i = 0%nat) then PFLASH 0 else ITCM, bool_decide (i = 0%nat));
    (PFLASH_0_BA, PFLASH_SIZE, PFLASH i, true);
    (DFLASH_0_BA, DFLASH_SIZE, DFLASH i, true);
    (DTCM_BA, DTCM_SIZE, DTCM, false);
    (aget 0 [SRAM_0_BA; SRAM_1_BA; SRAM_2_BA] (Z.of_nat i), SRAM_SIZE, SRAM i, false);
    (CAN0_BA, 44, Can0Mmio, false); (CAN1_BA, 44, Can1Mmio, false);
    (UART0_BA, 20, UartMmio, false);
    (0xe000e010, 0xe0, SystickMem i, false); (0xe000e000, 0x1000, NvicSysregs i, false);
    (0xe0000000, 0x100000, PpbDefault i, false) ].

Fixpoint table_lookup (t : list (Z * Z * region * bool)) (a : Z) : option (region * Z * bool) :=
  match t with
  | [] => None
  | (base, size, r, ro) :: t =>
    if (base <=? a) && (a <? base + size) then Some (r, a - base, ro) else table_lookup t a
  end.

(** A view that has the ranges of the table, the controller's cut in two
    around the timer and the default region around both. *)
Definition view_of (low : region) (low_ro : bool) (sram_ba : Z) (i : nat) : list (FlatRange region) :=
  let fr base size r offset ro := mk_fr (mk_range base size) r offset ro in
  [ fr 0x0 ITCM_SIZE low 0 low_ro; fr PFLASH_0_BA PFLASH_SIZE (PFLASH i) 0 true;
    fr DFLASH_0_BA DFLASH_SIZE (DFLASH i) 0 true; fr DTCM_BA DTCM_SIZE DTCM 0 false;
    fr sram_ba SRAM_SIZE (SRAM i) 0 false;
    fr CAN0_BA 44 Can0Mmio 0 false; fr CAN1_BA 44 Can1Mmio 0 false; fr UART0_BA 20 UartMmio 0 false;
    fr 0xe0000000 0xe000 (PpbDefault i) 0 false; fr 0xe000e000 0x10 (NvicSysregs i) 0 false;
    fr 0xe000e010 0xe0 (SystickMem i) 0 false; fr 0xe000e0f0 0xf10 (NvicSysregs i) 0xf0 false;
    fr 0xe000f000 0xf1000 (PpbDefault i) 0xf000 false ].

Lemma view_of_lookup low low_ro sram_ba i a :
  SRAM_0_BA ≤ sram_ba ≤ SRAM_2_BA →
  flatview_lookup (view_of low low_ro sram_ba i) a =
  table_lookup
    [ (0x0, ITCM_SIZE, low, low_ro); (PFLASH_0_BA, PFLASH_SIZE, PFLASH i, true);
      (DFLASH_0_BA, DFLASH_SIZE, DFLASH i, true); (DTCM_BA, DTCM_SIZE, DTCM, false);
      (sram_ba, SRAM_SIZE, SRAM i, false); (CAN0_BA, 44, Can0Mmio, false);
      (CAN1_BA, 44, Can1Mmio, false); (UART0_BA, 20, UartMmio, false);
      (0xe000e010, 0xe0, SystickMem i, false); (0xe000e000, 0x1000, NvicSysregs i, false);
      (0xe0000000, 0x100000, PpbDefault i, false) ] a.
Proof.
  unfold SRAM_0_BA, SRAM_2_BA. intros Hs. unfold view_of. cbv zeta. rewrite !lookup_cons.
  unfold addrrange_contains, addrrange_end, entry_at, ITCM_SIZE, PFLASH_0_BA, PFLASH_SIZE,
    DFLASH_0_BA, DFLASH_SIZE, DTCM_BA, DTCM_SIZE, SRAM_SIZE, CAN0_BA, CAN1_BA, UART0_BA.
  cbn [table_lookup start rsize fr_addr fr_mr fr_offset fr_readonly]. rewrite !Z.add_0_r.
  do 8 (case_if; [done|]).
  repeat match goal with
  | |- context [if ?c then _ else _] => destruct c eqn:?
  end; try done; try lia; do 3 f_equal; lia.
Qed.

Lemma cpu_view_eq i : (i < 3)%nat →
  cpu_view i = Ok (view_of (if decide (i = 0%nat) then PFLASH 0 else ITCM)
    (bool_decide (i = 0%nat)) (aget 0 [SRAM_0_BA; SRAM_1_BA; SRAM_2_BA] (Z.of_nat i)) i).
Proof. intros Hi. destruct i as [|[|[|i]]]; [vm_compute; reflexivity..|lia]. Qed.

(** What CPU [i] finds at an address: the region, the offset in it, and
    whether it is read-only. *)
Definition decode (i : nat) (a : Z) : option (region * Z * bool) :=
  match cpu_view i with Ok view => flatview_lookup view a | Abort _ => None end.
Arguments decode : simpl never.

Lemma decode_table i a : (i < 3)%nat → decode i a = table_lookup (memory_table i) a.
Proof.
  intros Hi. unfold decode. rewrite (cpu_view_eq i Hi). unfold memory_table. apply view_of_lookup.
  destruct i as [|[|[|i]]]; [vm_compute; split; congruence..|lia].
Qed.

(** C19.  What each CPU sees.  The creation of the microcontroller fails no
    assertion, and the view of each of the three CPUs is exactly its table:
    its own flash and SRAM, the shared DTCM, the two CAN controllers and the
    UART at their addresses, the private peripherals with SysTick inside the
    system control space, and at address 0 the boot alias of the flash for
    CPU 0 (which hides the ITCM) and the ITCM for the others. *)
Theorem mcu_address_map i : (i < 3)%nat →
  ∃ view, cpu_view i = Ok view ∧ ∀ a, flatview_lookup view a = table_lookup (memory_table i) a.
Proof.
  intros Hi. eexists. split; [exact (cpu_view_eq i Hi)|]. intros a.
  rewrite <- (decode_table i a Hi). unfold decode. by rewrite (cpu_view_eq i Hi).
Qed.

Lemma mcu_address_map_witness :
  ∃ view, cpu_view 0 = Ok view ∧ flatview_lookup view 0x100 = Some (PFLASH 0, 0x100, true).
Proof.
  destruct (mcu_address_map 0 ltac:(lia)) as (view & Hv & Hl).
  exists view. split; [exact Hv|]. rewrite Hl. reflexivity.
Defined.

(** Addresses are decoded through [decode_table], not by building the view. *)
#[global] Opaque decode.
