(* ===== verification/Machine.v ===== *)
(** The machine: CPU 0 with its interrupt controller and SysTick timer, the
    UART, and the two CAN controllers on one bus, wired as [armv7m_realize] and
    [nxps32k3_realize] wire them.  The guest reaches them by address; each
    operation of a peripheral is followed by the handler calls it made on the
    lines of the interrupt controller. *)

From stdpp Require Import gmap.
From S2P Require Import Prelude Irq Timer Clock Ptimer NvicRead SysTick SysTickSpec SysTickBoard.
From S2P Require Import Prelude Irq CanBus CanDev Timer UartDev Wiring NvicState NvicCore NvicRead NvicWrite.
From S2P Require Import NvicPrio NvicInv CortexM NvicSpec NvicIrq NvicRegs NvicLevel Memory Mcu.

(** ** State *)

Record Machine := mk_machine {
  now : Z;                (* QEMU_CLOCK_VIRTUAL *)
  nvic : NVICState;       (* of armv7m[0] *)
  tick : SysTickState (R := board_clock);  (* systick[M_REG_NS] of armv7m[0] *)
  uart : UartState;       (* uart0 *)
  net : CanNet;           (* canbus *)
  cans : devices          (* can0 and can1, as clients 0 and 1 *)
}.

#[export] Instance eta_Machine : RecordEta Machine := fun m =>
  mk_machine (now m) (nvic m) (tick m) (uart m) (net m) (cans m).

(** ** Interrupt lines *)

(** The calls of a device on input [n] of the controller, in order. *)
Fixpoint drive (n : Z) (calls : list Z) (s : NVICState) : outcome NVICState :=
  match calls with
  | [] => mret s
  | l :: calls => s ← set_irq_level n l s; drive n calls s
  end.

(** The calls of SysTick on its line to the controller. *)
Fixpoint drive_systick (calls : list Z) (s : NVICState) : outcome NVICState :=
  match calls with
  | [] => mret s
  | l :: calls => s ← nvic_systick_trigger 0 l s; drive_systick calls s
  end.

Definition can_line (devs : devices) (c : nat) : qemu_irq :=
  match devs !! c with Some s => CanDev.irq s | None => None end.

Definition set_tick (t : SysTickState (R := board_clock)) (m : Machine) : outcome Machine :=
  s ← drive_systick (line_calls (SysTick.irq (tick m)) (SysTick.irq t)) (nvic m);
  mret (m <| tick := t |> <| nvic := s |>).

Definition set_uart (u : UartState) (m : Machine) : outcome Machine :=
  s ← drive UART0_IRQn (line_calls (UartDev.irq (uart m)) (UartDev.irq u)) (nvic m);
  mret (m <| uart := u |> <| nvic := s |>).

Definition set_cans (devs : devices) (m : Machine) : outcome Machine :=
  s ← drive CAN0_IRQn (line_calls (can_line (cans m) 0) (can_line devs 0)) (nvic m);
  s ← drive CAN1_IRQn (line_calls (can_line (cans m) 1) (can_line devs 1)) s;
  mret (m <| cans := devs |> <| nvic := s |>).

Fixpoint run_stages (stages : list (devices → devices)) (m : Machine) : outcome Machine :=
  match stages with
  | [] => mret m
  | f :: stages => m ← set_cans (f (cans m)) m; run_stages stages m
  end.

(** ** Accesses of the guest *)

(** [NotIO]: the address is not that of a device; it is memory or unassigned. *)
Inductive access (A : Type) := Granted (a : A) | BusFault | NotIO.
Arguments Granted {A} a.
Arguments BusFault {A}.
Arguments NotIO {A}.

(** [v7m_systick_read] and [v7m_systick_write]: the timer takes words only.
    There is no Secure timer to direct a Secure access to. *)
Definition v7m_systick_read (off size : Z) (attrs : MemTxAttrs) (m : Machine)
  : outcome (access (Machine * Z)) :=
  if secure attrs then Abort NotReached
  else if negb (size =? 4) then mret BusFault
  else
    r ← systick_read true (now m) off attrs (tick m);
    match r with
    | None => mret BusFault
    | Some (t, v) => m ← set_tick t m; mret (Granted (m, v))
    end.

Definition v7m_systick_write (off val size : Z) (attrs : MemTxAttrs) (m : Machine)
  : outcome (access Machine) :=
  if secure attrs then Abort NotReached
  else if negb (size =? 4) then mret BusFault
  else
    r ← systick_write true 1 (now m) off val attrs (tick m);
    match r with
    | None => Abort OutOfFuel
    | Some None => mret BusFault
    | Some (Some t) => m ← set_tick t m; mret (Granted m)
    end.

Definition write_region (r : region) (off val size : Z) (attrs : MemTxAttrs) (m : Machine)
  : outcome (access Machine) :=
  match r with
  | UartMmio => u ← uart_write (now m) off val (uart m); m ← set_uart u m; mret (Granted m)
  | Can0Mmio => m ← run_stages (Can.can_write_stages (net m) 0 off val) m; mret (Granted m)
  | Can1Mmio => m ← run_stages (Can.can_write_stages (net m) 1 off val) m; mret (Granted m)
  | NvicSysregs _ =>
    r ← nvic_sysreg_write off val size attrs (nvic m);
    mret match r with Some s => Granted (m <| nvic := s |>) | None => BusFault end
  | SystickMem _ => v7m_systick_write off val size attrs m
  | PpbDefault _ => mret (if user attrs then BusFault else Granted m)
  | _ => mret NotIO
  end.

Definition read_region (r : region) (off size : Z) (attrs : MemTxAttrs) (m : Machine)
  : outcome (access (Machine * Z)) :=
  match r with
  | UartMmio =>
    m' ← set_uart (uart_read off (uart m)).1 m; mret (Granted (m', (uart_read off (uart m)).2))
  | Can0Mmio =>
    mret match cans m !! 0%nat with Some s => Granted (m, can_read s off) | None => NotIO end
  | Can1Mmio =>
    mret match cans m !! 1%nat with Some s => Granted (m, can_read s off) | None => NotIO end
  | NvicSysregs _ =>
    r ← nvic_sysreg_read (nvic m) off size attrs;
    mret match r with Some val => Granted (m, val) | None => BusFault end
  | SystickMem _ => v7m_systick_read off size attrs m
  | PpbDefault _ => mret (if user attrs then BusFault else Granted (m, 0))
  | _ => mret NotIO
  end.

(** Bytes, halfwords and words; an access that is not aligned is a decode
    error.  The callbacks get the bytes of the access and its size, and only the
    bytes of the access reach the CPU. *)
Definition size_ok (size : Z) : bool := (size =? 1) || (size =? 2) || (size =? 4).

Definition with_region {A} (size a : Z) (f : region → Z → outcome (access A)) : outcome (access A) :=
  if negb (size_ok size) then mret NotIO
  else if negb (a mod size =? 0) then mret BusFault
  else match decode 0 a with Some (r, off, _) => f r off | None => mret NotIO end.

Definition io_write (size a val : Z) (attrs : MemTxAttrs) (m : Machine) : outcome (access Machine) :=
  with_region size a (fun r off => write_region r off (wrap (8 * size) val) size attrs m).

Definition io_read (size a : Z) (attrs : MemTxAttrs) (m : Machine) : outcome (access (Machine * Z)) :=
  r ← with_region size a (fun r off => read_region r off size attrs m);
  mret match r with
       | Granted (m, val) => Granted (m, wrap (8 * size) val)
       | BusFault => BusFault
       | NotIO => NotIO
       end.

(** ** The outside world *)

(** The callback of the first timer of the UART, taken off its list. *)
Definition fire_uart (m : Machine) : outcome Machine :=
  match timers (uart m) with
  | [] => mret m
  | (id, _) :: rest => set_uart (uart_timer_cb (now m) id (set_timers rest (uart m))) m
  end.

(** The callback of SysTick's timer. *)
Definition fire_systick (m : Machine) : outcome Machine :=
  r ← systick_expire true 1 (now m) (tick m);
  match r with None => Abort OutOfFuel | Some t => set_tick t m end.

(** When the first timer of each device is due. *)
Definition uart_due (m : Machine) : option Z := snd <$> head (timers (uart m)).
Definition systick_due (m : Machine) : option Z := snd <$> head (timer (ptimer (tick m))).

Definition due_by (t : Z) (e : option Z) : bool := match e with Some e => e <=? t | None => false end.

(** Whether SysTick's timer comes before the UART's in the timer list of the
    virtual clock.  (Timers with the same deadline are there in the order they
    were armed in; here the UART's come first.) *)
Definition systick_first (m : Machine) : bool :=
  match systick_due m, uart_due m with
  | Some e, Some e' => e <? e'
  | Some _, None => true
  | None, _ => false
  end.

(** [timerlist_run_timers] over the timers of both devices: callbacks run in the
    order of their deadlines, one that a callback has armed again included,
    until none is due at the time at which the run began. *)
Fixpoint run_timers (fuel : nat) (m : Machine) : outcome Machine :=
  match fuel with
  | O => Abort OutOfFuel
  | S fuel =>
    if systick_first m then
      if due_by (now m) (systick_due m) then m ← fire_systick m; run_timers fuel m else mret m
    else
      if due_by (now m) (uart_due m) then m ← fire_uart m; run_timers fuel m else mret m
  end.

(** The UART's timers run at most once each, SysTick's once in more than five
    microseconds of the time since its deadline. *)
Definition timer_rounds (m : Machine) : nat :=
  (3 + match systick_due m with Some e => Z.to_nat ((now m - e) / 5000 + 1) | None => 0 end)%nat.

(** The virtual clock reaches [t] and the main loop runs the timers. *)
Definition advance (t : Z) (m : Machine) : outcome Machine :=
  let m := m <| now := t |> in run_timers (timer_rounds m) m.

(** A character arrives on the serial line. *)
Definition serial_input (ch : Z) (m : Machine) : outcome Machine :=
  set_uart (uart_receive (now m) ch (uart m)) m.

(** ** Creation and reset *)

(** The peripherals are realized, wired, and reset; the CAN controllers join
    the bus in order. *)
Definition board_net : CanNet :=
  can_realize 1 (Some 0%nat)
    (can_realize 0 (Some 0%nat) (can_bus_instance_init 0 (mk_net ∅ ∅))).

Definition can_fresh : CanState := mk_CanState 0 0 0 0 0 0 0 0 0 0 0 (Some []).

Definition new_machine (s : NVICState) (t : SysTickState (R := board_clock)) (u : UartState) : Machine :=
  mk_machine 0 s t u board_net (<[0%nat := can_fresh]> {[1%nat := can_fresh]}).

(** SysTick as [armv7m_realize] creates it, on the clocks of CPU 0, reset. *)
Definition systick_boot : outcome (SysTickState (R := board_clock)) :=
  r ← systick_realize (Some []) (board_clocks (SystickRefclk Cpu0)) (board_clocks (SystickCpuclk Cpu0));
  match r with
  | None => Abort NotReached
  | Some t => r ← systick_reset true 1 0 t; match r with None => Abort OutOfFuel | Some t => mret t end
  end.

(** The reset of the peripherals on the wired machine. *)
Definition reset_peripherals (u : UartState) (t : SysTickState (R := board_clock)) (s : NVICState)
  : outcome Machine :=
  m ← set_uart u (new_machine (armv7m_nvic_reset s) t (u <| UartDev.irq := Some [] |>));
  set_cans (can_reset <$> cans m) m.

Definition machine_init (initial_msp : Z) : outcome Machine :=
  u ← uart_realize (uart_init None);
  u ← uart_reset (u <| UartDev.irq := Some [] |>);
  t ← systick_boot;
  let c := cpu_reset cortex_m7_initfn 0 0 initial_msp in
  match armv7m_nvic_realize (nvic_instance c 241 4 (Some [])) with
  | None => Abort NotReached
  | Some s => reset_peripherals u t s
  end.

(** ** Replaying the calls on the controller *)

(** The controller of the board: reachable, with 241 lines. *)
Definition nvic_ready (s : NVICState) : Prop := nvic_reach true s ∧ num_irq s = 257.

Lemma drive_ok n calls s :
  nvic_ready s → 0 ≤ n < 241 → Forall (fun c => c = 0 ∨ c = 1) calls →
  ∃ s', drive n calls s = Ok s' ∧ nvic_ready s' ∧
    ∀ i, level (vec s' i) =
      if i =? n + NVIC_FIRST_IRQ then default (level (vec s i)) (last calls) else level (vec s i).
Proof.
  intros Hs Hn Hc. revert s Hs. induction Hc as [|l calls Hl _ IH]; intros s [Hr Hnum].
  - exists s. split_and!; [done..|]. intros i. by case_if.
  - destruct (reach_inv true s Hr) as [[Hw _] _].
    destruct (set_irq_level_spec s n l Hw ltac:(unfold NVIC_FIRST_IRQ, NVIC_INTERNAL_VECTORS; lia) Hl) as (s1 & H1 & Hv & Ho).
    destruct (IH s1) as (s' & H2 & Hr' & Hlev).
    { split; [|by rewrite (set_irq_level_num n l s s1 H1)].
      apply (reach_op true true s); [done|]. by apply (op_irq n l). }
    exists s'. simpl. rewrite H1. split_and!; [done..|]. intros i. rewrite Hlev.
    destruct (Z.eqb_spec i (n + NVIC_FIRST_IRQ)) as [->|Hi].
    + rewrite Hv. simpl. rewrite last_cons. by destruct (last calls).
    + change (vec s1 i) with (get_vec s1 false i). rewrite Ho by congruence. done.
Qed.

(** A pulse of SysTick pends its exception and leaves the interrupts alone. *)
Lemma systick_trigger_ok l s : nvic_ready s →
  ∃ s', nvic_systick_trigger 0 l s = Ok s' ∧ nvic_ready s' ∧
    ∀ i, NVIC_FIRST_IRQ ≤ i → vec s' i = vec s i.
Proof.
  intros [Hr Hnum]. destruct (nvic_systick_trigger 0 l s) as [s'|] eqn:H.
  2: { exfalso. revert H. unfold nvic_systick_trigger. destruct (truth l); [|done].
       rewrite set_pending_async; [done| |rewrite Hnum; done|done]. right. done. }
  exists s'. assert (nvic_reach true s') as Hr'.
  { apply (reach_op true true s); [done|]. by apply (op_systick 0 l). }
  revert H. unfold nvic_systick_trigger. destruct (truth l); [|by intros [= <-]].
  rewrite set_pending_async; [|by right|rewrite Hnum; done|done]. intros [= <-]. split; [done|]. split.
  - split; [done|]. unfold pend_vec. case_if; [|done].
    match goal with |- num_irq (nvic_irq_update ?x) = _ => by destruct (update_rest x) as (_ & _ & _ & -> & _) end.
  - intros i Hi. change (vec ?x i) with (get_vec x false i). rewrite pend_vec_get.
    + unfold NVIC_FIRST_IRQ, NVIC_INTERNAL_VECTORS, ARMV7M_EXCP_SYSTICK in *. destruct (Z.eqb_spec 15 i); [lia|done].
    + destruct (reach_inv true s Hr) as [[Hw _] _]. change (truth 0) with false. cbv iota.
      rewrite (nwf_vectors s Hw). done.
Qed.

Lemma drive_systick_ok calls s : nvic_ready s →
  ∃ s', drive_systick calls s = Ok s' ∧ nvic_ready s' ∧ ∀ i, NVIC_FIRST_IRQ ≤ i → vec s' i = vec s i.
Proof.
  revert s. induction calls as [|l calls IH]; intros s Hs; [by exists s|].
  destruct (systick_trigger_ok l s Hs) as (s1 & H1 & Hs1 & Hv1).
  destruct (IH s1 Hs1) as (s2 & H2 & Hs2 & Hv2). exists s2. cbn [drive_systick].
  rewrite H1, bind_Ok. split_and!; [done..|]. intros i Hi. by rewrite Hv2, Hv1.
Qed.

(** Every input of the controller has the level of the line wired to it. *)
Definition wired (m : Machine) : Prop :=
  level (vec (nvic m) (UART0_IRQn + NVIC_FIRST_IRQ)) = irq_level (UartDev.irq (uart m)) ∧
  level (vec (nvic m) (CAN0_IRQn + NVIC_FIRST_IRQ)) = irq_level (can_line (cans m) 0) ∧
  level (vec (nvic m) (CAN1_IRQn + NVIC_FIRST_IRQ)) = irq_level (can_line (cans m) 1).

Definition connected_ok (m : Machine) : Prop := nvic_ready (nvic m) ∧ wired m.

(** One device's line replayed: its input follows, the others stay. *)
Lemma drive_line n old new s :
  nvic_ready s → 0 ≤ n < 241 → extends old new →
  level (vec s (n + NVIC_FIRST_IRQ)) = irq_level old →
  ∃ s', drive n (line_calls old new) s = Ok s' ∧ nvic_ready s' ∧
    level (vec s' (n + NVIC_FIRST_IRQ)) = irq_level new ∧
    ∀ i, i ≠ n + NVIC_FIRST_IRQ → level (vec s' i) = level (vec s i).
Proof.
  intros Hs Hn He Hl. destruct (line_calls_level old new He) as [Hc Hlast].
  destruct (drive_ok n (line_calls old new) s Hs Hn Hc) as (s' & H & Hr & Hlev).
  exists s'. split_and!; [done..| |].
  - by rewrite Hlev, Z.eqb_refl, Hl.
  - intros i Hi. rewrite Hlev. by destruct (Z.eqb_spec i (n + NVIC_FIRST_IRQ)).
Qed.

Lemma set_tick_ok t m :
  connected_ok m →
  ∃ m', set_tick t m = Ok m' ∧ connected_ok m' ∧
    tick m' = t ∧ uart m' = uart m ∧ cans m' = cans m ∧ net m' = net m ∧ now m' = now m ∧
    ∀ i, NVIC_FIRST_IRQ ≤ i → vec (nvic m') i = vec (nvic m) i.
Proof.
  intros (Hs & Hu & H0 & H1).
  destruct (drive_systick_ok (line_calls (SysTick.irq (tick m)) (SysTick.irq t)) (nvic m) Hs) as (s' & H & Hr & Hv).
  exists (m <| tick := t |> <| nvic := s' |>). unfold set_tick. rewrite H.
  split; [done|]. split; [|done]. split; [done|]. split_and!; simpl; rewrite Hv by done; done.
Qed.

Lemma set_uart_ok u m :
  connected_ok m → extends (UartDev.irq (uart m)) (UartDev.irq u) →
  ∃ m', set_uart u m = Ok m' ∧ connected_ok m' ∧
    uart m' = u ∧ cans m' = cans m ∧ net m' = net m ∧ now m' = now m ∧ tick m' = tick m.
Proof.
  intros (Hs & Hu & H0 & H1) He.
  destruct (drive_line UART0_IRQn _ _ _ Hs ltac:(done) He Hu) as (s' & H & Hr & Hl & Ho).
  exists (m <| uart := u |> <| nvic := s' |>). unfold set_uart. rewrite H.
  split; [done|]. split; [|done]. split; [done|].
  split_and!; simpl; [done|rewrite Ho by done; done..].
Qed.

Lemma lines_extend_line devs devs' c :
  Can.lines_extend devs devs' → extends (can_line devs c) (can_line devs' c).
Proof. intros H. unfold can_line. by destruct (H c). Qed.

Lemma set_cans_ok devs m :
  connected_ok m → Can.lines_extend (cans m) devs →
  ∃ m', set_cans devs m = Ok m' ∧ connected_ok m' ∧
    cans m' = devs ∧ uart m' = uart m ∧ net m' = net m ∧ now m' = now m ∧ tick m' = tick m.
Proof.
  intros (Hs & Hu & H0 & H1) He.
  destruct (drive_line CAN0_IRQn _ _ _ Hs ltac:(done) (lines_extend_line _ _ 0 He) H0)
    as (s1 & E1 & R1 & L1 & O1).
  assert (level (vec s1 (CAN1_IRQn + NVIC_FIRST_IRQ)) = irq_level (can_line (cans m) 1)) as H1'
    by (by rewrite O1).
  destruct (drive_line CAN1_IRQn _ _ _ R1 ltac:(done) (lines_extend_line _ _ 1 He) H1')
    as (s2 & E2 & R2 & L2 & O2).
  exists (m <| cans := devs |> <| nvic := s2 |>). unfold set_cans. rewrite E1. simpl. rewrite E2.
  split; [done|]. split; [|done]. split; [done|].
  split_and!; simpl; rewrite ?O2 by done; rewrite ?O1 by done; done.
Qed.

Lemma run_stages_ok stages m :
  connected_ok m → (∀ f devs, f ∈ stages → Can.lines_extend devs (f devs)) →
  ∃ m', run_stages stages m = Ok m' ∧ connected_ok m' ∧
    cans m' = foldl (fun d f => f d) (cans m) stages ∧
    uart m' = uart m ∧ net m' = net m ∧ now m' = now m ∧ tick m' = tick m.
Proof.
  revert m. induction stages as [|f stages IH]; intros m Hm Hf; [by eexists|].
  destruct (set_cans_ok (f (cans m)) m Hm) as (m1 & H1 & Hm1 & Hc1 & Hu1 & Hn1 & Ht1 & Hk1).
  { apply Hf. left. }
  destruct (IH m1 Hm1) as (m2 & H2 & Hm2 & Hc2 & Hu2 & Hn2 & Ht2 & Hk2).
  { intros g devs Hg. apply Hf. by right. }
  exists m2. simpl. rewrite H1. split_and!; [exact H2|done|by rewrite Hc2, Hc1|congruence..].
Qed.

(** A register write of a CAN controller, seen from outside. *)
Lemma can_write_ok c off val m :
  connected_ok m →
  ∃ m', run_stages (Can.can_write_stages (net m) c off val) m = Ok m' ∧ connected_ok m' ∧
    cans m' = can_write (net m) c off val (cans m) ∧
    uart m' = uart m ∧ net m' = net m ∧ now m' = now m ∧ tick m' = tick m.
Proof.
  intros Hm. rewrite <- Can.can_write_stages_eq. apply run_stages_ok; [done|].
  intros f devs. apply Can.can_write_stages_extend.
Qed.

(** ** The invariant *)

Record machine_inv (m : Machine) : Prop := {
  mi_connected : connected_ok m;
  mi_clock : clock_ok (now m);
  mi_tick : systick_wf true (now m) (tick m);
  mi_uart : uart_wf (uart m);
  mi_cans : devices_wf (cans m);
  mi_can0 : is_Some (cans m !! 0%nat);
  mi_can1 : is_Some (cans m !! 1%nat);
  mi_net : net m = board_net
}.

(** What the devices that changed still need. *)
Lemma inv_set_uart m m' :
  machine_inv m → connected_ok m' → uart_wf (uart m') → cans m' = cans m → net m' = net m →
  now m' = now m → tick m' = tick m → machine_inv m'.
Proof. intros [] ? ? Hc Hn Ht Hk. split; rewrite ?Hc, ?Hn, ?Ht, ?Hk; done. Qed.

Lemma inv_set_tick m m' :
  machine_inv m → connected_ok m' → systick_wf true (now m') (tick m') → uart m' = uart m →
  cans m' = cans m → net m' = net m → now m' = now m → machine_inv m'.
Proof. intros [] ? ? Hu Hc Hn Ht. split; rewrite ?Hu, ?Hc, ?Hn; [done|by rewrite Ht|done..]. Qed.

Lemma inv_set_cans m m' :
  machine_inv m → connected_ok m' → Can.lines_extend (cans m) (cans m') → devices_wf (cans m') →
  uart m' = uart m → net m' = net m → now m' = now m → tick m' = tick m → machine_inv m'.
Proof.
  intros [] ? He ? Hu Hn Ht Hk.
  assert (∀ c, is_Some (cans m !! c) → is_Some (cans m' !! c)) as Hs.
  { intros c [s Hs]. specialize (He c). rewrite Hs in He. inversion He. by eexists. }
  split; rewrite ?Hu, ?Hn, ?Ht, ?Hk; auto.
Qed.

Lemma inv_set_nvic m s :
  machine_inv m → keeps (nvic m) s → nvic_reach true s → machine_inv (m <| nvic := s |>).
Proof.
  intros [(Hr & Hw1 & Hw2 & Hw3) ? ? ? ? ? ? ?] (Hl & Hn & _) Hs. split; try done. split.
  - split; [done|]. simpl. rewrite Hn. apply Hr.
  - split_and!; simpl; rewrite Hl; done.
Qed.

Lemma internal_inv m s : machine_inv m → internal_op (nvic m) s → machine_inv (m <| nvic := s |>).
Proof.
  intros Hm Hop. apply inv_set_nvic; [done|by apply internal_op_keeps|].
  apply (reach_op true true (nvic m)); [apply Hm|by apply internal_op_op].
Qed.

(** The device regions of the table. *)
Definition device_offset (r : region) (a off : Z) : Prop :=
  match r with
  | UartMmio => a = UART0_BA + off
  | Can0Mmio => a = CAN0_BA + off
  | Can1Mmio => a = CAN1_BA + off
  | NvicSysregs _ => 0 ≤ off < 0x1000 ∧ a = 0xe000e000 + off
  | SystickMem _ => a = 0xe000e010 + off
  | _ => True
  end.

Lemma table_lookup_device a r off ro :
  table_lookup (memory_table 0) a = Some (r, off, ro) → device_offset r a off.
Proof.
  unfold memory_table. cbn [table_lookup].
  repeat match goal with
  | |- (if ?c then _ else _) = _ → _ => destruct c eqn:?
  end; try (intros [= <- <- _]; unfold device_offset; simpl; try done; lia).
Qed.

Lemma nvic_offset_ok i a off size :
  device_offset (NvicSysregs i) a off → size_ok size = true → a mod size = 0 → access_ok off size.
Proof.
  intros [Ho ->] Hs Ha. split; [done|]. unfold size_ok in Hs. rewrite !orb_true_iff, !Z.eqb_eq in Hs.
  destruct Hs as [[-> | ->]| ->]; [by left|right; left|right; right]; (split; [done|]);
    euclid.
Qed.

(** A write outside the UART's usable divisors. *)
Definition bad_divisor (size a val : Z) : Prop :=
  a = UART0_BA + DIVISOR ∧ CLK_FREQ ≤ u32 (wrap (8 * size) val).

Lemma uart_write_ok now off val s :
  uart_wf s → ~ (off = DIVISOR ∧ CLK_FREQ ≤ u32 val) → succeeds (uart_write now off val s).
Proof.
  intros Hs Hd. unfold uart_write. repeat case_if; try (apply succeeds_ret).
  rewrite update_params_spec by (apply Hs || (simpl; auto with word)). simpl.
  destruct (Z.ltb_spec (u32 val) CLK_FREQ); [by eexists|]. exfalso. apply Hd. split; [|done].
  by apply Z.eqb_eq.
Qed.

Lemma can_write_extends (m : Machine) c off val :
  Can.lines_extend (cans m) (can_write (net m) c off val (cans m)).
Proof.
  rewrite <- Can.can_write_stages_eq.
  assert (∀ stages d, (∀ f d, f ∈ stages → Can.lines_extend d (f d)) →
    Can.lines_extend d (foldl (fun d f => f d) d stages)) as H.
  { induction stages as [|f l IH]; intros d Hf; [reflexivity|]. simpl.
    etrans; [apply Hf; left|]. apply IH. intros g d' Hg. apply Hf. by right. }
  apply H. intros f d. apply Can.can_write_stages_extend.
Qed.

(** The outcome of an access: it is completed, and what it leaves satisfies
    the postcondition. *)
Definition granted {A} (P : A → Prop) (x : outcome (access A)) : Prop :=
  ∃ r, x = Ok r ∧ (∀ a, r = Granted a → P a).

Lemma granted_ok {A} (P : A → Prop) a : P a → granted P (Ok (Granted a)).
Proof. intros H. eexists. split; [reflexivity|]. by intros ? [= <-]. Qed.

Lemma granted_not {A} (P : A → Prop) : granted P (Ok BusFault) ∧ granted P (Ok NotIO).
Proof. split; (eexists; split; [reflexivity|done]). Qed.

Lemma uart_region_write off val size attrs m :
  machine_inv m → ~ (off = DIVISOR ∧ CLK_FREQ ≤ u32 val) →
  granted machine_inv (write_region UartMmio off val size attrs m).
Proof.
  intros Hm Hd. destruct (uart_write_ok (now m) off val (uart m) (mi_uart m Hm) Hd) as [u Hu].
  destruct (set_uart_ok u m (mi_connected m Hm) (Uart.write_extends _ _ _ _ _ Hu))
    as (m' & H & Hc & Hu' & Hca & Hn & Hnow & Hk).
  unfold write_region. rewrite Hu, bind_Ok, H. apply granted_ok.
  apply (inv_set_uart m); try done.
  rewrite Hu'. eapply uart_write_wf; [apply Hm|exact Hu].
Qed.

Lemma can_region_write c off val m :
  machine_inv m →
  granted machine_inv
    (m' ← run_stages (Can.can_write_stages (net m) c off val) m; mret (Granted m')).
Proof.
  intros Hm.
  destruct (can_write_ok c off val m (mi_connected m Hm)) as (m' & H & Hc & Hca & Hu & Hn & Hnow & Hk).
  rewrite H. apply granted_ok.
  apply (inv_set_cans m); try done; rewrite Hca; [apply can_write_extends|apply can_write_wf, Hm].
Qed.

Lemma nvic_region_write i off val size attrs m :
  machine_inv m → access_ok off size → secure attrs = false →
  granted machine_inv (write_region (NvicSysregs i) off val size attrs m).
Proof.
  intros Hm Ha Hns.
  destruct (sysreg_write_ok true (nvic m) off val size attrs) as [res Hres]; [apply reach_inv, Hm|done|].
  unfold write_region. rewrite Hres. destruct res as [s|]; [|apply granted_not].
  apply granted_ok, internal_inv; [done|]. apply (int_write off val size attrs); [|done]. by rewrite Hns.
Qed.

(** A write of SysTick's control register that changes the clock and stops the
    timer at once. *)
Definition bad_systick (size a val : Z) (attrs : MemTxAttrs) (m : Machine) : Prop :=
  size = 4 ∧ a = 0xe000e010 ∧ user attrs = false ∧
  switch_and_stop (SysTick.control (tick m)) (u32 val) = true.

Lemma systick_region_write i off val size attrs m :
  machine_inv m → secure attrs = false →
  ~ (size = 4 ∧ off = 0 ∧ user attrs = false ∧ switch_and_stop (SysTick.control (tick m)) val = true) →
  granted machine_inv (write_region (SystickMem i) off val size attrs m).
Proof.
  intros Hm Hns Hd. unfold write_region, v7m_systick_write. rewrite Hns.
  destruct (Z.eqb_spec size 4) as [Hsz|]; cbn [negb]; [|apply granted_not].
  destruct attrs as [sec [|]]; simpl in Hns; subst sec; [apply granted_not|].
  destruct (write_ok true (now m) off val (tick m) (mi_tick m Hm) (mi_clock m Hm)) as (t & H & Hw).
  { intros Ho. apply not_true_iff_false. intros Hs. by apply Hd. }
  change (mk_attrs false false) with privileged_access. rewrite H, bind_Ok.
  destruct (set_tick_ok t m (mi_connected m Hm)) as (m' & H' & Hc & Ht & Hu & Hca & Hn & Hnow & _).
  rewrite H'. apply granted_ok. apply (inv_set_tick m); try done. by rewrite Ht, Hnow.
Qed.

Lemma systick_region_read i off size attrs m :
  machine_inv m → secure attrs = false →
  granted (fun p => machine_inv p.1) (read_region (SystickMem i) off size attrs m).
Proof.
  intros Hm Hns. unfold read_region, v7m_systick_read. rewrite Hns.
  destruct (Z.eqb_spec size 4); cbn [negb]; [|apply granted_not].
  destruct attrs as [sec [|]]; simpl in Hns; subst sec; [apply granted_not|].
  destruct (read_ok true (now m) off (tick m) (mi_tick m Hm)) as (t & v & H & Hw); [apply Hm|].
  change (mk_attrs false false) with privileged_access. rewrite H, bind_Ok.
  destruct (set_tick_ok t m (mi_connected m Hm)) as (m' & H' & Hc & Ht & Hu & Hca & Hn & Hnow & _).
  rewrite H'. apply granted_ok. apply (inv_set_tick m); try done. simpl. by rewrite Ht, Hnow.
Qed.

(** An access goes to a region of the table, at an aligned offset. *)
Lemma granted_region {A} (P : A → Prop) size a f :
  (∀ r off, device_offset r a off → size_ok size = true → a mod size = 0 → granted P (f r off)) →
  granted P (with_region size a f).
Proof.
  intros Hf. unfold with_region. destruct (size_ok size) eqn:Hs; cbn [negb]; [|apply granted_not].
  destruct (Z.eqb_spec (a mod size) 0) as [Ha|]; cbn [negb]; [|apply granted_not].
  rewrite decode_table by lia.
  destruct (table_lookup (memory_table 0) a) as [[[r off] ro]|] eqn:Ht; [|apply granted_not].
  apply Hf; [|done..]. by eapply table_lookup_device.
Qed.

(** A guest write keeps the invariant, and aborts only for a bad divisor or a bad
    control value. *)
Lemma io_write_spec size a val attrs m :
  machine_inv m → secure attrs = false → ~ bad_divisor size a val → ~ bad_systick size a val attrs m →
  granted machine_inv (io_write size a val attrs m).
Proof.
  intros Hm Hns Hd Hb. apply granted_region. intros r off Ht Hs Ha.
  destruct r; try apply granted_not; try by apply can_region_write.
  - unfold write_region. destruct (user attrs); [apply granted_not|by apply granted_ok].
  - apply nvic_region_write; [done| |done]. by apply (nvic_offset_ok cpu a).
  - apply systick_region_write; [done..|]. intros (-> & -> & Hu & Hv). by apply Hb.
  - apply uart_region_write; [done|]. intros [-> Hv]. by apply Hd.
Qed.

Lemma read_region_spec r off size attrs m :
  machine_inv m → secure attrs = false → (∀ i, r = NvicSysregs i → access_ok off size) →
  granted (fun p => machine_inv p.1) (read_region r off size attrs m).
Proof.
  intros Hm Hns Ha. destruct r; try (by apply systick_region_read); try apply granted_not; unfold read_region.
  - destruct (user attrs); [apply granted_not|by apply granted_ok].
  - destruct (sysreg_read_ok true (nvic m) off size attrs) as [res Hres];
      [apply reach_inv, Hm|by eapply Ha|].
    rewrite Hres. destruct res; [by apply granted_ok|apply granted_not].
  - destruct (set_uart_ok (uart_read off (uart m)).1 m (mi_connected m Hm) (Uart.read_extends _ _))
      as (m' & H & Hc & Hu' & Hca & Hn & Hnow & Hk).
    rewrite H. apply granted_ok. apply (inv_set_uart m); try done.
    simpl. rewrite Hu'. apply uart_read_wf, Hm.
  - destruct (mi_can0 m Hm) as [s ->]. by apply granted_ok.
  - destruct (mi_can1 m Hm) as [s ->]. by apply granted_ok.
Qed.

Lemma io_read_spec size a attrs m :
  machine_inv m → secure attrs = false →
  granted (fun p => machine_inv p.1) (io_read size a attrs m).
Proof.
  intros Hm Hns. unfold io_read.
  assert (granted (fun p => machine_inv p.1)
    (with_region size a (fun r off => read_region r off size attrs m))) as (r & -> & HP).
  { apply granted_region. intros r off Ht Hs Ha. apply read_region_spec; [done..|].
    intros i ->. by apply (nvic_offset_ok i a). }
  rewrite bind_Ok. destruct r as [[m' v]| |]; try apply granted_not.
  apply granted_ok. by apply (HP (m', v)).
Qed.

(** ** The other operations *)

(** *** Time *)

(** How often SysTick's timer may still run. *)
Definition ticks_left (m : Machine) : nat :=
  match systick_due m with Some e => Z.to_nat ((now m - e) / 5000 + 1) | None => 0 end.

(** With the rate limited, deadlines are more than five microseconds apart. *)
Lemma event_time_limited d p :
  core p → 1 ≤ period p → 1 ≤ d ≤ 2 ^ 24 → 5000 < SysTickSpec.event_time true d p.
Proof.
  intros Hc Hp Hd. unfold SysTickSpec.event_time. rewrite too_fast_spec by (apply Hc || lia). rewrite andb_true_r.
  destruct (Z.ltb_spec (d * period p) 10000) as [Hlt|Hge].
  - assert (d < 10000) by nia. pose proof (Z.mul_succ_div_gt 10000 d ltac:(lia)).
    assert (1 ≤ 10000 / d) by (apply Z.div_le_lower_bound; lia). nia.
  - apply Z.lt_le_trans with 10000; [lia|]. apply Z.div_le_lower_bound; [lia|].
    pose proof (co_frac p Hc) as Hf. unfold raw, in_range in *. nia.
Qed.

(** A due timer belongs to a running ptimer. *)
Lemma systick_due_running t (s : SysTickState (R := board_clock)) e :
  systick_wf true t s → snd <$> head (timer (ptimer s)) = Some e →
  Ptimer.enabled (ptimer s) = 1 ∧ e = next_event (ptimer s).
Proof.
  intros [[Hc _ Ho Hon] _ _] Hh. destruct (co_enabled _ Hc) as [He|He].
  - by rewrite (Ho He) in Hh.
  - split; [done|]. destruct (Hon He) as [_ [Ha _ _]]. rewrite Ha in Hh. by injection Hh as <-.
Qed.

Lemma fire_systick_ok m :
  machine_inv m → due_by (now m) (systick_due m) = true →
  ∃ m', fire_systick m = Ok m' ∧ machine_inv m' ∧ now m' = now m ∧ cans m' = cans m ∧ uart m' = uart m ∧
    (ticks_left m' < ticks_left m)%nat ∧ ∀ i, NVIC_FIRST_IRQ ≤ i → vec (nvic m') i = vec (nvic m) i.
Proof.
  intros Hm Hd. unfold due_by in Hd. destruct (systick_due m) as [e|] eqn:He; [|done]. apply Z.leb_le in Hd.
  pose proof (mi_tick m Hm) as Hw. pose proof (mi_clock m Hm) as Hck.
  destruct (systick_due_running _ _ _ Hw He) as [Hen ->].
  destruct (set_tick_ok (expired_state true (tick m)) m (mi_connected m Hm))
    as (m' & H' & Hc & Ht & Hu & Hca & Hn & Hnow & Hv).
  exists m'. unfold fire_systick. rewrite (expire_spec true 1) by (done || apply Hck). rewrite bind_Ok.
  split; [exact H'|]. split; [|split_and!; try done].
  { apply (inv_set_tick m); try done. rewrite Ht, Hnow. by apply expired_ok. }
  unfold ticks_left, systick_due. rewrite Ht, Hnow. fold (systick_due m). rewrite He.
  destruct Hw as [[Hco _ _ Hon] _ _]. destruct (Hon Hen) as [Hp _]. pose proof (co_limit _ Hco) as Hlim.
  unfold expired_state. cbv zeta.
  assert (0 ≤ (now m - next_event (ptimer (tick m))) / 5000) by (apply Z.div_pos; lia).
  destruct (Z.eqb_spec (limit (ptimer (tick m))) 0) as [|Hl]; [simpl; lia|].
  assert (∀ d s, d = limit (ptimer (tick m)) ∨ d = limit (ptimer (tick m)) + 1 →
    (match snd <$> head (timer (ptimer (set_ptimer (R := board_clock) (reloaded true d (ptimer (tick m))) s))) with
     | Some e => Z.to_nat ((now m - e) / 5000 + 1) | None => 0 end <
     Z.to_nat ((now m - next_event (ptimer (tick m))) / 5000 + 1))%nat) as Hlt.
  { intros d s Hdd. cbn [set_ptimer]. simpl. pose proof (event_time_limited d _ Hco Hp ltac:(lia)).
    set (x := now m - next_event (ptimer (tick m))) in *.
    assert ((now m - (next_event (ptimer (tick m)) + SysTickSpec.event_time true d (ptimer (tick m)))) / 5000 < x / 5000);
      [|lia]. apply Z.div_lt_upper_bound; [lia|]. pose proof (Z.mul_succ_div_gt x 5000 ltac:(lia)). lia. }
  destruct (delta (ptimer (tick m)) =? 0); apply Hlt; auto.
Qed.

Lemma fire_uart_ok m :
  machine_inv m → due_by (now m) (uart_due m) = true →
  ∃ m' a, fire_uart m = Ok m' ∧ machine_inv m' ∧ now m' = now m ∧ cans m' = cans m ∧
    ticks_left m' = ticks_left m ∧ uart m' = fire_timer (now m) (uart m) a ∧
    expired (now m) (timers (uart m)) = a :: expired (now m) (timers (uart m')).
Proof.
  intros Hm Hd. unfold due_by, uart_due in Hd. unfold fire_uart.
  destruct (timers (uart m)) as [|[id e] rest] eqn:Ht; [done|]. simpl in Hd. apply Z.leb_le in Hd.
  pose proof (mi_uart m Hm) as Hw.
  set (u := uart_timer_cb (now m) id (set_timers rest (uart m))).
  destruct (set_uart_ok u m (mi_connected m Hm)) as (m' & H & Hc & Hu & Hca & Hn & Hnow & Hk).
  { apply (Uart.timer_cb_extends (now m) id (set_timers rest (uart m))). }
  assert (u = fire_timer (now m) (uart m) (id, e)) as Hf
    by (unfold u, fire_timer, fire; simpl; by rewrite Ht).
  pose proof (uwf_timers _ Hw) as Hwf. rewrite Ht in Hwf. destruct (timers_wf_tail _ _ Hwf) as [_ Hni].
  pose proof (pop_wf _ _ _ Hw Ht) as Hwp. change (uart_wf (set_timers rest (uart m))) in Hwp.
  exists m', (id, e). split; [exact H|]. split; [|split_and!; try done].
  - apply (inv_set_uart m); try done. rewrite Hu. by apply uart_timer_cb_wf.
  - unfold ticks_left, systick_due. by rewrite Hk, Hnow.
  - by rewrite Hu.
  - rewrite expired_cons, decide_True by done. f_equal. rewrite Hu. symmetry.
    by apply (uart_cb_future (now m) id (set_timers rest (uart m)) (mi_clock m Hm)).
Qed.

(** Nothing is due once the first timer is not. *)
Lemma uart_not_due m :
  machine_inv m → due_by (now m) (uart_due m) = false → expired (now m) (timers (uart m)) = [].
Proof.
  intros Hm Hd. pose proof (uwf_timers _ (mi_uart m Hm)) as Hwf. unfold due_by, uart_due in Hd.
  destruct (timers (uart m)) as [|[id e] rest]; [done|]. simpl in Hd. apply Z.leb_gt in Hd.
  apply expired_none, (sorted_after (now m) (id, e)); [apply Hwf|exact Hd].
Qed.

Lemma systick_first_due t m :
  systick_first m = true → due_by t (systick_due m) = false → due_by t (uart_due m) = false.
Proof.
  unfold systick_first, due_by. destruct (systick_due m), (uart_due m); try done.
  rewrite Z.ltb_lt, !Z.leb_gt. lia.
Qed.

Lemma uart_first_due t m :
  systick_first m = false → due_by t (uart_due m) = false → due_by t (systick_due m) = false.
Proof.
  unfold systick_first, due_by. destruct (systick_due m), (uart_due m); try done.
  rewrite Z.ltb_ge, !Z.leb_gt. lia.
Qed.

Lemma run_timers_ok fuel m :
  machine_inv m → (length (expired (now m) (timers (uart m))) + ticks_left m < fuel)%nat →
  ∃ m', run_timers fuel m = Ok m' ∧ machine_inv m' ∧ now m' = now m ∧ cans m' = cans m ∧
    uart m' = foldl (fire_timer (now m)) (uart m) (expired (now m) (timers (uart m))) ∧
    due_by (now m') (systick_due m') = false.
Proof.
  revert m. induction fuel as [|fuel IH]; intros m Hm Hf; [lia|]. cbn [run_timers].
  destruct (systick_first m) eqn:Hs, (due_by (now m) (if systick_first m then systick_due m else uart_due m)) eqn:Hd;
    rewrite Hs in Hd; rewrite Hd.
  - destruct (fire_systick_ok m Hm Hd) as (m1 & H1 & Hm1 & Hn1 & Hc1 & Hu1 & Hl & _).
    destruct (IH m1 Hm1) as (m' & H & Hm' & Hn & Hc & Hu & Hq); [rewrite Hn1, Hu1; lia|].
    exists m'. rewrite H1, bind_Ok. rewrite Hn1, Hu1 in Hu. split_and!; try done; congruence.
  - exists m. rewrite (uart_not_due m Hm) by (by apply systick_first_due). done.
  - destruct (fire_uart_ok m Hm Hd) as (m1 & a & H1 & Hm1 & Hn1 & Hc1 & Hl & Hu1 & He).
    rewrite He in Hf |- *. rewrite <- Hn1 in Hf.
    destruct (IH m1 Hm1) as (m' & H & Hm' & Hn & Hc & Hu & Hq); [simpl in Hf; lia|].
    exists m'. rewrite H1, bind_Ok. rewrite Hn1, Hu1 in Hu. split_and!; try done; [congruence..|].
    rewrite Hu. cbn [foldl]. by rewrite <- Hu1.
  - exists m. rewrite (uart_not_due m Hm Hd). split_and!; try done. by apply uart_first_due.
Qed.

Lemma advance_ok t m :
  machine_inv m → now m ≤ t → clock_ok t →
  ∃ m', advance t m = Ok m' ∧ machine_inv m' ∧ now m' = t ∧ cans m' = cans m ∧
    Some (uart m') = fst <$> uart_run_timers t (uart m).
Proof.
  intros Hm Hle Ht. assert (machine_inv (m <| now := t |>)) as Hm1.
  { destruct Hm. split; try done. by apply (systick_later true (now m)). }
  destruct (uart_run_timers_spec t (uart m) (mi_uart m Hm) Ht) as (-> & _ & _).
  destruct (run_timers_ok (timer_rounds (m <| now := t |>)) (m <| now := t |>) Hm1)
    as (m' & H & Hm' & Hn & Hc & Hu & _).
  { unfold timer_rounds. fold (ticks_left (m <| now := t |>)).
    pose proof (expired_at_most_two t (timers (uart m)) (uwf_timers _ (mi_uart m Hm))). simpl in *. lia. }
  exists m'. split_and!; try done. by rewrite Hu.
Qed.

Lemma serial_input_ok ch m :
  machine_inv m → is_u8 ch →
  ∃ m', serial_input ch m = Ok m' ∧ machine_inv m' ∧ uart m' = uart_receive (now m) ch (uart m) ∧
    now m' = now m ∧ cans m' = cans m.
Proof.
  intros Hm Hch.
  destruct (set_uart_ok (uart_receive (now m) ch (uart m)) m (mi_connected m Hm)
    (Uart.uart_receive_extends _ _ _)) as (m' & H & Hc & Hu & Hca & Hn & Hnow & Hk).
  exists m'. split_and!; [exact H| |exact Hu|exact Hnow|exact Hca].
  apply (inv_set_uart m); try done. rewrite Hu. apply uart_receive_wf; [done|apply Hm].
Qed.

(** ** Reachable machines *)

(** A privileged or unprivileged access of a CPU without the Security
    extension (except a write that changes SysTick's clock and stops it at
    once), time passing with the timers that are due, one callback of a due
    timer, a character on the serial line, or an operation of the CPU on its
    interrupt controller (taking, completing and raising exceptions, changing
    its special registers).  The single callbacks give every order in which
    timers with the same deadline may run. *)
Inductive machine_step : Machine → Machine → Prop :=
| ms_write size a val attrs m m' :
    secure attrs = false → ~ bad_systick size a val attrs m →
    io_write size a val attrs m = Ok (Granted m') → machine_step m m'
| ms_read size a attrs m m' val :
    secure attrs = false → io_read size a attrs m = Ok (Granted (m', val)) → machine_step m m'
| ms_time t m m' : now m ≤ t → clock_ok t → advance t m = Ok m' → machine_step m m'
| ms_uart_timer m m' : due_by (now m) (uart_due m) = true → fire_uart m = Ok m' → machine_step m m'
| ms_systick_timer m m' : due_by (now m) (systick_due m) = true → fire_systick m = Ok m' → machine_step m m'
| ms_serial ch m m' : is_u8 ch → serial_input ch m = Ok m' → machine_step m m'
| ms_cpu m s : internal_op (nvic m) s → machine_step m (m <| nvic := s |>).

Definition machine_reach (m : Machine) : Prop :=
  ∃ msp m0, machine_init msp = Ok m0 ∧ rtc machine_step m0 m.

Lemma bad_divisor_aborts size a val attrs m :
  machine_inv m → size_ok size = true → bad_divisor size a val →
  io_write size a val attrs m = Abort DivideByZero.
Proof.
  intros Hm Hsz [-> Hd]. unfold io_write, with_region. rewrite Hsz, decode_table by lia.
  assert (((UART0_BA + DIVISOR) mod size =? 0) = true) as ->.
  { unfold size_ok in Hsz. rewrite !orb_true_iff, !Z.eqb_eq in Hsz.
    by destruct Hsz as [[-> | ->]| ->]. }
  change (table_lookup (memory_table 0) (UART0_BA + DIVISOR)) with (Some (UartMmio, DIVISOR, false)).
  cbv iota beta. unfold write_region. generalize dependent (wrap (8 * size) val). intros v Hd.
  change (uart_write (now m) DIVISOR v (uart m)) with (update_params ((uart m) <| divisor := u32 v |>)).
  rewrite update_params_spec by (apply Hm || (simpl; auto with word)).
  change (divisor ((uart m) <| divisor := u32 v |>)) with (u32 v).
  by destruct (Z.ltb_spec (u32 v) CLK_FREQ); [lia|].
Qed.

Lemma granted_size size a val attrs m m' : io_write size a val attrs m = Ok (Granted m') → size_ok size = true.
Proof. unfold io_write, with_region. by destruct (size_ok size). Qed.

Lemma machine_step_inv m m' : machine_step m m' → machine_inv m → machine_inv m'.
Proof.
  intros Hs Hm.
  destruct Hs as [size a val attrs m m' Hns Hsy H|size a attrs m m' val Hns H|t m m' Ht Hc H|m m' Hd H|m m' Hd H
    |ch m m' Hch H|m s H].
  - destruct (io_write_spec size a val attrs m Hm Hns) as (r & Hr & HP); [|exact Hsy|].
    { intros Hb. pose proof (bad_divisor_aborts size a val attrs m Hm (granted_size _ _ _ _ _ _ H) Hb). congruence. }
    rewrite H in Hr. injection Hr as <-. by apply HP.
  - destruct (io_read_spec size a attrs m Hm Hns) as (r & Hr & HP).
    rewrite H in Hr. injection Hr as <-. by apply (HP (m', val)).
  - destruct (advance_ok t m Hm Ht Hc) as (m1 & H1 & Hm1 & _). congruence.
  - destruct (fire_uart_ok m Hm Hd) as (m1 & a & H1 & Hm1 & _). congruence.
  - destruct (fire_systick_ok m Hm Hd) as (m1 & H1 & Hm1 & _). congruence.
  - destruct (serial_input_ok ch m Hm Hch) as (m1 & H1 & Hm1 & _). congruence.
  - by apply internal_inv.
Qed.

Lemma realize_num s s' : armv7m_nvic_realize s = Some s' → num_irq s' = num_irq s + NVIC_FIRST_IRQ.
Proof.
  unfold armv7m_nvic_realize. cbv zeta.
  repeat match goal with |- (if ?c then _ else _) = _ → _ => destruct c; [|] end; try done;
    by intros [= <-].
Qed.

(** The three parts of the initial state. *)

Definition boot_uart : UartState :=
  mk_UartState [] 1 CLK_FREQ 57600 190971 11 0 0 96 0 1 0 0 (Some [0])
    [ChrAcceptInput; ChrSetParams 57600 0x45 8 1; ChrAcceptInput; ChrSetParams 57600 0x45 8 1].

Lemma uart_boot : ∃ u0, uart_realize (uart_init None) = Ok u0 ∧
  uart_reset (u0 <| UartDev.irq := Some [] |>) = Ok boot_uart ∧ uart_wf boot_uart.
Proof.
  pose (u0 := mk_UartState [] 1 CLK_FREQ 57600 190971 11 0 0 96 0 1 0 0 None
    [ChrAcceptInput; ChrSetParams 57600 0x45 8 1]).
  exists u0. assert (uart_reset (u0 <| UartDev.irq := Some [] |>) = Ok boot_uart) as H
    by (vm_compute; reflexivity).
  split; [vm_compute; reflexivity|]. split; [exact H|].
  revert H. apply uart_reset_wf; simpl; [repeat constructor|reflexivity|by eexists|closed_range..].
Qed.

Lemma nvic_boot msp : ∃ s,
  armv7m_nvic_realize (nvic_instance (cpu_reset cortex_m7_initfn 0 0 msp) 241 4 (Some [])) = Some s ∧
  nvic_ready (armv7m_nvic_reset s).
Proof.
  generalize (cpu_reset cortex_m7_initfn 0 0 msp),
    (eq_refl : model (cpu_reset cortex_m7_initfn 0 0 msp) = cortex_m7_initfn),
    (ltac:(by intros _) : cpu_ok (cpu_reset cortex_m7_initfn 0 0 msp)).
  intros c Hc Hok.
  assert (∃ s, armv7m_nvic_realize (nvic_instance c 241 4 (Some [])) = Some s) as [s Hs].
  { destruct c as [mo v mp ef]. simpl in Hc. subst mo. eexists. reflexivity. }
  exists s. split; [exact Hs|]. split.
  - by eapply (reach_reset c 241 4 []); [lia|lia|exact Hok|done|].
  - destruct (reset_fields_ok s). by rewrite rf_num, (realize_num _ _ Hs).
Qed.

Lemma systick_boot_eq : systick_boot = Ok systick0.
Proof. vm_compute. reflexivity. Qed.

Lemma new_machine_ok s t u :
  nvic_ready (armv7m_nvic_reset s) → UartDev.irq u = Some [] →
  connected_ok (new_machine (armv7m_nvic_reset s) t u).
Proof.
  intros Hr Hu. split; [exact Hr|]. unfold wired. cbn [new_machine nvic uart].
  by rewrite !reset_levels, Hu.
Qed.

Lemma machine_init_ok msp : ∃ m, machine_init msp = Ok m ∧ machine_inv m ∧ now m = 0 ∧
  cans m = <[0%nat := can_reset can_fresh]> {[1%nat := can_reset can_fresh]} ∧ uart m = boot_uart.
Proof.
  destruct uart_boot as (u0 & H0 & H1 & Hu). set (u := boot_uart) in *. destruct (nvic_boot msp) as (s & Hs & Hr).
  set (m := new_machine (armv7m_nvic_reset s) systick0 (u <| UartDev.irq := Some [] |>)).
  assert (connected_ok m) as Hm by (by apply new_machine_ok).
  destruct (set_uart_ok u m Hm) as (m1 & E1 & Hm1 & Hu1 & Hc1 & Hn1 & Ht1 & Hk1).
  { exists [0]. split; [done|]. by constructor; [left|]. }
  destruct (set_cans_ok (can_reset <$> cans m1) m1 Hm1) as (m2 & E2 & Hm2 & Hc2 & Hu2 & Hn2 & Ht2 & Hk2).
  { intros k. rewrite lookup_fmap. destruct (cans m1 !! k); constructor. simpl. auto with irq. }
  exists m2. split.
  { transitivity (reset_peripherals u systick0 s).
    - unfold machine_init. rewrite H0, bind_Ok, H1, bind_Ok, systick_boot_eq, bind_Ok. by rewrite Hs.
    - unfold reset_peripherals. fold m. rewrite E1, bind_Ok. exact E2. }
  assert (cans m2 = <[0%nat := can_reset can_fresh]> {[1%nat := can_reset can_fresh]}) as Hcans.
  { rewrite Hc2, Hc1. cbn [m new_machine cans]. by rewrite fmap_insert, map_fmap_singleton. }
  split_and!; [|by rewrite Ht2, Ht1|exact Hcans|by rewrite Hu2, Hu1].
  split; [done| | | | | | |by rewrite Hn2, Hn1].
  - rewrite Ht2, Ht1. split; simpl; lia.
  - rewrite Ht2, Ht1, Hk2, Hk1. exact (reach_wf true 0 systick0 systick0_reach).
  - by rewrite Hu2, Hu1.
  - rewrite Hcans. assert (can_wf (can_reset can_fresh)) by (apply can_reset_wf; by eexists).
    apply map_Forall_insert_2; [done|by apply map_Forall_singleton].
  - rewrite Hcans. by eexists.
  - rewrite Hcans. by eexists.
Qed.

Lemma machine_reach_inv m : machine_reach m → machine_inv m.
Proof.
  intros (msp & m0 & H0 & Hr). destruct (machine_init_ok msp) as (m1 & H1 & Hm & _).
  assert (m0 = m1) as -> by congruence. clear H0 H1.
  induction Hr; [done|]. apply IHHr. by eapply machine_step_inv.
Qed.

(** ** Claims *)

Definition served (s : NVICState) (i : Z) : Prop := pending (vec s i) = true ∨ active (vec s i) = true.

(** The input of the controller that a CAN controller drives. *)
Definition can_irqn (c : nat) : Z := if decide (c = 0%nat) then CAN0_IRQn else CAN1_IRQn.

Lemma line_served m n l b :
  machine_inv m → 0 ≤ n → level (vec (nvic m) (n + NVIC_FIRST_IRQ)) = irq_level l →
  irq_level l = of_bool b →
  level (vec (nvic m) (n + NVIC_FIRST_IRQ)) = of_bool b ∧
  (b = true → served (nvic m) (n + NVIC_FIRST_IRQ)).
Proof.
  intros Hm Hn Hl Hb. rewrite Hl, Hb. split; [done|]. intros ->.
  apply orb_prop, (reach_held true); [apply Hm|unfold NVIC_FIRST_IRQ, NVIC_INTERNAL_VECTORS; lia|].
  by rewrite Hl, Hb.
Qed.


(** C14.  What the guest can do to the emulator.  In every reachable state,
    every read of any address and size returns; every write returns, except
    those that leave in DIVISOR a value not below the UART's clock frequency,
    which divide by zero on the host, and those that change the clock of
    SysTick and stop it in one write of its control register, which may (the
    states reached are those reached without one of the latter). *)
Theorem machine_access_total m size a val attrs :
  machine_reach m → secure attrs = false →
  (∃ r, io_read size a attrs m = Ok r) ∧
  (~ bad_divisor size a val → ~ bad_systick size a val attrs m → ∃ r, io_write size a val attrs m = Ok r) ∧
  (size_ok size = true → bad_divisor size a val → io_write size a val attrs m = Abort DivideByZero).
Proof.
  intros Hr%machine_reach_inv Hns. split_and!.
  - destruct (io_read_spec size a attrs m Hr Hns) as (r & Hr' & _). by exists r.
  - intros Hd Hb. destruct (io_write_spec size a val attrs m Hr Hns Hd Hb) as (r & Hr' & _). by exists r.
  - by apply bad_divisor_aborts.
Qed.

(** ** A frame from CAN0 to CAN1 *)

Definition guest : MemTxAttrs := mk_attrs false false.

Definition after_write (a val : Z) (m : outcome Machine) : outcome Machine :=
  m ← m; r ← io_write 4 a val guest m;
  match r with Granted m => mret m | _ => Abort NotReached end.

Definition boot_msp : Z := 0x20440000.

(** CAN1 with its receive interrupt enabled, and a frame sent by CAN0. *)
Definition framed : outcome Machine :=
  Eval vm_compute in
    after_write (CAN0_BA + CMR) TR (after_write (CAN1_BA + IER) RIE (machine_init boot_msp)).

Lemma after_write_step a val m m' :
  a ≠ 0xe000e010 → after_write a val (Ok m) = Ok m' → machine_step m m'.
Proof.
  intros Ha. unfold after_write. rewrite bind_Ok. destruct (io_write 4 a val guest m) as [r|] eqn:H; [|done].
  rewrite bind_Ok. destruct r; [|done..]. intros [= ->].
  apply (ms_write 4 a val guest); [done|by intros (_ & ? & _)|exact H].
Qed.

Lemma framed_reach m : framed = Ok m → machine_reach m.
Proof.
  intros Hf. destruct (machine_init boot_msp) as [m0|] eqn:H0; [|by vm_compute in H0].
  assert (after_write (CAN0_BA + CMR) TR (after_write (CAN1_BA + IER) RIE (Ok m0)) = Ok m) as H.
  { rewrite <- H0, <- Hf. vm_compute. reflexivity. }
  destruct (after_write (CAN1_BA + IER) RIE (Ok m0)) as [m1|] eqn:H1; [|done].
  exists boot_msp, m0. split; [done|].
  eapply rtc_l; [exact (after_write_step (CAN1_BA + IER) RIE m0 m1 ltac:(discriminate) H1)|].
  eapply rtc_l; [exact (after_write_step (CAN0_BA + CMR) TR m1 m ltac:(discriminate) H)|]. apply rtc_refl.
Qed.


(** Two values of DIVISOR; and SysTick started. *)
Lemma machine_access_total_witness :
  ∃ m, framed = Ok m ∧ io_write 4 (UART0_BA + DIVISOR) 115200 guest m = Abort DivideByZero ∧
    (∃ r, io_write 4 (UART0_BA + DIVISOR) 1000 guest m = Ok r) ∧
    ∃ r, io_write 4 0xe000e010 3 guest m = Ok r.
Proof.
  assert (∃ m, framed = Ok m ∧ SysTick.control (tick m) = 0) as (m & Hf & Hc)
    by (eexists; split; [reflexivity|vm_compute; reflexivity]).
  exists m. split; [exact Hf|]. split; [|split].
  - apply (machine_access_total m 4 (UART0_BA + DIVISOR) 115200 guest (framed_reach m Hf) eq_refl);
      [reflexivity|]. split; [reflexivity|]. vm_compute. congruence.
  - apply (machine_access_total m 4 (UART0_BA + DIVISOR) 1000 guest (framed_reach m Hf) eq_refl).
    + intros [_ H]. vm_compute in H. congruence.
    + by intros (_ & H & _).
  - apply (machine_access_total m 4 0xe000e010 3 guest (framed_reach m Hf) eq_refl).
    + by intros [H _].
    + intros (_ & _ & _ & H). rewrite Hc in H. vm_compute in H. congruence.
Defined.
