(* ===== verification/CpuBoard.v ===== *)
(** The address space of CPU 0 of the board: memory and the peripherals of the
    machine, the SysTick timer with its line to the interrupt controller among
    them.  It implements [AddressSpace], and its memory regions satisfy [WordMemory],
    so that the theorems on exception entry and return apply to the board. *)

From S2P Require Import Prelude Irq Timer Clock Ptimer NvicState NvicCore NvicRead NvicWrite SysTick SysTickSpec SysTickBoard.
From S2P Require Import NvicPrio NvicInv CortexM NvicSpec NvicBoard UartDev Wiring Memory Mcu Machine.
From S2P Require Import Mpu MpuSpec CpuRegs CpuRegsSpec PendSpec Exception CpuLdst ExceptionExit StackSpec EntrySpec EntryTotal DataAccess ReturnSpec.

(** ** State *)

(** The peripherals (the interrupt controller in [board] is not used: the CPU
    has it) and the bytes of the RAM blocks. *)
Record BoardMem := mk_board {
  board : Machine;
  ram_block : region → Z → Z
}.

#[export] Instance eta_BoardMem : RecordEta BoardMem := fun b => mk_board (board b) (ram_block b).

(** ** RAM *)

(** [memory_region_is_ram]. *)
Definition memory_region_is_ram (r : region) : bool :=
  match r with ITCM | DTCM | SRAM _ | PFLASH _ | DFLASH _ => true | _ => false end.

Definition memory_access_is_direct (r : region) (readonly is_write : bool) : bool :=
  if negb (memory_region_is_ram r) then false else if is_write then negb readonly else true.

(** Whether the [n] bytes from [a] on are in one section: the length the
    translation returns is not clamped. *)
Definition in_section (n a : Z) (r : region) (off : Z) : bool :=
  match decode 0 (a + (n - 1)) with
  | Some (r', off', _) => bool_decide (r' = r) && (off' =? off + (n - 1))
  | None => false
  end.

(** ** Accesses of the CPU *)

(** The peripherals of the machine, with the controller the CPU has. *)
Definition with_nvic (sb : NVICState * BoardMem) : Machine := (board sb.2) <| nvic := sb.1 |>.
Definition put_machine (m : Machine) (sb : NVICState * BoardMem) : NVICState * BoardMem :=
  (nvic m, sb.2 <| board := m |>).

(** [memory_region_dispatch_read] of a region that is not RAM. *)
Definition dispatch_read (size a : Z) (attrs : MemTxAttrs) (sb : NVICState * BoardMem)
  : outcome (NVICState * BoardMem * option Z) :=
  r ← io_read size a attrs (with_nvic sb);
  mret match r with
       | Granted (m, v) => (put_machine m sb, Some v)
       | BusFault | NotIO => (sb, None)
       end.

Definition dispatch_write (size a val : Z) (attrs : MemTxAttrs) (sb : NVICState * BoardMem)
  : outcome (NVICState * BoardMem * bool) :=
  r ← io_write size a val attrs (with_nvic sb);
  mret match r with
       | Granted m => (put_machine m sb, true)
       | BusFault | NotIO => (sb, false)
       end.

(** The deadline of the timer is reached. *)
Definition board_systick_expire (sb : NVICState * BoardMem) : outcome (NVICState * BoardMem) :=
  m ← fire_systick (with_nvic sb); mret (put_machine m sb).

Definition board_ldn (n : nat) (a : Z) (attrs : MemTxAttrs) (sb : NVICState * BoardMem)
  : outcome (NVICState * BoardMem * option Z) :=
  match decode 0 a with
  | Some (r, off, ro) =>
    if memory_access_is_direct r ro false && in_section (Z.of_nat n) a r off
    then mret (sb, Some (ldn_le_p n (ram_block sb.2 r) off))
    else dispatch_read (Z.of_nat n) a attrs sb
  | None => mret (sb, None)
  end.

Definition board_stl (a val : Z) (attrs : MemTxAttrs) (sb : NVICState * BoardMem)
  : outcome (NVICState * BoardMem * bool) :=
  match decode 0 a with
  | Some (r, off, ro) =>
    if memory_access_is_direct r ro true && in_section 4 a r off
    then mret (sb.1, sb.2 <| ram_block ::= fun f r' =>
                 if decide (r' = r) then stn_le_p 4 (f r) off val else f r' |>, true)
    else dispatch_write 4 a val attrs sb
  | None => mret (sb, false)
  end.

(** Accesses through the TLB: host memory for RAM, whose stores are discarded
    when it is read-only (TLB_DISCARD_WRITE), and a dispatch for the rest. *)
Definition board_tlb_load (n a : Z) (attrs : MemTxAttrs) (sb : NVICState * BoardMem)
  : outcome (NVICState * BoardMem * option Z) :=
  match decode 0 a with
  | Some (r, off, _) =>
    if memory_region_is_ram r then mret (sb, Some (ldn_le_p (Z.to_nat n) (ram_block sb.2 r) off))
    else dispatch_read n a attrs sb
  | None => mret (sb, None)
  end.

Definition board_tlb_store (n a val : Z) (attrs : MemTxAttrs) (sb : NVICState * BoardMem)
  : outcome (NVICState * BoardMem * bool) :=
  match decode 0 a with
  | Some (r, off, ro) =>
    if memory_region_is_ram r then
      mret (if (ro : bool) then (sb, true)
            else (sb.1, sb.2 <| ram_block ::= fun f r' =>
                    if decide (r' = r) then stn_le_p (Z.to_nat n) (f r) off val else f r' |>, true))
    else dispatch_write n a val attrs sb
  | None => mret (sb, false)
  end.

#[export] Instance board_space : AddressSpace BoardMem := {
  address_space_ldl := board_ldn 4;
  address_space_lduw_le := board_ldn 2;
  address_space_stl_le := board_stl;
  tlb_load := board_tlb_load;
  tlb_store := board_tlb_store
}.

(** ** Words of memory *)

(** The RAM block, offset and whether it is read-only, of an aligned word. *)
Definition ram_word (a : Z) : option (region * Z * bool) :=
  match decode 0 a with
  | Some (r, off, ro) => if memory_region_is_ram r && (a mod 4 =? 0) then Some (r, off, ro) else None
  | None => None
  end.

Definition board_word (b : BoardMem) (a : Z) : Z :=
  match ram_word a with Some (r, off, _) => ldn_le_p 4 (ram_block b r) off | None => 0 end.

Definition board_put (a v : Z) (b : BoardMem) : BoardMem :=
  match ram_word a with
  | Some (r, off, _) => b <| ram_block ::= fun f r' =>
      if decide (r' = r) then stn_le_p 4 (f r) off v else f r' |>
  | None => b
  end.

Lemma ram_word_range a r off ro : ram_word a = Some (r, off, ro) →
  is_u32 a ∧ a mod 4 = 0 ∧ decode 0 a = Some (r, off, ro) ∧ memory_region_is_ram r = true ∧
  in_section 4 a r off = true ∧ off mod 4 = 0 ∧
  (ro = false → (r = DTCM ∧ a = DTCM_BA + off) ∨ (r = SRAM 0 ∧ a = SRAM_0_BA + off)) ∧
  (r = DTCM → a = DTCM_BA + off) ∧ (r = SRAM 0 → a = SRAM_0_BA + off).
Proof.
  unfold ram_word, in_section. rewrite !decode_table by lia. unfold memory_table.
  change (aget 0 [SRAM_0_BA; SRAM_1_BA; SRAM_2_BA] (Z.of_nat 0)) with SRAM_0_BA.
  cbn -[Z.add Z.ltb Z.leb Z.modulo].
  unfold ITCM_SIZE, PFLASH_0_BA, PFLASH_SIZE, DFLASH_0_BA, DFLASH_SIZE, DTCM_BA, DTCM_SIZE, SRAM_0_BA, SRAM_SIZE,
    CAN0_BA, CAN1_BA, UART0_BA.
  repeat match goal with
  | |- (match (if ?c then _ else _) with _ => _ end) = _ → _ => destruct c eqn:?
  end; try done; cbn [memory_region_is_ram andb]; try done;
  (destruct (Z.eqb_spec (a mod 4) 0) as [Hm|]; [|done]); intros [= <- <- <-]; rewrite ?Z.sub_0_r;
  (split_and!; [unfold is_u32, in_range; change (2 ^ 32) with 4294967296; lia|done|done|done| |euclid| | |]);
  try (intros; first [done|lia|left; split; [done|lia]|right; split; [done|lia]]).
  all: repeat match goal with
  | |- match (if ?c then _ else _) with _ => _ end = true => destruct c eqn:?; [|first [exfalso; euclid|idtac]]
  end.
  all: first [exfalso; lia|apply andb_true_iff; split; [by apply bool_decide_eq_true|apply Z.eqb_eq; lia]].
Qed.

(** The bytes of the word are next to each other. *)
Lemma ram_word_byte a r off ro i : ram_word a = Some (r, off, ro) → 0 ≤ i < 4 → decode 0 (a + i) = Some (r, off + i, ro).
Proof.
  unfold ram_word. rewrite !decode_table by lia. unfold memory_table.
  change (aget 0 [SRAM_0_BA; SRAM_1_BA; SRAM_2_BA] (Z.of_nat 0)) with SRAM_0_BA.
  cbn -[Z.add Z.ltb Z.leb Z.modulo].
  unfold ITCM_SIZE, PFLASH_0_BA, PFLASH_SIZE, DFLASH_0_BA, DFLASH_SIZE, DTCM_BA, DTCM_SIZE, SRAM_0_BA, SRAM_SIZE,
    CAN0_BA, CAN1_BA, UART0_BA.
  repeat match goal with
  | |- (match (if ?c then _ else _) with _ => _ end) = _ → _ => destruct c eqn:?
  end; try done; cbn [memory_region_is_ram andb]; try done;
  (destruct (Z.eqb_spec (a mod 4) 0) as [Hm|]; [|done]); intros [= <- <- <-] Hi;
  repeat match goal with
  | |- (if ?c then _ else _) = _ => destruct c eqn:?; [|first [exfalso; euclid|idtac]]
  end; first [exfalso; lia|do 3 f_equal; lia].
Qed.

Definition board_readable (a : Z) : Prop := ram_word a ≠ None.
Definition board_writable (a : Z) : Prop := ∃ r off, ram_word a = Some (r, off, false).

Lemma readable_some a : board_readable a → ∃ r off ro, ram_word a = Some (r, off, ro).
Proof. unfold board_readable. intros Ha. destruct (ram_word a) as [[[r off] ro]|]; [by eauto|done]. Qed.

Lemma writable_some a : board_writable a → board_readable a.
Proof. intros (r & off & Ha). unfold board_readable. by rewrite Ha. Qed.

Lemma board_ldl_word a attrs s b : board_readable a →
  board_ldn 4 a attrs (s, b) = Ok (s, b, Some (board_word b a)).
Proof.
  intros (r & off & ro & E)%readable_some. unfold board_ldn, board_word. rewrite E.
  destruct (ram_word_range a r off ro E) as (_ & _ & -> & Hr & Hs & _).
  unfold memory_access_is_direct. rewrite Hr. cbn [negb andb]. change (Z.of_nat 4) with 4. by rewrite Hs.
Qed.

Lemma board_stl_word a v attrs s b : board_writable a →
  board_stl a v attrs (s, b) = Ok (s, board_put a v b, true).
Proof.
  intros (r & off & Ha). unfold board_stl, board_put. rewrite Ha.
  destruct (ram_word_range a r off false Ha) as (_ & _ & -> & Hr & Hs & _).
  unfold memory_access_is_direct. rewrite Hr. cbn [negb andb]. by rewrite Hs.
Qed.

Lemma board_word_put a v m b : board_writable a → board_readable b → is_u32 v →
  board_word (board_put a v m) b = if a =? b then v else board_word m b.
Proof.
  intros (r & off & Ha) (r' & off' & ro' & E)%readable_some Hv. unfold board_word, board_put. rewrite Ha, E.
  destruct (ram_word_range a r off false Ha) as (_ & _ & _ & _ & _ & Ho & Hro & _).
  destruct (ram_word_range b r' off' ro' E) as (_ & _ & _ & _ & _ & Ho' & _ & H1 & H2).
  change (ram_block (m <| ram_block ::= ?f |>)) with (f (ram_block m)). cbv beta.
  destruct (Z.eqb_spec a b) as [Heq|Hne].
  - rewrite Heq, E in Ha. injection Ha as -> -> ->. rewrite decide_True by done. by apply stl_ldl.
  - destruct (decide (r' = r)) as [->|]; [|done]. apply stl_ldl_other; [done..|]. intros ->. apply Hne.
    destruct (Hro eq_refl) as [[-> ->]|[-> ->]]; [by rewrite H1|by rewrite H2].
Qed.

Lemma board_readable_u32 a : board_readable a → is_u32 a.
Proof. intros (r & off & ro & E)%readable_some. apply (ram_word_range a r off ro E). Qed.

Lemma board_word_u32 b a : board_readable a → is_u32 (board_word b a).
Proof. intros (r & off & ro & E)%readable_some. unfold board_word. rewrite E. apply ldn4_u32. Qed.

(** A byte of memory. *)
Lemma board_byte b x r off ro : ram_word (word_start x) = Some (r, off, ro) →
  byte_at (board_word b) x = u8 (ram_block b r (off + x mod 4)).
Proof.
  intros E. unfold byte_at, board_word. rewrite E. by rewrite ldn4_byte by (apply Z.mod_pos_bound; done).
Qed.

(** The bytes of a piece are in one word. *)
Lemma piece_word n a i : piece n a → 0 ≤ i < n → word_start (a + i) = word_start a ∧ (a + i) mod 4 = a mod 4 + i.
Proof. intros [[-> | [-> | ->]] Hm] Hi; unfold word_start; split; euclid. Qed.

Lemma decode_byte a r off ro : ram_word (word_start a) = Some (r, off, ro) → decode 0 a = Some (r, off + a mod 4, ro).
Proof.
  intros E. rewrite <- (ram_word_byte _ r off ro (a mod 4) E) by (apply Z.mod_pos_bound; done).
  f_equal. unfold word_start. lia.
Qed.

Lemma board_load_bytes n a attrs s b : piece n a → board_readable (word_start a) →
  board_tlb_load n a attrs (s, b) = Ok (s, b, Some (ldn_le_p (Z.to_nat n) (byte_at (board_word b)) a)).
Proof.
  intros Hp (r & off & ro & E)%readable_some. unfold board_tlb_load. rewrite (decode_byte a r off ro E).
  destruct (ram_word_range _ r off ro E) as (_ & _ & _ & -> & _). do 3 f_equal.
  rewrite <- ldn_u8. apply ldn_ext. intros i Hi.
  destruct (piece_word n a i Hp) as [Hw Hm]; [destruct Hp; lia|].
  rewrite (board_byte b (a + i) r off ro), Hm by (by rewrite Hw). by rewrite Z.add_assoc.
Qed.

Lemma board_store_word a v attrs s b : board_writable a → board_tlb_store 4 a v attrs (s, b) = Ok (s, board_put a v b, true).
Proof.
  intros (r & off & Ha). unfold board_tlb_store, board_put. rewrite Ha.
  by destruct (ram_word_range a r off false Ha) as (_ & _ & -> & -> & _).
Qed.

Lemma board_store_bytes n a v attrs s b : piece n a → board_writable (word_start a) → ∃ b',
  board_tlb_store n a v attrs (s, b) = Ok (s, b', true) ∧
  ∀ x, board_readable (word_start x) →
    byte_at (board_word b') x = stn_le_p (Z.to_nat n) (byte_at (board_word b)) a v x.
Proof.
  intros Hp (r & off & E). unfold board_tlb_store. rewrite (decode_byte a r off false E).
  destruct (ram_word_range _ r off false E) as (_ & _ & _ & -> & _ & _ & Hro & _).
  eexists. split; [reflexivity|]. intros x (r' & off' & ro' & E')%readable_some.
  destruct (ram_word_range _ r' off' ro' E') as (_ & _ & _ & _ & _ & _ & _ & R1 & R2).
  rewrite (board_byte _ x r' off' ro' E'). unfold stn_le_p at 2.
  rewrite (board_byte b x r' off' ro' E').
  change (ram_block (?b <| ram_block ::= ?f |>)) with (f (ram_block b)). cbv beta. cbn [snd].
  assert (1 ≤ n) as Hn by (destruct Hp; lia). rewrite !Z2Nat.id by lia.
  destruct (decide (r' = r)) as [->|Hne].
  - assert (off' + x mod 4 = off + a mod 4 + (x - a)) as Hx.
    { unfold word_start in *. destruct (Hro eq_refl) as [[-> Ho]|[-> Ho]]; [specialize (R1 eq_refl)|specialize (R2 eq_refl)]; lia. }
    unfold stn_le_p. rewrite Z2Nat.id, Hx by lia.
    replace (off + a mod 4 + (x - a) - (off + a mod 4)) with (x - a) by lia.
    replace (off + a mod 4 <=? off + a mod 4 + (x - a)) with (a <=? x) by lia.
    replace (off + a mod 4 + (x - a) <? off + a mod 4 + n) with (x <? a + n) by lia.
    case_if; [by rewrite wrap_wrap by lia|done].
  - destruct ((a <=? x) && (x <? a + n)) eqn:Hin; [|reflexivity]. exfalso. apply Hne.
    apply andb_true_iff in Hin as [?%Z.leb_le ?%Z.ltb_lt].
    destruct (piece_word n a (x - a) Hp) as [Hw _]; [lia|]. replace (a + (x - a)) with x in Hw by lia.
    rewrite Hw, E in E'. injection E' as <- _ _. reflexivity.
Qed.

#[export] Instance board_words : WordMemory BoardMem := {
  readable := board_readable; writable := board_writable; word_at := board_word; put_word := board_put;
  writable_readable := writable_some; readable_u32 := board_readable_u32; word_u32 := board_word_u32;
  ldl_word := board_ldl_word; stl_word := fun a v attrs s m Ha _ => board_stl_word a v attrs s m Ha;
  word_put := board_word_put; load_bytes := board_load_bytes;
  store_word := fun a v attrs s m Ha _ _ => board_store_word a v attrs s m Ha; store_bytes := board_store_bytes
}.

(** ** Addresses outside the devices *)

(** Memory and unassigned addresses. *)
Definition no_device (a : Z) : Prop :=
  ∀ r off ro, decode 0 a = Some (r, off, ro) → memory_region_is_ram r = true.

Lemma read_ram_region r off size attrs m : memory_region_is_ram r = true → read_region r off size attrs m = Ok NotIO.
Proof. by destruct r. Qed.

Lemma write_ram_region r off val size attrs m : memory_region_is_ram r = true →
  write_region r off val size attrs m = Ok NotIO.
Proof. by destruct r. Qed.

Lemma dispatch_read_ram size a attrs sb r off ro :
  decode 0 a = Some (r, off, ro) → memory_region_is_ram r = true → dispatch_read size a attrs sb = Ok (sb, None).
Proof.
  intros E Hr.
  assert (io_read size a attrs (with_nvic sb) = Ok BusFault ∨ io_read size a attrs (with_nvic sb) = Ok NotIO) as Hio.
  { unfold io_read, with_region. rewrite E, read_ram_region by done.
    destruct (negb (size_ok size)); [by right|]. destruct (negb _); [by left|by right]. }
  unfold dispatch_read. destruct Hio as [-> | ->]; reflexivity.
Qed.

Lemma dispatch_write_ram size a val attrs sb r off ro :
  decode 0 a = Some (r, off, ro) → memory_region_is_ram r = true → dispatch_write size a val attrs sb = Ok (sb, false).
Proof.
  intros E Hr.
  assert (io_write size a val attrs (with_nvic sb) = Ok BusFault ∨ io_write size a val attrs (with_nvic sb) = Ok NotIO) as Hio.
  { unfold io_write, with_region. rewrite E, write_ram_region by done.
    destruct (negb (size_ok size)); [by right|]. destruct (negb _); [by left|by right]. }
  unfold dispatch_write. destruct Hio as [-> | ->]; reflexivity.
Qed.

Lemma board_quiet a : is_u32 a → no_device a → quiet (M := BoardMem) a.
Proof.
  intros Ha Hn. split; [done|]. intros attrs s m. split.
  - change (∃ m' v, board_ldn 4 a attrs (s, m) = Ok (s, m', v)). unfold board_ldn.
    destruct (decode 0 a) as [[[r off] ro]|] eqn:E; [|by do 2 eexists]. specialize (Hn r off ro E).
    destruct (_ && _); [by do 2 eexists|]. rewrite (dispatch_read_ram _ a attrs (s, m) r off ro) by done. by do 2 eexists.
  - intros x. change (∃ m' ok, board_stl a x attrs (s, m) = Ok (s, m', ok)). unfold board_stl.
    destruct (decode 0 a) as [[[r off] ro]|] eqn:E; [|by do 2 eexists]. specialize (Hn r off ro E).
    destruct (_ && _); [by do 2 eexists|]. rewrite (dispatch_write_ram 4 a x attrs (s, m) r off ro) by done. by do 2 eexists.
Qed.

(** The bytes of memory and unassigned addresses. *)
Lemma board_tlb_quiet a : no_device a → tlb_quiet (M := BoardMem) a.
Proof.
  intros Hn n attrs s m _. split.
  - change (∃ m' w, board_tlb_load n a attrs (s, m) = Ok (s, m', w)). unfold board_tlb_load.
    destruct (decode 0 a) as [[[r off] ro]|] eqn:E; [|by do 2 eexists]. rewrite (Hn r off ro E). by do 2 eexists.
  - intros v. change (∃ m' ok, board_tlb_store n a v attrs (s, m) = Ok (s, m', ok)). unfold board_tlb_store.
    destruct (decode 0 a) as [[[r off] ro]|] eqn:E; [|by do 2 eexists]. rewrite (Hn r off ro E).
    destruct ro; by do 2 eexists.
Qed.

(** ** The tick *)

Lemma pulse_calls log : line_calls (Some log) (qemu_irq_pulse (Some log)) = [1; 0].
Proof.
  unfold line_calls, qemu_irq_pulse, qemu_set_irq. rewrite <- app_assoc, drop_app_length. done.
Qed.

Lemma pend_systick L s : nvic_inv L s → v7m_core s →
  armv7m_nvic_set_pending ARMV7M_EXCP_SYSTICK false s = Ok (pend_vec false ARMV7M_EXCP_SYSTICK s).
Proof.
  intros Hi Hc. destruct (internal_bound L s Hi ARMV7M_EXCP_SYSTICK) as [Hn _]; [by split|].
  unfold armv7m_nvic_set_pending, do_armv7m_nvic_set_pending, set_pending_escalate.
  destruct (Z.ltb_spec ARMV7M_EXCP_SYSTICK (num_irq s)); [done|lia].
Qed.

(** C22.  The tick reaches the CPU.  When the SysTick timer of the board reaches
    its deadline with its interrupt enabled, the timer is armed again without
    drift, exactly exception 15 of the controller becomes pending, and if its
    priority is above the execution priority the CPU can take an exception the
    next time it polls. *)
Theorem systick_tick_pends L s b :
  nvic_inv L s → v7m_core s → let t := tick (board b) in systick_wf true (now (board b)) t → 0 ≤ now (board b) < 2 ^ 62 →
  Ptimer.enabled (ptimer t) = 1 → delta (ptimer t) ≠ 0 → limit (ptimer t) ≠ 0 →
  Z.testbit (SysTick.control t) 1 = true → is_Some (SysTick.irq t) →
  next_event (ptimer t) ≤ now (board b) →
  ∃ s' b', board_systick_expire (s, b) = Ok (s', b') ∧ nvic_inv L s' ∧
    (∀ bank i, get_vec s' bank i =
       if eqb false bank && (ARMV7M_EXCP_SYSTICK =? i) then (get_vec s bank i) <| pending := true |>
       else get_vec s bank i) ∧
    now (board b') = now (board b) ∧ uart (board b') = uart (board b) ∧ cans (board b') = cans (board b) ∧
    net (board b') = net (board b) ∧ ram_block b' = ram_block b ∧
    systick_wf true (now (board b)) (tick (board b')) ∧
    next_event (ptimer (tick (board b'))) =
      next_event (ptimer t) + event_time true (limit (ptimer t) + 1) (ptimer t) ∧
    (enabled (vec s ARMV7M_EXCP_SYSTICK) = true → group_prio s (ARMV7M_EXCP_SYSTICK, false) < nvic_exec_prio s →
     armv7m_nvic_can_take_pending_exception s' = true).
Proof.
  intros Hi Hc t Hw Hnow He Hd Hl Ht [log Hlog] Hnx.
  destruct (internal_bound L s Hi ARMV7M_EXCP_SYSTICK) as [Hn Hb]; [by split|].
  pose proof (expired_ok true (now (board b)) t Hw He ltac:(lia) Hnx) as Hw'.
  assert (expired_state true t =
    set_ptimer (reloaded true (limit (ptimer t) + 1) (ptimer t)) (tick_effect t)) as E.
  { unfold expired_state. cbv zeta. by rewrite (proj2 (Z.eqb_neq _ _) Hl), (proj2 (Z.eqb_neq _ _) Hd). }
  destruct (tick_effect_control t) as [_ Hirq]. rewrite Ht, Hlog in Hirq.
  set (s' := pend_vec false ARMV7M_EXCP_SYSTICK s).
  exists s', (b <| board := (board b) <| nvic := s |> <| tick := expired_state true t |> <| nvic := s' |> |>).
  split_and!; try done.
  - unfold board_systick_expire, fire_systick. change (now (with_nvic (s, b))) with (now (board b)).
    change (tick (with_nvic (s, b))) with t.
    rewrite (expire_spec true 1 (now (board b)) t Hw He ltac:(lia) Hnx), bind_Ok. unfold set_tick.
    change (tick (with_nvic (s, b))) with t. change (nvic (with_nvic (s, b))) with s.
    rewrite E. change (SysTick.irq (set_ptimer ?p ?t)) with (SysTick.irq t). rewrite Hirq, Hlog, pulse_calls.
    cbn [drive_systick]. unfold nvic_systick_trigger. change (truth 1) with true. change (truth 0) with false.
    cbv iota. rewrite (pend_systick L) by done. reflexivity.
  - by apply pend_vec_inv.
  - intros bank i. by apply pended_get.
  - cbn [board]. change (next_event (ptimer (expired_state true t)) =
      next_event (ptimer t) + event_time true (limit (ptimer t) + 1) (ptimer t)). by rewrite E.
  - intros Hen Hlt. by apply (pend_vec_takeable L).
Qed.
