(* ===== verification/CpuExample.v ===== *)
(** The board's CPU on concrete inputs: an interrupt of the UART taken from the
    reset stack and returned from, the tick, and a stack pointer inside the
    interrupt controller. *)

From S2P Require Import Prelude Irq Timer Clock Ptimer NvicState NvicCore NvicRead NvicWrite SysTick SysTickSpec SysTickBoard.
From S2P Require Import NvicPrio NvicInv CortexM NvicSpec NvicBoard UartDev Wiring Memory Mcu Machine.
From S2P Require Import Mpu MpuSpec CpuRegs CpuRegsSpec PendSpec Exception CpuLdst ExceptionExit StackSpec EntrySpec EntryTotal DataAccess ReturnSpec CpuBoard.

(** ** A CPU about to take the UART's interrupt *)

Definition machine0 : option Machine := Eval vm_compute in
  match machine_init boot_msp with Ok m => Some m | Abort _ => None end.

(** A flash with one vector: exception 157 is handled at 0x400400. *)
Definition flash0 (r : region) (i : Z) : Z :=
  if decide (r = PFLASH 0)
  then if (628 <=? i) && (i <? 632) then u8 (Z.shiftr 0x400401 (8 * (i - 628))) else 0
  else 0.

(** The stack pointer needs realignment. *)
Definition env0 (m : Machine) : CPUARMState BoardMem :=
  mk_env (set_v7m (fun m => m <| sp := 0x2043fffc |>) nvic_raised)
    [1; 2; 3; 4; 5; 6; 7; 8; 9; 10; 11; 12; 13; 0; 0x400301; 0x400200]
    0x80000000 1 1 0 0 0 true 0 (mk_Vfp (replicate 32 0) 0 0 [0; 0; 0; 0] 0) 0
    (mk_board m flash0).

Definition start : option (CPUARMState BoardMem) := env0 <$> machine0.

Lemma set_sp_reach v : nvic_reach true (set_v7m (fun m => m <| sp := v |>) nvic_raised).
Proof. apply (reach_op true true nvic_raised); [apply reach_raised|]. by apply op_cpu. Qed.

Lemma flags_wf_dec {M} (e : CPUARMState M) :
  bool_decide (is_u32 (NF e) ∧ 0 ≤ CF e ≤ 1 ∧ is_u32 (VF e) ∧ 0 ≤ QF e ≤ 1 ∧ 0 ≤ GE e < 16 ∧
    0 ≤ condexec_bits e < 256 ∧ 0 ≤ exception (env_v7m e) < 512) = true → flags_wf e.
Proof. intros (? & ? & ? & ? & ? & ? & ?)%bool_decide_eq_true. by split. Qed.

Lemma words_wf_dec (l : list Z) : bool_decide (Forall is_u32 l) = true → Forall is_u32 l.
Proof. by intros H%bool_decide_eq_true. Qed.

Lemma after_Ok {A} (o : outcome A) x d : o = Ok x → after o d = x.
Proof. by intros ->. Qed.

Lemma ok_inj {A} (x y : A) : Ok x = Ok y → x = y.
Proof. congruence. Qed.

Lemma all_vec (p : VecInfo → bool) s i :
  p vec_zero = true → forallb p (vectors s) = true → p (vec s i) = true.
Proof.
  intros H0 Hl. unfold vec, aget. destruct (i <? 0); [done|].
  destruct (vectors s !! Z.to_nat i) as [v|] eqn:E; [|done]. cbn.
  eapply forallb_forall in Hl; [done|]. by apply list_elem_of_In, list_elem_of_lookup_2 with (Z.to_nat i).
Qed.

Lemma same_vec {B} (p : VecInfo → B) s s' i : p <$> vectors s = p <$> vectors s' → p (vec s i) = p (vec s' i).
Proof.
  intros Hl. unfold vec, aget. destruct (i <? 0); [done|].
  apply (f_equal (.!! Z.to_nat i)) in Hl. rewrite !list_lookup_fmap in Hl.
  by destruct (vectors s !! _), (vectors s' !! _); inversion Hl.
Qed.

Lemma branched_reg {M} f x r (e : CPUARMState M) : 4 ≤ r < 12 →
  get_reg (e <| env_nvic ::= f |> <| regs ::= fun l => aset l 15 x |>) r = get_reg e r.
Proof.
  intros Hr. unfold get_reg. destruct (Z.eqb_spec r 13); [lia|].
  change (aget 0 (aset (regs e) 15 x) r = aget 0 (regs e) r). apply aget_aset_ne. lia.
Qed.

Lemma branched_mem {M} f x (e : CPUARMState M) :
  mem (e <| env_nvic ::= f |> <| regs ::= fun l => aset l 15 x |>) = mem e.
Proof. reflexivity. Qed.

(** Frames and vectors by computation. *)
Definition storable (s : NVICState) (idx a : Z) : bool :=
  match ram_word a with Some (_, _, false) => mpu_allows s idx a MMU_DATA_STORE | _ => false end.
Definition loadable (s : NVICState) (idx a : Z) : bool :=
  match ram_word a with Some _ => mpu_allows s idx a MMU_DATA_LOAD | None => false end.

Lemma storable_ok s idx l : forallb (storable s idx) l = true → Forall (may_store (M := BoardMem) s idx) l.
Proof.
  intros H. apply Forall_forall. intros a Ha. eapply forallb_forall in H; [|by apply list_elem_of_In].
  unfold storable in H. split; [|by destruct (ram_word a) as [[[r off] []]|]].
  change (board_writable a). unfold board_writable.
  destruct (ram_word a) as [[[r off] []]|]; [discriminate H|by exists r, off|discriminate H].
Qed.

Lemma loadable_ok s idx l : forallb (loadable s idx) l = true → Forall (may_load (M := BoardMem) s idx) l.
Proof.
  intros H. apply Forall_forall. intros a Ha. eapply forallb_forall in H; [|by apply list_elem_of_In].
  unfold loadable in H. split; [|by destruct (ram_word a)].
  change (board_readable a). unfold board_readable. by destruct (ram_word a).
Qed.

Definition no_device_at (a : Z) : bool :=
  (0 <=? a) && (a <? 2 ^ 32) &&
  match decode 0 a with Some (r, _, _) => memory_region_is_ram r | None => true end.

Lemma no_device_ok a : no_device_at a = true → quiet (M := BoardMem) a.
Proof.
  unfold no_device_at. intros [[H1 H2]%andb_true_iff H3]%andb_true_iff. apply board_quiet.
  - apply Z.leb_le in H1. apply Z.ltb_lt in H2. by split.
  - intros r off ro E. rewrite E in H3. exact H3.
Qed.

Lemma no_device_range a i :
  forallb (fun i => no_device_at (u32 (a + i))) (seqZ 0 4) = true → 0 ≤ i < 4 → no_device (u32 (a + i)).
Proof.
  intros H Hi. rewrite forallb_forall in H. specialize (H i ltac:(apply list_elem_of_In, elem_of_seqZ; lia)).
  unfold no_device_at in H. apply andb_true_iff in H as [_ H]. intros r off ro E. rewrite E in H. exact H.
Qed.

Lemma readable_range a i :
  forallb (fun i => bool_decide (ram_word (word_start (u32 (a + i))) ≠ None)) (seqZ 0 4) = true → 0 ≤ i < 4 →
  board_readable (word_start (u32 (a + i))).
Proof.
  intros H Hi. rewrite forallb_forall in H. specialize (H i ltac:(apply list_elem_of_In, elem_of_seqZ; lia)).
  by apply bool_decide_eq_true in H.
Qed.

Lemma quiet_range base n i :
  forallb (fun i => no_device_at (u32 (base + i * 4))) (seqZ 0 n) = true → 0 ≤ i < n →
  quiet (M := BoardMem) (u32 (base + i * 4)).
Proof.
  intros H Hi. apply no_device_ok. rewrite forallb_forall in H. apply (H i).
  apply list_elem_of_In, elem_of_seqZ. lia.
Qed.

Section concrete.
Context (m : Machine).

Lemma env0_core : v7m_core (env_nvic (env0 m)).
Proof. split; reflexivity. Qed.

Lemma env0_wf : cpu_wf (env0 m).
Proof.
  split.
  - apply env0_core.
  - apply mpu_wf_dec. vm_compute. reflexivity.
  - reflexivity.
  - apply words_wf_dec. vm_compute. reflexivity.
  - split; vm_compute; congruence.
  - split; vm_compute; congruence.
  - apply flags_wf_dec. vm_compute. reflexivity.
Qed.

Lemma env0_inv : nvic_inv true (env_nvic (env0 m)).
Proof. apply reach_inv, set_sp_reach. Qed.

Lemma env0_take : armv7m_nvic_can_take_pending_exception (env_nvic (env0 m)) = true.
Proof. vm_compute. reflexivity. Qed.

Lemma env0_no_fp : no_fp (env0 m).
Proof. reflexivity. Qed.

Lemma env0_frame : frame_storable (env0 m).
Proof. apply storable_ok. vm_compute. reflexivity. Qed.

Lemma env0_vector : readable (WordMemory := board_words) (vector_addr (env_nvic (env0 m))).
Proof. change (board_readable (vector_addr (env_nvic (env0 m)))). unfold board_readable. vm_compute. discriminate. Qed.

Lemma env0_mode : mode_wf (env0 m).
Proof.
  split; [by intros []|]. intros _ i. apply negb_true_iff, (all_vec (fun v => negb (active v))); vm_compute; reflexivity.
Qed.

(** *** The handler *)

Definition env1 : CPUARMState BoardMem := after (take_exception (env0 m)) (env0 m).

(** The handler has served the UART, whose line is low, and branches to lr. *)
Definition env2 : CPUARMState BoardMem :=
  env1 <| env_nvic ::= fun s => after (set_irq_level uart_irqn 0 s) s |>
       <| regs ::= fun r => aset r 15 0xfffffff8 |>.

Lemma env1_effect : take_exception (env0 m) = Ok env1 ∧ entry_effect true (env0 m) env1.
Proof.
  destruct (take_exception_effect true (env0 m) env0_wf env0_inv env0_take env0_no_fp env0_frame env0_vector)
    as (e' & He & Hee).
  pose proof (after_Ok _ _ (env0 m) He) as E. fold env1 in E. rewrite E. split; [exact He|exact Hee].
Qed.

Lemma env2_wf : cpu_wf env2.
Proof.
  split.
  - split; vm_compute; reflexivity.
  - apply mpu_wf_dec. vm_compute. reflexivity.
  - vm_compute. reflexivity.
  - apply words_wf_dec. vm_compute. reflexivity.
  - split; vm_compute; congruence.
  - split; vm_compute; congruence.
  - apply flags_wf_dec. vm_compute. reflexivity.
Qed.

Lemma env2_inv : nvic_inv true (env_nvic env2).
Proof.
  destruct env1_effect as [_ Hee]. pose proof (ee_inv _ _ _ Hee) as Hi.
  pose proof (op_inv true (env_nvic env1) (env_nvic env2)) as Hop. apply Hop in Hi; [exact Hi|].
  apply (op_irq uart_irqn 0). vm_compute. reflexivity.
Qed.

Lemma env2_loadable : frame_loadable env2.
Proof. apply loadable_ok. vm_compute. reflexivity. Qed.

Lemma env2_preempt : armv7m_nvic_can_take_pending_exception (env_nvic (left_handler env2)) = false.
Proof. vm_compute. reflexivity. Qed.

Lemma env2_active i : active (vec (env_nvic env2) i) = active (vec (env_nvic env1) i).
Proof. apply (same_vec active). vm_compute. reflexivity. Qed.

Lemma env2_returns : returns env2.
Proof.
  split; try (vm_compute; reflexivity).
  - split; vm_compute; reflexivity.
  - right. split; [left|left]; vm_compute; reflexivity.
Qed.

Lemma env2_ran : handler_ran true (entry_frame (env_v7m (env0 m))) env1 env2.
Proof.
  split.
  - apply env2_wf.
  - apply env2_inv.
  - vm_compute. reflexivity.
  - vm_compute. reflexivity.
  - vm_compute. reflexivity.
  - apply env2_active.
  - vm_compute. reflexivity.
  - intros []; vm_compute; reflexivity.
  - intros r Hr. unfold env2. rewrite (branched_reg _ _ r env1) by exact Hr. reflexivity.
  - unfold env2. rewrite branched_mem. reflexivity.
  - split; vm_compute; reflexivity.
  - vm_compute. reflexivity.
  - vm_compute. reflexivity.
  - apply env2_preempt.
  - apply env2_loadable.
Qed.

Lemma env2_dsp : FEATURE_THUMB_DSP (model_of (env_nvic env2)) = true.
Proof. vm_compute. reflexivity. Qed.

Lemma env2_thread : to_thread env2 = (Z.land (return_xpsr env2) XPSR_EXCP =? 0).
Proof. vm_compute. reflexivity. Qed.

Lemma env2_magic : EXC_RETURN_MIN_MAGIC ≤ get_reg env2 15.
Proof. vm_compute. discriminate. Qed.

Lemma env0_dsp : FEATURE_THUMB_DSP (model_of (env_nvic (env0 m))) = true.
Proof. vm_compute. reflexivity. Qed.

Lemma env0_pc : Z.testbit (get_reg (env0 m) 15) 0 = false.
Proof. vm_compute. reflexivity. Qed.

Lemma env0_control : is_u32 (ns (NvicState.control (env_v7m (env0 m)))).
Proof. split; vm_compute; congruence. Qed.

(** *** Totality *)

Lemma env0_running : running true (env0 m).
Proof.
  split.
  - apply env0_inv.
  - apply env0_core.
  - split; vm_compute; reflexivity.
  - apply mpu_wf_dec. vm_compute. reflexivity.
  - vm_compute. reflexivity.
  - vm_compute. reflexivity.
  - intros x Hx. apply (quiet_range (ns (vecbase (env_v7m (env0 m)))) NVIC_MAX_VECTORS); [vm_compute; reflexivity|done].
  - intros i Hi. rewrite (Z.mul_comm 4). apply (quiet_range (stack_low (env_v7m (env0 m))) 8); [vm_compute; reflexivity|].
    exact Hi.
Qed.

(** *** The tick *)

(** The board when the countdown of [systick_counting] ends. *)
Definition ticking : BoardMem := mk_board (m <| now := 1118490999 |> <| tick := systick_counting |>) flash0.

Lemma ticking_wf : systick_wf true (now (board ticking)) (tick (board ticking)).
Proof.
  eapply systick_later; [apply SysTickSpec.reach_wf, systick_counting_reach|]. cbn. lia.
Qed.
End concrete.

Lemma machine0_some : ∃ m, machine0 = Some m.
Proof. eexists. reflexivity. Qed.

(** ** The theorems at these states *)

Lemma exception_entry_witness :
  ∃ m e', machine0 = Some m ∧ arm_v7m_cpu_exec_interrupt true (env0 m) = Ok (e', true) ∧
    exception (env_v7m e') = 157 ∧ get_reg e' 14 = 0xfffffff9.
Proof.
  destruct machine0_some as [m Hm]. exists m.
  destruct (exception_entry true (env0 m) (env0_wf m) (env0_inv m) (env0_take m) (env0_no_fp m)
    (env0_frame m) (env0_vector m)) as (e' & He & Hee & Hlr).
  exists e'. split; [exact Hm|]. split; [exact He|]. split.
  - rewrite (ee_exception _ _ _ Hee). vm_compute. reflexivity.
  - rewrite Hlr. vm_compute. reflexivity.
Defined.

Lemma exception_return_witness :
  ∃ m e', machine0 = Some m ∧
    arm_v7m_cpu_do_interrupt Ok EXCP_EXCEPTION_EXIT (mk_exception_data 0 0 0) (env2 m) = Ok (Returned e' tt) ∧
    exception (env_v7m e') = 0.
Proof.
  destruct machine0_some as [m Hm]. exists m.
  destruct (exception_return true Ok (mk_exception_data 0 0 0) (env2 m) (env2_wf m) (env2_inv m)
    (env2_returns m) (env2_loadable m) (env2_dsp m) (env2_thread m) (env2_magic m)) as (e' & He & Hee).
  exists e'. split; [exact Hm|]. split; [exact He|]. rewrite (re_exception _ _ _ Hee). vm_compute. reflexivity.
Defined.

Lemma exception_round_trip_witness :
  ∃ m e3, machine0 = Some m ∧ do_v7m_exception_exit (env2 m) = Ok e3 ∧
    (∀ r, 0 ≤ r < 16 → get_reg e3 r = get_reg (env0 m) r) ∧ xpsr_read e3 = 0xa1000000.
Proof.
  destruct machine0_some as [m Hm]. exists m.
  destruct (exception_round_trip true (env0 m) (env0_wf m) (env0_inv m) (env0_take m) (env0_no_fp m)
    (env0_frame m) (env0_vector m) (env0_mode m) (env0_dsp m) (env0_pc m) (env0_control m)) as (e1 & He1 & H1).
  destruct (env1_effect m) as [He _]. rewrite He in He1. apply ok_inj in He1. subst e1.
  destruct (H1 (env2 m) (env2_ran m)) as (e3 & H3 & Hr & Hx & _).
  exists e3. split; [exact Hm|]. split; [exact H3|]. split; [exact Hr|]. rewrite Hx. vm_compute. reflexivity.
Defined.



Lemma systick_tick_pends_witness :
  ∃ m s' b', machine0 = Some m ∧ board_systick_expire (nvic0, ticking m) = Ok (s', b') ∧
    armv7m_nvic_can_take_pending_exception s' = true.
Proof.
  destruct machine0_some as [m Hm]. exists m.
  destruct (systick_tick_pends true nvic0 (ticking m) (reach_inv true nvic0 reach_nvic0)) as (s' & b' & H & _ & _ & _ & _ & _ & _ & Ht).
  - split; reflexivity.
  - apply ticking_wf.
  - cbn. lia.
  - reflexivity.
  - vm_compute. discriminate.
  - vm_compute. discriminate.
  - reflexivity.
  - by eexists.
  - vm_compute. discriminate.
  - exists s', b'. split; [exact Hm|]. split; [exact H|]. apply Ht; vm_compute; reflexivity.
Defined.

(** ** A stack in the interrupt controller *)

(** Interrupt 0 enabled in ISER0 and made pending in ISPR0 by the guest. *)
Definition nvic_soft : NVICState := Eval vm_compute in board_write 0x200 1 4 (board_write 0x100 1 4 nvic0).

Definition env_soft (m : Machine) : CPUARMState BoardMem :=
  mk_env nvic_soft [1; 2; 3; 4; 5; 6; 7; 8; 9; 10; 11; 12; 13; 0; 0x400301; 0x400200]
    0x80000000 1 1 0 0 0 true 0 (mk_Vfp (replicate 32 0) 0 0 [0; 0; 0; 0] 0) 0
    (mk_board m flash0).

Lemma reach_soft : nvic_reach true nvic_soft.
Proof.
  apply (reach_op true true (board_write 0x100 1 4 nvic0)).
  - apply (reach_op true true nvic0); [apply reach_nvic0|].
    apply (op_write 0x100 1 4 privileged); [done|]. vm_compute. reflexivity.
  - apply (op_write 0x200 1 4 privileged); [done|]. vm_compute. reflexivity.
Qed.

(** C37.  A guest can make the emulator abort.  Privileged code enables and pends
    interrupt 0, has 1 in r0 and moves the main stack pointer to 0xe000e2a0 with
    MSR, all of which succeed.  When the CPU next polls its interrupt line, the
    frame goes to the interrupt controller's ICPR registers: the word of r0 makes
    interrupt 0 not pending any more, nothing is pending, and the assertion of
    [armv7m_nvic_get_pending_irq_info] fails. *)
Theorem stack_in_controller_aborts :
  nvic_reach true nvic_soft ∧
  ∃ m e, machine0 = Some m ∧ v7m_msr 0x808 0xe000e2a0 (env_soft m) = Written e ∧
    armv7m_nvic_can_take_pending_exception (env_nvic e) = true ∧
    arm_v7m_cpu_exec_interrupt true e = Abort AssertFailed.
Proof.
  split; [exact reach_soft|]. destruct machine0_some as [m Hm]. exists m. eexists.
  split; [exact Hm|]. split; [vm_compute; reflexivity|]. split; vm_compute; reflexivity.
Qed.
