(* ===== verification/Startup.v ===== *)
(** The start-up code of the demo, Demo/startup.c and Demo/linker.ld, on the
    board's CPU: the vector table in flash, what the CPU reset loads from it, and
    the fault handlers. *)

From S2P Require Import Prelude Irq Timer Clock Ptimer NvicState NvicCore NvicRead NvicWrite SysTick SysTickBoard.
From S2P Require Import NvicPrio NvicInv CortexM NvicSpec NvicBoard UartDev Wiring Memory Mcu Machine.
From S2P Require Import Mpu MpuSpec CpuRegs CpuRegsSpec PendSpec Exception CpuLdst ExceptionExit StackSpec EntrySpec EntryTotal DataAccess ReturnSpec CpuBoard CpuExample.

(** ** The image *)

Definition M7_0_SRAM_ORIGIN : Z := 0x20400000.
Definition M7_0_SRAM_LENGTH : Z := 0x40000.
Definition _estack : Z := M7_0_SRAM_ORIGIN + M7_0_SRAM_LENGTH.

(** The addresses the linker gives to the functions and to the variables [r0],
    [r1], [r2], [r3], [r12], [lr], [pc] and [psr]. *)
Record Symbols := mk_symbols {
  Reset_Handler_at : Z; Default_Handler_at : Z; HardFault_Handler_at : Z;
  prvGetRegistersFromStack_at : Z; vPortSVCHandler_at : Z; xPortPendSVHandler_at : Z;
  xPortSysTickHandler_at : Z; Uart_Handler_at : Z; CAN0_Handler_at : Z; CAN1_Handler_at : Z;
  fault_vars : list Z
}.

(** The table; the entries after the last initializer are zero. *)
Definition isr_vector (sy : Symbols) : list Z :=
  [ _estack; Reset_Handler_at sy; Default_Handler_at sy; HardFault_Handler_at sy; Default_Handler_at sy;
    Default_Handler_at sy; Default_Handler_at sy; 0; 0; 0; 0; vPortSVCHandler_at sy; Default_Handler_at sy; 0;
    xPortPendSVHandler_at sy; xPortSysTickHandler_at sy ] ++
  replicate 109 0 ++ [CAN0_Handler_at sy] ++ replicate 3 0 ++ [CAN1_Handler_at sy] ++
  replicate 27 0 ++ [Uart_Handler_at sy] ++ replicate 83 0.

(** The section [.isr_vector] is at the start of the flash of CPU 0. *)
Definition image (sy : Symbols) (rest : region → Z → Z) (r : region) (i : Z) : Z :=
  if decide (r = PFLASH 0)
  then if (0 <=? i) && (i <? 964) then u8 (Z.shiftr (aget 0 (isr_vector sy) (i / 4)) (8 * (i mod 4))) else rest r i
  else rest r i.

(** ** Reset *)

(** [arm_cpu_reset_hold] on an M-profile CPU with the vector table base at
    zero, once the image is in memory. *)
Definition arm_cpu_reset_hold {M} `{AddressSpace M} (s : NVICState) (m : M) : outcome (CPUARMState M) :=
  let reset := arm_cpu_reset_v7m (model_of s) 0 0 in
  let base := bget (vecbase (reset 0)) (secure_state (reset 0)) in
  let unspecified := mk_attrs false false in
  r ← address_space_ldl base unspecified (s, m);
  let '(s, m, initial_msp) := r in
  r ← address_space_ldl (u32 (base + 4)) unspecified (s, m);
  let '(s, m, initial_pc) := r in
  let pc := default 0 initial_pc in
  let s := s <| NvicState.cpu ::= fun c => c <| v7m := reset (default 0 initial_msp) |> <| mpu := mpu_reset (model c) |> |> in
  mret (arm_clear_exclusive
    (mk_env s (replicate 14 0 ++ [0xffffffff; Z.land pc (not32 1)]) 0 0 0 0 0 0 (has pc 1) 0
       (mk_Vfp (replicate 32 0) 0 0 [0; 0; 0; 0] 0) 0 m)).

(** ** The fault handlers *)

Section handlers.
Context {M : Type} `{AddressSpace M}.
Implicit Types e : CPUARMState M.

(** [var = pulFaultStackAddress[i]], for each variable with its word. *)
Fixpoint copy_words (l : list (Z * Z)) (e : CPUARMState M) : outcome (cpu_result M ()) :=
  match l with
  | [] => mret (Returned e tt)
  | (from, to) :: l =>
    r ← cpu_ldl from e;
    match r with
    | Raised e a k => mret (Raised e a k)
    | Returned e v =>
      r ← cpu_stl to v e;
      match r with
      | Raised e a k => mret (Raised e a k)
      | Returned e _ => copy_words l e
      end
    end
  end.

(** It does not return: the state is the one of the infinite loop at its end.
    The registers the compiled code uses are not part of the model. *)
Definition prvGetRegistersFromStack (sy : Symbols) (pulFaultStackAddress : Z) (e : CPUARMState M)
  : outcome (cpu_result M ()) :=
  copy_words (zip ((fun i => u32 (pulFaultStackAddress + 4 * i)) <$> seqZ 0 8) (fault_vars sy)) e.

(** [tst lr, #4; ite eq; mrseq r0, msp; mrsne r0, psp; ldr r1, [r0, #24];
    ldr r2, =prvGetRegistersFromStack; bx r2]. *)
Definition HardFault_Handler (sy : Symbols) (e : CPUARMState M) : outcome (cpu_result M ()) :=
  let t := Z.land (get_reg e 14) 4 in
  let e := e <| NF := t |> <| ZF := t |> in
  let e := set_reg 0 (v7m_mrs e (if ZF e =? 0 then 8 else 9)) e in
  r ← cpu_ldl (u32 (get_reg e 0 + 24)) e;
  match r with
  | Raised e a k => mret (Raised e a k)
  | Returned e v =>
    let e := set_reg 2 (prvGetRegistersFromStack_at sy) (set_reg 1 v e) in
    prvGetRegistersFromStack sy (get_reg e 0) e
  end.

(** [ldr r3, =0xe000ed04; ldr r2, [r3, #0]; uxtb r2, r2], and then an infinite
    loop. *)
Definition Default_Handler (e : CPUARMState M) : outcome (cpu_result M ()) :=
  let e := set_reg 3 0xe000ed04 e in
  r ← cpu_ldl (u32 (get_reg e 3 + 0)) e;
  match r with
  | Raised e a k => mret (Raised e a k)
  | Returned e v =>
    let e := set_reg 2 v e in
    mret (Returned (set_reg 2 (u8 (get_reg e 2)) e) tt)
  end.
End handlers.

(** ** The table in memory *)

(** The linker's addresses are words. *)
Definition symbols_ok (sy : Symbols) : Prop := Forall is_u32 (isr_vector sy).

(** The CPU finds the table at address 0. *)
Definition holds_table (sy : Symbols) (b : BoardMem) : Prop :=
  ∀ i, 0 ≤ i < 241 → board_word b (4 * i) = aget 0 (isr_vector sy) i.

Lemma boot_alias a : 0 ≤ a < 964 → a mod 4 = 0 → ram_word a = Some (PFLASH 0, a, true).
Proof.
  intros Ha Hm. unfold ram_word. rewrite decode_table by lia. unfold memory_table.
  change (aget 0 [SRAM_0_BA; SRAM_1_BA; SRAM_2_BA] (Z.of_nat 0)) with SRAM_0_BA.
  cbn -[Z.add Z.ltb Z.leb Z.modulo]. unfold ITCM_SIZE.
  assert ((0 <=? a) && (a <? 0 + 65536) = true) as -> by lia.
  cbn [memory_region_is_ram andb]. by rewrite Hm, Z.sub_0_r.
Qed.

Lemma table_u32 sy i : symbols_ok sy → is_u32 (aget 0 (isr_vector sy) i).
Proof.
  intros Hs. unfold aget. destruct (i <? 0); [done|]. destruct (isr_vector sy !! Z.to_nat i) eqn:E; [|done].
  by eapply Forall_lookup_1 in Hs.
Qed.

Lemma image_table sy rest m : symbols_ok sy → holds_table sy (mk_board m (image sy rest)).
Proof.
  intros Hs i Hi. unfold board_word. rewrite boot_alias by euclid.
  apply ldn4_bytes; [by apply table_u32|]. intros k Hk. cbn [ram_block]. unfold image.
  rewrite decide_True by done. assert (((0 <=? 4 * i + k) && (4 * i + k <? 964)) = true) as -> by lia.
  replace ((4 * i + k) / 4) with i by euclid. replace ((4 * i + k) mod 4) with k by euclid. done.
Qed.

Lemma table_readable i : 0 ≤ i < 241 → board_readable (4 * i).
Proof. intros Hi. unfold board_readable. by rewrite boot_alias by euclid. Qed.

Lemma table_not_writable i : 0 ≤ i < 241 → ¬ board_writable (4 * i).
Proof. intros Hi (r & off & H). by rewrite boot_alias in H by euclid. Qed.

(** ** Stores leave the table alone *)

(** The state a call ends in. *)
Definition ends_in {M A} (r : cpu_result M A) : CPUARMState M :=
  match r with Returned e _ => e | Raised e _ _ => e end.

(** Only read-only addresses lead to the program flash. *)
Lemma writable_not_flash a r off : decode 0 a = Some (r, off, false) → r ≠ PFLASH 0.
Proof.
  rewrite decode_table by lia. unfold memory_table.
  change (aget 0 [SRAM_0_BA; SRAM_1_BA; SRAM_2_BA] (Z.of_nat 0)) with SRAM_0_BA.
  cbn -[Z.add Z.ltb Z.leb Z.modulo].
  repeat match goal with
  | |- (if ?c then _ else _) = _ → _ => destruct c
  end; intros H ->; discriminate H.
Qed.

Definition flash (b : BoardMem) : Z → Z := ram_block b (PFLASH 0).

Lemma flash_table sy b b' : flash b' = flash b → holds_table sy b → holds_table sy b'.
Proof.
  unfold flash. intros Hf Ht i Hi. rewrite <- (Ht i Hi). unfold board_word. rewrite boot_alias by euclid. by rewrite Hf.
Qed.

Lemma dispatch_write_flash n a v attrs sb sb' ok : dispatch_write n a v attrs sb = Ok (sb', ok) → flash sb'.2 = flash sb.2.
Proof.
  unfold dispatch_write. destruct (io_write n a v attrs (with_nvic sb)) as [[m| |]|]; [| | |discriminate];
    rewrite bind_Ok; intros [= <- _]; reflexivity.
Qed.

Lemma ram_store_flash (b : BoardMem) r (f : Z → Z) : r ≠ PFLASH 0 →
  flash (b <| ram_block ::= fun g r' => if decide (r' = r) then f else g r' |>) = flash b.
Proof.
  intros Hr. unfold flash. change (ram_block (b <| ram_block ::= ?h |>)) with (h (ram_block b)). cbv beta.
  by rewrite decide_False by congruence.
Qed.

Lemma board_stl_flash a v attrs sb sb' ok : board_stl a v attrs sb = Ok (sb', ok) → flash sb'.2 = flash sb.2.
Proof.
  unfold board_stl. destruct (decode 0 a) as [[[r off] ro]|] eqn:E; [|by intros [= <- _]].
  destruct (memory_access_is_direct r ro true && in_section 4 a r off) eqn:Hd; [|apply dispatch_write_flash].
  apply andb_true_iff in Hd as [Hd _]. unfold memory_access_is_direct in Hd.
  destruct (memory_region_is_ram r); [|discriminate Hd]. destruct ro; [discriminate Hd|].
  intros [= <- _]. exact (ram_store_flash sb.2 r _ (writable_not_flash a r off E)).
Qed.

Lemma board_tlb_store_flash n a v attrs sb sb' ok : board_tlb_store n a v attrs sb = Ok (sb', ok) → flash sb'.2 = flash sb.2.
Proof.
  unfold board_tlb_store. destruct (decode 0 a) as [[[r off] ro]|] eqn:E; [|by intros [= <- _]].
  destruct (memory_region_is_ram r); [|apply dispatch_write_flash].
  destruct ro; [by intros [= <- _]|]. intros [= <- _]. exact (ram_store_flash sb.2 r _ (writable_not_flash a r off E)).
Qed.

Lemma st_pieces_flash fuel v a phys size attrs (e : CPUARMState BoardMem) r :
  st_pieces fuel v a phys size attrs e = Ok r → flash (mem (ends_in r)) = flash (mem e).
Proof.
  revert v a phys size e. induction fuel as [|fuel IH]; intros v a phys size e; [discriminate|]. cbn [st_pieces].
  unfold env_tlb_store.
  destruct (tlb_store (piece_size size a) phys v attrs (env_nvic e, mem e)) as [[[s b] ok]|] eqn:E; [|discriminate].
  rewrite !bind_Ok. apply board_tlb_store_flash in E. cbn [snd] in E. destruct ok.
  - destruct (size =? piece_size size a); [intros [= <-]; exact E|]. intros Hr%IH. by rewrite Hr.
  - intros [= <-]. exact E.
Qed.

Lemma st_pages_flash pages v (e : CPUARMState BoardMem) r :
  st_pages pages v e = Ok r → flash (mem (ends_in r)) = flash (mem e).
Proof.
  revert v e. induction pages as [|p pages IH]; intros v e; [by intros [= <-]|]. cbn [st_pages].
  destruct (st_pieces _ _ _ _ _ _ _) as [x|] eqn:E; [|discriminate]. apply st_pieces_flash in E. rewrite bind_Ok.
  destruct x as [e' w|e' b k]; cbn [ends_in] in E; [intros Hr%IH; by rewrite Hr|by intros [= <-]].
Qed.

Lemma cpu_stl_flash a v (e : CPUARMState BoardMem) r : cpu_stl a v e = Ok r → flash (mem (ends_in r)) = flash (mem e).
Proof.
  unfold cpu_stl, do_st4_mmu. destruct (arm_mmu_idx e) as [idx|]; [|discriminate]. rewrite bind_Ok.
  destruct (mmu_lookup _ _ _ _ _) as [[pages|[b k]]|]; [| |discriminate]; rewrite bind_Ok;
    [apply st_pages_flash|by intros [= <-]].
Qed.

(** ** Reset and dispatch *)

Lemma demo_reset_state sy m s : holds_table sy m → v7m_core s →
  ∃ e, arm_cpu_reset_hold s m = Ok e ∧ mem e = m ∧
    get_reg e 13 = _estack ∧ get_reg e 15 = Z.land (Reset_Handler_at sy) 0xfffffffe ∧
    thumb e = has (Reset_Handler_at sy) 1 ∧ get_reg e 14 = 0xffffffff ∧
    exception (env_v7m e) = 0 ∧ privileged_now (env_v7m e) = true ∧ vecbase (env_v7m e) = mk_banked 0 0.
Proof.
  intros Ht Hc. unfold arm_cpu_reset_hold. cbv zeta.
  assert (secure_state (arm_cpu_reset_v7m (model_of s) 0 0 0) = false) as -> by exact (core_sec s Hc).
  change (bget (vecbase (arm_cpu_reset_v7m (model_of s) 0 0 0)) false) with (4 * 0).
  change (u32 (4 * 0 + 4)) with (4 * 1).
  rewrite (ldl_word (M := BoardMem) (4 * 0)) by by apply table_readable.
  rewrite bind_Ok. rewrite (ldl_word (M := BoardMem) (4 * 1)) by by apply table_readable.
  rewrite bind_Ok.
  change (word_at m) with (board_word m). rewrite (Ht 0), (Ht 1) by lia.
  eexists. split; [reflexivity|]. split_and!; reflexivity.
Qed.

(** A board CPU that can take an exception of the demo's table. *)
Record demo_ready (L : bool) (sy : Symbols) (e : CPUARMState BoardMem) : Prop := {
  dr_wf : cpu_wf e;
  dr_inv : nvic_inv L (env_nvic e);
  dr_take : armv7m_nvic_can_take_pending_exception (env_nvic e) = true;
  dr_fp : no_fp e;
  dr_frame : frame_storable e;
  dr_vecbase : ns (vecbase (env_v7m e)) = 0;
  dr_number : vectpending (env_nvic e) < 241;
  dr_table : holds_table sy (mem e)
}.

Lemma dispatch_entry L sy e : demo_ready L sy e →
  let n := vectpending (env_nvic e) in
  ∃ e', take_exception e = Ok e' ∧ entry_effect L e e' ∧ 1 < n ∧
    get_reg e' 15 = Z.land (aget 0 (isr_vector sy) n) 0xfffffffe ∧
    thumb e' = has (aget 0 (isr_vector sy) n) 1 ∧ holds_table sy (mem e').
Proof.
  intros [Hw Hi Ht Hfp Hst Hvb Hn Htab] n.
  assert (1 < n) as Hn1 by (destruct (can_take_offered L (env_nvic e) Hi Ht) as (_ & _ & _ & _ & Hr & _); exact Hr).
  assert (vector_addr (env_nvic e) = 4 * n) as Hva.
  { unfold vector_addr. change (v7m_of (env_nvic e)) with (env_v7m e). rewrite Hvb.
    rewrite wrap_small; [unfold n; lia|]. unfold n in *. split; [lia|]. change (2 ^ 32) with 4294967296. lia. }
  assert (readable (WordMemory := board_words) (vector_addr (env_nvic e))) as Hr
    by (rewrite Hva; apply table_readable; unfold n in *; lia).
  destruct (take_exception_effect L e Hw Hi Ht Hfp Hst Hr) as (e' & He & Hee).
  assert (holds_table sy (mem e')) as Htab'.
  { intros i Hi'. rewrite <- (Htab i Hi'). apply (ee_memory L e e' Hee); [by apply table_readable|].
    intros Hin. eapply Forall_forall in Hst; [|exact Hin]. by apply (table_not_writable i Hi'), Hst. }
  exists e'. split_and!; [done|done|done| | |done].
  - rewrite (ee_pc L e e' Hee), Hva. change (word_at (mem e')) with (board_word (mem e')). by rewrite Htab' by (unfold n in *; lia).
  - rewrite (ee_thumb L e e' Hee), Hva. change (word_at (mem e')) with (board_word (mem e')). by rewrite Htab' by (unfold n in *; lia).
Qed.

(** C15.  The demo's vector table is the board's.  With the image in flash, the
    CPU reset starts Reset_Handler in privileged Thread mode with the stack at the
    end of SRAM, and the table at address 0.  No store changes the table: neither
    a store instruction, at any address and with whatever it reaches and however
    it ends, nor a store of any size the CPU makes through the TLB, nor one of
    exception entry.  In any state with the table there and VTOR at 0, taking
    exception n of the table (its frame storable and no floating-point context)
    jumps to the function in its n-th entry and leaves the table as it is: the
    interrupt numbers the board gives the UART and the CAN controllers lead to
    Uart_Handler, CAN0_Handler and CAN1_Handler, and the tick to
    xPortSysTickHandler. *)
Theorem demo_dispatch L sy rest m s e :
  symbols_ok sy → v7m_core s → demo_ready L sy e →
  (∃ e0, arm_cpu_reset_hold s (mk_board m (image sy rest)) = Ok e0 ∧ holds_table sy (mem e0) ∧
     get_reg e0 13 = _estack ∧ get_reg e0 15 = Z.land (Reset_Handler_at sy) 0xfffffffe ∧
     thumb e0 = has (Reset_Handler_at sy) 1 ∧ exception (env_v7m e0) = 0 ∧
     privileged_now (env_v7m e0) = true ∧ ns (vecbase (env_v7m e0)) = 0) ∧
  (∀ a v (e : CPUARMState BoardMem) r, cpu_stl a v e = Ok r → holds_table sy (mem e) → holds_table sy (mem (ends_in r))) ∧
  (∀ n a v attrs s b s' b' ok, tlb_store n a v attrs (s, b) = Ok (s', b', ok) → holds_table sy b → holds_table sy b') ∧
  (∀ a v attrs s b s' b' ok, address_space_stl_le a v attrs (s, b) = Ok (s', b', ok) → holds_table sy b → holds_table sy b') ∧
  (∃ e', arm_v7m_cpu_exec_interrupt true e = Ok (e', true) ∧
     let n := vectpending (env_nvic e) in
     exception (env_v7m e') = n ∧ get_reg e' 15 = Z.land (aget 0 (isr_vector sy) n) 0xfffffffe ∧
     thumb e' = has (aget 0 (isr_vector sy) n) 1 ∧ holds_table sy (mem e')) ∧
  aget 0 (isr_vector sy) (NVIC_FIRST_IRQ + UART0_IRQn) = Uart_Handler_at sy ∧
  aget 0 (isr_vector sy) (NVIC_FIRST_IRQ + CAN0_IRQn) = CAN0_Handler_at sy ∧
  aget 0 (isr_vector sy) (NVIC_FIRST_IRQ + CAN1_IRQn) = CAN1_Handler_at sy ∧
  aget 0 (isr_vector sy) ARMV7M_EXCP_SYSTICK = xPortSysTickHandler_at sy.
Proof.
  intros Hsy Hc Hr. split_and!; try reflexivity.
  - destruct (demo_reset_state sy (mk_board m (image sy rest)) s) as (e0 & H0 & Hm & H13 & H15 & Ht & _ & Hx & Hp & Hv);
      [by apply image_table|done|].
    exists e0. rewrite Hm, Hv. split_and!; [exact H0|by apply image_table|exact H13|exact H15|exact Ht|exact Hx|exact Hp|reflexivity].
  - intros a v e0 r Hst. exact (flash_table sy (mem e0) _ (cpu_stl_flash a v e0 r Hst)).
  - intros n a v attrs s0 b s' b' ok Hst. exact (flash_table sy b b' (board_tlb_store_flash n a v attrs (s0, b) (s', b') ok Hst)).
  - intros a v attrs s0 b s' b' ok Hst. exact (flash_table sy b b' (board_stl_flash a v attrs (s0, b) (s', b') ok Hst)).
  - destruct (dispatch_entry L sy e Hr) as (e' & He & Hee & _ & Hpc & Hth & Htab).
    exists e'. unfold arm_v7m_cpu_exec_interrupt. rewrite (dr_take L sy e Hr), He.
    split; [reflexivity|]. cbv zeta. split_and!; [apply (ee_exception L e e' Hee)|exact Hpc|exact Hth|exact Htab].
Qed.

(** ** The HardFault handler *)

Lemma mpu_allows_part s s' idx a t : mpu (NvicState.cpu s') = mpu (NvicState.cpu s) →
  model_of s' = model_of s → mpu_ctrl (v7m_of s') = mpu_ctrl (v7m_of s) →
  mpu_allows s' idx a t = mpu_allows s idx a t.
Proof.
  intros H1 H2 H3. unfold mpu_allows, mpu_off, deciding_region, region_allows, regions_down.
  by rewrite H1, H2, H3.
Qed.

Section words.
Context {M : Type} `{WordMemory M}.
Implicit Types e : CPUARMState M.

Lemma cpu_ldl_word a e : v7m_core (env_nvic e) → mpu_wf (mpu (NvicState.cpu (env_nvic e))) → Z.land a 3 = 0 →
  may_load (env_nvic e) (run_idx e) a → cpu_ldl a e = Ok (Returned e (word_at (mem e) a)).
Proof.
  intros Hc Hw Hal [Ha Hp]. rewrite cpu_ldl_aligned by (done || by apply readable_u32). unfold env_tlb_load.
  rewrite load_word by (done || by apply aligned_mod). rewrite !bind_Ok. by destruct e.
Qed.

Lemma cpu_stl_word a v e : v7m_core (env_nvic e) → mpu_wf (mpu (NvicState.cpu (env_nvic e))) → Z.land a 3 = 0 →
  may_store (env_nvic e) (run_idx e) a → is_u32 v →
  cpu_stl a v e = Ok (Returned (e <| mem ::= put_word a v |>) tt).
Proof.
  intros Hc Hw Hal [Ha Hp] Hv. rewrite cpu_stl_aligned by (done || by apply readable_u32, writable_readable).
  unfold env_tlb_store. rewrite store_word by (done || by apply aligned_mod). by rewrite !bind_Ok, env_mem_id.
Qed.

(** The words are copied one after the other. *)
Definition copied (l : list (Z * Z)) (m : M) : M := foldl (fun m w => put_word w.2 (word_at m w.1) m) m l.

Lemma copy_words_copied l e : v7m_core (env_nvic e) → mpu_wf (mpu (NvicState.cpu (env_nvic e))) →
  Forall (fun w => (Z.land w.1 3 = 0 ∧ may_load (env_nvic e) (run_idx e) w.1) ∧
                   Z.land w.2 3 = 0 ∧ may_store (env_nvic e) (run_idx e) w.2) l →
  copy_words l e = Ok (Returned (e <| mem := copied l (mem e) |>) tt).
Proof.
  intros Hc Hw. revert e Hc Hw. induction l as [|[a b] l IH]; intros e Hc Hw Hl; [by destruct e|].
  apply Forall_cons in Hl as [[[Ha1 Ha2] [Hb1 Hb2]] Hl']. cbn [copy_words fst snd] in *.
  rewrite cpu_ldl_word, bind_Ok by done. rewrite cpu_stl_word, bind_Ok by (done || apply word_u32, Ha2).
  change (copied ((a, b) :: l) (mem e)) with (copied l (put_word b (word_at (mem e) a) (mem e))).
  rewrite (IH (e <| mem ::= put_word b (word_at (mem e) a) |>)) by done. by destruct e.
Qed.

(** When the destinations are distinct and none is a source, each destination
    has the word of its source. *)
Lemma copied_other l m a : Forall (fun w => readable w.1 ∧ writable w.2 ∧ w.2 ≠ a) l → readable a →
  word_at (copied l m) a = word_at m a.
Proof.
  revert m. induction l as [|[x y] l IH]; intros m Hl Ha; [done|].
  apply Forall_cons in Hl as [(Hx & Hy & Hne) Hl']. cbn [fst snd] in *.
  change (copied ((x, y) :: l) m) with (copied l (put_word y (word_at m x) m)).
  rewrite IH, word_put by (done || by apply word_u32). by destruct (Z.eqb_spec y a).
Qed.

Lemma copied_words l m : NoDup l.*2 → (∀ a, a ∈ l.*1 → a ∉ l.*2) →
  Forall (fun w => readable w.1 ∧ writable w.2) l →
  word_at (copied l m) <$> l.*2 = word_at m <$> l.*1.
Proof.
  revert m. induction l as [|[x y] l IH]; intros m Hnd Hdis Hl; [done|].
  apply Forall_cons in Hl as [(Hx & Hy) Hl']. cbn [fmap list_fmap fst snd] in *.
  apply NoDup_cons in Hnd as [Hni Hnd].
  change (copied ((x, y) :: l) m) with (copied l (put_word y (word_at m x) m)). f_equal.
  - rewrite copied_other.
    + rewrite word_put by (done || by apply word_u32 || by apply writable_readable). by rewrite Z.eqb_refl.
    + apply Forall_forall. intros [p q] Hin. eapply Forall_forall in Hl' as [Hp Hq]; [|exact Hin].
      split_and!; [done..|]. cbn. intros ->. apply Hni, list_elem_of_fmap. by exists (p, y).
    + by apply writable_readable.
  - rewrite IH; [|done| |done].
    + apply list_fmap_ext. intros i a Hi. apply list_elem_of_lookup_2 in Hi as Hin.
      assert (readable a) as Hra.
      { apply list_elem_of_fmap in Hin as ([p q] & -> & Hin). eapply Forall_forall in Hl' as [Hp _]; [|exact Hin]. done. }
      rewrite word_put by (done || by apply word_u32). destruct (Z.eqb_spec y a) as [->|]; [|done].
      exfalso. apply (Hdis a); by constructor.
    + intros a Ha Ha'. apply (Hdis a); by constructor.
Qed.
End words.

(** The regime of the HardFault handler: privileged, at negative priority. *)
Definition hard_idx : Z := arm_v7m_mmu_idx_all false true true.

(** The handler's memory: the frame can be read, and the variables are eight
    words that can be written and are not in the frame. *)
Record fault_memory (sy : Symbols) (e : CPUARMState BoardMem) : Prop := {
  fm_frame : Forall (may_load (env_nvic e) hard_idx) (frame_words (entry_frame (env_v7m e)));
  fm_length : length (fault_vars sy) = 8%nat;
  fm_nodup : NoDup (fault_vars sy);
  fm_vars : Forall (may_store (env_nvic e) hard_idx) (fault_vars sy);
  fm_disjoint : ∀ a, a ∈ frame_words (entry_frame (env_v7m e)) → a ∉ fault_vars sy
}.

Lemma board_aligned a : board_readable a → Z.land a 3 = 0.
Proof.
  intros (r & off & ro & E)%readable_some. destruct (ram_word_range a r off ro E) as (_ & Hm & _).
  change 3 with (Z.ones 2). rewrite Z.land_ones by done. exact Hm.
Qed.

Section hard.
Context (L : bool) (sy : Symbols) (e e1 : CPUARMState BoardMem).
Context (Hr : demo_ready L sy e) (Hm : mode_wf e) (He1 : entry_effect L e e1).
Context (Hhard : vectpending (env_nvic e) = ARMV7M_EXCP_HARD).

Lemma hard_core : v7m_core (env_nvic e1).
Proof.
  destruct (cw_core e (dr_wf _ _ _ Hr)) as [H1 H2 H3 H4 H5 H6]. split; rewrite ?(ee_model _ _ _ He1); try done.
  pose proof (f_equal secure_state (ee_system _ _ _ He1)) as Hs. etrans; [exact Hs|exact H6].
Qed.

Lemma hard_mpu : mpu_wf (mpu (NvicState.cpu (env_nvic e1))).
Proof. rewrite (ee_mpu _ _ _ He1). apply (cw_mpu e (dr_wf _ _ _ Hr)). Qed.

Lemma hard_active : active (vec (env_nvic e1) ARMV7M_EXCP_HARD) = true.
Proof.
  change (vec (env_nvic e1) ARMV7M_EXCP_HARD) with (entry_vec (env_nvic e1) (ARMV7M_EXCP_HARD, false)).
  rewrite (ee_vectors _ _ _ He1).
  destruct (nwf_no_security _ (proj1 (proj1 (dr_inv _ _ _ Hr))) (core_sec _ (cw_core e (dr_wf _ _ _ Hr)))) as [_ Hnb].
  rewrite decide_True; [reflexivity|]. unfold offered. by rewrite Hnb, Hhard.
Qed.

Lemma hard_run_idx : run_idx e1 = hard_idx.
Proof.
  unfold run_idx, core_idx, hard_idx, neg_prio, privileged_now, arm_v7m_is_handler_mode.
  rewrite hard_active, (ee_exception _ _ _ He1), Hhard. by destruct (truth _).
Qed.

Lemma hard_allows a t : mpu_allows (env_nvic e1) (run_idx e1) a t = mpu_allows (env_nvic e) hard_idx a t.
Proof.
  rewrite hard_run_idx. apply mpu_allows_part; [apply (ee_mpu _ _ _ He1)|apply (ee_model _ _ _ He1)|].
  exact (f_equal mpu_ctrl (ee_system _ _ _ He1)).
Qed.

(** MRS of the stack pointer the interrupted code used, in the handler. *)
Lemma hard_frame : v7m_mrs e1 (if v7m_using_psp (env_v7m e) then 9 else 8) = entry_frame (env_v7m e).
Proof.
  pose proof (core_ns _ hard_core) as Hns. pose proof (core_sec _ hard_core) as Hsec.
  change (v7m_of (env_nvic e1)) with (env_v7m e1) in Hns. change (model_of (env_nvic e1)) with (env_model e1) in Hsec.
  pose proof (ee_exception _ _ _ He1) as Hx. rewrite Hhard in Hx.
  assert (v7m_using_psp (env_v7m e1) = false) as Hu by (unfold v7m_using_psp, arm_v7m_is_handler_mode; by rewrite Hx).
  assert (arm_current_el (env_v7m e1) = 1) as Hel by (unfold arm_current_el, arm_v7m_is_handler_mode; by rewrite Hx).
  pose proof (ee_banks _ _ _ He1 (v7m_using_psp (env_v7m e))) as Hb. rewrite eqb_reflx in Hb.
  rewrite <- Hb, bank_sp_eq, Hns, Hu. unfold v7m_mrs. cbv zeta. rewrite Hel, Hsec. unfold mrs_common. rewrite Hu.
  by destruct (v7m_using_psp (env_v7m e)).
Qed.

Lemma hard_lr : (Z.land (get_reg e1 14) 4 =? 0) = negb (v7m_using_psp (env_v7m e)).
Proof.
  rewrite (ee_lr _ _ _ He1), entry_lr_cases; [|apply (dr_wf _ _ _ Hr)|apply (dr_fp _ _ _ Hr)|exact Hm].
  unfold v7m_using_psp, arm_v7m_is_handler_mode. rewrite (wf_secure e (dr_wf _ _ _ Hr)).
  change (has (bget (NvicState.control (env_v7m e)) false) (field_mask CONTROL_SPSEL)) with (has (ns (NvicState.control (env_v7m e))) 2).
  by destruct (exception (env_v7m e) =? 0), (has (ns (NvicState.control (env_v7m e))) 2).
Qed.
End hard.

Lemma get_set_reg {M} r v (e : CPUARMState M) r' : alen (regs e) = 16 → 0 ≤ r < 13 → 0 ≤ r' < 13 →
  get_reg (set_reg r v e) r' = if r =? r' then v else get_reg e r'.
Proof.
  intros Hlen Hr Hr'. unfold set_reg, get_reg. destruct (Z.eqb_spec r 13); [lia|]. destruct (Z.eqb_spec r' 13); [lia|].
  change (regs (e <| regs ::= ?f |>)) with (f (regs e)). cbv beta.
  destruct (Z.eqb_spec r r') as [<-|]; [apply aget_aset_eq; lia|by apply aget_aset_ne].
Qed.

Lemma set_reg_len {M} r v (e : CPUARMState M) : r ≠ 13 → alen (regs (set_reg r v e)) = alen (regs e).
Proof. intros Hr. unfold set_reg. destruct (Z.eqb_spec r 13); [done|]. apply alen_aset. Qed.

Lemma mrs_flags {M} (e : CPUARMState M) x y r : 7 < r → v7m_mrs (e <| NF := x |> <| ZF := y |>) r = v7m_mrs e r.
Proof. intros Hr. unfold v7m_mrs. cbv zeta. destruct (Z.leb_spec r 7); [lia|]. by rewrite !andb_false_r. Qed.

Section hard_runs.
Context (L : bool) (sy : Symbols) (e e1 : CPUARMState BoardMem).
Context (Hr : demo_ready L sy e) (Hm : mode_wf e) (He1 : entry_effect L e e1).
Context (Hhard : vectpending (env_nvic e) = ARMV7M_EXCP_HARD) (Hfm : fault_memory sy e).

Let fp := entry_frame (env_v7m e).

(** The words of the frame with the variables they go to. *)
Definition fault_copies : list (Z * Z) := zip (frame_words fp) (fault_vars sy).

Lemma hard_load (e' : CPUARMState BoardMem) a : env_nvic e' = env_nvic e1 → may_load (env_nvic e) hard_idx a →
  Z.land a 3 = 0 ∧ may_load (env_nvic e') (run_idx e') a.
Proof.
  intros Hn [Ha Hp]. split; [by apply board_aligned|]. split; [done|].
  unfold run_idx, env_v7m. rewrite Hn. etrans; [exact (hard_allows L sy e e1 Hr He1 Hhard a MMU_DATA_LOAD)|done].
Qed.

Lemma hard_store (e' : CPUARMState BoardMem) a : env_nvic e' = env_nvic e1 → may_store (env_nvic e) hard_idx a →
  Z.land a 3 = 0 ∧ may_store (env_nvic e') (run_idx e') a.
Proof.
  intros Hn [Ha Hp]. split; [by apply board_aligned, writable_some|]. split; [done|].
  unfold run_idx, env_v7m. rewrite Hn. etrans; [exact (hard_allows L sy e e1 Hr He1 Hhard a MMU_DATA_STORE)|done].
Qed.

Lemma fault_copies_sides : fault_copies.*1 = frame_words fp ∧ fault_copies.*2 = fault_vars sy.
Proof.
  pose proof (fm_length sy e Hfm). unfold fault_copies. split.
  - apply fst_zip. rewrite H. reflexivity.
  - apply snd_zip. rewrite H. reflexivity.
Qed.

Lemma fault_copies_ok (e' : CPUARMState BoardMem) : env_nvic e' = env_nvic e1 →
  Forall (fun w => (Z.land w.1 3 = 0 ∧ may_load (env_nvic e') (run_idx e') w.1) ∧
                   Z.land w.2 3 = 0 ∧ may_store (env_nvic e') (run_idx e') w.2) fault_copies.
Proof.
  intros Hn. destruct fault_copies_sides as [H1 H2]. apply Forall_forall. intros w Hw. split.
  - apply hard_load; [done|]. apply (proj1 (Forall_forall _ _) (fm_frame sy e Hfm)). fold fp. rewrite <- H1.
    by apply list_elem_of_fmap_2.
  - apply hard_store; [done|]. apply (proj1 (Forall_forall _ _) (fm_vars sy e Hfm)). rewrite <- H2.
    by apply list_elem_of_fmap_2.
Qed.

(** The variables get the frame, which holds the registers. *)
Lemma fault_copies_values m : m = mem e1 → word_at (copied fault_copies m) <$> fault_vars sy = frame_values e.
Proof.
  intros ->. destruct fault_copies_sides as [H1 H2]. rewrite <- (ee_frame _ _ _ He1). fold fp. rewrite <- H1, <- H2 at 1.
  apply copied_words.
  - rewrite H2. apply (fm_nodup sy e Hfm).
  - intros a. rewrite H1, H2. apply (fm_disjoint sy e Hfm).
  - eapply Forall_impl; [apply (fault_copies_ok e1 eq_refl)|]. intros w [[_ [Hw1 _]] [_ [Hw2 _]]]. by split.
Qed.

Lemma hard_fault_runs :
  ∃ e3, HardFault_Handler sy e1 = Ok (Returned e3 tt) ∧ env_nvic e3 = env_nvic e1 ∧
    mem e3 = copied fault_copies (mem e1).
Proof.
  pose proof (hard_core L sy e e1 Hr He1) as Hc. pose proof (hard_mpu L sy e e1 Hr He1) as Hmp.
  assert (alen (regs e1) = 16) as Hlen by (rewrite (ee_len _ _ _ He1); apply (cw_len e (dr_wf _ _ _ Hr))).
  unfold HardFault_Handler. cbv zeta.
  set (ea := e1 <| NF := _ |> <| ZF := _ |>).
  change (ZF ea) with (Z.land (get_reg e1 14) 4). rewrite (hard_lr L sy e e1 Hr Hm He1).
  assert (v7m_mrs ea (if negb (v7m_using_psp (env_v7m e)) then 8 else 9) = fp) as ->.
  { unfold ea. rewrite mrs_flags by (by destruct (v7m_using_psp _)).
    unfold fp. rewrite <- (hard_frame L sy e e1 Hr He1 Hhard). by destruct (v7m_using_psp _). }
  assert (env_nvic ea = env_nvic e1 ∧ mem ea = mem e1 ∧ regs ea = regs e1) as (Na & Ma & Ra) by done.
  clearbody ea. destruct (set_reg_frame 0 fp ea) as [Nb Mb]; [done|].
  assert (alen (regs (set_reg 0 fp ea)) = 16) as Lb by (rewrite set_reg_len by done; by rewrite Ra).
  rewrite get_set_reg by (rewrite ?Ra; done || lia). change (0 =? 0) with true. cbv iota.
  set (eb := set_reg 0 fp ea) in *. rewrite Na in Nb.
  assert (u32 (fp + 24) ∈ frame_words fp) as H6.
  { unfold frame_words. apply list_elem_of_fmap. exists 6. split; [reflexivity|]. apply elem_of_seqZ. lia. }
  destruct (hard_load eb (u32 (fp + 24)) Nb) as [Hal Hld].
  { apply (proj1 (Forall_forall _ _) (fm_frame sy e Hfm)). exact H6. }
  assert (v7m_core (env_nvic eb)) as Hcb by (rewrite Nb; exact Hc).
  assert (mpu_wf (mpu (NvicState.cpu (env_nvic eb)))) as Hmb by (rewrite Nb; exact Hmp).
  rewrite (cpu_ldl_word _ eb Hcb Hmb Hal Hld), bind_Ok.
  set (v := word_at (mem eb) _).
  destruct (set_reg_frame 1 v eb) as [Nc Mc]; [done|]. set (ec := set_reg 1 v eb) in *.
  destruct (set_reg_frame 2 (prvGetRegistersFromStack_at sy) ec) as [Nd Md]; [done|].
  assert (alen (regs ec) = 16) as Lc by (unfold ec; by rewrite set_reg_len).
  assert (get_reg eb 0 = fp) as G0.
  { unfold eb. rewrite get_set_reg by (rewrite ?Ra; done || lia). reflexivity. }
  rewrite !get_set_reg by (done || lia). change (2 =? 0) with false. cbv iota.
  unfold ec at 1. rewrite get_set_reg by (done || lia). change (1 =? 0) with false. cbv iota. rewrite G0.
  set (ed := set_reg 2 _ ec) in *. unfold prvGetRegistersFromStack. fold (frame_words fp). fold fault_copies.
  rewrite copy_words_copied; [| | |apply fault_copies_ok]; rewrite ?Nd, ?Nc, ?Nb; try done.
  eexists. split; [reflexivity|]. split; [change (env_nvic ed = env_nvic e1); by rewrite Nd, Nc, Nb|].
  change (copied fault_copies (mem ed) = copied fault_copies (mem e1)). by rewrite Md, Mc, Mb, Ma.
Qed.
End hard_runs.

(** ** The default handler *)

Lemma u8_lor v w : (∀ i, 0 ≤ i < 8 → Z.testbit w i = false) → u8 (Z.lor v w) = u8 v.
Proof.
  intros Hw. apply Z.bits_inj'. intros i Hi. unfold wrap. destruct (Z.ltb_spec i 8) as [Hlt|].
  - rewrite !Z.mod_pow2_bits_low, Z.lor_spec, Hw by lia. apply orb_false_r.
  - by rewrite !Z.mod_pow2_bits_high by lia.
Qed.

Lemma u8_or_bit b k v : 8 ≤ k → u8 (or_bit b k v) = u8 v.
Proof.
  intros Hk. unfold or_bit. destruct b; [|done]. apply u8_lor. intros i Hi.
  rewrite bit_spec by lia. apply Z.eqb_neq. lia.
Qed.

(** The low byte of ICSR is the number of the running exception. *)
Lemma icsr_byte s : v7m_core s → ∃ v, read_icsr s false = Ok v ∧ u8 v = u8 (exception (v7m_of s)).
Proof.
  intros Hc. unfold read_icsr. rewrite (core_v81 s Hc). cbn [negb andb].
  destruct (truth (vectpending s)); eexists; (split; [reflexivity|]); rewrite !u8_or_bit by lia; [|done].
  apply u8_lor. intros i Hi. apply Z.shiftl_spec_low. lia.
Qed.

Lemma board_icsr s b : v7m_core s →
  ∃ b' v, board_tlb_load 4 0xe000ed04 (mk_attrs false false) (s, b) = Ok (s, b', Some v) ∧ u8 v = u8 (exception (v7m_of s)).
Proof.
  intros Hc. destruct (icsr_byte s Hc) as (v & Hv & Hb).
  assert (decode 0 0xe000ed04 = Some (NvicSysregs 0, 0xd04, false)) as E by (vm_compute; reflexivity).
  assert (nvic_sysreg_read s 0xd04 4 (mk_attrs false false) = Ok (Some v)) as Hr.
  { transitivity (v ← read_icsr s false; mret (Some v) : outcome (option Z)); [reflexivity|]. by rewrite Hv. }
  unfold board_tlb_load. rewrite E. cbn [memory_region_is_ram].
  unfold dispatch_read, io_read, with_region. rewrite E.
  change (negb (size_ok 4)) with false. change (negb (0xe000ed04 mod 4 =? 0)) with false. cbv iota.
  unfold read_region. change (nvic (with_nvic (s, b))) with s. rewrite Hr, !bind_Ok.
  do 2 eexists. split; [reflexivity|]. rewrite <- Hb. unfold wrap. change (2 ^ 8) with 256. change (2 ^ (8 * 4)) with 4294967296. euclid.
Qed.

Lemma default_runs (e : CPUARMState BoardMem) :
  v7m_core (env_nvic e) → mpu_wf (mpu (NvicState.cpu (env_nvic e))) → exception (env_v7m e) ≠ 0 →
  alen (regs e) = 16 →
  ∃ e', Default_Handler e = Ok (Returned e' tt) ∧ get_reg e' 2 = u8 (exception (env_v7m e)).
Proof.
  intros Hc Hmp Hx Hlen. unfold Default_Handler. cbv zeta.
  destruct (set_reg_frame 3 0xe000ed04 e) as [Na Ma]; [done|].
  rewrite get_set_reg by (done || lia). change (u32 ((if 3 =? 3 then 0xe000ed04 else get_reg e 3) + 0)) with 0xe000ed04.
  assert (alen (regs (set_reg 3 0xe000ed04 e)) = 16) as La by (by rewrite set_reg_len).
  set (ea := set_reg 3 _ e) in *. rewrite <- Na in Hc, Hmp.
  assert (privileged_now (env_v7m ea) = true) as Hpr.
  { unfold privileged_now, arm_v7m_is_handler_mode, env_v7m. rewrite Na.
    change (v7m_of (env_nvic e)) with (env_v7m e). by rewrite (proj2 (Z.eqb_neq _ _) Hx). }
  assert (run_idx ea = core_idx (env_nvic ea) true) as Hidx by (unfold run_idx; by rewrite Hpr).
  assert (regime_is_user (core_idx (env_nvic ea) true) = false) as Hu
    by (unfold core_idx, arm_v7m_mmu_idx_all; by destruct (neg_prio _)).
  rewrite (cpu_ldl_aligned 0xe000ed04 ea Hc Hmp); [|by split|reflexivity|].
  2: { rewrite Hidx. unfold mpu_allows. change (is_ppb 0xe000ed04) with true. rewrite orb_true_r. cbn [default_allows].
    reflexivity. }
  unfold lookup_attrs. rewrite Hidx, Hu, core_idx_ns. unfold env_tlb_load.
  destruct (board_icsr (env_nvic ea) (mem ea) Hc) as (b' & v & Hv & Hb).
  change (tlb_load 4 0xe000ed04 (mk_attrs false false) (env_nvic ea, mem ea))
    with (board_tlb_load 4 0xe000ed04 (mk_attrs false false) (env_nvic ea, mem ea)).
  rewrite Hv, !bind_Ok. eexists. split; [reflexivity|].
  set (eb := ea <| env_nvic := _ |> <| mem := b' |>).
  assert (alen (regs eb) = 16) as Lb by exact La.
  assert (alen (regs (set_reg 2 v eb)) = 16) as Lc by (rewrite set_reg_len; [exact Lb|lia]).
  rewrite (get_set_reg 2 _ (set_reg 2 v eb) 2 Lc), (get_set_reg 2 v eb 2 Lb) by lia.
  change (2 =? 2) with true. cbv iota. rewrite Hb, Na. reflexivity.
Qed.

(** C31.  The demo's fault handlers.  Take any exception of the table in a state the
    demo can be in.  If it is HardFault and the handler's variables are words of
    their own, HardFault_Handler finds the frame on the stack the interrupted
    code was using, main or process, and leaves r0-r3, r12, lr, pc and the xPSR of
    that code in the variables, in this order.  Default_Handler, whichever
    exception it runs for, leaves the low byte of the exception's number in r2. *)
Theorem demo_fault_handlers L sy e : demo_ready L sy e → mode_wf e →
  ∃ e1, arm_v7m_cpu_exec_interrupt true e = Ok (e1, true) ∧
    (vectpending (env_nvic e) = ARMV7M_EXCP_HARD → fault_memory sy e →
     ∃ e2, HardFault_Handler sy e1 = Ok (Returned e2 tt) ∧ word_at (mem e2) <$> fault_vars sy = frame_values e) ∧
    (∃ e2, Default_Handler e1 = Ok (Returned e2 tt) ∧ get_reg e2 2 = vectpending (env_nvic e) mod 256).
Proof.
  intros Hr Hm. destruct (dispatch_entry L sy e Hr) as (e1 & He & Hee & Hn & _).
  exists e1. unfold arm_v7m_cpu_exec_interrupt. rewrite (dr_take L sy e Hr), He.
  split; [reflexivity|]. split.
  - intros Hhard Hfm. destruct (hard_fault_runs L sy e e1 Hr Hm Hee Hhard Hfm) as (e2 & H2 & _ & Hmem).
    exists e2. split; [exact H2|]. rewrite Hmem. by apply (fault_copies_values L sy e e1 Hr Hee Hhard Hfm).
  - destruct (default_runs e1) as (e2 & H2 & Hv); [apply (hard_core L sy e e1 Hr Hee)|apply (hard_mpu L sy e e1 Hr Hee)| | |].
    + rewrite (ee_exception _ _ _ Hee). lia.
    + rewrite (ee_len _ _ _ Hee). apply (cw_len e (dr_wf _ _ _ Hr)).
    + exists e2. split; [exact H2|]. rewrite Hv, (ee_exception _ _ _ Hee). reflexivity.
Qed.

(** ** The theorems on concrete inputs *)

Lemma list_disjoint_dec (l k : list Z) a :
  forallb (fun x => negb (existsb (Z.eqb x) k)) l = true → a ∈ l → a ∈ k → False.
Proof.
  intros H Ha Hk. rewrite forallb_forall in H. apply list_elem_of_In in Ha, Hk. specialize (H a Ha).
  apply negb_true_iff in H. assert (existsb (Z.eqb a) k = true) as E; [|congruence].
  apply existsb_exists. exists a. split; [done|apply Z.eqb_refl].
Qed.

Definition demo_symbols : Symbols :=
  mk_symbols 0x400401 0x400421 0x400441 0x400461 0x400501 0x400521 0x400541 0x400601 0x400621 0x400641
    ((fun i => 0x20400000 + 4 * i) <$> seqZ 0 8).

Definition demo_env (s : NVICState) (m : Machine) : CPUARMState BoardMem :=
  mk_env s [1; 2; 3; 4; 5; 6; 7; 8; 9; 10; 11; 12; 13; 0; 0x400301; 0x400200]
    0x80000000 1 1 0 0 0 true 0 (mk_Vfp (replicate 32 0) 0 0 [0; 0; 0; 0] 0) 0
    (mk_board m (image demo_symbols (fun _ _ => 0))).

(** The UART's interrupt pending; and a UsageFault, which is not enabled and
    becomes a HardFault. *)
Definition demo_uart : NVICState := set_v7m (fun m => m <| sp := 0x2043fffc |>) nvic_raised.
Definition nvic_fault : NVICState :=
  Eval vm_compute in after (armv7m_nvic_set_pending ARMV7M_EXCP_USAGE false nvic0) nvic0.
Definition demo_fault : NVICState := set_v7m (fun m => m <| sp := 0x2043fffc |>) nvic_fault.

Lemma reach_demo_fault : nvic_reach true demo_fault.
Proof.
  apply (reach_op true true nvic_fault); [|by apply op_cpu].
  apply (reach_op true true nvic0); [apply reach_nvic0|].
  apply (op_pend ARMV7M_EXCP_USAGE false false). vm_compute. reflexivity.
Qed.

Lemma demo_symbols_ok : symbols_ok demo_symbols.
Proof. apply words_wf_dec. vm_compute. reflexivity. Qed.

Ltac by_computation := vm_compute; first [reflexivity|congruence].

Ltac demo_is_ready :=
  split;
  [ split;
    [ split; reflexivity | apply mpu_wf_dec; by_computation | reflexivity
    | apply words_wf_dec; by_computation | split; by_computation | split; by_computation
    | apply flags_wf_dec; by_computation ]
  | | by_computation | reflexivity | apply storable_ok; by_computation | reflexivity | by_computation
  | apply image_table, demo_symbols_ok ].

Lemma demo_uart_ready m : demo_ready true demo_symbols (demo_env demo_uart m).
Proof. demo_is_ready. apply reach_inv, set_sp_reach. Qed.

Lemma demo_fault_ready m : demo_ready true demo_symbols (demo_env demo_fault m).
Proof. demo_is_ready. apply reach_inv, reach_demo_fault. Qed.

Lemma demo_fault_mode m : mode_wf (demo_env demo_fault m).
Proof.
  split; [by intros []|]. intros _ i. apply negb_true_iff, (all_vec (fun v => negb (active v))); by_computation.
Qed.

Lemma demo_fault_memory m : fault_memory demo_symbols (demo_env demo_fault m).
Proof.
  split.
  - apply loadable_ok. by_computation.
  - reflexivity.
  - apply (bool_decide_eq_true_1 (NoDup (fault_vars demo_symbols))). by_computation.
  - apply storable_ok. by_computation.
  - intros a Ha Hv. refine (list_disjoint_dec _ _ a _ Ha Hv). by_computation.
Qed.

Lemma demo_dispatch_witness :
  ∃ m e', machine0 = Some m ∧ arm_v7m_cpu_exec_interrupt true (demo_env demo_uart m) = Ok (e', true) ∧
    get_reg e' 15 = 0x400600 ∧ thumb e' = true.
Proof.
  destruct machine0_some as [m Hm]. exists m.
  destruct (demo_dispatch true demo_symbols (fun _ _ => 0) m nvic0 (demo_env demo_uart m) demo_symbols_ok
    nvic0_core (demo_uart_ready m)) as (_ & _ & _ & _ & (e' & He & _ & Hpc & Hth & _) & _).
  exists e'. split; [exact Hm|]. split; [exact He|]. rewrite Hpc, Hth. split; vm_compute; reflexivity.
Defined.

Lemma demo_fault_handlers_witness :
  ∃ m e1 e2, machine0 = Some m ∧ arm_v7m_cpu_exec_interrupt true (demo_env demo_fault m) = Ok (e1, true) ∧
    HardFault_Handler demo_symbols e1 = Ok (Returned e2 tt) ∧
    word_at (mem e2) <$> fault_vars demo_symbols = [1; 2; 3; 4; 13; 0x400301; 0x400200; 0xa1000200].
Proof.
  destruct machine0_some as [m Hm]. exists m.
  destruct (demo_fault_handlers true demo_symbols (demo_env demo_fault m) (demo_fault_ready m) (demo_fault_mode m))
    as (e1 & He & Hh & _).
  destruct Hh as (e2 & H2 & Hv); [vm_compute; reflexivity|apply demo_fault_memory|].
  exists e1, e2. split; [exact Hm|]. split; [exact He|]. split; [exact H2|]. rewrite Hv. vm_compute. reflexivity.
Defined.
