(* ===== verification/Guest.v ===== *)
(** Guest programs: sequences of loads and stores of device registers, run on
    the machine while the world goes on around them.

    A run is given a script: for each access of the program, in order, what
    happens between that access and the next (time passes, characters arrive on
    the serial line).  A program that polls a register takes as many entries of
    the script as it needs; one that needs more than there are is starved, so
    that a theorem that a program completes says how long a script is enough. *)

From stdpp Require Import gmap.
From S2P Require Import Prelude Irq CanBus CanDev Timer UartDev Wiring NvicState NvicCore NvicRead NvicWrite.
From S2P Require Import NvicPrio NvicInv CortexM NvicSpec NvicIrq NvicRegs NvicLevel Memory Mcu Machine.

(** ** The world *)

Inductive world_event :=
| Elapse (dt : Z)      (* nanoseconds of virtual time *)
| Incoming (ch : Z).   (* a character on the serial line *)

Definition happen (e : world_event) (m : Machine) : outcome Machine :=
  match e with
  | Elapse dt => advance (now m + dt) m
  | Incoming ch => serial_input ch m
  end.

Fixpoint world (es : list world_event) (m : Machine) : outcome Machine :=
  match es with
  | [] => mret m
  | e :: es => m ← happen e m; world es m
  end.

(** ** The monad of guest programs *)

Abbreviation script := (list (list world_event)).

Inductive gres (A : Type) :=
| Done (a : A) (rest : script) (m : Machine)
| Starved
| Faulted
| Crashed (why : abort_reason).
Arguments Done {A} a rest m.
Arguments Starved {A}.
Arguments Faulted {A}.
Arguments Crashed {A} why.

Definition guest_prog (A : Type) := script → Machine → gres A.

#[global] Instance guest_ret : MRet guest_prog := fun A a sc m => Done a sc m.
#[global] Instance guest_bind : MBind guest_prog := fun A B k p sc m =>
  match p sc m with
  | Done a sc m => k a sc m
  | Starved => Starved
  | Faulted => Faulted
  | Crashed why => Crashed why
  end.

(** What is left of an access once the bus has answered. *)
Definition settle {A} (a : A) (es : list world_event) (sc : script) (m : Machine) : gres A :=
  match world es m with
  | Ok m => Done a sc m
  | Abort why => Crashed why
  end.

Definition load (size a : Z) : guest_prog Z := fun sc m =>
  match sc with
  | [] => Starved
  | es :: sc =>
    match io_read size a guest m with
    | Ok (Granted (m, v)) => settle v es sc m
    | Ok _ => Faulted
    | Abort why => Crashed why
    end
  end.

Definition store (size a val : Z) : guest_prog unit := fun sc m =>
  match sc with
  | [] => Starved
  | es :: sc =>
    match io_write size a val guest m with
    | Ok (Granted m) => settle () es sc m
    | Ok _ => Faulted
    | Abort why => Crashed why
    end
  end.

(** [*a |= val]. *)
Definition store_or (size a val : Z) : guest_prog unit :=
  v ← load size a; store size a (Z.lor v val).

(** [while (!body);] where every round makes an access: as many rounds as the
    script has entries are enough to complete or to use it up. *)
Fixpoint until (rounds : nat) (body : guest_prog bool) : guest_prog unit := fun sc m =>
  match rounds with
  | O => Starved
  | S rounds => (b ← body; if (b : bool) then mret () else until rounds body) sc m
  end.

Definition poll (body : guest_prog bool) : guest_prog unit := fun sc m =>
  until (S (length sc)) body sc m.

(** ** Runs that keep the machine's invariant *)

Definition event_ok (e : world_event) : Prop :=
  match e with Elapse dt => 0 ≤ dt | Incoming ch => is_u8 ch end.

Definition event_time (e : world_event) : Z := match e with Elapse dt => dt | Incoming _ => 0 end.

Fixpoint slot_time (es : list world_event) : Z :=
  match es with [] => 0 | e :: es => event_time e + slot_time es end.

Fixpoint script_time (sc : script) : Z :=
  match sc with [] => 0 | es :: sc => slot_time es + script_time sc end.

(** The machine is in a state it can be in, and the clock does not run out. *)
Record board_ok (sc : script) (m : Machine) : Prop := {
  bo_inv : machine_inv m;
  bo_events : Forall (Forall event_ok) sc;
  bo_time : now m + script_time sc < 2 ^ 62
}.

Lemma slot_time_nonneg es : Forall event_ok es → 0 ≤ slot_time es.
Proof.
  induction 1 as [|e es He _ IH]; simpl; [lia|]. destruct e; simpl in *; lia.
Qed.

Lemma script_time_nonneg sc : Forall (Forall event_ok) sc → 0 ≤ script_time sc.
Proof.
  induction 1 as [|es sc He _ IH]; simpl; [lia|].
  pose proof (slot_time_nonneg es He). lia.
Qed.

(** An event of the world as a transition of the UART. *)
Definition event_matches (e : world_event) (u : uart_event) : Prop :=
  match e with Elapse _ => ∃ t, u = EvAdvance t | Incoming ch => u = EvReceive ch end.

(** The events of the world leave the CAN controllers alone, and act on the
    UART as its own transitions do. *)
Lemma world_ok es m :
  machine_inv m → Forall event_ok es → now m + slot_time es < 2 ^ 62 →
  ∃ m' uevs, world es m = Ok m' ∧ machine_inv m' ∧ now m' = now m + slot_time es ∧
    cans m' = cans m ∧ uart_run any_event (now m, uart m) uevs (now m', uart m') ∧
    Forall2 event_matches es uevs.
Proof.
  intros Hm He. revert m Hm. induction He as [|e es He Hes IH]; intros m Hm Ht.
  { exists m, []. split_and!; try done; [simpl; lia|constructor]. }
  pose proof (slot_time_nonneg es Hes) as Hnn. destruct (mi_clock m Hm) as [Hc _].
  cbn [slot_time] in Ht |- *.
  assert (∃ m1 uev, happen e m = Ok m1 ∧ machine_inv m1 ∧ now m1 = now m + event_time e ∧
    cans m1 = cans m ∧ uart_step (now m, uart m) uev (now m1, uart m1) ∧
    event_matches e uev) as (m1 & uev & H1 & Hm1 & Hn1 & Hc1 & Hu1 & Hk).
  { destruct e as [dt|ch]; simpl in *.
    - assert (clock_ok (now m + dt)) as Hok by (split; lia).
      destruct (advance_ok (now m + dt) m Hm) as (m1 & H1 & Hm1 & Hn1 & Hc1 & Hu1); [lia|done|].
      exists m1, (EvAdvance (now m + dt)). split_and!; try done; [|by eexists].
      rewrite Hn1. destruct (uart_run_timers (now m + dt) (uart m)) as [[u p]|] eqn:Hrun; [|done].
      injection Hu1 as ->. econstructor; [lia|done|exact Hrun].
    - destruct (serial_input_ok ch m Hm He) as (m1 & H1 & Hm1 & Hu1 & Hn1 & Hc1).
      exists m1, (EvReceive ch). split_and!; try done; [lia|].
      rewrite Hu1, Hn1. by constructor. }
  destruct (IH m1 Hm1) as (m2 & uevs & H2 & Hm2 & Hn2 & Hc2 & Hu2 & Hk2); [lia|].
  exists m2, (uev :: uevs). simpl. rewrite H1, bind_Ok. split_and!; try done.
  - rewrite Hn2, Hn1. lia.
  - congruence.
  - by eapply run_event.
  - by constructor.
Qed.

(** ** The bus accesses of a driver *)

Definition can_ba (c : nat) : Z := if decide (c = 0%nat) then CAN0_BA else CAN1_BA.

Definition can_regs : list Z := [TFI; TID; TDA; TDB; RFI; RID; RDA; RDB; SR; CMR; IER].
Definition uart_regs : list Z := [RXDATA; TXDATA; STATUS; CONTROL; DIVISOR].

(** A word access of a register goes to its device at the register's offset. *)
Lemma can_region {A} c off (f : region → Z → outcome (access A)) :
  (c < 2)%nat → off ∈ can_regs →
  with_region 4 (can_ba c + off) f = f (if decide (c = 0%nat) then Can0Mmio else Can1Mmio) off.
Proof.
  intros Hc Ho. unfold with_region. rewrite decode_table by lia.
  destruct c as [|[|c]]; [| |lia];
    repeat (apply elem_of_cons in Ho as [->|Ho]; [reflexivity|]); by apply elem_of_nil in Ho.
Qed.

Lemma uart_region {A} off (f : region → Z → outcome (access A)) :
  off ∈ uart_regs → with_region 4 (UART0_BA + off) f = f UartMmio off.
Proof.
  intros Ho. unfold with_region. rewrite decode_table by lia.
  repeat (apply elem_of_cons in Ho as [->|Ho]; [reflexivity|]); by apply elem_of_nil in Ho.
Qed.

(** What one access and the events after it do: the CAN controllers change by
    the access only, the UART also by the events. *)
Record settled (sc : script) (m1 : Machine) (es : list world_event) (m' : Machine) : Prop := {
  st_before : machine_inv m1;
  st_board : board_ok sc m';
  st_cans : cans m' = cans m1;
  st_now : now m' = now m1 + slot_time es;
  st_uart : ∃ uevs, uart_run any_event (now m1, uart m1) uevs (now m', uart m') ∧
    Forall2 event_matches es uevs
}.

Lemma settle_ok {A} (a : A) es sc m m1 :
  board_ok (es :: sc) m → machine_inv m1 → now m1 = now m →
  ∃ m', settle a es sc m1 = Done a sc m' ∧ settled sc m1 es m'.
Proof.
  intros [Hm He Ht] Hm1 Hn. apply Forall_cons in He as [He Hsc]. simpl in Ht.
  pose proof (script_time_nonneg sc Hsc).
  destruct (world_ok es m1 Hm1 He) as (m' & uevs & H1 & Hm' & Hn' & Hc & Hu & Hk); [lia|].
  exists m'. unfold settle. rewrite H1. split; [done|]. split; [done| |done|done|eauto].
  split; [done|done|lia].
Qed.

Lemma load_can c off es sc m s :
  board_ok (es :: sc) m → (c < 2)%nat → off ∈ can_regs → cans m !! c = Some s →
  ∃ m', load 4 (can_ba c + off) (es :: sc) m = Done (can_read s off) sc m' ∧ settled sc m es m'.
Proof.
  intros Hb Hc Ho Hs.
  assert (is_u32 (can_read s off)) as Hr.
  { destruct (mi_cans m (bo_inv _ _ Hb) c s Hs) as [[] _]. unfold can_read.
    repeat case_if; try done; try (by apply (range_weaken 4)). by rewrite wf_cmr. }
  assert (io_read 4 (can_ba c + off) guest m = Ok (Granted (m, can_read s off))) as Hio.
  { unfold io_read. rewrite can_region by done.
    destruct c as [|[|c]]; [| |lia]; unfold read_region; simpl; rewrite Hs; cbv beta iota; by rewrite wrap_small. }
  unfold load. rewrite Hio. by apply settle_ok with (m := m); [|apply Hb|].
Qed.

Lemma store_can c off val es sc m :
  board_ok (es :: sc) m → (c < 2)%nat → off ∈ can_regs →
  ∃ m1 m', store 4 (can_ba c + off) val (es :: sc) m = Done () sc m' ∧ settled sc m1 es m' ∧
    cans m1 = can_write board_net c off (u32 val) (cans m) ∧ uart m1 = uart m ∧ now m1 = now m.
Proof.
  intros Hb Hc Ho. pose proof (bo_inv _ _ Hb) as Hm.
  destruct (can_write_ok c off (u32 val) m (mi_connected m Hm)) as (m1 & H & Hco & Hca & Hu & Hn & Hnow & Hk).
  assert (io_write 4 (can_ba c + off) val guest m = Ok (Granted m1)) as Hio.
  { unfold io_write. rewrite can_region by done. change (wrap (8 * 4) val) with (u32 val).
    destruct c as [|[|c]]; [rewrite decide_True by done|rewrite decide_False by done|lia];
      unfold write_region; by rewrite H. }
  assert (machine_inv m1) as Hm1.
  { apply (inv_set_cans m); try done; rewrite Hca; [apply can_write_extends|apply can_write_wf, Hm]. }
  destruct (settle_ok () es sc m m1 Hb Hm1 Hnow) as (m' & Hs & Hst).
  exists m1, m'. unfold store. rewrite Hio. split_and!; try done. by rewrite Hca, (mi_net m Hm).
Qed.

Lemma load_uart off es sc m :
  board_ok (es :: sc) m → off ∈ uart_regs →
  ∃ m1 m', load 4 (UART0_BA + off) (es :: sc) m = Done (uart_read off (uart m)).2 sc m' ∧
    settled sc m1 es m' ∧ uart m1 = (uart_read off (uart m)).1 ∧ cans m1 = cans m ∧ now m1 = now m.
Proof.
  intros Hb Ho. pose proof (bo_inv _ _ Hb) as Hm. pose proof (mi_uart m Hm) as Hwf.
  assert (is_u32 (uart_read off (uart m)).2) as Hr.
  { destruct Hwf. unfold uart_read. repeat case_if; simpl; try done.
    apply (range_weaken 8); [lia|]. by apply land_range_r. }
  destruct (set_uart_ok (uart_read off (uart m)).1 m (mi_connected m Hm) (Uart.read_extends _ _))
    as (m1 & H & Hco & Hu & Hca & Hn & Hnow & Hk).
  assert (io_read 4 (UART0_BA + off) guest m = Ok (Granted (m1, (uart_read off (uart m)).2))) as Hio.
  { unfold io_read. rewrite uart_region by done. unfold read_region. rewrite H, !bind_Ok.
    cbv beta iota. by rewrite wrap_small. }
  assert (machine_inv m1) as Hm1.
  { apply (inv_set_uart m); try done. by rewrite Hu; apply uart_read_wf. }
  destruct (settle_ok (uart_read off (uart m)).2 es sc m m1 Hb Hm1 Hnow) as (m' & Hs & Hst).
  exists m1, m'. unfold load. rewrite Hio. by split_and!.
Qed.

Lemma store_uart off val es sc m :
  board_ok (es :: sc) m → off ∈ uart_regs → ~ (off = DIVISOR ∧ CLK_FREQ ≤ u32 val) →
  ∃ m1 m', store 4 (UART0_BA + off) val (es :: sc) m = Done () sc m' ∧ settled sc m1 es m' ∧
    uart_write (now m) off (u32 val) (uart m) = Ok (uart m1) ∧ cans m1 = cans m ∧ now m1 = now m.
Proof.
  intros Hb Ho Hd. pose proof (bo_inv _ _ Hb) as Hm. pose proof (mi_uart m Hm) as Hwf.
  destruct (uart_write_ok (now m) off (u32 val) (uart m) Hwf) as [u Hw].
  { by rewrite wrap_wrap. }
  destruct (set_uart_ok u m (mi_connected m Hm) (Uart.write_extends _ _ _ _ _ Hw))
    as (m1 & H & Hco & Hu & Hca & Hn & Hnow & Hk).
  assert (io_write 4 (UART0_BA + off) val guest m = Ok (Granted m1)) as Hio.
  { unfold io_write. rewrite uart_region by done. unfold write_region. change (8 * 4) with 32.
    by rewrite Hw, bind_Ok, H. }
  assert (machine_inv m1) as Hm1.
  { apply (inv_set_uart m); try done. rewrite Hu. by eapply uart_write_wf. }
  destruct (settle_ok () es sc m m1 Hb Hm1 Hnow) as (m' & Hs & Hst).
  exists m1, m'. unfold store. rewrite Hio. split_and!; try done. by rewrite Hu.
Qed.

(** ** Reasoning about guest programs

    The program completes, and what it returns, the rest of the script and the
    machine satisfy the postcondition. *)

Definition wp {A} (p : guest_prog A) (Q : A → script → Machine → Prop) (sc : script) (m : Machine)
  : Prop :=
  match p sc m with Done a sc m => Q a sc m | _ => False end.

Lemma wp_ret {A} (a : A) (Q : A → script → Machine → Prop) sc m : Q a sc m → wp (mret a) Q sc m.
Proof. done. Qed.

Lemma wp_bind {A B} (p : guest_prog A) (k : A → guest_prog B) Q sc m :
  wp p (fun a => wp (k a) Q) sc m → wp (p ≫= k) Q sc m.
Proof. unfold wp, mbind, guest_bind. by destruct (p sc m). Qed.

Lemma wp_mono {A} (p : guest_prog A) (Q R : A → script → Machine → Prop) sc m :
  wp p Q sc m → (∀ a sc' m', Q a sc' m' → R a sc' m') → wp p R sc m.
Proof. unfold wp. destruct (p sc m); naive_solver. Qed.

Lemma wp_done {A} (p : guest_prog A) Q sc m :
  wp p Q sc m → ∃ a sc' m', p sc m = Done a sc' m' ∧ Q a sc' m'.
Proof. unfold wp. destruct (p sc m) as [a sc' m'| | |]; [|done..]. by exists a, sc', m'. Qed.

Lemma wp_done_pair {A B} (p : guest_prog (A * B)) a (R : B → Prop) sc m :
  wp p (fun r _ _ => r.1 = a ∧ R r.2) sc m → ∃ b sc' m', p sc m = Done (a, b) sc' m' ∧ R b.
Proof.
  intros ([a' b] & sc' & m' & H & [<- HR])%wp_done. by exists b, sc', m'.
Qed.

(** What the accesses of a CAN controller's registers do not disturb: a
    property of the rest of the machine that survives the world's events after
    an access that leaves the UART and the clock alone. *)
Class CanFrame (F : script → Machine → Prop) := can_frame es sc m m1 m' :
  board_ok (es :: sc) m → F (es :: sc) m → uart m1 = uart m → now m1 = now m →
  settled sc m1 es m' → F sc m'.

Definition no_frame (_ : script) (_ : Machine) : Prop := True.

#[export] Instance no_frame_can_frame : CanFrame no_frame.
Proof. done. Qed.

(** Two controllers and the rest of the machine, with at least [n] accesses to
    go. *)
Record on_bus (F : script → Machine → Prop) (c p : nat) (s d : CanState) (n : nat) (sc : script) (m : Machine) : Prop := {
  ob_board : board_ok sc m;
  ob_slots : (n ≤ length sc)%nat;
  ob_bus : (c < 2)%nat ∧ (p < 2)%nat ∧ c ≠ p;
  ob_own : cans m !! c = Some s;
  ob_peer : cans m !! p = Some d;
  ob_frame : F sc m
}.

Section CanRules.
Context {F : script → Machine → Prop} `{!CanFrame F}.

Lemma on_bus_swap c p s d n sc m : on_bus F c p s d n sc m → on_bus F p c d s n sc m.
Proof. intros [? ? (? & ? & ?) ? ? ?]. by split. Qed.

Lemma on_bus_weaken c p s d n n' sc m : on_bus F c p s d n sc m → (n' ≤ n)%nat → on_bus F c p s d n' sc m.
Proof. intros [] ?. split; [done|lia|done..]. Qed.

Lemma on_bus_wf c p s d n sc m : on_bus F c p s d n sc m → can_wf s ∧ can_wf d.
Proof. intros [Hb _ _ Hs Hd _]. pose proof (mi_cans m (bo_inv _ _ Hb)) as H. split; by eapply H. Qed.

Lemma wp_load_can c p s d n sc m off Q :
  on_bus F c p s d (S n) sc m → off ∈ can_regs →
  (∀ sc' m', on_bus F c p s d n sc' m' → Q (can_read s off) sc' m') →
  wp (load 4 (can_ba c + off)) Q sc m.
Proof.
  intros [Hb Hn (Hc & Hp & Hne) Hs Hd HF] Ho HQ. destruct sc as [|es sc]; [simpl in Hn; lia|].
  destruct (load_can c off es sc m s Hb Hc Ho Hs) as (m' & H & Hst). unfold wp. rewrite H.
  clear H. pose proof (can_frame es sc m m m' Hb HF eq_refl eq_refl Hst) as HF'. destruct Hst.
  apply HQ. split; [done|simpl in Hn; lia|done|by rewrite st_cans0..|done].
Qed.

(** A store, with what it makes of the two controllers. *)
Lemma wp_store_can c p s d s' d' n sc m off val Q :
  on_bus F c p s d (S n) sc m → off ∈ can_regs →
  (∀ devs, devs !! c = Some s → devs !! p = Some d →
     can_write board_net c off (u32 val) devs !! c = Some s' ∧
     can_write board_net c off (u32 val) devs !! p = Some d') →
  (∀ sc' m', on_bus F c p s' d' n sc' m' → Q () sc' m') →
  wp (store 4 (can_ba c + off) val) Q sc m.
Proof.
  intros [Hb Hn (Hc & Hp & Hne) Hs Hd HF] Ho Hw HQ. destruct sc as [|es sc]; [simpl in Hn; lia|].
  destruct (store_can c off val es sc m Hb Hc Ho) as (m1 & m' & H & Hst & Hca & Hu & Hnow).
  unfold wp. rewrite H. clear H. destruct (Hw (cans m) Hs Hd) as [Hs' Hd'].
  pose proof (can_frame es sc m m1 m' Hb HF Hu Hnow Hst) as HF'. destruct Hst.
  apply HQ. split; [done|simpl in Hn; lia|done|by rewrite st_cans0, Hca..|done].
Qed.
End CanRules.
