(* ===== verification/CanDriver.v ===== *)
(** The CAN driver of the demo: Demo/can.c and Demo/can.h, with the two CMSIS
    functions it calls (Demo/include/core_cm7.h), as guest programs. *)

From stdpp Require Import gmap.
From S2P Require Import Prelude Irq CanBus CanDev Timer UartDev Wiring NvicState NvicCore NvicRead NvicWrite.
From S2P Require Import NvicPrio NvicInv CortexM NvicSpec NvicIrq NvicRegs NvicLevel Memory Mcu Machine Guest.

(** ** CMSIS *)

Definition NVIC_BASE : Z := 0xE000E100.
Definition NVIC_PRIO_BITS : Z := 3.

(** External interrupts only: the drivers pass no negative number. *)
Definition NVIC_SetPriority (IRQn priority : Z) : guest_prog unit :=
  store 1 (NVIC_BASE + 0x300 + IRQn) (Z.land (u32 (Z.shiftl priority (8 - NVIC_PRIO_BITS))) 0xFF).

Definition NVIC_EnableIRQ (IRQn : Z) : guest_prog unit :=
  store 4 (NVIC_BASE + 4 * Z.shiftr IRQn 5) (Z.shiftl 1 (Z.land IRQn 0x1F)).

(** FreeRTOSConfig.h. *)
Definition configPRIO_BITS : Z := 4.
Definition configLIBRARY_MAX_SYSCALL_INTERRUPT_PRIORITY : Z := 5.
Definition configMAX_SYSCALL_INTERRUPT_PRIORITY : Z :=
  Z.shiftl configLIBRARY_MAX_SYSCALL_INTERRUPT_PRIORITY (8 - configPRIO_BITS).

(** ** Registers *)

Module CanDrv.

Definition CAN0_ADDRESS : Z := 0x40304000.
Definition CAN1_ADDRESS : Z := 0x40308000.
Definition FlexCAN0_0_IRQn : Z := 109.
Definition FlexCAN1_0_IRQn : Z := 113.

(** The masks of can.h that differ from the device's: [IDE] has 33 bits, of
    which an [int] keeps 32. *)
Definition IDE' : Z := 0x1FFFFFFFF.

(** ** Functions *)

Definition CAN_init (can_number : Z) : guest_prog unit :=
  if can_number =? 0 then
    NVIC_SetPriority FlexCAN0_0_IRQn configMAX_SYSCALL_INTERRUPT_PRIORITY;;
    NVIC_EnableIRQ FlexCAN0_0_IRQn;;
    store_or 4 (CAN0_ADDRESS + IER) (Z.lor RIE DOIE)
  else if can_number =? 1 then
    NVIC_SetPriority FlexCAN1_0_IRQn configMAX_SYSCALL_INTERRUPT_PRIORITY;;
    NVIC_EnableIRQ FlexCAN1_0_IRQn;;
    store_or 4 (CAN1_ADDRESS + IER) (Z.lor RIE DOIE)
  else mret ().

(** [data[i] | (data[i+1] << 8) | (data[i+2] << 16) | (data[i+3] << 24)]; a
    [char] is an unsigned byte on this target. *)
Definition word_of (data : list Z) (i : Z) : Z :=
  Z.lor (Z.lor (Z.lor (aget 0 data i) (Z.shiftl (aget 0 data (i + 1)) 8))
               (Z.shiftl (aget 0 data (i + 2)) 16)) (Z.shiftl (aget 0 data (i + 3)) 24).

(** Controller 1 ignores the two flags. *)
Definition CAN_write (can_number can_id : Z) (data : list Z) (can_dlc is_extended_id is_remote_frame : Z)
  : guest_prog unit :=
  if can_number =? 0 then
    store 4 (CAN0_ADDRESS + TID) can_id;;
    store 4 (CAN0_ADDRESS + TFI)
      (Z.lor (Z.lor (Z.shiftl (Z.land is_extended_id 1) 31) (Z.shiftl (Z.land is_remote_frame 1) 30))
             (Z.shiftl (Z.land can_dlc 0xF) DLC_POS));;
    store 4 (CAN0_ADDRESS + TDA) (word_of data 0);;
    store 4 (CAN0_ADDRESS + TDB) (word_of data 4)
  else if can_number =? 1 then
    store 4 (CAN1_ADDRESS + TID) can_id;;
    store 4 (CAN1_ADDRESS + TFI) (Z.shiftl (Z.land can_dlc 0xF) DLC_POS);;
    store 4 (CAN1_ADDRESS + TDA) (word_of data 0);;
    store 4 (CAN1_ADDRESS + TDB) (word_of data 4)
  else mret ().

Definition CAN_transmit (can_number : Z) : guest_prog unit :=
  if can_number =? 0 then store_or 4 (CAN0_ADDRESS + CMR) TR
  else if can_number =? 1 then store_or 4 (CAN1_ADDRESS + CMR) TR
  else mret ().

Definition CAN_has_received (can_number : Z) : guest_prog Z :=
  if can_number =? 0 then v ← load 4 (CAN0_ADDRESS + SR); mret (if has v RBS then 1 else 0)
  else if can_number =? 1 then v ← load 4 (CAN1_ADDRESS + SR); mret (if has v RBS then 1 else 0)
  else mret 0.

Definition dlc_of (v : Z) : Z := Z.shiftr (Z.land v DLC_MASK) DLC_POS.

Definition CAN_read_DLC (can_number : Z) : guest_prog Z :=
  if can_number =? 0 then v ← load 4 (CAN0_ADDRESS + RFI); mret (dlc_of v)
  else if can_number =? 1 then v ← load 4 (CAN1_ADDRESS + RFI); mret (dlc_of v)
  else mret 0.

Definition CAN_read_ID (can_number : Z) : guest_prog Z :=
  if can_number =? 0 then
    v ← load 4 (CAN0_ADDRESS + RFI);
    id ← load 4 (CAN0_ADDRESS + RID);
    mret (i32 (Z.land id (if has v FF then IDS else IDE')))
  else if can_number =? 1 then
    v ← load 4 (CAN1_ADDRESS + RFI);
    id ← load 4 (CAN1_ADDRESS + RID);
    mret (i32 (Z.land id (if has v FF then IDS else IDE')))
  else mret 0.

(** One iteration of the copy loop; the register is read for each byte. *)
Definition read_byte (base i : Z) (data : list Z) : guest_prog (list Z) :=
  if i <? 4 then
    v ← load 4 (base + RDA); mret (aset data i (Z.land (Z.shiftr v (i * 8)) 0xFF))
  else
    v ← load 4 (base + RDB); mret (aset data i (Z.land (Z.shiftr v ((i - 4) * 8)) 0xFF)).

Fixpoint read_bytes (base : Z) (idxs : list Z) (data : list Z) : guest_prog (list Z) :=
  match idxs with
  | [] => mret data
  | i :: idxs => data ← read_byte base i data; read_bytes base idxs data
  end.

(** The return value and the caller's buffer. *)
Definition CAN_read_data (can_number : Z) (data : list Z) : guest_prog (Z * list Z) :=
  if can_number =? 0 then
    v ← load 4 (CAN0_ADDRESS + RFI);
    data ← read_bytes CAN0_ADDRESS (seqZ 0 (Z.min (dlc_of v) 8)) data;
    mret (dlc_of v, data)
  else if can_number =? 1 then
    v ← load 4 (CAN1_ADDRESS + RFI);
    data ← read_bytes CAN1_ADDRESS (seqZ 0 (Z.min (dlc_of v) 8)) data;
    mret (dlc_of v, data)
  else mret (-1, data).

Definition CAN_read_status_bit (can_number status_bit : Z) : guest_prog Z :=
  if can_number =? 0 then v ← load 4 (CAN0_ADDRESS + SR); mret (if has v status_bit then 1 else 0)
  else if can_number =? 1 then v ← load 4 (CAN1_ADDRESS + SR); mret (if has v status_bit then 1 else 0)
  else mret 0.

Definition CAN_command (can_number cmd : Z) : guest_prog unit :=
  if can_number =? 0 then store_or 4 (CAN0_ADDRESS + CMR) cmd
  else if can_number =? 1 then store_or 4 (CAN1_ADDRESS + CMR) cmd
  else mret ().

Definition CAN_release_receive_buffer (can_number : Z) : guest_prog unit := CAN_command can_number RRB.
Definition CAN_clear_data_overrun (can_number : Z) : guest_prog unit := CAN_command can_number CDO.
Definition CAN_clear_interrupt (can_number : Z) : guest_prog unit := CAN_command can_number (Z.lor RRB CDO).

(** ** Bytes of the data registers *)

Definition bytes (data : list Z) : Prop := ∀ i, is_u8 (aget 0 data i).

Lemma bytes_Forall data : Forall is_u8 data → bytes data.
Proof.
  intros Hd i. unfold aget. case_if; [done|]. destruct (data !! Z.to_nat i) eqn:E; [|done].
  by apply (proj1 (Forall_lookup _ _) Hd _ _ E).
Qed.

Lemma byte_bits b i : is_u8 b → 8 ≤ i → Z.testbit b i = false.
Proof. intros Hb Hi. by apply (testbit_above 8). Qed.

Lemma word_of_byte data j i :
  bytes data → 0 ≤ i < 4 →
  Z.land (Z.shiftr (word_of data j) (i * 8)) 0xFF = aget 0 data (j + i).
Proof.
  intros Hd Hi. unfold word_of.
  pose proof (Hd j) as H0. pose proof (Hd (j + 1)) as H1.
  pose proof (Hd (j + 2)) as H2. pose proof (Hd (j + 3)) as H3.
  assert (∀ b k, k < 0 → Z.testbit b k = false) as Hneg by (intros; by apply Z.testbit_neg_r).
  change 0xFF with (2 ^ 8 - 1). rewrite land_mask by lia.
  apply Z.bits_inj'. intros k Hk. rewrite wrap_spec by lia.
  destruct (Z.ltb_spec k 8) as [Hk8|Hk8].
  2: { symmetry. by apply byte_bits. }
  rewrite Z.shiftr_spec by lia. rewrite !Z.lor_spec, !Z.shiftl_spec by lia.
  assert (i = 0 ∨ i = 1 ∨ i = 2 ∨ i = 3) as [-> | [-> | [-> | ->]]] by lia; 
    rewrite ?Z.mul_0_l, ?Z.add_0_r;
    repeat match goal with
    | |- context [Z.testbit ?b ?k] =>
      first [rewrite (byte_bits b k) by (done || lia) | rewrite (Hneg b k) by lia]
    end; rewrite ?orb_false_r, ?orb_false_l, ?andb_true_l; f_equal; lia.
Qed.

Lemma byte_of_low k w i :
  0 ≤ i < k → Z.land (Z.shiftr (wrap (8 * k) w) (i * 8)) 0xFF = Z.land (Z.shiftr w (i * 8)) 0xFF.
Proof.
  intros Hi. change 0xFF with (2 ^ 8 - 1). rewrite !land_mask by lia.
  apply Z.bits_inj'. intros j Hj. rewrite !wrap_spec by lia.
  destruct (Z.ltb_spec j 8); [|done]. rewrite !Z.shiftr_spec, wrap_spec by lia.
  by destruct (Z.ltb_spec (j + i * 8) (8 * k)); [|lia].
Qed.

Lemma frame_info_dlc v n :
  dlc_of (Z.lor (Z.land v FF) (Z.shiftl n DLC_POS)) = wrap 4 n.
Proof.
  unfold dlc_of, FF, DLC_POS. rewrite Z.shiftr_land, Z.shiftr_lor.
  change (Z.shiftr DLC_MASK 16) with (2 ^ 4 - 1). rewrite land_mask by lia.
  apply Z.bits_inj'. intros i Hi. rewrite !wrap_spec by lia.
  destruct (Z.ltb_spec i 4); [|done]. autorewrite with zbits.
  destruct (Z.eqb_spec 31 (i + 16)); [lia|]. rewrite andb_false_r. simpl. f_equal. lia.
Qed.

(** ** The functions on the two controllers *)

(** The frame information the driver writes: no RTR, and the low four bits of
    the code. *)
Lemma frame_word w dlc :
  (∀ i, 16 ≤ i < 31 → Z.testbit w i = (i <? 20) && Z.testbit dlc (i - 16)) →
  has (u32 w) RTR = false ∧ Z.land (Z.shiftr (u32 w) 16) 0xF = wrap 4 dlc.
Proof.
  intros Hw. split.
  - unfold RTR. rewrite has_bit, wrap_spec by lia. by rewrite Hw by lia.
  - change 0xF with (2 ^ 4 - 1). rewrite land_mask by lia.
    apply Z.bits_inj'. intros i Hi. rewrite !wrap_spec by lia.
    destruct (Z.ltb_spec i 4); [|done]. rewrite Z.shiftr_spec, wrap_spec, Hw by lia.
    destruct (Z.ltb_spec (i + 16) 32), (Z.ltb_spec (i + 16) 20); try lia. simpl. f_equal. lia.
Qed.

Lemma frame_word_flags ext dlc i :
  16 ≤ i < 31 →
  Z.testbit (Z.lor (Z.lor (Z.shiftl (Z.land ext 1) 31) (Z.shiftl (Z.land 0 1) 30))
    (Z.shiftl (Z.land dlc 0xF) DLC_POS)) i = (i <? 20) && Z.testbit dlc (i - 16).
Proof.
  intros Hi. unfold DLC_POS. change 0xF with (2 ^ 4 - 1). rewrite land_mask by lia.
  rewrite !Z.lor_spec, !Z.shiftl_spec by lia. rewrite Z.land_0_l, Z.bits_0, wrap_spec by lia.
  rewrite (Z.testbit_neg_r _ (i - 31)) by lia. simpl.
  by destruct (Z.ltb_spec (i - 16) 4), (Z.ltb_spec i 20); try lia.
Qed.

Lemma frame_word_plain dlc i :
  16 ≤ i < 31 →
  Z.testbit (Z.shiftl (Z.land dlc 0xF) DLC_POS) i = (i <? 20) && Z.testbit dlc (i - 16).
Proof.
  intros Hi. rewrite <- (frame_word_flags 0 dlc i) by done. by rewrite !Z.lor_spec, !Z.bits_0.
Qed.

Section Calls.
Context {F : script → Machine → Prop} `{!CanFrame F}.

(** A store to one of the transmit registers. *)
Lemma store_reg_wp c p s d n sc m off v k (Q : () → script → Machine → Prop) :
  on_bus F c p s d (S n) sc m → off ∈ can_regs →
  (∀ devs, can_write board_net c off (u32 v) devs = alter k c devs) →
  (∀ sc' m', on_bus F c p (k s) d n sc' m' → Q () sc' m') →
  wp (store 4 (can_ba c + off) v) Q sc m.
Proof.
  intros Hb Ho Hk HQ. eapply wp_store_can; [exact Hb|done| |exact HQ].
  intros devs Hs Hd. rewrite Hk. pose proof (ob_bus _ _ _ _ _ _ _ _ Hb) as (_ & _ & Hne).
  by rewrite lookup_alter_eq, Hs, lookup_alter_ne.
Qed.

(** The four stores of [CAN_write], with the frame information [w]. *)
Definition write_frame (base id w : Z) (data : list Z) : guest_prog unit :=
  store 4 (base + TID) id;; store 4 (base + TFI) w;;
  store 4 (base + TDA) (word_of data 0);; store 4 (base + TDB) (word_of data 4).

Lemma CAN_write_eq c id data dlc ext rtr :
  (c < 2)%nat →
  CAN_write (Z.of_nat c) id data dlc ext rtr =
    write_frame (can_ba c) id
      (if decide (c = 0%nat)
       then Z.lor (Z.lor (Z.shiftl (Z.land ext 1) 31) (Z.shiftl (Z.land rtr 1) 30))
              (Z.shiftl (Z.land dlc 0xF) DLC_POS)
       else Z.shiftl (Z.land dlc 0xF) DLC_POS) data.
Proof. intros Hc. destruct c as [|[|c]]; [reflexivity|reflexivity|lia]. Qed.

Lemma write_regs_wp c p s d n sc m id data w (Q : () → script → Machine → Prop) :
  on_bus F c p s d (4 + n) sc m →
  (∀ sc' m', on_bus F c p (s <| tid := u32 id |> <| tfi := u32 w |> <| tda := u32 (word_of data 0) |>
       <| tdb := u32 (word_of data 4) |>) d n sc' m' → Q () sc' m') →
  wp (write_frame (can_ba c) id w data) Q sc m.
Proof.
  intros Hb HQ. unfold write_frame.
  assert (∀ v, u32 (u32 v) = u32 v) as Hu by (intros v; by rewrite wrap_wrap).
  apply wp_bind. eapply (store_reg_wp _ _ _ _ _ _ _ TID); [exact Hb|set_solver|done|]. clear sc m Hb.
  intros sc m Hb. apply wp_bind.
  eapply (store_reg_wp _ _ _ _ _ _ _ TFI); [exact Hb|set_solver|done|]. clear sc m Hb.
  intros sc m Hb. apply wp_bind.
  eapply (store_reg_wp _ _ _ _ _ _ _ TDA); [exact Hb|set_solver|done|]. clear sc m Hb.
  intros sc m Hb.
  eapply (store_reg_wp _ _ _ _ _ _ _ TDB); [exact Hb|set_solver|done|]. clear sc m Hb.
  intros sc m Hb. apply HQ. cbv beta in Hb. by rewrite !Hu in Hb.
Qed.

Lemma CAN_write_wp c p s d n sc m id data dlc ext (Q : () → script → Machine → Prop) :
  on_bus F c p s d (4 + n) sc m →
  (∀ s' sc' m', on_bus F c p s' d n sc' m' → has (tfi s') RTR = false →
     tfi_dlc s' = wrap 4 dlc → tda s' = u32 (word_of data 0) → tdb s' = u32 (word_of data 4) →
     Q () sc' m') →
  wp (CAN_write (Z.of_nat c) id data dlc ext 0) Q sc m.
Proof.
  intros Hb HQ. pose proof (ob_bus _ _ _ _ _ _ _ _ Hb) as (Hc & _).
  rewrite CAN_write_eq by done. eapply write_regs_wp; [exact Hb|]. intros sc' m' Hb'.
  eapply HQ; [exact Hb'|..|done|done]; simpl.
  - case_decide; apply (frame_word _ dlc); intros; [by apply frame_word_flags|by apply frame_word_plain].
  - unfold tfi_dlc. simpl. case_decide; apply frame_word; intros;
      [by apply frame_word_flags|by apply frame_word_plain].
Qed.

(** [CMR |= cmd]: CMR always reads as zero. *)
Lemma or_cmr_wp c p s d s' d' n sc m cmd (Q : () → script → Machine → Prop) :
  on_bus F c p s d (2 + n) sc m → is_u32 cmd →
  (∀ devs, devs !! c = Some s → devs !! p = Some d →
     can_write board_net c CMR cmd devs !! c = Some s' ∧
     can_write board_net c CMR cmd devs !! p = Some d') →
  (∀ sc' m', on_bus F c p s' d' n sc' m' → Q () sc' m') →
  wp (store_or 4 (can_ba c + CMR) cmd) Q sc m.
Proof.
  intros Hb Hcmd Hw HQ. apply wp_bind. eapply wp_load_can; [exact Hb|set_solver|].
  destruct (on_bus_wf _ _ _ _ _ _ _ Hb) as [[[] _] _]. clear sc m Hb. intros sc m Hb.
  change (can_read s CMR) with (cmr s). rewrite wf_cmr, Z.lor_0_l.
  eapply wp_store_can; [exact Hb|set_solver| |exact HQ]. by rewrite (wrap_small 32 cmd).
Qed.

Lemma board_net_bus c : (c < 2)%nat → client_bus board_net !! c = Some 0%nat.
Proof. destruct c as [|[|c]]; [done|done|lia]. Qed.

Lemma board_net_wf : net_wf board_net.
Proof. exact two_net_wf. Qed.

Lemma CAN_transmit_eq c : (c < 2)%nat → CAN_transmit (Z.of_nat c) = store_or 4 (can_ba c + CMR) TR.
Proof. intros Hc. destruct c as [|[|c]]; [reflexivity|reflexivity|lia]. Qed.

Lemma CAN_transmit_wp c p s d n sc m (Q : () → script → Machine → Prop) :
  on_bus F c p s d (2 + n) sc m →
  (∀ sc' m', on_bus F c p (tr_done s) (CanDev.can_receive (transmit_frame s) d).1 n sc' m' →
     Q () sc' m') →
  wp (CAN_transmit (Z.of_nat c)) Q sc m.
Proof.
  intros Hb HQ. pose proof (ob_bus _ _ _ _ _ _ _ _ Hb) as (Hc & Hp & Hne). rewrite CAN_transmit_eq by done.
  eapply or_cmr_wp; [exact Hb|closed_range| |exact HQ]. intros devs.
  apply (can_write_tr board_net 0); auto using board_net_wf, board_net_bus.
Qed.

(** [while (!CAN_has_received(p));] when a frame is there. *)
Lemma received_wp p c d s n sc m (Q : () → script → Machine → Prop) :
  on_bus F p c d s (1 + n) sc m → Z.testbit (sr d) 0 = true →
  (∀ sc' m', on_bus F p c d s n sc' m' → Q () sc' m') →
  wp (poll (r ← CAN_has_received (Z.of_nat p); mret (truth r))) Q sc m.
Proof.
  intros Hb Hsr HQ. pose proof (ob_bus _ _ _ _ _ _ _ _ Hb) as (Hp & _).
  change (wp (r ← (r ← CAN_has_received (Z.of_nat p); mret (truth r));
    if (r : bool) then mret () else
      until (length sc) (r ← CAN_has_received (Z.of_nat p); mret (truth r))) Q sc m).
  apply wp_bind, wp_bind.
  assert (CAN_has_received (Z.of_nat p) =
    (v ← load 4 (can_ba p + SR); mret (if has v RBS then 1 else 0))) as ->
    by (destruct p as [|[|p]]; [done|done|lia]).
  apply wp_bind. eapply wp_load_can; [exact Hb|set_solver|]. intros sc' m' Hb'.
  change (can_read d SR) with (sr d). unfold RBS. rewrite has_bit, Hsr by done. by apply HQ.
Qed.

(** The copy loop: every byte of the buffer at an index of the loop is the
    corresponding byte of the two registers. *)
Definition reg_byte (d : CanState) (i : Z) : Z :=
  if i <? 4 then Z.land (Z.shiftr (rda d) (i * 8)) 0xFF
  else Z.land (Z.shiftr (rdb d) ((i - 4) * 8)) 0xFF.

Lemma read_byte_wp p c d s n sc m i buf (Q : list Z → script → Machine → Prop) :
  on_bus F p c d s (1 + n) sc m →
  (∀ sc' m', on_bus F p c d s n sc' m' → Q (aset buf i (reg_byte d i)) sc' m') →
  wp (read_byte (can_ba p) i buf) Q sc m.
Proof.
  intros Hb HQ. unfold read_byte, reg_byte in *.
  destruct (i <? 4); apply wp_bind; (eapply wp_load_can; [exact Hb|set_solver|]);
    intros sc' m' Hb'; by apply HQ.
Qed.

Lemma read_bytes_wp p c d s k n sc m buf (Q : list Z → script → Machine → Prop) :
  on_bus F p c d s (k + n) sc m → Z.of_nat k ≤ alen buf →
  (∀ buf' sc' m', on_bus F p c d s n sc' m' → alen buf' = alen buf →
     (∀ i, aget 0 buf' i = if (0 <=? i) && (i <? Z.of_nat k) then reg_byte d i else aget 0 buf i) →
     Q buf' sc' m') →
  wp (read_bytes (can_ba p) (seqZ 0 (Z.of_nat k)) buf) Q sc m.
Proof.
  intros Hb Hk HQ.
  assert (∀ j l buf1 sc1 m1, Z.of_nat j + Z.of_nat l = Z.of_nat k → on_bus F p c d s (l + n) sc1 m1 →
    alen buf1 = alen buf →
    (∀ i, aget 0 buf1 i = if (0 <=? i) && (i <? Z.of_nat j) then reg_byte d i else aget 0 buf i) →
    wp (read_bytes (can_ba p) (seqZ (Z.of_nat j) (Z.of_nat l)) buf1) Q sc1 m1) as H.
  { intros j l. revert j. induction l as [|l IH]; intros j buf1 sc1 m1 Hj Hb1 Hl H1.
    - apply wp_ret. eapply HQ; [exact Hb1|done|]. by replace (Z.of_nat k) with (Z.of_nat j) by lia.
    - rewrite seqZ_cons by lia. apply wp_bind. eapply read_byte_wp; [exact Hb1|].
      intros sc2 m2 Hb2. replace (Z.succ (Z.of_nat j)) with (Z.of_nat (S j)) by lia.
      replace (Z.pred (Z.of_nat (S l))) with (Z.of_nat l) by lia.
      apply IH; [lia|exact Hb2|by rewrite alen_aset|]. intros i.
      rewrite aget_aset, H1 by lia. destruct (Z.eqb_spec (Z.of_nat j) i) as [<-|Hne].
      + by destruct (Z.leb_spec 0 (Z.of_nat j)), (Z.ltb_spec (Z.of_nat j) (Z.of_nat (S j))); try lia.
      + destruct (Z.leb_spec 0 i), (Z.ltb_spec i (Z.of_nat j)), (Z.ltb_spec i (Z.of_nat (S j))); try lia; done. }
  apply (H 0%nat k); [lia|exact Hb|done|]. intros i. by destruct (Z.leb_spec 0 i), (Z.ltb_spec i (Z.of_nat 0)); try lia.
Qed.

Lemma CAN_read_data_wp p c d s n sc m buf (Q : Z * list Z → script → Machine → Prop) :
  on_bus F p c d s (9 + n) sc m → 8 ≤ alen buf →
  (∀ buf' sc' m', on_bus F p c d s n sc' m' → alen buf' = alen buf →
     (∀ i, aget 0 buf' i =
        if (0 <=? i) && (i <? Z.min (dlc_of (rfi d)) 8) then reg_byte d i else aget 0 buf i) →
     Q (dlc_of (rfi d), buf') sc' m') →
  wp (CAN_read_data (Z.of_nat p) buf) Q sc m.
Proof.
  intros Hb Hl HQ. pose proof (ob_bus _ _ _ _ _ _ _ _ Hb) as (Hp & _).
  assert (CAN_read_data (Z.of_nat p) buf =
    (v ← load 4 (can_ba p + RFI);
     data ← read_bytes (can_ba p) (seqZ 0 (Z.min (dlc_of v) 8)) buf;
     mret (dlc_of v, data))) as -> by (destruct p as [|[|p]]; [done|done|lia]).
  apply wp_bind. eapply wp_load_can; [exact Hb|set_solver|]. clear sc m Hb. intros sc m Hb.
  change (can_read d RFI) with (rfi d).
  assert (0 ≤ dlc_of (rfi d)) as H0 by (apply Z.shiftr_nonneg, Z.land_nonneg; by right).
  set (k := Z.to_nat (Z.min (dlc_of (rfi d)) 8)).
  assert (Z.min (dlc_of (rfi d)) 8 = Z.of_nat k) as Hk by (unfold k; lia).
  rewrite Hk. apply wp_bind. eapply (read_bytes_wp p c d s k (8 - k + n)).
  { destruct Hb. split; [done|lia|done..]. } { lia. }
  intros buf' sc' m' Hb' Hlen Hget. apply wp_ret. apply HQ; [|done|by rewrite Hk].
  destruct Hb'. split; [done|lia|done..].
Qed.

(** A command that releases the receive buffer or clears the overrun. *)
Lemma CAN_command_wp c p s d n sc m cmd (Q : () → script → Machine → Prop) :
  on_bus F c p s d (2 + n) sc m → is_u32 cmd → Z.testbit cmd 0 = false →
  (∀ s' sc' m', on_bus F c p s' d n sc' m' →
     (∀ i, 0 ≤ i → Z.testbit (sr s') i = Z.testbit (sr s) i &&
        negb (((i =? 0) && Z.testbit cmd 2) || ((i =? 1) && Z.testbit cmd 3))) →
     (tfi s', tid s', tda s', tdb s', rfi s', rid s', rda s', rdb s', cmr s', ier s') =
     (tfi s, tid s, tda s, tdb s, rfi s, rid s, rda s, rdb s, cmr s, ier s) → Q () sc' m') →
  wp (CAN_command (Z.of_nat c) cmd) Q sc m.
Proof.
  intros Hb Hcmd H0 HQ. pose proof (ob_bus _ _ _ _ _ _ _ _ Hb) as (Hc & _ & Hne).
  assert (CAN_command (Z.of_nat c) cmd = store_or 4 (can_ba c + CMR) cmd) as ->
    by (destruct c as [|[|c]]; [done|done|lia]).
  destruct (on_bus_wf _ _ _ _ _ _ _ Hb) as [Hwf _].
  destruct (release_write board_net c cmd s Hwf H0) as (s' & Hw & Hsr & _ & Hfr).
  eapply (or_cmr_wp c p s d s' d); [exact Hb|exact Hcmd| |].
  - intros devs Hs Hd. rewrite (Hw devs Hs). by rewrite lookup_insert_eq, lookup_insert_ne.
  - intros sc' m' Hb'. eapply HQ; [exact Hb'|exact Hsr|exact Hfr].
Qed.
End Calls.

(** What the receiver's registers hold are the sender's bytes. *)
Lemma delivered_byte data s d i n :
  bytes data → has (tfi s) RTR = false → tfi_dlc s = n →
  tda s = u32 (word_of data 0) → tdb s = u32 (word_of data 4) →
  0 ≤ i < Z.min n 8 →
  reg_byte (CanDev.can_receive (transmit_frame s) d).1 i = aget 0 data i.
Proof.
  intros Hd Hr Hn Ha Hb Hi. destruct (receive_data_frame s d Hr) as (H1 & H2 & _).
  rewrite Hn, Ha in H1. rewrite Hn, Hb in H2. unfold reg_byte. rewrite H1, H2.
  change 32 with (8 * 4) at 1 2.
  destruct (Z.ltb_spec i 4) as [Hi4|Hi4].
  - rewrite !byte_of_low by lia. by rewrite word_of_byte by (done || lia).
  - rewrite !byte_of_low by lia. rewrite word_of_byte by (done || lia). f_equal. lia.
Qed.

(** C8.  A frame sent by one controller's driver is read by the other's.
    [CAN_write] and [CAN_transmit] on one controller, then waiting for
    [CAN_has_received] and [CAN_read_data] on the other, run to completion
    whatever happens in the meantime (time passing, serial input, any earlier
    frame unread), never fault, and return the low four bits of the length code
    and the sender's bytes in the first (at most eight) places of the buffer,
    the other places unchanged. *)
Theorem can_driver_delivers c p can_id data can_dlc ext buf sc m :
  board_ok sc m → (c < 2)%nat → (p < 2)%nat → c ≠ p → bytes data → 8 ≤ alen buf → (16 ≤ length sc)%nat →
  ∃ buf' sc' m',
    (CAN_write (Z.of_nat c) can_id data can_dlc ext 0;;
     CAN_transmit (Z.of_nat c);;
     poll (r ← CAN_has_received (Z.of_nat p); mret (truth r));;
     CAN_read_data (Z.of_nat p) buf) sc m = Done (wrap 4 can_dlc, buf') sc' m' ∧
    alen buf' = alen buf ∧
    ∀ i, aget 0 buf' i =
      if (0 <=? i) && (i <? Z.min (wrap 4 can_dlc) 8) then aget 0 data i else aget 0 buf i.
Proof.
  intros Hb Hc Hp Hne Hd Hl Hlen.
  assert (∃ s d, cans m !! c = Some s ∧ cans m !! p = Some d) as (s & d & Hs & Hpd).
  { destruct (bo_inv _ _ Hb) as [_ _ _ _ _ [s0 H0] [s1 H1] _].
    destruct c as [|[|c]], p as [|[|p]]; try lia; by eauto. }
  assert (on_bus no_frame c p s d (4 + (2 + (1 + (9 + 0)))) sc m) as Hob by (by split; [|simpl; lia|..]).
  set (n := wrap 4 can_dlc).
  assert (0 ≤ n < 16) as Hn by (by apply wrap_range).
  eapply wp_done_pair. apply wp_bind. eapply CAN_write_wp; [exact Hob|]. clear sc m Hb Hs Hpd Hob Hlen.
  intros s' sc m Hob Hr Hdlc Ha Hbb. apply wp_bind. eapply CAN_transmit_wp; [exact Hob|]. clear sc m Hob.
  set (d' := (CanDev.can_receive (transmit_frame s') d).1).
  destruct (receive_data_frame s' d Hr) as (_ & _ & Hrfi & Hsr & _). fold d' in Hrfi, Hsr.
  intros sc m Hob%on_bus_swap. apply wp_bind. eapply received_wp; [exact Hob|exact Hsr|]. clear sc m Hob.
  intros sc m Hob. eapply CAN_read_data_wp; [exact Hob|done|]. clear sc m Hob.
  intros buf' sc m _ Hlen Hget.
  assert (dlc_of (rfi d') = n) as Hdn.
  { rewrite Hrfi, frame_info_dlc, Hdlc. unfold n. by rewrite wrap_wrap. }
  rewrite Hdn in *. split; [done|]. split; [done|]. intros i. rewrite Hget.
  destruct (Z.leb_spec 0 i), (Z.ltb_spec i (Z.min n 8)); try done. simpl.
  by apply (delivered_byte data s' d i n).
Qed.

(** Eight bytes from CAN0 to CAN1 on a freshly reset board, a character
    arriving on the serial line meanwhile. *)
Lemma can_driver_delivers_witness :
  ∃ m buf' sc' m', machine_init boot_msp = Ok m ∧
    (CAN_write (Z.of_nat 0) 0x123 [65; 66; 67; 68; 69; 70; 71; 72] 8 1 0;;
     CAN_transmit (Z.of_nat 0);;
     poll (r ← CAN_has_received (Z.of_nat 1); mret (truth r));;
     CAN_read_data (Z.of_nat 1) (replicate 9 0)) (replicate 16 [Elapse 1000; Incoming 90]) m =
       Done (8, buf') sc' m' ∧
    aget 0 buf' 0 = 65 ∧ aget 0 buf' 7 = 72 ∧ aget 0 buf' 8 = 0.
Proof.
  destruct (machine_init_ok boot_msp) as (m & Hm & Hi & Hnow & _). exists m.
  destruct (can_driver_delivers 0 1 0x123 [65; 66; 67; 68; 69; 70; 71; 72] 8 1 (replicate 9 0)
    (replicate 16 [Elapse 1000; Incoming 90]) m) as (buf' & sc' & m' & H & _ & Hget).
  - split; [exact Hi|by repeat constructor|]. rewrite Hnow. reflexivity.
  - lia.
  - lia.
  - lia.
  - apply bytes_Forall. repeat constructor; by vm_compute.
  - by vm_compute.
  - by vm_compute.
  - exists buf', sc', m'. split; [exact Hm|]. split; [exact H|].
    rewrite !Hget. split_and!; vm_compute; reflexivity.
Defined.
End CanDrv.
