(* ===== verification/UartDriver.v ===== *)
(** The UART driver of the demo: Demo/uart.c and Demo/uart.h, as guest
    programs that poll the device while time passes. *)

From stdpp Require Import gmap.
From S2P Require Import Prelude Irq CanBus CanDev Timer UartDev UartSpec Wiring NvicState NvicCore NvicRead NvicWrite.
From S2P Require Import NvicPrio NvicInv CortexM NvicSpec NvicIrq NvicRegs NvicLevel Memory Mcu Machine Guest.
From S2P Require Import CanDriver.

Module UartDrv.

Definition UART_ADDRESS : Z := 0x40328000.
Definition LPUART0_IRQn : Z := 141.
Definition IROE : Z := bit 3.

Definition UART_init : guest_prog unit :=
  NVIC_SetPriority LPUART0_IRQn configMAX_SYSCALL_INTERRUPT_PRIORITY;;
  NVIC_EnableIRQ LPUART0_IRQn;;
  store 4 (UART_ADDRESS + CONTROL) IROE;;
  store 4 (UART_ADDRESS + DIVISOR) 1000.

(** [while (!(UART_STATUS & bit));] *)
Definition wait_status (status_bit : Z) : guest_prog unit :=
  poll (v ← load 4 (UART_ADDRESS + STATUS); mret (has v status_bit)).

(** The string is given by its bytes from the pointer on; the loop stops at
    the terminator. *)
Fixpoint UART_printf (s : list Z) : guest_prog unit :=
  match s with
  | [] => mret ()
  | ch :: s =>
    if ch =? 0 then mret ()
    else
      wait_status TRDY;;
      store 4 (UART_ADDRESS + TXDATA) ch;;
      UART_printf s
  end.

Definition UART_getchar : guest_prog Z :=
  wait_status RRDY;;
  v ← load 4 (UART_ADDRESS + RXDATA);
  mret (u8 v).

Definition UART_clear_interrupt : guest_prog unit :=
  v ← load 4 (UART_ADDRESS + STATUS);
  store 4 (UART_ADDRESS + STATUS) (Z.land v (not32 ROE)).

(** ** The transmitter while time passes *)

Lemma trdy_queue s : tx_inv s → Z.testbit (status s) 6 = (length (tx_queue s) <=? 1)%nat.
Proof.
  intros [Hi _]. unfold tx_queue. destruct (Z.testbit (status s) 5); [by apply Hi|].
  by destruct (Z.testbit (status s) 6).
Qed.

Lemma advance_tx_time now s s' progress :
  uart_wf s → clock_ok now → uart_run_timers now s = Some (s', progress) →
  char_tx_time s' = char_tx_time s ∧
  (tx_timer ∉ (expired now (timers s)).*1 →
   expire_time (timers s') tx_timer = expire_time (timers s) tx_timer).
Proof.
  intros Hs Hn Hrun.
  cut (char_tx_time s' = char_tx_time s ∧
    (tx_timer ∉ (expired now (timers s)).*1 → (tx_timer ∉ ([] : TimerList timer_id).*1) ∧
     expire_time (timers s') tx_timer = expire_time (timers s) tx_timer)); [naive_solver|].
  apply (uart_advance_ind (fun l w => char_tx_time w = char_tx_time s ∧
     (tx_timer ∉ (expired now (timers s)).*1 → (tx_timer ∉ l.*1) ∧
      expire_time (timers w) tx_timer = expire_time (timers s) tx_timer))
     _ _ _ _ Hs Hn Hrun); [|by split].
  intros w t e rest Hw Hget Hle Hni [Hc Hor]. destruct t; simpl uart_timer_cb.
  - destruct (timeout_rx_fields (set_timers rest w)) as (_ & _ & _ & -> & _).
    split; [unfold timeout_rx; simpl; case_if; autorewrite with uartf; done|].
    intros Hx. destruct (Hor Hx) as [Hl <-]. rewrite Hget. split; [|done].
    intros Hin. apply Hl. csimpl. by right.
  - split; [by destruct (timeout_tx_frame now (set_timers rest w)) as (_ & _ & _ & ->)|].
    intros Hx. destruct (Hor Hx) as [Hl _]. exfalso. apply Hl. csimpl. left.
Qed.

(** The transmitter waits for its timer, which runs out within a character
    time. *)
Record tx_live (now : Z) (s : UartState) : Prop := {
  tl_inv : tx_inv s;
  tl_future : Z.testbit (status s) 5 = false → now < expire_time (timers s) tx_timer;
  tl_due : expire_time (timers s) tx_timer ≤ now + char_tx_time s
}.

Lemma tx_busy now s : tx_live now s → Z.testbit (status s) 6 = false → now < expire_time (timers s) tx_timer.
Proof.
  intros [[Hi _] Hf _] E6. apply Hf. destruct (Z.testbit (status s) 5); [|done]. by rewrite Hi in E6.
Qed.

(** What passing time and arriving characters do to the transmitter: nothing
    is lost, a free place stays free, and a full queue has room again at the
    deadline. *)
Record tx_kept (s : UartState) (now' : Z) (s' : UartState) : Prop := {
  tk_live : tx_live now' s';
  tk_all : tx_all s' = tx_all s;
  tk_time : char_tx_time s' = char_tx_time s;
  tk_trdy : Z.testbit (status s) 6 = true → Z.testbit (status s') 6 = true;
  tk_deadline : Z.testbit (status s') 6 = false →
    expire_time (timers s') tx_timer = expire_time (timers s) tx_timer
}.

Lemma advance_kept now now' s s' progress :
  uart_wf s → clock_ok now → clock_ok now' → now ≤ now' → tx_live now s →
  uart_run_timers now' s = Some (s', progress) → tx_kept s now' s'.
Proof.
  intros Hs Hn0 Hn Hle [Hi Hf Hd] Hrun.
  destruct (advance_tx now' s s' progress Hs Hn Hi Hrun) as [Hi' Ha].
  destruct (advance_tx_time now' s s' progress Hs Hn Hrun) as [Hct Hexp].
  pose proof (uwf_timers s Hs) as Ht.
  assert (Z.testbit (status s') 5 = false → now' < expire_time (timers s') tx_timer) as Hf'.
  { intros E5. destruct (uart_run_timers_spec now' s Hs Hn) as (Hrun' & Hs' & Hfut).
    rewrite Hrun' in Hrun. injection Hrun as Heq _. rewrite Heq in Hs', Hfut.
    destruct (Z.le_gt_cases (expire_time (timers s') tx_timer) now') as [Hx|]; [|lia].
    assert (tx_timer ∈ (expired now' (timers s')).*1) as Hin.
    { apply in_expired; [apply Hs'|]. split; [|done]. destruct Hi' as [_ ->]. by rewrite E5. }
    rewrite expired_none in Hin by done. by apply elem_of_nil in Hin. }
  case_decide as Hin.
  - assert (Z.testbit (status s') 6 = true) as H6.
    { rewrite (trdy_queue s' Hi'). unfold tx_abs, tx_shift_out in Ha. simpl in Ha.
      assert (length (tx_queue s) ≤ 2)%nat by (unfold tx_queue; repeat case_if; simpl; lia).
      destruct (tx_queue s) as [|x q]; injection Ha as -> _ _; simpl in *; [done|].
      apply Nat.leb_le. lia. }
    apply in_expired in Hin; [|done].
    destruct (advance_tx_deadline now' s s' progress Hs Hn Hrun) as [_ Hd']; [apply Hin|].
    split; [split; [done|done|by rewrite Hct]|by apply tx_all_shift_out|done|done|by rewrite H6].
  - specialize (Hexp Hin). assert (tx_all s' = tx_all s ∧ tx_queue s' = tx_queue s) as [Hall Hq].
    { unfold tx_all. unfold tx_abs in Ha. by injection Ha as -> -> _. }
    assert (Z.testbit (status s') 6 = Z.testbit (status s) 6) as H6
      by (by rewrite !trdy_queue, Hq by done).
    split; [split|done|done|by rewrite H6|done]; [done|done|rewrite Hexp, Hct; lia].
Qed.

Lemma receive_kept now b s : uart_wf s → tx_live now s → tx_kept s now (uart_receive now b s).
Proof.
  intros Hs [Hi Hf Hd]. destruct (receive_tx now b s Hs Hi) as [Hi' Hall].
  assert (status (uart_receive now b s) = status s ∧
    char_tx_time (uart_receive now b s) = char_tx_time s ∧
    expire_time (timers (uart_receive now b s)) tx_timer = expire_time (timers s) tx_timer) as (H1 & H2 & H3).
  { unfold uart_receive. case_if; [|done]. simpl. split_and!; [done..|].
    unfold timer_mod. by rewrite expire_time_mod by apply Hs. }
  split; [split|..]; rewrite ?H1, ?H2, ?H3; done.
Qed.

Lemma kept_trans now1 s s1 now2 s2 : tx_kept s now1 s1 → tx_kept s1 now2 s2 → tx_kept s now2 s2.
Proof.
  intros [L1 A1 T1 R1 D1] [L2 A2 T2 R2 D2]. split; try done; [congruence..|auto|].
  intros E. destruct (Z.testbit (status s1) 6) eqn:E1; [by rewrite R2 in E|]. by rewrite D2, D1.
Qed.

Lemma world_kept c es uevs c' :
  uart_run any_event c uevs c' → Forall2 event_matches es uevs →
  clock_ok c.1 → uart_wf c.2 → tx_live c.1 c.2 → tx_kept c.2 c'.1 c'.2.
Proof.
  intros Hrun. revert es. induction Hrun as [|c u c1 us c2 _ Hs Hr IH]; intros es Hk Hn Hwf Hl.
  { by split. }
  apply Forall2_cons_inv_r in Hk as (e & es' & Hke & Hk & ->). destruct (uart_step_wf _ _ _ Hs Hn Hwf) as [Hn1 Hwf1].
  assert (tx_kept c.2 c1.1 c1.2) as H1.
  { destruct c as [n0 u0]. destruct e; [destruct Hke as [t ->]|simpl in Hke; subst u];
      inversion Hs; subst; simpl in *.
    - eapply (advance_kept n0); eauto.
    - by apply receive_kept. }
  eapply kept_trans; [exact H1|]. eapply IH; try done. apply H1.
Qed.


(** ** Sending from the guest *)

(** The machine with the transmitter at work: everything sent and queued so
    far, and a world in which every access takes time. *)
Record sending (ct : Z) (all : list Z) (sc : script) (m : Machine) : Prop := {
  sd_board : board_ok sc m;
  sd_slots : Forall (fun es => 1 ≤ slot_time es) sc;
  sd_live : tx_live (now m) (uart m);
  sd_time : char_tx_time (uart m) = ct;
  sd_all : tx_all (uart m) = all
}.

(** After an access that leaves the device as [m1] has it. *)
Lemma sending_settled ct all es sc m m1 m' :
  board_ok (es :: sc) m → Forall (fun es => 1 ≤ slot_time es) (es :: sc) →
  now m1 = now m → tx_live (now m1) (uart m1) →
  char_tx_time (uart m1) = ct → tx_all (uart m1) = all → settled sc m1 es m' →
  sending ct all sc m' ∧ tx_kept (uart m1) (now m') (uart m') ∧ now m + 1 ≤ now m' ∧ cans m' = cans m1.
Proof.
  intros Hb Hsl Hn Hl Ht Ha [Hm1 Hb' Hc Hn' (uevs & Hr & Hk)].
  apply Forall_cons in Hsl as [Hes Hsl].
  pose proof (world_kept _ _ _ _ Hr Hk (mi_clock _ Hm1) (mi_uart _ Hm1) Hl) as K. simpl in K.
  split_and!; [|exact K|lia|done].
  destruct K. split; [done|done|done|congruence|congruence].
Qed.

Lemma load_status ct all es sc m :
  sending ct all (es :: sc) m →
  ∃ m', load 4 (UART_ADDRESS + STATUS) (es :: sc) m = Done (status (uart m)) sc m' ∧
    sending ct all sc m' ∧ tx_kept (uart m) (now m') (uart m') ∧ now m + 1 ≤ now m' ∧ cans m' = cans m.
Proof.
  intros [Hb Hsl Hl Ht Ha].
  destruct (load_uart STATUS es sc m Hb) as (m1 & m' & H & Hst & Hu & Hc & Hn); [set_solver|].
  exists m'. split; [exact H|]. simpl in Hu.
  clear H. destruct (sending_settled ct all es sc m m1 m' Hb Hsl Hn) as (H1 & H2 & H3 & H4);
    [rewrite Hu, Hn; exact Hl|rewrite Hu; exact Ht|rewrite Hu; exact Ha|exact Hst|].
  rewrite Hu in H2. split; [exact H1|]. split; [exact H2|]. split; [exact H3|]. congruence.
Qed.

(** The wait for room: at most as many rounds as nanoseconds to the deadline. *)
Lemma wait_trdy_rounds ct all k rounds sc m :
  sending ct all sc m →
  Z.testbit (status (uart m)) 6 = true ∨
    expire_time (timers (uart m)) tx_timer - now m ≤ Z.of_nat k →
  (S k ≤ length sc)%nat → (S k ≤ rounds)%nat →
  ∃ sc' m',
    until rounds (v ← load 4 (UART_ADDRESS + STATUS); mret (has v TRDY)) sc m = Done () sc' m' ∧
    sending ct all sc' m' ∧ Z.testbit (status (uart m')) 6 = true ∧ cans m' = cans m ∧
    (length sc ≤ length sc' + S k)%nat.
Proof.
  revert rounds sc m. induction k as [|k IH]; intros rounds sc m Hs Hd Hsc Hr;
    (destruct rounds as [|rounds]; [lia|]); (destruct sc as [|es sc]; [simpl in Hsc; lia|]);
    destruct (load_status ct all es sc m Hs) as (m1 & H1 & Hs1 & Hk & Hn & Hc);
    cbn [until]; unfold mbind at 1, guest_bind at 1; unfold mbind at 1, guest_bind at 1;
    rewrite H1; clear H1; unfold mret at 1, guest_ret at 1; rewrite has_TRDY;
    destruct (Z.testbit (status (uart m)) 6) eqn:E6.
  - exists sc, m1. split_and!; try done; [by apply (tk_trdy _ _ _ Hk)|simpl; lia].
  - destruct Hd as [?|Hd]; [done|]. pose proof (tx_busy _ _ (sd_live _ _ _ _ Hs) E6). lia.
  - exists sc, m1. split_and!; try done; [by apply (tk_trdy _ _ _ Hk)|simpl; lia].
  - destruct Hd as [?|Hd]; [done|].
    destruct (IH rounds sc m1 Hs1) as (sc' & m' & H & Hs' & H6 & Hc' & Hl); [|simpl in *; lia..|].
    { destruct (Z.testbit (status (uart m1)) 6) eqn:E6'; [by left|right].
      rewrite (tk_deadline _ _ _ Hk E6'). lia. }
    exists sc', m'. split; [exact H|]. clear H. split_and!; try done; [congruence|simpl in *; lia].
Qed.

Lemma wait_trdy ct all sc m :
  sending ct all sc m → (S (Z.to_nat ct) ≤ length sc)%nat →
  ∃ sc' m', wait_status TRDY sc m = Done () sc' m' ∧
    sending ct all sc' m' ∧ Z.testbit (status (uart m')) 6 = true ∧ cans m' = cans m ∧
    (length sc ≤ length sc' + S (Z.to_nat ct))%nat.
Proof.
  intros Hs Hl. unfold wait_status, poll. apply wait_trdy_rounds; [done| |done|lia]. right.
  pose proof (tl_due _ _ (sd_live _ _ _ _ Hs)). rewrite (sd_time _ _ _ _ Hs) in *.
  lia.
Qed.

Lemma write_txdata_live now val s :
  uart_wf s → clock_ok now → Z.testbit (status s) 6 = true → tx_live now s →
  let s' := uart_write_txdata now val s in
  tx_live now s' ∧ tx_all s' = tx_all s ++ [u8 val] ∧ char_tx_time s' = char_tx_time s.
Proof.
  intros Hs Hn E6 [Hi Hf Hd] s'.
  destruct (write_txdata_refines now val s Hs Hn Hi) as [Ha Hi'].
  pose proof (char_tx_time_bounds s Hs) as Hct.
  assert (char_tx_time s' = char_tx_time s) as Ht.
  { unfold s', uart_write_txdata. simpl. repeat case_if; unfold wait_for_ch_tx_time; simpl;
      autorewrite with uartf; done. }
  split_and!; [|by apply tx_all_put|done].
  assert (now < expire_time (timers s') tx_timer ≤ now + char_tx_time s) as He.
  { unfold s'. destruct (Z.testbit (status s) 5) eqn:E5.
    - destruct (write_txdata_idle now val s E5) as (_ & _ & _ & ->).
      unfold timer_mod. rewrite expire_time_mod, deadline_exact by (done || apply Hs). simpl.
      unfold clock_ok in Hn. lia.
    - destruct (write_txdata_busy now val s E5) as (_ & _ & _ & _ & ->). auto. }
  split; [done|intros _; lia|rewrite Ht; lia].
Qed.

Lemma store_txdata ct all es sc m ch :
  sending ct all (es :: sc) m → Z.testbit (status (uart m)) 6 = true → is_u8 ch →
  ∃ m', store 4 (UART_ADDRESS + TXDATA) ch (es :: sc) m = Done () sc m' ∧
    sending ct (all ++ [ch]) sc m' ∧ cans m' = cans m.
Proof.
  intros [Hb Hsl Hl Ht Ha] E6 Hch.
  destruct (store_uart TXDATA ch es sc m Hb) as (m1 & m' & H & Hst & Hw & Hc & Hn);
    [set_solver|intros [? _]; done|].
  exists m'. split; [exact H|]. clear H.
  destruct (write_txdata_live (now m) (u32 ch) (uart m)) as (H1 & H2 & H3);
    [apply (bo_inv _ _ Hb)|apply (bo_inv _ _ Hb)|exact E6|exact Hl|].
  injection Hw as Hu. rewrite Hu in H1, H2, H3.
  rewrite (wrap_small 32 ch), (wrap_small 8 ch) in H2 by (done || by apply (range_weaken 8)).
  destruct (sending_settled ct (all ++ [ch]) es sc m m1 m' Hb Hsl Hn) as (Hs & _ & _ & Hcc);
    [by rewrite Hn|by rewrite H3|by rewrite H2, Ha|exact Hst|].
  split; [exact Hs|congruence].
Qed.

Lemma printf_sends ct all s sc m :
  sending ct all sc m → Forall (fun ch => 1 ≤ ch < 256) s →
  (length s * (Z.to_nat ct + 2) ≤ length sc)%nat →
  ∃ sc' m', UART_printf (s ++ [0]) sc m = Done () sc' m' ∧ sending ct (all ++ s) sc' m' ∧
    cans m' = cans m ∧ (length sc ≤ length sc' + length s * (Z.to_nat ct + 2))%nat.
Proof.
  intros Hs Hch. revert all sc m Hs. induction Hch as [|ch s Hc0 _ IH]; intros all sc m Hs Hlen.
  { exists sc, m. rewrite app_nil_r. split; [done|]. split_and!; [done..|simpl; lia]. }
  destruct (wait_trdy ct all sc m Hs) as (sc1 & m1 & H1 & Hs1 & E6 & Hc1 & Hl1); [simpl in Hlen; lia|].
  destruct sc1 as [|es sc1]; [simpl in *; lia|].
  destruct (store_txdata ct all es sc1 m1 ch Hs1 E6) as (m2 & H2 & Hs2 & Hc2); [split; simpl; lia|].
  destruct (IH (all ++ [ch]) sc1 m2 Hs2) as (sc3 & m3 & H3 & Hs3 & Hc3 & Hl3); [simpl in *; lia|].
  exists sc3, m3. cbn [UART_printf app]. destruct (Z.eqb_spec ch 0); [lia|].
  unfold mbind at 1, guest_bind at 1. rewrite H1. unfold mbind at 1, guest_bind at 1. rewrite H2.
  split; [exact H3|]. clear H1 H2 H3. rewrite <- app_assoc in Hs3.
  split; [exact Hs3|]. split; [congruence|simpl in *; lia].
Qed.

(** C18.  [UART_printf] terminates and sends the string.  In a world in which
    every access takes at least a nanosecond, a script of as many accesses per
    character as the character time has nanoseconds, plus two, is enough for
    it to return, whatever arrives on the serial line meanwhile; the characters
    the device has sent and still holds are then those of before followed by
    the string, none lost, overrun or reordered, and the CAN controllers are
    untouched. *)
Theorem uart_printf_sends ct all s sc m :
  sending ct all sc m → Forall (fun ch => 1 ≤ ch < 256) s →
  (length s * (Z.to_nat ct + 2) ≤ length sc)%nat →
  ∃ sc' m', UART_printf (s ++ [0]) sc m = Done () sc' m' ∧
    tx_all (uart m') = all ++ s ∧ sending ct (all ++ s) sc' m' ∧ cans m' = cans m.
Proof.
  intros Hs Hch Hlen.
  destruct (printf_sends ct all s sc m Hs Hch Hlen) as (sc' & m' & H & Hs' & Hc & _).
  exists sc', m'. split; [exact H|]. split; [apply Hs'|by split].
Qed.

(** ** Receiving *)

Lemma advance_rx_time now s s' progress :
  uart_wf s → clock_ok now → uart_run_timers now s = Some (s', progress) →
  char_tx_time s' = char_tx_time s ∧
  (rx_timer ∉ (expired now (timers s)).*1 →
   expire_time (timers s') rx_timer = expire_time (timers s) rx_timer).
Proof.
  intros Hs Hn Hrun. split; [by eapply advance_tx_time|].
  intros Hni. cut ((rx_timer ∉ ([] : TimerList timer_id).*1) ∧
    expire_time (timers s') rx_timer = expire_time (timers s) rx_timer); [naive_solver|].
  apply (uart_advance_ind (fun l w => (rx_timer ∉ l.*1) ∧
      expire_time (timers w) rx_timer = expire_time (timers s) rx_timer)
     _ _ _ _ Hs Hn Hrun); [|by split].
  intros w t e rest Hw Hget Hle _ [Hl <-]. pose proof (uwf_timers w Hw) as Hwf. rewrite Hget in Hwf |- *.
  destruct (timers_wf_tail _ _ Hwf) as [Hwf' _]. destruct t; simpl uart_timer_cb.
  - exfalso. apply Hl. csimpl. left.
  - split; [intros Hin; apply Hl; csimpl; by right|].
    destruct (timeout_tx_fields now (set_timers rest w)) as [_ H]. revert H.
    case_if; intros (_ & H1 & H2); [by rewrite H1|rewrite H2].
    unfold timer_mod. by rewrite expire_time_mod by done.
Qed.

(** A character on its way: in the holding register with the shift register
    empty, or still in the shift register and there by [d]. *)
Definition rx_coming (b d now : Z) (s : UartState) : Prop :=
  rx_inv s ∧
  ((rx_holding (rx_abs s) = Some b ∧ rx_shifting (rx_abs s) = None) ∨
   (rx_holding (rx_abs s) = None ∧ rx_shifting (rx_abs s) = Some b ∧
    now < expire_time (timers s) rx_timer ≤ d)).

Lemma advance_coming b d now now' s s' progress :
  uart_wf s → clock_ok now' → rx_coming b d now s →
  uart_run_timers now' s = Some (s', progress) →
  rx_coming b d now' s' ∧ (has (status s) RRDY = true → has (status s') RRDY = true) ∧
  (d ≤ now' → has (status s') RRDY = true).
Proof.
  intros Hs Hn [Hi Hc] Hrun. destruct (advance_rx now' s s' progress Hs Hn Hi Hrun) as [Hi' Ha].
  destruct (advance_rx_time now' s s' progress Hs Hn Hrun) as [_ Hexp].
  assert (∀ u, has (status u) RRDY = bool_decide (is_Some (rx_holding (rx_abs u)))) as Hrr.
  { intros u. rewrite has_RRDY. unfold rx_abs. simpl. by destruct (Z.testbit (status u) 7). }
  rewrite !Hrr. unfold rx_coming. destruct Hc as [[Hh Hsh]|(Hh & Hsh & Hlt & Hle)].
  - assert (rx_abs s' = rx_abs s) as Heq.
    { rewrite Ha. case_decide; [|done]. unfold rx_shift_in. by rewrite Hsh. }
    rewrite Heq, Hh. split; [split; [done|by left]|]. by split.
  - case_decide as Hin; rewrite Ha.
    + unfold rx_shift_in. rewrite Hsh. simpl. split; [split; [done|by left]|]. by split.
    + specialize (Hexp Hin). rewrite Hexp. rewrite in_expired in Hin by apply Hs.
      assert (now' < expire_time (timers s) rx_timer) as Hf.
      { destruct (Z.le_gt_cases (expire_time (timers s) rx_timer) now'); [|lia].
        exfalso. apply Hin. split; [|done]. rewrite Hi. revert Hsh. unfold rx_abs. simpl.
        by destruct (truth (can_receive s)). }
      split; [split; [done|by right]|]. split; [by rewrite Hh|lia].
Qed.

(** Only time passes. *)
Definition quiet_script (sc : script) : Prop :=
  Forall (Forall (fun e => match e with Elapse _ => True | Incoming _ => False end)) sc.

Lemma world_coming b d c es uevs c' :
  uart_run any_event c uevs c' → Forall2 event_matches es uevs →
  Forall (fun e => match e with Elapse _ => True | Incoming _ => False end) es →
  clock_ok c.1 → uart_wf c.2 → rx_coming b d c.1 c.2 →
  rx_coming b d c'.1 c'.2 ∧ (has (status c.2) RRDY = true → has (status c'.2) RRDY = true).
Proof.
  intros Hrun. revert es.
  induction Hrun as [|c u c1 us c2 _ Hs Hr IH]; intros es Hk Hq Hn Hwf Hc; [done|].
  apply Forall2_cons_inv_r in Hk as (e & es' & Hke & Hk & ->). apply Forall_cons in Hq as [He Hq].
  destruct (uart_step_wf _ _ _ Hs Hn Hwf) as [Hn1 Hwf1].
  destruct e; [destruct Hke as [t ->]|done]. destruct c as [n0 u0].
  inversion Hs as [| | | |? ? ? ? p Hle Hok Hadv]; subst; simpl in *.
  destruct (advance_coming b d n0 t _ _ p Hwf Hok Hc Hadv) as (H1 & H2 & _).
  destruct (IH es' Hk Hq Hn1 Hwf1 H1) as [H3 H4]. split; [done|]. auto.
Qed.

Lemma rx_coming_ready b d now s : rx_coming b d now s → d ≤ now → has (status s) RRDY = true.
Proof.
  intros [_ [[Hh _]|(_ & _ & H)]] Hd; [|lia]. rewrite has_RRDY. revert Hh. unfold rx_abs. simpl.
  by destruct (Z.testbit (status s) 7).
Qed.

Lemma rx_coming_read b d now s :
  uart_wf s → rx_coming b d now s → has (status s) RRDY = true → Z.land (rxdata s) 0xFF = b.
Proof.
  intros Hs [_ H]. rewrite has_RRDY. intros E7. unfold rx_abs in H. simpl in H. rewrite E7 in H.
  destruct H as [[[= <-] _]|(? & _)]; [|done].
  change 0xFF with (2 ^ 8 - 1). rewrite land_mask by done. apply wrap_small, Hs.
Qed.

Lemma status_reg : STATUS ∈ uart_regs.
Proof. set_solver. Qed.

Lemma rxdata_reg : RXDATA ∈ uart_regs.
Proof. set_solver. Qed.

(** The wait for a character: at most as many rounds as nanoseconds left. *)
Lemma wait_rrdy_rounds b d k rounds sc m :
  board_ok sc m → Forall (fun es => 1 ≤ slot_time es) sc → quiet_script sc →
  rx_coming b d (now m) (uart m) → d - now m ≤ Z.of_nat k →
  (S k ≤ length sc)%nat → (S k ≤ rounds)%nat →
  ∃ sc' m',
    until rounds (v ← load 4 (UART_ADDRESS + STATUS); mret (has v RRDY)) sc m = Done () sc' m' ∧
    board_ok sc' m' ∧ quiet_script sc' ∧ rx_coming b d (now m') (uart m') ∧
    has (status (uart m')) RRDY = true ∧ (length sc ≤ length sc' + S k)%nat.
Proof.
  revert rounds sc m. induction k as [|k IH]; intros rounds sc m Hb Hsl Hq Hc Hd Hsc Hr;
    (destruct rounds as [|rounds]; [lia|]); (destruct sc as [|es sc]; [simpl in Hsc; lia|]);
    destruct (load_uart STATUS es sc m Hb status_reg) as (m1 & m' & H & Hst & Hu & _ & Hn);
    cbn [until]; unfold mbind at 1, guest_bind at 1; unfold mbind at 1, guest_bind at 1;
    change UART_ADDRESS with UART0_BA; rewrite H; clear H; unfold mret at 1, guest_ret at 1;
    destruct Hst as [Hm1 Hb' Hca Hn' (uevs & Hrun & Hk)]; simpl in Hu;
    apply Forall_cons in Hsl as [Hes Hsl]; apply Forall_cons in Hq as [Hqe Hq];
    rewrite Hu, Hn in Hrun;
    destruct (world_coming b d _ _ _ _ Hrun Hk Hqe (mi_clock _ (bo_inv _ _ Hb))
      (mi_uart _ (bo_inv _ _ Hb)) Hc) as [Hc' Hrr]; simpl in Hc', Hrr;
    change (uart_read STATUS (uart m)).2 with (status (uart m));
    destruct (has (status (uart m)) RRDY) eqn:E7.
  - exists sc, m'. split; [done|]. split_and!; [done..|auto|simpl; lia].
  - rewrite (rx_coming_ready _ _ _ _ Hc) in E7 by lia. done.
  - exists sc, m'. split; [done|]. split_and!; [done..|auto|simpl; lia].
  - destruct (IH rounds sc m' Hb' Hsl Hq Hc') as (sc2 & m2 & H2 & Hb2 & Hq2 & Hc2 & E2 & Hl2);
      [lia|simpl in *; lia..|].
    exists sc2, m2. split; [exact H2|]. clear H2. split_and!; [done..|simpl in *; lia].
Qed.

(** Nothing held and nothing coming. *)
Definition rx_idle (s : UartState) : Prop :=
  rx_inv s ∧ rx_holding (rx_abs s) = None ∧ rx_shifting (rx_abs s) = None.

Lemma rx_coming_taken b d now s :
  rx_coming b d now s → has (status s) RRDY = true → rx_idle (uart_read RXDATA s).1.
Proof.
  intros [Hi H]. rewrite has_RRDY. intros E7. unfold rx_coming, rx_idle, rx_inv, rx_abs in *.
  simpl in *. status_bits. rewrite E7 in H. split; [done|]. split; [done|].
  by destruct H as [[_ ?]|(? & _)].
Qed.

Lemma world_idle c es uevs c' :
  uart_run any_event c uevs c' → Forall2 event_matches es uevs →
  Forall (fun e => match e with Elapse _ => True | Incoming _ => False end) es →
  clock_ok c.1 → uart_wf c.2 → rx_idle c.2 → has (status c'.2) RRDY = false.
Proof.
  intros Hrun. revert es.
  induction Hrun as [c|c u c1 us c2 _ Hs Hr IH]; intros es Hk Hq Hn Hwf (Hi & Hh & Hsh).
  { rewrite has_RRDY. revert Hh. unfold rx_abs. simpl. by destruct (Z.testbit (status c.2) 7). }
  apply Forall2_cons_inv_r in Hk as (e & es' & Hke & Hk & ->). apply Forall_cons in Hq as [He Hq].
  destruct (uart_step_wf _ _ _ Hs Hn Hwf) as [Hn1 Hwf1].
  destruct e; [destruct Hke as [t ->]|done]. destruct c as [n0 u0].
  inversion Hs as [| | | |? ? ? ? p Hle Hok Hadv]; subst; cbn [fst snd] in *.
  apply (IH es'); try done. destruct (advance_rx t _ _ p Hwf Hok Hi Hadv) as [Hi' Ha].
  assert (rx_abs s' = rx_abs u0) as Heq.
  { rewrite Ha. case_decide; [|done]. unfold rx_shift_in. by rewrite Hsh. }
  unfold rx_idle. by rewrite Heq.
Qed.

(** C21.  [UART_getchar] returns the character that is coming in.  When a
    character is held or being shifted in (one character time at most) and
    nothing else arrives, a script of as many accesses as nanoseconds to its
    arrival, plus two, is enough for the call to return exactly that
    character, and the holding register is free again. *)
Theorem uart_getchar_returns b d sc m :
  board_ok sc m → Forall (fun es => 1 ≤ slot_time es) sc → quiet_script sc →
  rx_coming b d (now m) (uart m) → (Z.to_nat (d - now m) + 2 ≤ length sc)%nat →
  ∃ sc' m', UART_getchar sc m = Done b sc' m' ∧ has (status (uart m')) RRDY = false.
Proof.
  intros Hb Hsl Hq Hc Hlen.
  destruct (wait_rrdy_rounds b d (Z.to_nat (d - now m)) (S (length sc)) sc m Hb Hsl Hq Hc)
    as (sc1 & m1 & H1 & Hb1 & Hq1 & Hc1 & E7 & Hl1); [lia..|].
  destruct sc1 as [|es sc1]; [simpl in *; lia|]. apply Forall_cons in Hq1 as [Hqe _].
  destruct (load_uart RXDATA es sc1 m1 Hb1 rxdata_reg) as (m2 & m3 & H2 & Hst & Hu & _ & Hn).
  exists sc1, m3. unfold UART_getchar, wait_status, poll. unfold mbind at 1, guest_bind at 1. rewrite H1.
  unfold mbind at 1, guest_bind at 1. change UART_ADDRESS with UART0_BA. rewrite H2. clear H1 H2.
  change (uart_read RXDATA (uart m1)).2 with (Z.land (rxdata (uart m1)) 0xFF).
  pose proof (mi_uart _ (bo_inv _ _ Hb1)) as Hwf.
  pose proof (rx_coming_read _ _ _ _ Hwf Hc1 E7) as Hrd. rewrite Hrd.
  assert (is_u8 b) as Hb8 by (rewrite <- Hrd; by apply land_range_r). rewrite (wrap_small 8 b) by done.
  split; [done|]. destruct Hst as [Hm2 _ _ _ (uevs & Hrun & Hk)].
  apply (world_idle _ _ _ _ Hrun Hk Hqe (mi_clock _ Hm2) (mi_uart _ Hm2)). simpl. rewrite Hu.
  apply rx_coming_taken with (b := b) (d := d) (now := now m1); done.
Qed.

(** ** On a freshly reset board *)

Lemma boot_tx_live : tx_live 0 boot_uart.
Proof. split; [by split|done|by vm_compute]. Qed.

Lemma script_time_replicate n es : script_time (replicate n es) = Z.of_nat n * slot_time es.
Proof. induction n as [|n IH]; [done|]. cbn [replicate script_time]. rewrite IH. lia. Qed.

Lemma boot_board n es m :
  machine_inv m → now m = 0 → Forall event_ok es → Z.of_nat n * slot_time es < 2 ^ 62 →
  board_ok (replicate n es) m.
Proof.
  intros Hm Hn He Ht. split; [done|by apply Forall_replicate|]. by rewrite script_time_replicate, Hn.
Qed.

Lemma uart_printf_sends_witness :
  ∃ n m sc' m', Z.of_nat n = 400000 ∧ machine_init boot_msp = Ok m ∧
    UART_printf ([72; 105] ++ [0]) (replicate n [Elapse 1; Incoming 65]) m = Done () sc' m' ∧
    tx_all (uart m') = [72; 105].
Proof.
  destruct (machine_init_ok boot_msp) as (m & Hm & Hi & Hnow & _ & Hu).
  assert (∃ n, Z.of_nat n = 400000) as [n Hn] by (exists (Z.to_nat 400000); lia).
  assert (sending 190971 [] (replicate n [Elapse 1; Incoming 65]) m) as Hs.
  { split; [|by apply Forall_replicate| |by rewrite Hu..].
    - apply boot_board; [exact Hi|exact Hnow|by repeat constructor|]. simpl. lia.
    - rewrite Hnow, Hu. exact boot_tx_live. }
  destruct (uart_printf_sends 190971 [] [72; 105] _ m Hs) as (sc' & m' & H & Ha & _).
  - by repeat constructor.
  - rewrite length_replicate. cbn [length]. lia.
  - exists n, m, sc', m'. split; [exact Hn|]. split; [exact Hm|]. split; [exact H|exact Ha].
Defined.

(** A character arrives on the freshly reset board. *)
Lemma uart_getchar_returns_witness :
  ∃ n m m1 sc' m', Z.of_nat n = 200000 ∧ machine_init boot_msp = Ok m ∧
    serial_input 65 m = Ok m1 ∧
    UART_getchar (replicate n [Elapse 1]) m1 = Done 65 sc' m'.
Proof.
  destruct (machine_init_ok boot_msp) as (m & Hm & Hi & Hnow & _ & Hu).
  assert (∃ n, Z.of_nat n = 200000) as [n Hn] by (exists (Z.to_nat 200000); lia).
  destruct (serial_input_ok 65 m Hi ltac:(closed_range)) as (m1 & H1 & Hi1 & Hu1 & Hn1 & _).
  rewrite Hnow in Hn1. rewrite Hnow, Hu in Hu1.
  destruct (uart_getchar_returns 65 190971 (replicate n [Elapse 1]) m1) as (sc' & m' & H & _).
  - apply boot_board; [exact Hi1|exact Hn1|by repeat constructor|]. simpl. lia.
  - by apply Forall_replicate.
  - apply Forall_replicate. by repeat constructor.
  - rewrite Hu1, Hn1. split; [reflexivity|]. right. split; [reflexivity|]. split; [reflexivity|].
    split; vm_compute; congruence.
  - rewrite length_replicate, Hn1. lia.
  - exists n, m, m1, sc', m'. split; [exact Hn|]. split; [exact Hm|]. split; [exact H1|exact H].
Defined.
End UartDrv.
