(* ===== verification/Quiet.v ===== *)
(** Runs of the board in which no device raises its interrupt: what keeps the
    UART and the CAN controllers quiet, and that the accesses of the demo's
    tasks do, with the time that passes, as long as nothing arrives on the
    serial line. *)

From stdpp Require Import gmap.
From S2P Require Import Prelude Irq CanBus CanDev Timer UartDev UartSpec Wiring NvicState NvicCore NvicRead NvicWrite.
From S2P Require Import NvicPrio NvicInv CortexM NvicSpec NvicIrq NvicRegs NvicLevel Memory Mcu Machine Guest.
From S2P Require Import CanDriver UartDriver.
Import CanDrv UartDrv.

(** ** Lines that are only lowered *)

(** The line has been called with level 0 only. *)
Definition lowered (i j : qemu_irq) : Prop := ∃ n, j = (fun l => l ++ replicate n 0) <$> i.

#[export] Instance lowered_preorder : PreOrder lowered.
Proof.
  split.
  - intros [l|]; exists 0%nat; simpl; by rewrite ?app_nil_r.
  - intros i j k [n ->] [n' ->]. exists (n + n')%nat. destruct i as [l|]; [|done]. simpl.
    by rewrite <- app_assoc, <- replicate_add.
Qed.

Lemma lowered_lower i : lowered i (qemu_irq_lower i).
Proof. exists 1%nat. by destruct i. Qed.

Lemma lowered_calls i j : lowered i j → ∃ n, line_calls i j = replicate n 0.
Proof.
  intros [n ->]. destruct i as [l|]; [|by exists 0%nat]. exists n. simpl. by rewrite drop_app_length.
Qed.

(** The controller has nothing to do. *)
Lemma drive_low n k s s' : level (vec s (n + NVIC_FIRST_IRQ)) = 0 → drive n (replicate k 0) s = Ok s' → s' = s.
Proof.
  intros Hl. induction k as [|k IH]; cbn [replicate drive]; [by intros [= <-]|].
  unfold set_irq_level. destruct (_ && _); [|done]. cbn [assert_c]. rewrite bind_Ok, Hl.
  change (negb (0 =? 0)) with false. cbv iota. by rewrite bind_Ok.
Qed.

(** ** The UART *)

(** At most the interrupt of the receive overrun is enabled, there has been no
    overrun, and no character is being received. *)
Record uart_calm (s : UartState) : Prop := {
  uc_control : ∀ i, i ≠ 3 → Z.testbit (UartDev.control s) i = false;
  uc_roe : Z.testbit (status s) 3 = false;
  uc_rx : rx_timer ∉ (timers s).*1
}.

Lemma calm_has c st : (∀ i, i ≠ 3 → Z.testbit c i = false) → Z.testbit st 3 = false → has c st = false.
Proof.
  intros Hc Hs. unfold has. assert (Z.land c st = 0) as ->; [|done]. apply Z.bits_inj'. intros i _.
  rewrite Z.land_spec, Z.bits_0. destruct (decide (i = 3)) as [->|]; [by rewrite Hs, andb_false_r|by rewrite Hc].
Qed.

(** The device is still quiet, and so was its line. *)
Definition uart_stays (s s' : UartState) : Prop := uart_calm s' ∧ lowered (UartDev.irq s) (UartDev.irq s').

Lemma stays_frame s s' : uart_calm s → UartDev.control s' = UartDev.control s → status s' = status s →
  (rx_timer ∉ (timers s').*1) → UartDev.irq s' = UartDev.irq s → uart_stays s s'.
Proof. intros [] H1 H2 H3 H4. split; [split; by rewrite ?H1, ?H2|by rewrite H4]. Qed.

Lemma stays_set s b : uart_calm s → Z.testbit b 3 = false → uart_stays s (UartDev.set_status_bit s b).
Proof.
  intros [Hc Hr Ht] Hb. rewrite set_status_bit_eq. assert (Z.testbit (status_set (status s) b) 3 = false) as H3
    by (rewrite status_set_spec by lia; by rewrite Hr, Hb).
  split; [by split|]. simpl. by rewrite (calm_has (UartDev.control s)).
Qed.

Lemma stays_reset s b : uart_calm s → uart_stays s (UartDev.reset_status_bit s b).
Proof.
  intros [Hc Hr Ht]. rewrite reset_status_bit_eq. assert (Z.testbit (Z.land (status s) (not32 b)) 3 = false) as H3
    by (by rewrite Z.land_spec, Hr).
  split; [by split|]. simpl. rewrite (calm_has (UartDev.control s)) by done. apply lowered_lower.
Qed.

Lemma stays_then s s1 s2 : uart_stays s s1 → (uart_calm s1 → uart_stays s1 s2) → uart_stays s s2.
Proof. intros [H1 L1] H2. destruct (H2 H1) as [Hc L2]. split; [done|by etrans]. Qed.

Lemma stays_wait now s : uart_calm s → uart_stays s (wait_for_ch_tx_time now s tx_timer).
Proof.
  intros Hs. apply stays_frame; try done. unfold wait_for_ch_tx_time, timer_mod, timer_mod_ns. simpl.
  intros ([t e] & Ht & Hin)%list_elem_of_fmap. apply timer_mod_locked_elem in Hin as [[= -> _]|Hin%timer_del_sub]; [done|].
  apply (uc_rx s Hs). apply list_elem_of_fmap. by exists (t, e).
Qed.

(** The shift register is loaded and its timer armed. *)
Lemma stays_shift now s : uart_calm s →
  uart_stays s (wait_for_ch_tx_time now ((UartDev.set_status_bit (UartDev.reset_status_bit s TMT) TRDY)
    <| tx_shift_register := u8 (txdata (UartDev.set_status_bit (UartDev.reset_status_bit s TMT) TRDY)) |>) tx_timer).
Proof.
  intros Hs. eapply stays_then; [by apply stays_reset|]. intros H1.
  eapply stays_then; [by apply (stays_set _ TRDY)|]. intros H2.
  eapply stays_then; [|intros H3; by apply stays_wait]. apply stays_frame; try done. apply H2.
Qed.

Lemma stays_timeout_tx now s : uart_calm s → uart_stays s (timeout_tx now s).
Proof.
  intros Hs. unfold timeout_tx. cbv zeta.
  assert (uart_stays s (s <| chr ::= fun l => l ++ [ChrWrite (tx_shift_register s)] |>)) as H1
    by (apply stays_frame; try done; apply Hs).
  eapply stays_then; [exact H1|]. intros Hs1.
  destruct (negb _); [by apply stays_shift|by apply stays_set].
Qed.

Lemma stays_write_txdata now val s : uart_calm s → uart_stays s (uart_write_txdata now val s).
Proof.
  intros Hs. unfold uart_write_txdata. cbv zeta.
  assert (uart_stays s (s <| txdata := u32 val |>)) as H1 by (apply stays_frame; try done; apply Hs).
  eapply stays_then; [exact H1|]. intros Hs1.
  destruct (has _ TMT); [by apply stays_shift|]. destruct (negb _); [by apply stays_set|by apply stays_reset].
Qed.

Lemma stays_read off s : uart_calm s → uart_stays s (uart_read off s).1.
Proof. intros Hs. unfold uart_read. repeat case_if; simpl; try (by split). by apply stays_reset. Qed.

(** ** The CAN controllers *)

(** No interrupt is enabled. *)
Definition can_stays (s s' : CanState) : Prop := ier s' = ier s ∧ lowered (CanDev.irq s) (CanDev.irq s').

#[export] Instance can_stays_preorder : PreOrder can_stays.
Proof. split; [by split|]. intros s1 s2 s3 [H1 L1] [H2 L2]. split; [congruence|by etrans]. Qed.

Lemma can_stays_set s b : ier s = 0 → can_stays s (CanDev.set_status_bit s b).
Proof.
  intros Hi. unfold CanDev.set_status_bit. rewrite CanDev.check_and_set_interrupt_spec. simpl. rewrite Hi. by split.
Qed.

Lemma can_stays_reset s b : ier s = 0 → can_stays s (CanDev.reset_status_bit s b).
Proof.
  intros Hi. unfold CanDev.reset_status_bit. rewrite CanDev.check_and_clear_interrupt_spec. simpl. rewrite Hi. cbn.
  split; [done|apply lowered_lower].
Qed.

Lemma can_stays_receive f s : ier s = 0 → can_stays s (CanDev.can_receive f s).1.
Proof.
  intros Hi. unfold CanDev.can_receive. cbv zeta. cbn [fst].
  set (s1 := if has (sr s) RBS then CanDev.set_status_bit s DOS else s).
  assert (can_stays s s1) as H1 by (unfold s1; case_if; [by apply can_stays_set|done]).
  set (s2 := s1 <| rid := _ |> <| rfi := _ |> <| rda := 0 |> <| rdb := 0 |>).
  assert (can_stays s (for_range 0 (Z.min (can_dlc f) 8) (receive_byte (fdata f)) s2)) as H2.
  { destruct (Z.le_gt_cases 0 (Z.min (can_dlc f) 8)) as [Hn|]; [|by rewrite for_range_nil by lia].
    apply (for_range_ind (fun _ y => can_stays s y)); [done|exact H1|].
    intros i y _ Hy. etrans; [exact Hy|]. unfold receive_byte. by case_if. }
  etrans; [exact H2|]. apply can_stays_set. by rewrite (proj1 H2).
Qed.

Definition cans_calm (devs : devices) : Prop := ∀ c s, devs !! c = Some s → ier s = 0.

Definition cans_stay (devs devs' : devices) : Prop :=
  ∀ c, option_Forall2 can_stays (devs !! c) (devs' !! c).

#[export] Instance cans_stay_preorder : PreOrder cans_stay.
Proof.
  split.
  - intros d c. by destruct (d !! c); constructor.
  - intros d1 d2 d3 H12 H23 c. specialize (H12 c). specialize (H23 c).
    destruct H12; inversion H23; subst; constructor. by etrans.
Qed.

Lemma stay_calm devs devs' : cans_calm devs → cans_stay devs devs' → cans_calm devs'.
Proof.
  intros Hd Hs c s' Hc. specialize (Hs c). rewrite Hc in Hs. inversion Hs as [s ? [Hi _] E|]; subst.
  rewrite Hi. by apply (Hd c).
Qed.

Lemma stay_line devs devs' c : cans_stay devs devs' → lowered (can_line devs c) (can_line devs' c).
Proof. intros H. unfold can_line. destruct (H c) as [s s' [_ Hl]|]; [exact Hl|done]. Qed.

Lemma alter_stays f c devs : cans_calm devs → (∀ s, ier s = 0 → can_stays s (f s)) → cans_stay devs (alter f c devs).
Proof.
  intros Hd Hf k. rewrite lookup_alter. case_decide as Hk.
  - subst. destruct (devs !! k) as [s|] eqn:E; constructor. apply Hf. by apply (Hd k).
  - by destruct (devs !! k); constructor.
Qed.

Lemma send_stays net client fs devs : cans_calm devs → cans_stay devs (can_bus_client_send net client fs devs).1.
Proof.
  intros Hd. unfold can_bus_client_send. destruct (client_bus net !! client) as [bus|]; [|done].
  assert (∀ acc : devices * Z, cans_calm acc.1 → cans_stay acc.1
    (fold_left (send_to_peer client fs) (clients_of net bus) acc).1) as H; [|by apply (H (devs, 0))].
  induction (clients_of net bus) as [|peer queue IH]; intros [d ret] Hc; [done|]. cbn [fold_left fst] in *.
  assert (cans_stay d (send_to_peer client fs (d, ret) peer).1) as H1.
  { unfold send_to_peer. simpl. destruct (d !! peer) as [x|] eqn:Hp; [|done]. case_decide; [done|].
    destruct (match fs with [] => _ | _ => _ end) as [x' cnt] eqn:Hr. simpl.
    intros k. rewrite lookup_insert. case_decide as Hk; [|by destruct (d !! k); constructor].
    subst k. rewrite Hp. constructor. destruct fs as [|f fs]; injection Hr as <- _; [done|].
    by apply can_stays_receive, (Hc peer). }
  etrans; [exact H1|]. apply IH. by eapply stay_calm.
Qed.

(** The frame and command registers of a calm controller. *)
Lemma stages_stay net client addr val f devs : addr ≠ IER → cans_calm devs →
  f ∈ Can.can_write_stages net client addr val → cans_stay devs (f devs).
Proof.
  intros Ha Hd.
  assert (∀ d b m, cans_calm d → cans_stay d (alter (fun s => (CanDev.reset_status_bit s b) <| cmr ::= m |>) client d)) as Hr.
  { intros d b m Hc. apply alter_stays; [done|]. intros s Hs. by apply (can_stays_reset s b). }
  assert (∀ v, cans_stay devs (Can.cmr_commands v client devs)) as Hcmr.
  { intros v. unfold Can.cmr_commands. cbv zeta.
    set (d1 := if has v RRB then _ else devs). assert (cans_stay devs d1) as H1 by (unfold d1; case_if; [by apply Hr|done]).
    set (d2 := if has v CDO then _ else d1).
    assert (cans_stay devs d2) as H2
      by (unfold d2; case_if; [etrans; [exact H1|]; apply Hr; by eapply stay_calm|done]).
    assert (cans_stay devs (alter (fun s => s <| cmr ::= fun r => Z.land r (not32 TR) |>) client d2)) as H3
      by (etrans; [exact H2|]; apply alter_stays; [by eapply stay_calm|done]).
    etrans; [exact H3|]. apply alter_stays; [by eapply stay_calm|]. intros s Hs. by apply can_stays_reset. }
  unfold Can.can_write_stages. destruct ((addr =? CMR) && has val TR) eqn:Hc; intros Hf.
  - repeat (apply elem_of_cons in Hf as [->|Hf]); [auto| | |by apply elem_of_nil in Hf].
    + unfold Can.send_frame. destruct (devs !! client); [by apply send_stays|done].
    + apply alter_stays; [done|]. intros s Hs. by apply can_stays_set.
  - apply list_elem_of_singleton in Hf as ->. unfold can_write, can_write_cmr.
    repeat match goal with |- context [if ?b then _ else _] => destruct b eqn:? end; try done;
      try (by apply alter_stays); try (by apply Hr); try lia.
    etrans; [by apply Hr|]. apply Hr. eapply stay_calm; [exact Hd|]. by apply Hr.
Qed.

(** ** The machine *)

(** The devices have no interrupt to raise. *)
Record calm (m : Machine) : Prop := {
  ca_uart : uart_calm (uart m);
  ca_cans : cans_calm (cans m)
}.

(** From [m] to [m'] the devices have called their inputs of the interrupt
    controller with level 0 only, and its interrupts are as they were. *)
Record undisturbed (m m' : Machine) : Prop := {
  un_uart : lowered (UartDev.irq (uart m)) (UartDev.irq (uart m'));
  un_cans : ∀ c, lowered (can_line (cans m) c) (can_line (cans m') c);
  un_interrupts : ∀ i, NVIC_FIRST_IRQ ≤ i → vec (nvic m') i = vec (nvic m) i
}.

#[export] Instance undisturbed_preorder : PreOrder undisturbed.
Proof.
  split; [by split|]. intros m1 m2 m3 [U1 C1 V1] [U2 C2 V2].
  split; [by etrans|intros c; etrans; [apply C1|apply C2]|intros i Hi; by rewrite V2, V1].
Qed.

(** The inputs are low. *)
Definition low_inputs (m : Machine) : Prop :=
  level (vec (nvic m) (UART0_IRQn + NVIC_FIRST_IRQ)) = 0 ∧ level (vec (nvic m) (CAN0_IRQn + NVIC_FIRST_IRQ)) = 0 ∧
  level (vec (nvic m) (CAN1_IRQn + NVIC_FIRST_IRQ)) = 0.

Lemma calm_levels m : machine_inv m → calm m → low_inputs m.
Proof.
  intros Hm [[Hc Hr _] Hd]. unfold low_inputs. destruct (mi_connected m Hm) as [_ (-> & -> & ->)].
  rewrite (uwf_line _ (mi_uart m Hm)). unfold UartDev.line_condition. rewrite calm_has by done. split; [done|].
  assert (∀ c, irq_level (can_line (cans m) c) = 0) as Hl; [|by rewrite !Hl].
  intros c. unfold can_line. destruct (cans m !! c) as [s|] eqn:E; [|done].
  destruct (mi_cans m Hm c s E) as [_ ->]. unfold receive_interrupt. by rewrite (Hd c s E).
Qed.

Lemma set_uart_calm u m m' : low_inputs m → calm m → uart_stays (uart m) u → set_uart u m = Ok m' →
  m' = m <| uart := u |> ∧ calm m' ∧ undisturbed m m'.
Proof.
  intros (Hlev & _) Hc [Hu Hl] Hs. unfold set_uart in Hs.
  destruct (lowered_calls _ _ Hl) as [n Hn]. rewrite Hn in Hs.
  destruct (drive UART0_IRQn (replicate n 0) (nvic m)) as [s'|] eqn:E; [|done].
  apply drive_low in E as ->; [|done]. rewrite bind_Ok in Hs. injection Hs as <-.
  split; [by destruct m|]. split; [split; [done|apply Hc]|by split].
Qed.

Lemma set_cans_calm devs m m' : low_inputs m → calm m → cans_stay (cans m) devs → set_cans devs m = Ok m' →
  m' = m <| cans := devs |> ∧ calm m' ∧ undisturbed m m'.
Proof.
  intros (_ & Hl0 & Hl1) Hc Hd Hs. unfold set_cans in Hs.
  destruct (lowered_calls _ _ (stay_line _ _ 0 Hd)) as [n0 Hn0]. rewrite Hn0 in Hs.
  destruct (lowered_calls _ _ (stay_line _ _ 1 Hd)) as [n1 Hn1]. rewrite Hn1 in Hs.
  destruct (drive CAN0_IRQn (replicate n0 0) (nvic m)) as [s'|] eqn:E; [|done].
  apply drive_low in E as ->; [|done]. rewrite bind_Ok in Hs.
  destruct (drive CAN1_IRQn (replicate n1 0) (nvic m)) as [s'|] eqn:E; [|done].
  apply drive_low in E as ->; [|done]. rewrite bind_Ok in Hs. injection Hs as <-.
  split; [by destruct m|]. split; [split; [apply Hc|simpl; eapply stay_calm; [apply Hc|done]]|].
  split; [done|intros c; by apply stay_line|done].
Qed.

Lemma run_stages_calm stages m m' : low_inputs m → calm m →
  (∀ f devs, cans_calm devs → f ∈ stages → cans_stay devs (f devs)) → run_stages stages m = Ok m' →
  now m' = now m ∧ calm m' ∧ undisturbed m m'.
Proof.
  revert m. induction stages as [|f stages IH]; intros m Hl Hc Hf Hr; [by injection Hr as <-|]. cbn [run_stages] in Hr.
  destruct (set_cans (f (cans m)) m) as [m1|] eqn:E; [|done]. rewrite bind_Ok in Hr.
  destruct (set_cans_calm _ _ _ Hl Hc (Hf f _ (ca_cans m Hc) ltac:(left)) E) as (Hm1 & Hc1 & Hu1).
  destruct (IH m1) as (Hn & Hc' & Hu'); [|done| |done|].
  - unfold low_inputs. by rewrite !(un_interrupts _ _ Hu1).
  - intros g devs Hd Hg. apply Hf; [done|by right].
  - split; [by rewrite Hn, Hm1|]. split; [done|by etrans].
Qed.

(** Time passes. *)
Lemma fire_uart_calm m m' : low_inputs m → calm m → fire_uart m = Ok m' → calm m' ∧ undisturbed m m'.
Proof.
  intros Hl Hc Hf. unfold fire_uart in Hf. destruct (timers (uart m)) as [|[id e] rest] eqn:E; [by injection Hf as <-|].
  destruct (ca_uart m Hc) as [Hk Hr Hx]. rewrite E in Hx.
  assert (id = tx_timer) as -> by (destruct id; [exfalso; apply Hx; left|done]).
  apply set_uart_calm in Hf as (_ & Hc' & Hu'); [done|done|done|].
  eapply stays_then; [apply (stays_frame _ (set_timers rest (uart m))); try done; [by split; rewrite ?E|]|].
  - intros Hin. apply Hx. by right.
  - intros Hs. by apply stays_timeout_tx.
Qed.

Lemma run_timers_calm fuel m m' : machine_inv m → calm m → run_timers fuel m = Ok m' → calm m' ∧ undisturbed m m'.
Proof.
  revert m. induction fuel as [|fuel IH]; intros m Hm Hc Hr; [done|]. cbn [run_timers] in Hr.
  destruct (systick_first m).
  - destruct (due_by (now m) (systick_due m)) eqn:Hd; [|by injection Hr as <-].
    destruct (fire_systick_ok m Hm Hd) as (m1 & H1 & Hm1 & _ & Hca & Hu & _ & Hv). rewrite H1, bind_Ok in Hr.
    assert (undisturbed m m1) as Hu1 by (split; [by rewrite Hu|by rewrite Hca|done]).
    destruct (IH m1 Hm1) as [Hc' Hu']; [destruct Hc; split; by rewrite ?Hu, ?Hca|done|]. split; [done|by etrans].
  - destruct (due_by (now m) (uart_due m)) eqn:Hd; [|by injection Hr as <-].
    destruct (fire_uart_ok m Hm Hd) as (m1 & a & H1 & Hm1 & _). rewrite H1, bind_Ok in Hr.
    destruct (fire_uart_calm m m1 (calm_levels m Hm Hc) Hc H1) as [Hc1 Hu1].
    destruct (IH m1 Hm1 Hc1 Hr) as [Hc' Hu']. split; [done|by etrans].
Qed.

(** Nothing arrives on the serial line. *)
Definition elapses (e : world_event) : Prop := if e is Elapse _ then True else False.
Definition silent (sc : script) : Prop := Forall (Forall elapses) sc.

Lemma world_calm es m m' : machine_inv m → calm m → Forall event_ok es → Forall elapses es →
  now m + slot_time es < 2 ^ 62 → world es m = Ok m' → calm m' ∧ undisturbed m m'.
Proof.
  intros Hm Hc He. revert m Hm Hc. induction He as [|e es He Hes IH]; intros m Hm Hc Hel Ht Hw; [by injection Hw as <-|].
  apply Forall_cons in Hel as [Hel Hels]. pose proof (slot_time_nonneg es Hes). destruct e as [dt|ch]; [|done].
  cbn [world happen slot_time event_time event_ok] in *. pose proof (mi_clock m Hm) as Hck.
  assert (clock_ok (now m + dt)) as Hok by (destruct Hck; split; lia).
  destruct (advance_ok (now m + dt) m Hm) as (m1 & H1 & Hm1 & Hn1 & _); [lia|done|]. rewrite H1, bind_Ok in Hw.
  assert (machine_inv (m <| now := now m + dt |>)) as Hm0.
  { destruct Hm. split; try done. apply (SysTickSpec.systick_later true (now m)); [done|simpl; lia]. }
  destruct (run_timers_calm (timer_rounds (m <| now := now m + dt |>)) _ m1 Hm0) as [Hc1 Hu1]; [by destruct Hc|exact H1|].
  destruct (IH m1 Hm1 Hc1 Hels) as [Hc' Hu']; [rewrite Hn1; lia|done|]. split; [done|].
  etrans; [|exact Hu']. by destruct Hu1.
Qed.

(** ** Guest programs *)

(** A state of the board from which the world is silent and the devices calm. *)
Record peaceful (sc : script) (m : Machine) : Prop := {
  pe_board : board_ok sc m;
  pe_silent : silent sc;
  pe_calm : calm m
}.

(** A program that leaves no interrupt behind if it completes. *)
Definition keeps_calm {A} (p : guest_prog A) : Prop := ∀ sc m a sc' m',
  peaceful sc m → p sc m = Done a sc' m' → peaceful sc' m' ∧ undisturbed m m'.

Lemma calm_ret {A} (a : A) : keeps_calm (mret a).
Proof. intros sc m a' sc' m' Hp [= <- <- <-]. done. Qed.

Lemma calm_bind {A B} (p : guest_prog A) (k : A → guest_prog B) :
  keeps_calm p → (∀ a, keeps_calm (k a)) → keeps_calm (p ≫= k).
Proof.
  intros Hp Hk sc m b sc' m' Hs H. unfold mbind, guest_bind in H. destruct (p sc m) as [a sc1 m1| | |] eqn:E; try done.
  destruct (Hp _ _ _ _ _ Hs E) as [Hs1 U1]. destruct (Hk a _ _ _ _ _ Hs1 H) as [Hs2 U2]. split; [done|by etrans].
Qed.

Lemma calm_until n (body : guest_prog bool) : keeps_calm body → keeps_calm (until n body).
Proof.
  intros Hb. induction n as [|n IH]; [done|]. cbn [until].
  change (keeps_calm (b ← body; if (b : bool) then mret () else until n body)).
  apply calm_bind; [done|]. intros []; [apply calm_ret|done].
Qed.

Lemma calm_poll (body : guest_prog bool) : keeps_calm body → keeps_calm (poll body).
Proof. intros Hb sc m. exact (calm_until _ body Hb sc m). Qed.

Lemma settle_calm {A} (a a' : A) es sc sc' m m1 m' : peaceful (es :: sc) m →
  machine_inv m1 → now m1 = now m → calm m1 → undisturbed m m1 → settle a es sc m1 = Done a' sc' m' →
  peaceful sc' m' ∧ undisturbed m m'.
Proof.
  intros [Hb Hsi Hc] Hi1 Hn Hc1 Hu1 H. apply Forall_cons in Hsi as [Hes Hsc].
  destruct (settle_ok a es sc m m1 Hb Hi1 Hn) as (m2 & H2 & Hst). rewrite H2 in H. injection H as <- <- <-.
  unfold settle in H2. destruct (world es m1) as [w|] eqn:Hw; [|done]. injection H2 as ->.
  destruct Hb as [Hi He Ht]. apply Forall_cons in He as [He Hesc]. cbn [script_time] in Ht.
  pose proof (script_time_nonneg sc Hesc).
  destruct (world_calm es m1 m2 Hi1 Hc1 He Hes) as [Hc2 Hu2]; [lia|done|].
  split; [|by etrans]. split; [apply Hst|done|done].
Qed.

Lemma calm_load_uart off : off ∈ uart_regs → keeps_calm (load 4 (UART0_BA + off)).
Proof.
  intros Ho [|es sc] m a sc' m' Hp H; [done|]. unfold load in H. pose proof (bo_inv _ _ (pe_board _ _ Hp)) as Hi.
  pose proof (calm_levels m Hi (pe_calm _ _ Hp)) as Hl.
  destruct (io_read_spec 4 (UART0_BA + off) guest m Hi eq_refl) as (r & Hr & Hg). rewrite Hr in H.
  destruct r as [[m1 v]| |]; [|done..]. specialize (Hg (m1, v) eq_refl). cbn [fst] in Hg.
  unfold io_read in Hr. rewrite uart_region in Hr by done. unfold read_region in Hr.
  destruct (set_uart (uart_read off (uart m)).1 m) as [m2|] eqn:E; [|done]. rewrite !bind_Ok in Hr. injection Hr as -> _.
  destruct (set_uart_calm _ _ _ Hl (pe_calm _ _ Hp) (stays_read off _ (ca_uart _ (pe_calm _ _ Hp))) E) as (Hm1 & Hc1 & Hu1).
  eapply (settle_calm _ _ es sc sc' m m1 m'); [exact Hp|exact Hg|by rewrite Hm1|exact Hc1|exact Hu1|exact H].
Qed.

Lemma calm_store_txdata val : keeps_calm (store 4 (UART0_BA + TXDATA) val).
Proof.
  intros [|es sc] m a sc' m' Hp H; [done|]. unfold store in H. pose proof (bo_inv _ _ (pe_board _ _ Hp)) as Hi.
  pose proof (calm_levels m Hi (pe_calm _ _ Hp)) as Hl.
  destruct (io_write 4 (UART0_BA + TXDATA) val guest m) as [r|] eqn:Hr; [|done]. destruct r as [m1| |]; [|done..].
  unfold io_write in Hr. rewrite uart_region in Hr by (right; left). unfold write_region in Hr.
  change (uart_write (now m) TXDATA ?v (uart m)) with (Ok (uart_write_txdata (now m) v (uart m))) in Hr. rewrite bind_Ok in Hr.
  set (u := uart_write_txdata _ _ _) in *. destruct (set_uart u m) as [m2|] eqn:E; [|done].
  rewrite bind_Ok in Hr. injection Hr as ->.
  destruct (set_uart_calm u _ _ Hl (pe_calm _ _ Hp) (stays_write_txdata _ _ _ (ca_uart _ (pe_calm _ _ Hp))) E) as (Hm1 & Hc1 & Hu1).
  eapply (settle_calm _ _ es sc sc' m m1 m'); [exact Hp| |by rewrite Hm1|exact Hc1|exact Hu1|exact H].
  destruct (set_uart_ok u m (mi_connected m Hi)) as (m3 & H3 & Hco & Hu & Hca & Hn & Hnow & Hk).
  { apply (Uart.write_extends (now m) TXDATA (u32 val) (uart m) u eq_refl). }
  rewrite E in H3. injection H3 as <-. apply (inv_set_uart m); try done. rewrite Hu.
  apply (uart_write_wf (now m) TXDATA (u32 val) (uart m)); [apply Hi|reflexivity].
Qed.

Lemma calm_load_can c off : (c < 2)%nat → off ∈ can_regs → keeps_calm (load 4 (can_ba c + off)).
Proof.
  intros Hc Ho [|es sc] m a sc' m' Hp H; [done|]. unfold load in H. pose proof (bo_inv _ _ (pe_board _ _ Hp)) as Hi.
  destruct (io_read 4 (can_ba c + off) guest m) as [r|] eqn:Hr; [|done]. destruct r as [[m1 v]| |]; [|done..].
  assert (m1 = m) as ->.
  { unfold io_read in Hr. rewrite can_region in Hr by done. destruct c as [|[|c]]; [| |lia]; unfold read_region in Hr; simpl in Hr;
      (destruct (cans m !! _); simpl in Hr; [by injection Hr as -> _|done]). }
  by eapply settle_calm; [exact Hp|exact Hi|done|apply Hp|done|exact H].
Qed.

Lemma calm_store_can c off val : (c < 2)%nat → off ∈ can_regs → off ≠ IER → keeps_calm (store 4 (can_ba c + off) val).
Proof.
  intros Hc Ho Hne [|es sc] m a sc' m' Hp H; [done|]. unfold store in H. pose proof (bo_inv _ _ (pe_board _ _ Hp)) as Hi.
  destruct (io_write 4 (can_ba c + off) val guest m) as [r|] eqn:Hr; [|done]. destruct r as [m1| |]; [|done..].
  assert (run_stages (Can.can_write_stages (net m) c off (u32 val)) m = Ok m1) as E.
  { unfold io_write in Hr. rewrite can_region in Hr by done. change (wrap (8 * 4) val) with (u32 val) in Hr.
    destruct c as [|[|c]]; [rewrite decide_True in Hr by done|rewrite decide_False in Hr by done|lia]; unfold write_region in Hr;
      (destruct (run_stages _ m) as [m2|] eqn:E; [|done]; rewrite bind_Ok in Hr; by injection Hr as ->). }
  destruct (run_stages_calm _ m m1 (calm_levels m Hi (pe_calm _ _ Hp)) (pe_calm _ _ Hp)
    (fun f devs Hd => stages_stay (net m) c off (u32 val) f devs Hne Hd) E) as (Hn & Hc1 & Hu1).
  eapply (settle_calm _ _ es sc sc' m m1 m'); [exact Hp| |exact Hn|exact Hc1|exact Hu1|exact H].
  destruct (can_write_ok c off (u32 val) m (mi_connected m Hi)) as (m2 & H2 & Hco & Hca & Hu & Hnet & Hnow & Hk).
  rewrite E in H2. injection H2 as <-.
  apply (inv_set_cans m); try done; rewrite Hca; [apply can_write_extends|apply can_write_wf, Hi].
Qed.

Lemma calm_store_or c off val : (c < 2)%nat → off ∈ can_regs → off ≠ IER → keeps_calm (store_or 4 (can_ba c + off) val).
Proof. intros Hc Ho Hne. apply calm_bind; [by apply calm_load_can|]. intros v. by apply calm_store_can. Qed.

(** ** The functions of the drivers *)

Lemma calm_wait_status b : keeps_calm (wait_status b).
Proof.
  apply calm_poll, calm_bind; [apply calm_load_uart; do 2 right; left|]. intros v. apply calm_ret.
Qed.

Lemma calm_printf s : keeps_calm (UART_printf s).
Proof.
  induction s as [|ch s IH]; cbn [UART_printf]; [apply calm_ret|]. destruct (ch =? 0); [apply calm_ret|].
  apply calm_bind; [apply calm_wait_status|]. intros _. apply calm_bind; [apply calm_store_txdata|]. by intros _.
Qed.

Lemma calm_getchar : keeps_calm UART_getchar.
Proof.
  apply calm_bind; [apply calm_wait_status|]. intros _.
  apply calm_bind; [apply calm_load_uart; left|]. intros v. apply calm_ret.
Qed.

Lemma calm_CAN_write c id data dlc ext rtr : (c < 2)%nat → keeps_calm (CAN_write (Z.of_nat c) id data dlc ext rtr).
Proof.
  intros Hc. rewrite CAN_write_eq by done. unfold write_frame.
  apply calm_bind; [apply calm_store_can; [done|set_solver|done]|intros _].
  apply calm_bind; [apply calm_store_can; [done|set_solver|done]|intros _].
  apply calm_bind; [apply calm_store_can; [done|set_solver|done]|intros _].
  apply calm_store_can; [done|set_solver|done].
Qed.

Lemma calm_CAN_transmit c : (c < 2)%nat → keeps_calm (CAN_transmit (Z.of_nat c)).
Proof. intros Hc. rewrite CAN_transmit_eq by done. apply calm_store_or; [done|set_solver|done]. Qed.

Lemma calm_CAN_has_received c : (c < 2)%nat → keeps_calm (CAN_has_received (Z.of_nat c)).
Proof.
  intros Hc. assert (CAN_has_received (Z.of_nat c) =
    (v ← load 4 (can_ba c + SR); mret (if has v RBS then 1 else 0))) as ->
    by (destruct c as [|[|c]]; [reflexivity|reflexivity|lia]).
  apply calm_bind; [apply calm_load_can; [done|set_solver]|]. intros v. apply calm_ret.
Qed.

Lemma calm_read_bytes c is_ data : (c < 2)%nat → keeps_calm (read_bytes (can_ba c) is_ data).
Proof.
  intros Hc. revert data. induction is_ as [|i is_ IH]; intros data; cbn [read_bytes]; [apply calm_ret|].
  apply calm_bind; [|intros data'; apply IH]. unfold read_byte.
  destruct (i <? 4); (apply calm_bind; [apply calm_load_can; [done|set_solver]|]; intros v; apply calm_ret).
Qed.

Lemma calm_CAN_read_data c data : (c < 2)%nat → keeps_calm (CAN_read_data (Z.of_nat c) data).
Proof.
  intros Hc. assert (CAN_read_data (Z.of_nat c) data =
    (v ← load 4 (can_ba c + RFI);
     data ← read_bytes (can_ba c) (seqZ 0 (Z.min (dlc_of v) 8)) data;
     mret (dlc_of v, data))) as -> by (destruct c as [|[|c]]; [reflexivity|reflexivity|lia]).
  apply calm_bind; [apply calm_load_can; [done|set_solver]|]. intros v.
  apply calm_bind; [by apply calm_read_bytes|]. intros d. apply calm_ret.
Qed.

Lemma calm_CAN_command c cmd : (c < 2)%nat → keeps_calm (CAN_command (Z.of_nat c) cmd).
Proof.
  intros Hc. assert (CAN_command (Z.of_nat c) cmd = store_or 4 (can_ba c + CMR) cmd) as ->
    by (destruct c as [|[|c]]; [reflexivity|reflexivity|lia]).
  apply calm_store_or; [done|set_solver|done].
Qed.
