(* ===== verification/DemoApp.v ===== *)
(** The demo application (Demo/main.c): four tasks that hand a message from the
    serial line over the CAN bus and back to the serial line, taking turns by
    four binary semaphores.

    The tasks are lists of statements; the scheduler may run any statement of
    any task that is not blocked.  The semaphores are FreeRTOS's: what the
    application relies on is the class [BinarySemaphore].  The steps of the
    application are those of its tasks; the interrupt handlers are programs of
    their own, and where a theorem is about what the UART sends it shows that no
    device raised its interrupt, so that none of them ran. *)

From stdpp Require Import gmap strings.
From Stdlib Require Import Ascii.
From S2P Require Import Prelude Irq CanBus CanDev Timer UartDev UartSpec Wiring NvicState NvicCore.
From S2P Require Import NvicInv Memory Mcu Machine Guest CanDriver UartDriver Quiet.
Import CanDrv UartDrv.

(** ** The semaphores *)

(** The documented behaviour of a binary semaphore: it is created empty, a give
    makes it available, a take succeeds exactly when it is available and
    empties it; a take that does not succeed blocks (portMAX_DELAY). *)
Class BinarySemaphore (sem : Type) := {
  sem_available : sem → bool;
  xSemaphoreCreateBinary : sem;
  xSemaphoreGive : sem → sem;
  xSemaphoreTake : sem → option sem;
  create_empty : sem_available xSemaphoreCreateBinary = false;
  give_available s : sem_available (xSemaphoreGive s) = true;
  take_available s : sem_available s = true → ∃ s', xSemaphoreTake s = Some s' ∧ sem_available s' = false;
  take_blocks s : sem_available s = false → xSemaphoreTake s = None
}.

(** ** Strings *)

Fixpoint chars (s : string) : list Z :=
  match s with
  | EmptyString => []
  | String c s => Z.of_N (N_of_ascii c) :: chars s
  end.

(** The bytes of a string literal that ends in a newline, without the
    terminator. *)
Definition line (s : string) : list Z := chars s ++ [10].

(** The bytes of a C string up to its terminator. *)
Fixpoint c_string (s : list Z) : list Z :=
  match s with
  | [] => []
  | ch :: s => if ch =? 0 then [] else ch :: c_string s
  end.

(** [sprintf(str, "%s\n", s)] *)
Definition sprintf_line (s : list Z) : list Z := c_string s ++ [10; 0].

(** ** The tasks *)

Record globals := Globals { characters : list Z; characters2 : list Z }.

Abbreviation statement := (globals → guest_prog globals).

Definition printing (s : list Z) : statement := fun g => UART_printf (s ++ [0]);; mret g.

Fixpoint read_characters (is_ : list Z) (cs : list Z) : guest_prog (list Z) :=
  match is_ with
  | [] => mret cs
  | i :: is_ => ch ← UART_getchar; read_characters is_ (aset cs i ch)
  end.

Definition read_from_UART : list statement := [
  printing (line "(read_from_UART)");
  printing (line "Reading 8 chars...");
  (fun g => cs ← read_characters (seqZ 0 8) (characters g); mret (Globals cs (characters2 g)));
  printing (line "(Bye)")
].

Definition write_to_CAN_and_transmit : list statement := [
  printing (line "(write_to_CAN_and_transmit)");
  (fun g => CAN_write 0 0x123 (characters g) 8 1 0;; mret g);
  (fun g => CAN_transmit 0;; mret g);
  printing (line "(Bye)")
].

Definition read_from_CAN : list statement := [
  printing (line "(read_from_CAN)");
  (fun g => poll (r ← CAN_has_received 1; mret (truth r));; mret g);
  (fun g => r ← CAN_read_data 1 (characters2 g); mret (Globals (characters g) r.2));
  (fun g => CAN_release_receive_buffer 1;; mret g);
  printing (line "(Bye)")
].

Definition write_to_UART : list statement := [
  printing (line "(write_to_UART)");
  (fun g => UART_printf (sprintf_line (characters2 g));; mret g);
  printing (line "(Bye)")
].

(** The interrupt handlers. *)
Definition Uart_Handler : guest_prog unit :=
  UART_clear_interrupt;; UART_printf (line "UART: Interrupt received" ++ [0]).

Definition CAN0_Handler : guest_prog unit :=
  CAN_clear_interrupt 0;; UART_printf (line "CAN0: Interrupt received" ++ [0]).

Definition CAN1_Handler : guest_prog unit :=
  CAN_clear_interrupt 1;; UART_printf (line "CAN1: Interrupt received" ++ [0]).

(** The work of a task between its take and its give. *)
Definition task_work (t : nat) : list statement :=
  match t with
  | 0 => read_from_UART
  | 1 => write_to_CAN_and_transmit
  | 2 => read_from_CAN
  | _ => write_to_UART
  end%nat.

Definition statement_at (t k : nat) : option statement := task_work t !! k.

(** The task whose semaphore a task gives. *)
Definition next_task (t : nat) : nat := match t with 0 => 1 | 1 => 2 | 2 => 3 | _ => 0 end%nat.

(** A closed decidable fact, as of a string literal. *)
Ltac literal := apply (bool_decide_unpack _); vm_compute; exact I.

(** ** The application's steps *)

Section Application.
Context {sem : Type} `{!BinarySemaphore sem}.

(** Where a task is in its loop: before the take, before the [k]-th statement
    of its work; before its give when the work is done. *)
Inductive place := AtTake | AtWork (k : nat).

#[export] Instance place_eq_dec : EqDecision place.
Proof. solve_decision. Defined.

Record app := App {
  places : nat → place;
  sems : nat → sem;
  vars : globals;
  script_left : script;
  board : Machine
}.

Definition upd {A} (f : nat → A) (t : nat) (a : A) : nat → A := fun u => if decide (u = t) then a else f u.

(** One statement of task [t], no device interrupt being raised meanwhile;
    [None] when it is blocked, or its access does not return. *)
Definition app_step (t : nat) (a : app) : option app :=
  let 'App ps ss g sc m := a in
  match ps t with
  | AtTake => s ← xSemaphoreTake (ss t); Some (App (upd ps t (AtWork 0)) (upd ss t s) g sc m)
  | AtWork k =>
    match statement_at t k with
    | Some f =>
      match f g sc m with
      | Done g sc m => Some (App (upd ps t (AtWork (S k))) ss g sc m)
      | _ => None
      end
    | None => let n := next_task t in
      Some (App (upd ps t AtTake) (upd ss n (xSemaphoreGive (ss n))) g sc m)
    end
  end.

Definition scheduled (a b : app) : Prop := ∃ t, (t < 4)%nat ∧ app_step t a = Some b.

(** [main] up to the start of the scheduler, the semaphores' creation having
    succeeded: the first one is given, the device set up. *)
Definition main_semaphores : nat → sem :=
  upd (fun _ => xSemaphoreCreateBinary) 0%nat (xSemaphoreGive xSemaphoreCreateBinary).

Definition main_globals : globals := Globals (replicate 8 0) (replicate 9 0).

Definition started (sc : script) (m : Machine) : app :=
  App (fun _ => AtTake) main_semaphores main_globals sc m.

Definition start_scheduler : guest_prog app := fun sc m => Done (started sc m) sc m.

Definition main : guest_prog app := UART_init;; start_scheduler.

(** [Reset_Handler] of startup.c, where the CPU starts. *)
Definition Reset_Handler : guest_prog app := main.

(** ** Turns *)

(** It is the turn of task [t]: its semaphore is the only one available and no
    task is at work, or it is the only one at work and none is available. *)
Definition turn (t : nat) (a : app) : Prop :=
  (t < 4)%nat ∧
  (∀ u, (u < 4)%nat → u ≠ t → places a u = AtTake ∧ sem_available (sems a u) = false) ∧
  sem_available (sems a t) = bool_decide (places a t = AtTake).

Lemma started_turn sc m : turn 0 (started sc m).
Proof.
  split; [lia|]. unfold started, main_semaphores, upd. simpl. rewrite give_available. split; [|done].
  intros u _ Hu. by rewrite decide_False, create_empty by done.
Qed.

Lemma next_task_spec t : (t < 4)%nat → (next_task t < 4)%nat ∧ next_task t ≠ t.
Proof. intros. destruct t as [|[|[|[|t]]]]; simpl; lia. Qed.

(** Only the task whose turn it is can make a step, and it keeps its turn or
    passes it to the next. *)
Lemma turn_step t u a b :
  turn t a → (u < 4)%nat → app_step u a = Some b →
  u = t ∧ (turn t b ∨ (turn (next_task t) b ∧ places b t = AtTake)).
Proof.
  intros (Ht & Ho & Hs) Hu Hstep. destruct a as [ps ss g sc m]. simpl in *.
  destruct (decide (u = t)) as [->|Hne].
  2: { destruct (Ho u Hu Hne) as [Hp Ha]. rewrite Hp, take_blocks in Hstep by done. done. }
  split; [done|]. destruct (ps t) as [|k] eqn:Hpt.
  - destruct (take_available (ss t) Hs) as (s & Hk & He). rewrite Hk in Hstep. injection Hstep as <-.
    left. split; [done|]. unfold upd. simpl. split.
    + intros v Hv Hvt. rewrite !decide_False by done. auto.
    + by rewrite !decide_True.
  - destruct (statement_at t k) as [f|].
    + destruct (f g sc m); try discriminate. injection Hstep as <-.
      left. split; [done|]. unfold upd. simpl. split.
      * intros v Hv Hvt. rewrite !decide_False by done. auto.
      * by rewrite decide_True.
    + injection Hstep as <-. destruct (next_task_spec t Ht) as [Hn Hnt]. right.
      unfold turn, upd. simpl. split_and!; [done| | |by rewrite decide_True].
      * intros v Hv Hvn. rewrite (decide_False (P := v = next_task t)) by done.
        destruct (decide (v = t)) as [->|Hvt]; [by rewrite Hs|by apply Ho].
      * rewrite decide_True, decide_False, give_available by done.
        destruct (Ho (next_task t) Hn Hnt) as [-> _]. done.
Qed.

Lemma turn_unique t a : turn t a → ∀ u, turn u a → u = t.
Proof.
  intros (Ht & Ho & Hs) u (Hu & Ho' & Hs'). destruct (decide (u = t)) as [|Hne]; [done|].
  destruct (Ho u Hu Hne) as [Hp Ha]. by rewrite Hp, Ha in Hs'.
Qed.

Lemma scheduled_turn t a b :
  turn t a → scheduled a b →
  app_step t a = Some b ∧ (turn t b ∨ (turn (next_task t) b ∧ places b t = AtTake)).
Proof. intros Ht (u & Hu & H). destruct (turn_step t u a b Ht Hu H) as [-> Hn]. done. Qed.

Lemma reach_turn t a b : turn t a → rtc scheduled a b → ∃ u, turn u b.
Proof.
  intros Ht H. revert t Ht. induction H as [a|a a1 b Hs _ IH]; intros t Ht; [by exists t|].
  destruct (scheduled_turn t a a1 Ht Hs) as [_ [H1|[H1 _]]]; by eapply IH.
Qed.

(** Two runs from a state where it is somebody's turn: one is a part of the
    other. *)
Lemma runs_agree t a b c :
  turn t a → rtc scheduled a b → rtc scheduled a c → rtc scheduled b c ∨ rtc scheduled c b.
Proof.
  intros Ht Hb. revert t Ht. induction Hb as [a|a a1 b Hs Hb IH]; intros t Ht Hc; [by left|].
  destruct Hc as [a|a a2 c Hs2 Hc]; [right; by eapply rtc_l|].
  destruct (scheduled_turn t a a1 Ht Hs) as [E1 Hn], (scheduled_turn t a a2 Ht Hs2) as [E2 _].
  assert (a2 = a1) as -> by congruence. destruct Hn as [Hn|[Hn _]]; by eapply IH.
Qed.

(** ** A task's whole turn *)

(** The work of a task as one program. *)
Fixpoint in_order (fs : list statement) (g : globals) : guest_prog globals :=
  match fs with
  | [] => mret g
  | f :: fs => g ← f g; in_order fs g
  end.

Lemma work_runs t fs k ps ss g sc m g' sc' m' :
  (t < 4)%nat → drop k (task_work t) = fs → ps t = AtWork k →
  in_order fs g sc m = Done g' sc' m' →
  ∃ ps' k', rtc scheduled (App ps ss g sc m) (App ps' ss g' sc' m') ∧
    ps' t = AtWork k' ∧ statement_at t k' = None ∧ ∀ u, u ≠ t → ps' u = ps u.
Proof.
  intros Ht. revert k ps g sc m. induction fs as [|f fs IH]; intros k ps g sc m Hd Hp Hr.
  - injection Hr as <- <- <-. exists ps, k. split_and!; [done|done| |done].
    unfold statement_at. by rewrite <- (Nat.add_0_r k), <- lookup_drop, Hd.
  - assert (statement_at t k = Some f) as Hk by (unfold statement_at; by rewrite <- (Nat.add_0_r k), <- lookup_drop, Hd).
    cbn [in_order] in Hr. unfold mbind, guest_bind in Hr.
    destruct (f g sc m) as [g1 sc1 m1| | |] eqn:E; try discriminate.
    destruct (IH (S k) (upd ps t (AtWork (S k))) g1 sc1 m1) as (ps' & k' & Hs & H1 & H2 & H3).
    + change (S k) with (1 + k)%nat. by rewrite <- skipn_skipn, Hd.
    + unfold upd. by rewrite decide_True.
    + done.
    + exists ps', k'. split_and!; [|done..|].
      * eapply rtc_l; [|exact Hs]. exists t. split; [done|]. cbv beta iota delta [app_step]. by rewrite Hp, Hk, E.
      * intros u Hu. rewrite (H3 u Hu). unfold upd. by rewrite decide_False.
Qed.

(** From where the task's semaphore is available to where it has given the
    next one's. *)
Definition handed_to (t : nat) (g : globals) (sc : script) (m : Machine) (a : app) : Prop :=
  turn t a ∧ places a t = AtTake ∧ vars a = g ∧ script_left a = sc ∧ board a = m.

Lemma turn_runs t a g sc m g' sc' m' :
  handed_to t g sc m a → in_order (task_work t) g sc m = Done g' sc' m' →
  ∃ b, rtc scheduled a b ∧ handed_to (next_task t) g' sc' m' b.
Proof.
  intros ((Ht & Ho & Hs) & Hp & <- & <- & <-) Hr. destruct a as [ps ss g sc m]. simpl in *.
  rewrite bool_decide_true in Hs by done. destruct (take_available _ Hs) as (s & Hk & He).
  destruct (work_runs t (task_work t) 0 (upd ps t (AtWork 0)) (upd ss t s) g sc m g' sc' m')
    as (ps' & k & Hrun & Hw & Hend & Hothers); [done|done|unfold upd; by rewrite decide_True|done|].
  destruct (next_task_spec t Ht) as [Hn Hnt]. eexists. split.
  - eapply rtc_l; [exists t; split; [done|]; simpl; by rewrite Hp, Hk|].
    eapply rtc_r; [exact Hrun|]. exists t. split; [done|]. cbv beta iota delta [app_step]. rewrite Hw, Hend. reflexivity.
  - assert (∀ u, (u < 4)%nat → u ≠ t → ps' u = AtTake ∧ sem_available (ss u) = false) as Ho'.
    { intros u Hu Hut. rewrite (Hothers u Hut). unfold upd. rewrite decide_False by done. auto. }
    unfold handed_to, turn, upd. simpl. rewrite (decide_False (P := next_task t = t)), decide_True by done.
    destruct (Ho' _ Hn Hnt) as [-> _]. rewrite give_available.
    assert ((if decide (next_task t = t) then AtTake else AtTake) = AtTake) as -> by (by case_decide).
    split_and!; try done.
    intros u Hu Hun. rewrite (decide_False (P := u = next_task t)) by done.
    destruct (decide (u = t)) as [->|Hut]; [done|by apply Ho'].
Qed.

(** ** The message's way *)

#[local] Instance sending_frame ct all : CanFrame (sending ct all).
Proof.
  intros es sc m m1 m' Hb Hs Hu Hn Hst. destruct Hs as [_ Hsl Hl Ht Ha].
  by apply (sending_settled ct all es sc m m1 m' Hb Hsl Hn); rewrite ?Hu, ?Hn.
Qed.

(** Accesses enough for a string. *)
Definition print_slots (ct : Z) (s : list Z) : nat := (length s * (Z.to_nat ct + 2))%nat.

Definition printable (s : list Z) : Prop := Forall (fun ch => 1 ≤ ch < 256) s.

Lemma printf_wp ct all c p s d n str sc m (Q : () → script → Machine → Prop) :
  on_bus (sending ct all) c p s d (print_slots ct str + n) sc m → printable str →
  (∀ sc' m', on_bus (sending ct (all ++ str)) c p s d n sc' m' → Q () sc' m') →
  wp (UART_printf (str ++ [0])) Q sc m.
Proof.
  intros [Hb Hn Hbus Hs Hd HF] Hp HQ.
  destruct (printf_sends ct all str sc m HF Hp) as (sc' & m' & H & HF' & Hc & Hl);
    [unfold print_slots in Hn; lia|].
  unfold wp. rewrite H. clear H. apply HQ.
  split; [apply HF'|unfold print_slots in Hn; lia|done|by rewrite Hc..|done].
Qed.

Lemma printing_wp ct all c p s d n str g sc m (Q : globals → script → Machine → Prop) :
  on_bus (sending ct all) c p s d (print_slots ct str + n) sc m → printable str →
  (∀ sc' m', on_bus (sending ct (all ++ str)) c p s d n sc' m' → Q g sc' m') →
  wp (printing str g) Q sc m.
Proof. intros Hb Hp HQ. apply wp_bind. eapply printf_wp; [exact Hb|done|]. intros. by apply wp_ret, HQ. Qed.

Definition said_by_CAN_writer : list Z := line "(write_to_CAN_and_transmit)" ++ line "(Bye)".
Definition said_by_CAN_reader : list Z := line "(read_from_CAN)" ++ line "(Bye)".
Definition said_by_UART_writer (cs : list Z) : list Z := line "(write_to_UART)" ++ (cs ++ [10]) ++ line "(Bye)".

Lemma write_to_CAN_wp ct all s d n g sc m (Q : globals → script → Machine → Prop) :
  on_bus (sending ct all) 0 1 s d (print_slots ct said_by_CAN_writer + (6 + n)) sc m →
  bytes (characters g) →
  (∀ s' d' sc' m', on_bus (sending ct (all ++ said_by_CAN_writer)) 0 1 s' d' n sc' m' →
     Z.testbit (sr d') 0 = true → dlc_of (rfi d') = 8 →
     (∀ i, 0 ≤ i < 8 → reg_byte d' i = aget 0 (characters g) i) → Q g sc' m') →
  wp (in_order (task_work 1) g) Q sc m.
Proof.
  intros Hb Hd HQ. unfold said_by_CAN_writer, print_slots in Hb. rewrite length_app in Hb.
  set (l1 := line "(write_to_CAN_and_transmit)") in *. set (l2 := line "(Bye)") in *.
  apply wp_bind. eapply (printing_wp ct all 0 1 s d (6 + (print_slots ct l2 + n)) l1);
    [eapply on_bus_weaken; [exact Hb|unfold print_slots; lia]|literal|]. clear sc m Hb. intros sc m Hb.
  apply wp_bind, wp_bind. eapply (CAN_write_wp 0); [exact Hb|]. clear sc m Hb.
  intros s' sc m Hb Hr Hdlc Ha Hbb. apply wp_ret.
  apply wp_bind, wp_bind. eapply (CAN_transmit_wp 0); [exact Hb|]. clear sc m Hb.
  intros sc m Hb. apply wp_ret.
  apply wp_bind. eapply printing_wp; [exact Hb|literal|]. clear sc m Hb. intros sc m Hb.
  apply wp_ret. rewrite <- app_assoc in Hb.
  destruct (receive_data_frame s' d Hr) as (_ & _ & Hrfi & Hsr & _).
  eapply HQ; [exact Hb|exact Hsr|by rewrite Hrfi, frame_info_dlc, Hdlc|].
  intros i Hi. by apply (delivered_byte _ _ _ _ 8).
Qed.

(** The reader's buffer: the eight characters and the terminator it had. *)
Lemma buffer_filled cs buf buf' :
  length cs = 8%nat → length buf = 9%nat → aget 0 buf 8 = 0 → alen buf' = alen buf →
  (∀ i, aget 0 buf' i = if (0 <=? i) && (i <? 8) then aget 0 cs i else aget 0 buf i) →
  buf' = cs ++ [0].
Proof.
  intros Hc Hb H0 Hl Hget. unfold alen in Hl.
  apply (list_eq_same_length _ _ 9); [rewrite length_app, Hc; done|lia|].
  intros k x y Hk Hx Hy. specialize (Hget (Z.of_nat k)). unfold aget in *. rewrite Nat2Z.id in Hget.
  rewrite Hx in Hget. destruct (Z.ltb_spec (Z.of_nat k) 0); [lia|].
  destruct (Z.leb_spec 0 (Z.of_nat k)); [|lia]. destruct (Z.ltb_spec (Z.of_nat k) 8) as [Hk8|Hk8]; simpl in Hget.
  - rewrite lookup_app_l in Hy by lia. rewrite Hy in Hget. done.
  - assert (k = 8%nat) as -> by lia. rewrite lookup_app_r, Hc in Hy by lia. injection Hy as <-.
    rewrite Hget. exact H0.
Qed.

Lemma read_from_CAN_wp ct all s d n g cs sc m (Q : globals → script → Machine → Prop) :
  on_bus (sending ct all) 0 1 s d (print_slots ct said_by_CAN_reader + (12 + n)) sc m →
  Z.testbit (sr d) 0 = true → dlc_of (rfi d) = 8 → (∀ i, 0 ≤ i < 8 → reg_byte d i = aget 0 cs i) →
  length cs = 8%nat → length (characters2 g) = 9%nat → aget 0 (characters2 g) 8 = 0 →
  (∀ s' d' sc' m', on_bus (sending ct (all ++ said_by_CAN_reader)) 0 1 s' d' n sc' m' →
     Z.testbit (sr d') 0 = false → Q (Globals (characters g) (cs ++ [0])) sc' m') →
  wp (in_order (task_work 2) g) Q sc m.
Proof.
  intros Hb%on_bus_swap Hsr Hdlc Hreg Hcs Hl2 H0 HQ.
  unfold said_by_CAN_reader, print_slots in Hb. rewrite length_app in Hb.
  set (l1 := line "(read_from_CAN)") in *. set (l2 := line "(Bye)") in *.
  apply wp_bind. eapply (printing_wp ct all 1 0 d s (1 + (9 + (2 + (print_slots ct l2 + n)))) l1);
    [eapply on_bus_weaken; [exact Hb|unfold print_slots; lia]|literal|]. clear sc m Hb. intros sc m Hb.
  apply wp_bind, wp_bind. eapply (received_wp 1); [exact Hb|exact Hsr|]. clear sc m Hb. intros sc m Hb.
  apply wp_ret, wp_bind, wp_bind. eapply (CAN_read_data_wp 1); [exact Hb|unfold alen; lia|]. clear sc m Hb.
  intros buf sc m Hb Hlen Hget. rewrite Hdlc in Hget.
  assert (buf = cs ++ [0]) as ->.
  { apply (buffer_filled cs (characters2 g)); [done..|]. intros i. rewrite Hget.
    destruct (Z.leb_spec 0 i), (Z.ltb_spec i (Z.min 8 8)), (Z.ltb_spec i 8); try lia; try done.
    by apply Hreg. }
  apply wp_ret, wp_bind, wp_bind. eapply (CAN_command_wp 1); [exact Hb|closed_range|done|]. clear sc m Hb.
  intros d' sc m Hb Hsr' _. apply wp_ret, wp_bind.
  eapply printing_wp; [exact Hb|literal|]. clear sc m Hb. intros sc m Hb%on_bus_swap. apply wp_ret.
  rewrite <- app_assoc in Hb. eapply HQ; [exact Hb|]. rewrite Hsr' by done.
  by rewrite Hsr.
Qed.

Lemma c_string_terminated cs : printable cs → c_string (cs ++ [0]) = cs.
Proof.
  induction 1 as [|ch cs Hc _ IH]; [done|]. simpl. destruct (Z.eqb_spec ch 0); [lia|]. by rewrite IH.
Qed.

Lemma write_to_UART_wp ct all s d n g cs sc m (Q : globals → script → Machine → Prop) :
  on_bus (sending ct all) 0 1 s d (print_slots ct (said_by_UART_writer cs) + n) sc m →
  printable cs → characters2 g = cs ++ [0] →
  (∀ sc' m', on_bus (sending ct (all ++ said_by_UART_writer cs)) 0 1 s d n sc' m' → Q g sc' m') →
  wp (in_order (task_work 3) g) Q sc m.
Proof.
  intros Hb Hcs Hg HQ. unfold said_by_UART_writer, print_slots in Hb. rewrite !length_app in Hb.
  set (l1 := line "(write_to_UART)") in *. set (l2 := line "(Bye)") in *.
  apply wp_bind. eapply (printing_wp ct all 0 1 s d (print_slots ct (cs ++ [10]) + (print_slots ct l2 + n)) l1);
    [eapply on_bus_weaken; [exact Hb|unfold print_slots; rewrite ?length_app; lia]|literal|].
  clear sc m Hb. intros sc m Hb. apply wp_bind, wp_bind. unfold sprintf_line.
  rewrite Hg, c_string_terminated by done. change [10; 0] with ([10] ++ [0]). rewrite app_assoc.
  eapply printf_wp; [exact Hb|apply Forall_app; split; [done|literal]|]. clear sc m Hb. intros sc m Hb.
  apply wp_ret, wp_bind. eapply printing_wp; [exact Hb|literal|]. clear sc m Hb. intros sc m Hb.
  apply wp_ret, HQ. by rewrite <- !(app_assoc all) in Hb.
Qed.

(** The handler of the receiving controller releases the frame with the
    interrupt: nothing is left for [CAN_has_received] to see. *)
Lemma CAN1_Handler_releases ct all s d n sc m (Q : () → script → Machine → Prop) :
  let msg := line "CAN1: Interrupt received" in
  on_bus (sending ct all) 1 0 d s (2 + (print_slots ct msg + n)) sc m →
  (∀ d' sc' m', on_bus (sending ct (all ++ msg)) 1 0 d' s n sc' m' →
     Z.testbit (sr d') 0 = false → Z.testbit (sr d') 1 = false → Q () sc' m') →
  wp CAN1_Handler Q sc m.
Proof.
  intros msg Hb HQ. apply wp_bind. eapply (CAN_command_wp 1); [exact Hb|closed_range|done|]. clear sc m Hb.
  intros d' sc m Hb Hsr _. eapply printf_wp; [exact Hb|literal|]. clear sc m Hb. intros sc m Hb.
  eapply HQ; [exact Hb|..]; rewrite Hsr by done; by rewrite andb_false_r.
Qed.

Lemma handed_on_runs t a g sc m (Q : globals → script → Machine → Prop) :
  handed_to t g sc m a → wp (in_order (task_work t) g) Q sc m →
  ∃ b g' sc' m', rtc scheduled a b ∧ handed_to (next_task t) g' sc' m' b ∧ Q g' sc' m'.
Proof.
  intros Ha (g' & sc' & m' & Hr & HQ)%wp_done.
  destruct (turn_runs t a g sc m g' sc' m' Ha Hr) as (b & Hab & Hb). by exists b, g', sc', m'.
Qed.

(** What the three tasks print for the characters [cs]. *)
Definition said (cs : list Z) : list Z :=
  said_by_CAN_writer ++ said_by_CAN_reader ++ said_by_UART_writer cs.

(** The tasks' turns one after the other. *)
Lemma forward_runs ct all s d g sc m a :
  handed_to 1 g sc m a →
  on_bus (sending ct all) 0 1 s d (print_slots ct (said (characters g)) + 18) sc m →
  printable (characters g) → length (characters g) = 8%nat →
  length (characters2 g) = 9%nat → aget 0 (characters2 g) 8 = 0 →
  ∃ b sc' m', rtc scheduled a b ∧
    handed_to 0 (Globals (characters g) (characters g ++ [0])) sc' m' b ∧
    sending ct (all ++ said (characters g)) sc' m'.
Proof.
  intros Ha Hb Hp H8 H9 H0. set (cs := characters g) in *.
  unfold said, print_slots in Hb. rewrite !length_app in Hb.
  assert (bytes cs) as Hby.
  { apply bytes_Forall. eapply Forall_impl; [exact Hp|]. intros ch Hch. split; simpl in *; lia. }
  set (k2 := (12 + (print_slots ct (said_by_UART_writer cs) + 0))%nat).
  edestruct (handed_on_runs 1) as (a1 & g1 & sc1 & m1 & R1 & Ha1 & HQ1); [exact Ha|
    eapply (write_to_CAN_wp ct all s d (print_slots ct said_by_CAN_reader + k2) g sc m
      (fun g' sc' m' => g' = g ∧ ∃ s' d',
         on_bus (sending ct (all ++ said_by_CAN_writer)) 0 1 s' d'
           (print_slots ct said_by_CAN_reader + k2) sc' m' ∧
         Z.testbit (sr d') 0 = true ∧ dlc_of (rfi d') = 8 ∧
         (∀ i, 0 ≤ i < 8 → reg_byte d' i = aget 0 cs i)));
    [eapply on_bus_weaken; [exact Hb|unfold k2, print_slots; lia]|done|by eauto 10]|].
  destruct HQ1 as (-> & s1 & d1 & Hb1 & Hsr & Hdlc & Hreg).
  edestruct (handed_on_runs 2) as (a2 & g2 & sc2 & m2 & R2 & Ha2 & HQ2); [exact Ha1|
    eapply (read_from_CAN_wp ct _ s1 d1 _ g cs sc1 m1
      (fun g' sc' m' => g' = Globals cs (cs ++ [0]) ∧ ∃ s' d',
         on_bus (sending ct ((all ++ said_by_CAN_writer) ++ said_by_CAN_reader)) 0 1 s' d'
           (print_slots ct (said_by_UART_writer cs) + 0) sc' m')); [exact Hb1|by eauto..]|].
  destruct HQ2 as (-> & s2 & d2 & Hb2).
  edestruct (handed_on_runs 3) as (a3 & g3 & sc3 & m3 & R3 & Ha3 & HQ3); [exact Ha2|
    eapply (write_to_UART_wp ct _ s2 d2 0 (Globals cs (cs ++ [0])) cs sc2 m2
      (fun g' sc' m' => g' = Globals cs (cs ++ [0]) ∧ sending ct (all ++ said cs) sc' m'));
      [exact Hb2|done|done|]|].
  { intros sc' m' H. split; [done|]. apply ob_frame in H. unfold said. by rewrite !app_assoc in *. }
  destruct HQ3 as (-> & Hs3). exists a3, sc3, m3. split; [by do 2 (etrans; [eassumption|])|]. done.
Qed.

(** ** Runs without interrupts *)

Lemma calm_read_characters is_ cs : keeps_calm (read_characters is_ cs).
Proof.
  revert cs. induction is_ as [|i is_ IH]; intros cs; cbn [read_characters]; [apply calm_ret|].
  apply calm_bind; [apply calm_getchar|]. intros ch. apply IH.
Qed.

Lemma calm_then {A} (p : guest_prog A) (g : A → globals) : keeps_calm p → keeps_calm (a ← p; mret (g a)).
Proof. intros Hp. apply calm_bind; [done|]. intros a. apply calm_ret. Qed.

(** Every statement of every task. *)
Lemma statement_calm t k f g : statement_at t k = Some f → keeps_calm (f g).
Proof.
  unfold statement_at. intros Hf. apply list_elem_of_lookup_2 in Hf.
  destruct t as [|[|[|t]]]; cbn [task_work] in Hf;
    repeat (apply elem_of_cons in Hf as [->|Hf]); try (by apply elem_of_nil in Hf);
    try (apply (calm_then _ (fun _ => g)), calm_printf).
  - apply (calm_then _ (fun cs => Globals cs (characters2 g))), calm_read_characters.
  - apply (calm_then _ (fun _ => g)), (calm_CAN_write 0). lia.
  - apply (calm_then _ (fun _ => g)), (calm_CAN_transmit 0). lia.
  - apply (calm_then _ (fun _ => g)), calm_poll, calm_bind; [apply (calm_CAN_has_received 1); lia|].
    intros r. apply calm_ret.
  - apply (calm_then _ (fun r => Globals (characters g) r.2)), (calm_CAN_read_data 1). lia.
  - apply (calm_then _ (fun _ => g)), (calm_CAN_command 1). lia.
Qed.

Lemma step_calm t a b : app_step t a = Some b → peaceful (script_left a) (board a) →
  peaceful (script_left b) (board b) ∧ undisturbed (board a) (board b).
Proof.
  destruct a as [ps ss g sc m]. cbn [script_left board]. unfold app_step. intros Hs Hp. destruct (ps t) as [|k].
  - destruct (xSemaphoreTake (ss t)); [|done]. injection Hs as <-. by split.
  - destruct (statement_at t k) as [f|] eqn:Hf; [|injection Hs as <-; by split].
    destruct (f g sc m) as [g' sc' m'| | |] eqn:E; try done. injection Hs as <-.
    exact (statement_calm t k f g Hf _ _ _ _ _ Hp E).
Qed.

Lemma run_calm a b : rtc scheduled a b → peaceful (script_left a) (board a) → undisturbed (board a) (board b).
Proof.
  induction 1 as [a|a a1 b (t & _ & Hs) _ IH]; intros Hp; [done|].
  destruct (step_calm t a a1 Hs Hp) as [Hp1 Hu1]. etrans; [exact Hu1|by apply IH].
Qed.

(** C17.  The tasks of the demo take turns.  Whatever the scheduler does after
    [main] has started it, in every state reached there is exactly one task [t]
    that can run: its semaphore is the only one available and no task is
    between its take and its give, or it is the only task there and no
    semaphore is available.  Every step is a step of [t], after which it is
    still its turn or the turn of the next task, in the order UART reader, CAN
    writer, CAN reader, UART writer. *)
Theorem demo_tasks_take_turns sc m b :
  rtc scheduled (started sc m) b →
  ∃ t, turn t b ∧ (∀ u, turn u b → u = t) ∧
    ∀ c, scheduled b c → app_step t b = Some c ∧ (turn t c ∨ turn (next_task t) c).
Proof.
  intros H. destruct (reach_turn 0 _ b (started_turn sc m) H) as [t Ht]. exists t. split; [done|].
  split; [by apply turn_unique|]. intros c Hc. destruct (scheduled_turn t b c Ht Hc) as [Hs [|[]]]; auto.
Qed.

(** C9.  The demo forwards the characters, if nothing arrives on the serial line
    meanwhile.  When it is the CAN writer's turn with eight non-zero characters
    read, no interrupt pending, of the interrupts of the devices at most that of
    the UART's receive overrun enabled (as after UART_init), no overrun and no
    character being received, then
    - the application comes to the UART reader's turn again with the eight
      characters in the second buffer, and what the UART has been given to send
      is what the three tasks print, the line with the eight characters among it;
    - no schedule avoids that state: any state the application can be in leads to
      it or comes after it;
    - in every state the application can be in, before or after, the UART and the
      CAN controllers have called their inputs of the interrupt controller with
      level 0 only, and none of its interrupts is pending: no interrupt handler
      of the application has run.
    The accesses allowed (one nanosecond each at least) are one character time
    per character printed, and eighteen. *)
Theorem demo_forwards_characters ct all g sc m a :
  handed_to 1 g sc m a → sending ct all sc m → silent sc → calm m →
  (∀ i, NVIC_FIRST_IRQ ≤ i → pending (vec (nvic m) i) = false) →
  printable (characters g) → length (characters g) = 8%nat →
  length (characters2 g) = 9%nat → aget 0 (characters2 g) 8 = 0 →
  (print_slots ct (said (characters g)) + 18 ≤ length sc)%nat →
  (∃ b, rtc scheduled a b ∧
    (∀ c, rtc scheduled a c → rtc scheduled c b ∨ rtc scheduled b c) ∧
    turn 0 b ∧ places b 0%nat = AtTake ∧ vars b = Globals (characters g) (characters g ++ [0]) ∧
    tx_all (uart (board b)) = all ++ said (characters g)) ∧
  (∀ c, rtc scheduled a c → undisturbed m (board c) ∧
     ∀ i, NVIC_FIRST_IRQ ≤ i → pending (vec (nvic (board c)) i) = false).
Proof.
  intros Ha Hs Hsi Hcm Hpe Hp H8 H9 H0 Hn. split.
  - destruct (bo_inv _ _ (sd_board _ _ _ _ Hs)) as [_ _ _ _ _ [s Hs0] [d Hs1] _].
    destruct (forward_runs ct all s d g sc m a Ha) as (b & sc' & m' & Hab & Hb & Hsd); [|done..|].
    { split; [apply Hs|done|lia|done|done|done]. }
    exists b. split; [done|]. split.
    { intros c Hc. apply (runs_agree 1 a); [apply Ha|done|done]. }
    destruct Hb as (Ht & Hpl & Hv & _ & Hbd). rewrite Hbd. split_and!; try done. apply Hsd.
  - intros c Hc. destruct Ha as (_ & _ & _ & Hsl & Hbd).
    assert (undisturbed m (board c)) as Hu.
    { rewrite <- Hbd. apply (run_calm a c Hc). rewrite Hsl, Hbd. split; [apply Hs|done|done]. }
    split; [done|]. intros i Hi. rewrite (un_interrupts _ _ Hu i Hi). by apply Hpe.
Qed.

End Application.

(** ** On a freshly reset board *)

(** A semaphore that is just whether it is available. *)
#[local] Instance bool_semaphore : BinarySemaphore bool.
Proof.
  refine {| sem_available := id; xSemaphoreCreateBinary := false; xSemaphoreGive := fun _ => true;
            xSemaphoreTake := fun s => if s then Some false else None |}; try done.
  - intros s Hs. exists false. by destruct s.
  - intros s Hs. by destruct s.
Defined.

(** The first task takes its semaphore. *)
Lemma demo_tasks_take_turns_witness :
  ∃ m b t, machine_init boot_msp = Ok m ∧ app_step 0 (started [] m) = Some b ∧ turn t b ∧
    ∀ c, scheduled b c → app_step t b = Some c.
Proof.
  destruct (machine_init_ok boot_msp) as (m & Hm & _).
  assert (∃ b, app_step 0 (started [] m) = Some b) as [b Hb] by (eexists; reflexivity).
  destruct (demo_tasks_take_turns [] m b) as (t & Ht & _ & Hc).
  - eapply rtc_l; [|apply rtc_refl]. exists 0%nat. split; [lia|exact Hb].
  - exists m, b, t. split; [exact Hm|]. split; [exact Hb|]. split; [exact Ht|]. intros c H. apply (Hc c H).
Defined.

Lemma boot_calm m : uart m = boot_uart →
  cans m = <[0%nat := can_reset can_fresh]> {[1%nat := can_reset can_fresh]} → calm m.
Proof.
  intros Hu Hc. split; [rewrite Hu; split; [intros i _; apply Z.bits_0|reflexivity|by apply not_elem_of_nil]|].
  rewrite Hc. intros c s Hs. destruct (decide (c = 0%nat)) as [->|Hne].
  - rewrite lookup_insert_eq in Hs. by injection Hs as <-.
  - rewrite lookup_insert_ne in Hs by done. apply lookup_singleton_Some in Hs as [_ <-]. done.
Qed.

Lemma boot_nothing_pending m i : machine_init boot_msp = Ok m → pending (vec (nvic m) i) = false.
Proof.
  intros Hm. assert (match machine_init boot_msp with
    | Ok m => forallb (fun v => negb (pending v)) (vectors (nvic m)) | Abort _ => false end = true) as Hv
    by (vm_compute; reflexivity).
  rewrite Hm in Hv. unfold vec, get_vec, aget. destruct (i <? 0); [done|].
  destruct (vectors (nvic m) !! Z.to_nat i) as [v|] eqn:E; [|done]. simpl.
  rewrite forallb_forall in Hv. apply negb_true_iff, Hv, list_elem_of_In. by eapply list_elem_of_lookup_2.
Qed.

(** ABCDEFGH has been read. *)
Lemma demo_forwards_characters_witness :
  ∃ m a b, machine_init boot_msp = Ok m ∧ board a = m ∧ rtc scheduled a b ∧
    characters2 (vars b) = chars "ABCDEFGH" ++ [0] ∧
    tx_all (uart (board b)) = said (chars "ABCDEFGH") ∧ undisturbed m (board b).
Proof.
  destruct (machine_init_ok boot_msp) as (m & Hm & Hi & Hnow & Hca & Hu).
  assert (∃ n, Z.of_nat n = 20000000) as [n Hn] by (exists (Z.to_nat 20000000); lia).
  set (sc := replicate n [Elapse 1]). set (g := Globals (chars "ABCDEFGH") (replicate 9 0)).
  set (a := App (fun _ => AtTake) (fun t => bool_decide (t = 1%nat)) g sc m).
  destruct (demo_forwards_characters 190971 [] g sc m a) as [(b & Hab & _ & _ & _ & Hv & Htx) Hq].
  - split; [|by split_and!]. split; [lia|]. split; [|done]. intros u _ Hu1. split; [done|].
    by apply bool_decide_false.
  - split; [|by apply Forall_replicate| |by rewrite Hu..].
    + apply boot_board; [exact Hi|exact Hnow|by repeat constructor|]. simpl. lia.
    + rewrite Hnow, Hu. exact boot_tx_live.
  - apply Forall_replicate. by repeat constructor.
  - by apply boot_calm.
  - intros i _. by apply boot_nothing_pending.
  - literal.
  - reflexivity.
  - reflexivity.
  - reflexivity.
  - unfold sc, print_slots. rewrite length_replicate.
    replace (length (said (characters g))) with 87%nat by (by vm_compute). lia.
  - exists m, a, b. split; [exact Hm|]. split; [reflexivity|]. split; [exact Hab|].
    rewrite Hv. split; [reflexivity|]. split; [exact Htx|]. apply (Hq b Hab).
Defined.
